(* ===== verification/_CoqProject ===== *)
-Q . S2P
Prelude.v
GoState.v
Bytes.v
Disk.v
Pb.v
Quorum.v
Tracker.v
Storage.v
Codec.v
Protocol.v
Frame.v
Mux.v
MuxSpec.v
Stream.v
RaftTransport.v
RaftTransportSpec.v
Wait.v
Wal.v
EngineWal.v
EngineShard.v
EngineFiles.v
EngineMaint.v
EngineSpec.v
EngineFlush.v
EngineRun.v
EngineCleanup.v
EngineHistory.v
Engine.v
EngineStop.v
EngineCompact.v
EngineDB.v
Segments.v
DurableStorage.v
DurableSpec.v
Recovery.v
RaftLog.v
RaftLogSpec.v
ReadOnly.v
Raft.v
RaftSteps.v
Election.v
RaftInv.v
RaftSpec.v
RaftElect.v
RaftSafety.v
Node.v
Host.v
HostSpec.v
Calls.v
Server.v
Reads.v
Conns.v
EngineServer.v
Session.v
Config.v
Bench.v
Lifecycle.v
Commands.v
Cluster.v
Scenarios.v
LogMatching.v
Completeness.v
Registers.v
CommitInv.v
CommitSteps.v
CommitNode.v
CommitRun.v
Safety.v
ReadSafety.v
Crash.v
RaftTheorems.v
StorageTheorems.v
HostTheorems.v
CallTheorems.v
TransportTheorems.v
ServerTheorems.v
ConnTheorems.v
BenchTheorems.v
EngineTheorems.v
Findings.v
