(* ===== verification/Prelude.v ===== *)
(** * kvgo: a verification development

    kvgo is a replicated key-value store in Go.  A client sends requests over a framed
    TCP connection; a server proposes each put to a Raft group and answers it when the
    entry has been applied, and answers a get after a quorum has confirmed its leader.
    Every node keeps its Raft log in a segmented write-ahead log, and its data in an
    engine of 256 shards, each with an index file, a value file and a group committer.
    Nodes exchange messages over TCP connections of their own.

    The definitions translate the sources function by function; each file names the
    Go file it models, and definitions keep the Go names, with the receiver's type as
    prefix where two methods share one.  Paths below are under [src/src].

    ** Conventions

    A method takes the receiver as a value and returns the new one.  [res] adds panics
    and [Result] Go's errors (this file); code that threads state through many fallible
    calls is written in the state monad [M] (GoState).  [uint64] is an integer with the
    wrapping operators [+u] and [-u]; byte slices are lists of bytes (Bytes).  A
    goroutine is a set of transitions between its blocking points, and an interleaving
    is a list of events; a channel is the list of what is in it.  The operating system
    is a directory with the outcome of every call to come (Disk), so a write may fail
    after any part of it.  Sockets are the bytes that have arrived and been written
    (Frame).  The random timeouts and the order of map iteration are the class
    [Runtime] (Tracker, Raft), protocol buffers the class [Proto] (RaftTransport).

    ** The parts

    - Wire types and formats: Pb ([raftpb]), Codec ([raft/message.go]), Protocol
      ([protocol/message.go]), Frame ([transport/frame.go]).
    - Quorums and progress: Quorum, Tracker ([raft/quorum], [raft/tracker]).
    - The log: Storage (the interface [Storage] as a class, its contract
      [StorageSpec]), RaftLog ([raft/log.go], [raft/log_unstable.go]); RaftLogSpec shows
      that the two layers are one list.
    - The protocol: ReadOnly, Raft ([raft/read_only.go], [raft/raft.go]).  RaftSteps
      refines [Step] to the atomic transitions of an abstract node; RaftInv, RaftSpec,
      RaftElect and RaftSafety have the invariants and the behaviour of the
      handlers; Election and Cluster put nodes on a network that loses, duplicates,
      delays and reorders messages; LogMatching follows the logs of all terms there.
      Completeness and Registers have the ghost registers of commitment; CommitInv,
      CommitSteps, CommitNode and CommitRun the invariant that ties commit indices,
      acknowledgements and votes of all nodes to them, handler by handler, and the runs
      it holds in.  Crash adds nodes that stop at any time and come back with what was
      stored.  ReadSafety follows a read from the request to its release, and what
      leaders know of commits elsewhere meanwhile.
    - Raft storage: Wal, Segments, DurableStorage ([raft/wal.go], [raft/segment.go],
      [raft/storage.go]); DurableSpec proves the contract [StorageSpec], Recovery what
      reopening a directory gives.
    - Node and host: Node ([raft/node.go], [raft/apply.go]), Host ([server/raft.go]),
      HostSpec; Calls has the goroutines around them: calls with a context, [Start],
      [Stop].
    - Server: Wait ([pkg/wait]), Server ([server/server.go], [server/handler_kv.go],
      [server/envelope.go]) over any state machine with the contract
      [StateMachineSpec]; Reads (the apply loop, which may wait inside a put, interleaved
      with the goroutines of gets that wait for a read state and for an index); Session ([server/dispatcher.go], the HTTP and gRPC handlers,
      the commands of [cmd/kv-cli]) over any transport with the contract
      [StreamTransportSpec]; Config (options, peers, addresses, the flags of
      [cmd/kv-server]); Lifecycle ([NewServer], [Start], [Shutdown], [server/lock.go] and
      its two systems);
      Conns (the goroutines of a started server: accept loop, handlers, [run] with the
      puts it waits in, the committers that take them, [monitorDBHealth] and calls of
      [Shutdown]).
    - Commands: Commands ([main] of [cmd/kv-server] and [cmd/kv-cli]), Bench
      ([cmd/kv-bench], [cmd/fsync-bench]), and the example [main.go] (in Engine).
    - Transports: Mux, MuxSpec ([transport/multiplexed_transport.go]), Stream
      ([transport/tcp.go], [adapter.go], [factory.go] and the interface), RaftTransport,
      RaftTransportSpec ([transport/raft]).
    - Engine: EngineWal ([engine/wal.go], [engine/atomic_file.go]), EngineShard
      ([shard.go], [group_committer.go], the policy of [compaction.go]), EngineMaint
      ([compaction.go], [cleanup.go]), Engine ([db.go]).  EngineFiles, EngineSpec,
      EngineFlush, EngineRun, EngineStop, EngineCleanup, EngineCompact,
      EngineHistory and EngineDB have the file formats, the invariant of a shard, each
      turn of the committer, maintenance, opening, and runs of the whole database;
      EngineServer proves that the engine is a [StateMachineSpec].

    ** The theorems

    - Consensus (Safety, RaftTheorems): one
      leader per term, logs with a common entry agree below it, committed entries agree
      on all nodes and are in the log of every later leader, one vote per term, the
      commit rule, committed entries are kept, leaders only append, what an append does
      on every branch and what a vote request is answered, logs agree after replication,
      [Step] refines the abstract node, messages and ticks keep a node well formed, reads
      are released by a quorum, silence leads to a campaign.
      Scenarios has the concrete nodes and runs the witnesses use.
    - Crashes (Crash): a node that stops at any time loses the term, vote, entries and
      commit index it had not handed out; what was handed out still agrees, and no term
      gets a second leader.  A directory in the state a handled [Ready] left gives such a
      node back.
    - Linearizable reads (ReadSafety): a read that a leader is asked for, and releases on a
      confirmed heartbeat, has an index no smaller than anything committed on any node
      before; a get that is woken with it, on a server that is fed committed entries in
      order, is answered from a state in which all of them are applied in the order of
      the log.  That the server has got so far follows from the code's wait.
    - Storage (StorageTheorems): reopening after any history of saves and torn writes
      gives back the state; compaction keeps the log in memory; segments sort in order.
    - Host and server (HostTheorems): nothing is sent before it is durable, entries are
      handed out in order and once and were committed, a put is applied on every server
      that applies its entry, servers that apply the same entries hold the same map,
      whichever puts had to wait.
    - Goroutines (CallTheorems, ConnTheorems): a call of the node returns the answer to
      its own request and is never stuck, a started host can always be stopped, and
      [Shutdown] can return, with two exceptions: a connection entered late, and a batch
      with more puts to a shard whose committer has exited than its channel holds.
    - Transports and clients (TransportTheorems): the connections to a peer carry, and a
      receiver processes, messages in the order of sending; concurrent requests get
      their own responses; a get or put of the client is answered with what the server
      has.
    - Configuration and life (ServerTheorems): the notation of peers is parsed back; at
      most one server of a directory is started, one that is not holds nothing, and a
      second [Start] reports on Unix and Windows that the database is in use.
    - Commands (ServerTheorems, BenchTheorems): what is typed is what is parsed, exit
      codes, the load generator counts every request once, its report stays in range, the
      fsync benchmark syncs every write it times, sorts, and reports every size.
    - Engine (EngineTheorems): reopening at any moment of a run of puts, gets and flushes
      gives a prefix of the writes that holds every acknowledged one; in such runs the
      database refines a map, if the writes are all synchronous or none is; a group
      commit is all or nothing under disk faults; closing drains the requests; cleanup
      and compaction keep the map; a torn index is repaired; the example program finds
      what it has put.
    - Where the code does not do what it means to (Findings,
      Safety, TransportTheorems, ServerTheorems, CallTheorems, ConnTheorems,
      EngineTheorems, BenchTheorems): old appends undo a vote and
      appends that arrive late lose committed entries, a deposed leader answers a
      read, repeated appends panic, messages are dropped between [Ready] and
      [Advance], replay brings entries back, compaction deletes the hard state and with
      it a vote, a snapshot drops an entry whose acknowledgement is still sent, an append
      overwrites the entries of the [Ready] under way, request ids of two servers collide, the
      Raft log is compacted before the engine has written, gets and compaction destroy
      values, a follower more than 16 MiB behind starves, request id 0 is never
      answered, a failed [Start] cannot be repeated, the Raft storage is opened before
      the lock is taken, a host that was not started cannot be stopped, connections
      entered late hold or outlive [Shutdown], a committer that has exited holds it, a
      database that cannot be replayed leaves its files open, a put that enters a shard
      after its drain waits for ever, a batch is applied to a closed database, a
      snapshot message makes a follower skip entries its server never gets,
      and the benchmarks panic on a negative warmup, discard the fastest requests, count failed sends twice and
      print the maximum as the 99th percentile.

    ** Bounds and fuel

    Loops over data carry fuel of the length of the data, which is enough since every
    iteration consumes some of it: [decodeEntries_loop], the frame readers of Wal and
    [replaySnapshotMeta_loop], [readIndex_loop] ([fuel_enough]); their theorems are
    about the result, not about running out.  [allocateID] tries one id more than there
    are pending requests ([allocateID_total]).  [format_uint] covers 20 digits, all of
    [uint64].  Indices are below [MaxIndex], segments below 10^8 and request ids of a
    connection below 2^32 where a theorem says so.

    ** Not modelled

    Logging; tickers, clocks and signals, which are events; the system calls behind
    sockets, the file lock and platform checks, whose outcomes are inputs; the generated
    code of [raftpb] and [kvpb] beyond the message types; [net/http] and [grpc] around
    the handlers, whose stops are taken to return; accessors of channels and addresses;
    what the benchmarks print beyond their figures; test doubles.  Lines of the client are
    ASCII.  The disk loses nothing that was written: the crashes are those of the
    process, and [Sync] can fail but has no other effect, so nothing is said of a loss of
    power.  Slices are values; where two slices share an array and the code writes to it,
    the model keeps both as they were, except in [append_overwrites_ready] (Findings),
    which is about such a write.  Memory races are outside the model: a step of a
    goroutine is atomic.  The agreement of committed entries is proved for runs in which no node is
    handed an append, heartbeat or response of an older term or an append that cuts off
    entries it agrees with, and a node that has cut its log short stores it before it
    takes the next message ([disciplined] in CommitRun); without the first two it does not
    hold ([stale_append_loses_commit] and [reordered_append_loses_commit]).  Such runs
    have no snapshots.  That reads are current is proved for those a heartbeat response
    releases; the reads that wait for a leader's first commit are released without one,
    and it does not hold of them ([late_read_is_stale]). *)

From stdpp Require Export base tactics numbers list gmap fin_maps sorting strings.
From Stdlib Require Export ZArith Lia.
From Stdlib Require SpecFloat.

#[export] Set Default Goal Selector "!".
#[global] Open Scope Z_scope.

(** ** Go's outcomes

    A Go call either returns or panics.  [res] is the type of calls that may
    panic; Go's second result of type [error] is an ordinary value, so a
    function returning [(T, error)] has type [Result T] (its error on the left). *)

Inductive res (A : Type) : Type :=
| Ok (a : A)
| Panic (why : string).
Arguments Ok {A} a.
Arguments Panic {A} why.

#[export] Instance res_ret : MRet res := fun A a => Ok a.
#[export] Instance res_bind : MBind res := fun A B f m =>
  match m with Ok a => f a | Panic s => Panic s end.
#[export] Instance res_fmap : FMap res := fun A B f m =>
  match m with Ok a => Ok (f a) | Panic s => Panic s end.

(** The error values of the sources ([errors.New] variables), with [Errorf]
    for the ones built on the spot by [fmt.Errorf] and [IOErr] for those the
    operating system returns. *)
Inductive error : Type :=
| ErrUnexpectedBytes
| ErrProposalDropped
| ErrCompacted
| ErrNonContiguous
| ErrSnapOutOfDate
| ErrUnavailable
| ErrCorruption
| ErrTailCorruption
| ErrEOF
| ErrUnexpectedEOF
| ErrInvalidMessage
| ErrUnknownStatus
| ErrFrameTooLarge
| ErrInvalidFrame
| ErrEnvelopeTooShort
| ErrDeadlineExceeded
| ErrCanceled
| ErrClosed
| ErrTruncate
| ErrInvalidRead
| ErrInvalidCompactionPolicy
| ErrTransportClosed
| ErrTransportStarted
| ErrTransportStopped
| IOErr
| Errorf (what : string)
| Wrap (what : string) (e : error)      (* [fmt.Errorf] with [%w] *)
| Join (e1 e2 : error).

#[export] Instance error_eq_dec : EqDecision error.
Proof. solve_decision. Defined.

(** [errors.Is] *)
Fixpoint errors_Is (e target : error) : bool :=
  bool_decide (e = target) ||
  match e with
  | Wrap _ e => errors_Is e target
  | Join e1 e2 => errors_Is e1 target || errors_Is e2 target
  | _ => false
  end.

Abbreviation Result A := (error + A)%type.

(** Loops of the form [for _, x := range xs { state = f(x, state) }] whose body
    may panic. *)
Fixpoint foldM {A S : Type} (f : A -> S -> res S) (xs : list A) (s : S) : res S :=
  match xs with
  | [] => Ok s
  | x :: xs => s' ← f x s; foldM f xs s'
  end.

(** ** Machine integers

    [uint64] values are integers in [0, 2^64); every addition and subtraction
    of the sources is written with the wrapping operators below.  [int] is the
    64-bit signed integer of the platforms the program is built for. *)

Definition wrap64 (z : Z) : Z := z mod 2 ^ 64.
Definition wrap32 (z : Z) : Z := z mod 2 ^ 32.
Definition int64 (z : Z) : Z := (z + 2 ^ 63) mod 2 ^ 64 - 2 ^ 63.

Abbreviation MaxUint64 := (2 ^ 64 - 1)%Z.

Declare Scope go_scope.
Delimit Scope go_scope with go.
Notation "a +u b" := (wrap64 (a + b)) (at level 50, left associativity) : go_scope.
Notation "a -u b" := (wrap64 (a - b)) (at level 50, left associativity) : go_scope.
#[global] Open Scope go_scope.

Definition is_u64 (z : Z) : Prop := 0 <= z < 2 ^ 64.
Definition is_u32 (z : Z) : Prop := 0 <= z < 2 ^ 32.

(** [float64(z)], and [int64(f)] of a float in the range of [int64]: towards zero. *)
Definition f64 (z : Z) : SpecFloat.spec_float := SpecFloat.binary_normalize 53 1024 z 0 false.

Definition float_int (f : SpecFloat.spec_float) : Z :=
  match f with
  | SpecFloat.S754_finite s m e =>
      let n := if 0 <=? e then Zpos m * 2 ^ e else Zpos m / 2 ^ (- e) in if s then - n else n
  | _ => 0
  end.

(** Go's [len], as an integer. *)
Definition len {A : Type} (l : list A) : Z := Z.of_nat (length l).

(** [l[i:]], [l[:j]] and [l[i:j]] for indices already known to be in range. *)
Definition slice_from {A : Type} (l : list A) (i : Z) : list A := drop (Z.to_nat i) l.
Definition slice_to {A : Type} (l : list A) (j : Z) : list A := take (Z.to_nat j) l.
Definition slice {A : Type} (l : list A) (i j : Z) : list A :=
  take (Z.to_nat (j - i)) (drop (Z.to_nat i) l).

(** [l[i]] *)
Definition index {A : Type} (l : list A) (i : Z) : option A :=
  if decide (0 <= i) then l !! Z.to_nat i else None.

#[global] Arguments len {A} l : simpl never.
#[global] Arguments wrap64 z : simpl never.
#[global] Arguments wrap32 z : simpl never.
#[global] Arguments int64 z : simpl never.
#[global] Arguments index {A} l i : simpl never.
#[global] Arguments slice {A} l i j : simpl never.
#[global] Arguments slice_to {A} l j : simpl never.
#[global] Arguments slice_from {A} l i : simpl never.

(** ** Functional record update

    [r <| f := v |>] is the Go assignment [r.f = v] on a record value, and
    [r <| f ::= g |>] applies [g] to the field.  A record supports it once an
    [Eta] instance spells out its constructor applied to its projections. *)

Class Eta (R : Type) : Type := eta : R -> R.
Class Setter {R T : Type} (proj : R -> T) : Type := set_field : (T -> T) -> R -> R.
Arguments set_field {R T} proj {_} f r : simpl nomatch.

Ltac derive_setter :=
  match goal with
  | |- @Setter ?R ?T ?proj =>
      let e := constr:(_ : Eta R) in
      exact (fun (f : T -> T) (r : R) =>
        ltac:(let b := eval hnf in (@eta R e r) in
              match b with
              | context C [proj r] =>
                  let b' := context C [f (proj r)] in
                  let b'' := eval cbv beta in b' in exact b''
              end))
  end.
#[export] Hint Extern 1 (Setter _) => derive_setter : typeclass_instances.

Notation "r <| f := v |>" := (set_field f (fun _ => v) r)
  (at level 1, left associativity, f at level 0, v at level 200, format "r  <| f  :=  v |>").
Notation "r <| f ::= g |>" := (set_field f g r)
  (at level 1, left associativity, f at level 0, g at level 200, format "r  <| f  ::=  g |>").

(** ** Tactics *)

Create HintDb kvgo discriminated.

(** Splits every [if] of the goal and of the hypotheses. *)
Ltac split_ifs :=
  repeat match goal with
  | |- context [if ?b then _ else _] =>
      lazymatch type of b with
      | bool => let E := fresh "E" in destruct b eqn:E
      | sumbool _ _ => destruct b
      end
  | H : context [if ?b then _ else _] |- _ =>
      lazymatch type of b with
      | bool => let E := fresh "E" in destruct b eqn:E
      | sumbool _ _ => destruct b
      end
  end.

(** Turns boolean comparisons on integers into propositions. *)
Ltac to_prop :=
  repeat match goal with
  | H : (_ <? _) = true |- _ => apply Z.ltb_lt in H
  | H : (_ <? _) = false |- _ => apply Z.ltb_ge in H
  | H : (_ <=? _) = true |- _ => apply Z.leb_le in H
  | H : (_ <=? _) = false |- _ => apply Z.leb_gt in H
  | H : (_ =? _) = true |- _ => apply Z.eqb_eq in H
  | H : (_ =? _) = false |- _ => apply Z.eqb_neq in H
  | H : _ && _ = true |- _ => apply andb_true_iff in H as [? ?]
  | H : _ || _ = false |- _ => apply orb_false_iff in H as [? ?]
  | H : negb _ = true |- _ => apply negb_true_iff in H
  | H : negb _ = false |- _ => apply negb_false_iff in H
  end.

(** [x ∈ [..; x; ..]] for constants. *)
Ltac in_list := solve [repeat constructor].

(** Case analysis on [x ∈ [..]]. *)
Ltac inv_list :=
  repeat match goal with
  | H : _ ∈ [] |- _ => by inversion H
  | H : _ ∈ _ :: _ |- _ =>
      apply elem_of_cons in H; destruct H as [H|H]
  end.

(** Decomposes hypotheses [m ≫= f = Ok x] of the outcome monad. *)
Lemma bind_Ok {A B : Type} (m : res A) (f : A -> res B) (b : B) :
  (m ≫= f) = Ok b <-> exists a, m = Ok a /\ f a = Ok b.
Proof.
  destruct m as [a|s]; simpl; split.
  - eauto.
  - by intros (a' & [= ->] & ?).
  - done.
  - by intros (a' & ? & ?).
Qed.

Ltac inv_res :=
  repeat match goal with
  | H : (_ ≫= _) = Ok _ |- _ =>
      let a := fresh "a" in let H1 := fresh "H" in let H2 := fresh "H" in
      apply bind_Ok in H as (a & H1 & H2)
  | H : Ok _ = Ok _ |- _ => injection H as H; try subst
  | H : Panic _ = Ok _ |- _ => discriminate H
  | H : Ok _ = Panic _ |- _ => discriminate H
  end.

(** ** Machine integers: lemmas *)

Lemma wrap64_range z : is_u64 (wrap64 z).
Proof. unfold is_u64, wrap64. apply Z.mod_pos_bound. lia. Qed.

Lemma wrap64_id z : is_u64 z -> wrap64 z = z.
Proof. unfold is_u64, wrap64. apply Z.mod_small. Qed.

Lemma wrap64_succ_id z : 0 <= z < MaxUint64 -> z +u 1 = z + 1.
Proof. intros. apply wrap64_id. unfold is_u64. lia. Qed.

Lemma wrap64_pred_id z : 0 < z < 2 ^ 64 -> z -u 1 = z - 1.
Proof. intros. apply wrap64_id. unfold is_u64. lia. Qed.

Lemma wrap64_sub_id a b : 0 <= b <= a -> a < 2 ^ 64 -> a -u b = a - b.
Proof. intros. apply wrap64_id. unfold is_u64. lia. Qed.

Lemma int64_id z : - 2 ^ 63 <= z < 2 ^ 63 -> int64 z = z.
Proof. intros. unfold int64. rewrite Z.mod_small; lia. Qed.

#[export] Hint Resolve wrap64_range : kvgo.

(** ** Lists *)

Lemma len_nonneg {A : Type} (l : list A) : 0 <= len l.
Proof. unfold len. lia. Qed.

Lemma len_nil {A : Type} : len (@nil A) = 0.
Proof. done. Qed.

Lemma len_cons {A : Type} (x : A) l : len (x :: l) = len l + 1.
Proof. unfold len. simpl. lia. Qed.

Lemma len_app {A : Type} (l k : list A) : len (l ++ k) = len l + len k.
Proof. unfold len. rewrite length_app. lia. Qed.

Lemma index_Some_lt {A : Type} (l : list A) i x :
  index l i = Some x -> 0 <= i < len l.
Proof.
  unfold index, len. case_decide; [|done]. intros ?%lookup_lt_Some. lia.
Qed.

Lemma index_is_Some {A : Type} (l : list A) i :
  0 <= i < len l -> is_Some (index l i).
Proof.
  unfold index, len. intros. rewrite decide_True by lia.
  apply lookup_lt_is_Some. lia.
Qed.

Lemma foldM_app {A S : Type} (f : A -> S -> res S) xs ys s :
  foldM f (xs ++ ys) s = foldM f xs s ≫= foldM f ys.
Proof.
  revert s. induction xs as [|x xs IH]; intros s; simpl; [done|].
  destruct (f x s); simpl; [apply IH|done].
Qed.

(** A property kept by every iteration is kept by the loop. *)
Lemma foldM_inv {A S : Type} (P : S -> Prop) (f : A -> S -> res S) xs s s' :
  (forall x s s', x ∈ xs -> P s -> f x s = Ok s' -> P s') ->
  P s -> foldM f xs s = Ok s' -> P s'.
Proof.
  revert s. induction xs as [|x xs IH]; intros s Hf HP H; simpl in H; inv_res; [done|].
  eapply IH; [|eapply Hf; [left| |]; eauto|done].
  intros. eapply Hf; eauto. by right.
Qed.

(** A total body makes the loop total. *)
Lemma foldM_total {A S : Type} (f : A -> S -> res S) (P : S -> Prop) xs s :
  (forall x s, x ∈ xs -> P s -> exists s', f x s = Ok s' /\ P s') ->
  P s -> exists s', foldM f xs s = Ok s' /\ P s'.
Proof.
  revert s. induction xs as [|x xs IH]; intros s Hf HP; simpl; [by eauto|].
  destruct (Hf x s) as (s1 & -> & H1); [left|done|]. simpl.
  apply IH; [|done]. intros. apply Hf; [by right|done].
Qed.

Lemma len_slice_to {A : Type} (l : list A) n : 0 <= n <= len l -> len (slice_to l n) = n.
Proof. unfold len, slice_to. rewrite length_take. lia. Qed.

Lemma slice_to_all {A : Type} (l : list A) n : len l <= n -> slice_to l n = l.
Proof. unfold len, slice_to. intros. apply take_ge. lia. Qed.

Lemma slice_to_neg {A : Type} (l : list A) n : n <= 0 -> slice_to l n = [].
Proof. unfold slice_to. intros. by replace (Z.to_nat n) with 0%nat by lia. Qed.

Lemma slice_to_slice_to {A : Type} (l : list A) m n :
  slice_to (slice_to l m) n = slice_to l (Z.min m n).
Proof. unfold slice_to. rewrite take_take. f_equal. lia. Qed.

Lemma slice_to_app {A : Type} (l k : list A) n :
  slice_to (l ++ k) n = slice_to l n ++ slice_to k (n - len l).
Proof. unfold slice_to, len. rewrite take_app. do 2 f_equal. lia. Qed.

Lemma slice_to_from {A : Type} (l : list A) n : slice_to l n ++ slice_from l n = l.
Proof. apply take_drop. Qed.

Lemma slice_app {A : Type} (l k : list A) i j :
  0 <= i ->
  slice (l ++ k) i j =
  slice l i (Z.min j (len l)) ++ slice k (Z.max i (len l) - len l) (j - len l).
Proof.
  intros Hi. unfold slice, len. rewrite skipn_app, take_app, length_skipn.
  f_equal.
  - destruct (decide (j <= Z.of_nat (length l))).
    + f_equal; lia.
    + rewrite !take_ge; [done|rewrite length_drop; lia..].
  - replace (Z.to_nat i - length l)%nat with (Z.to_nat (Z.max i (Z.of_nat (length l)) - Z.of_nat (length l))) by lia.
    f_equal. lia.
Qed.

Lemma slice_slice_to {A : Type} (l : list A) n i j :
  0 <= i -> slice (slice_to l n) i j = slice l i (Z.min j n).
Proof.
  intros Hi. unfold slice, slice_to. rewrite skipn_firstn_comm, take_take. f_equal. lia.
Qed.

Lemma slice_empty {A : Type} (l : list A) i j : j <= i -> slice l i j = [].
Proof. unfold slice. intros. by replace (Z.to_nat (j - i)) with 0%nat by lia. Qed.

Lemma slice_clip {A : Type} (l : list A) i j :
  0 <= i -> slice l i (Z.min j (len l)) = slice l i j.
Proof.
  intros Hi. unfold slice, len. destruct (decide (j <= Z.of_nat (length l))).
  - f_equal; lia.
  - rewrite !take_ge; [done|rewrite length_drop; lia..].
Qed.

Lemma len_slice {A : Type} (l : list A) i j :
  0 <= i <= j -> j <= len l -> len (slice l i j) = j - i.
Proof. intros. unfold slice, len in *. rewrite length_take, length_drop. lia. Qed.

Lemma index_slice {A : Type} (l : list A) i j k :
  0 <= i -> 0 <= k < j - i -> index (slice l i j) k = index l (i + k).
Proof.
  intros. unfold slice, index. rewrite !decide_True by lia.
  rewrite lookup_take_lt by lia. rewrite lookup_drop. f_equal. lia.
Qed.

Lemma index_slice_to {A : Type} (l : list A) n k :
  k < n -> index (slice_to l n) k = index l k.
Proof.
  intros. unfold slice_to, index. case_decide; [|done]. apply lookup_take_lt. lia.
Qed.

Lemma index_app_l {A : Type} (l k : list A) i :
  i < len l -> index (l ++ k) i = index l i.
Proof.
  intros. unfold index, len in *. case_decide; [|done]. apply lookup_app_l. lia.
Qed.

Lemma index_app_r {A : Type} (l k : list A) i :
  len l <= i -> index (l ++ k) i = index k (i - len l).
Proof.
  intros. unfold index, len in *. rewrite !decide_True by lia. rewrite lookup_app_r by lia. f_equal. lia.
Qed.

Lemma slice_from_app {A : Type} (l k : list A) n : len l = n -> slice_from (l ++ k) n = k.
Proof. unfold len, slice_from. intros <-. rewrite Nat2Z.id. apply drop_app_length. Qed.

Lemma slice_to_app_len {A : Type} (l k : list A) n : len l = n -> slice_to (l ++ k) n = l.
Proof. unfold len, slice_to. intros <-. rewrite Nat2Z.id. apply take_app_length. Qed.

Lemma slice_0_to {A : Type} (l : list A) n : slice l 0 n = slice_to l n.
Proof. unfold slice, slice_to. by rewrite Z.sub_0_r. Qed.

Lemma slice_from_from {A : Type} (l : list A) m n :
  0 <= m -> 0 <= n -> slice_from (slice_from l m) n = slice_from l (m + n).
Proof. unfold slice_from. intros. rewrite drop_drop. f_equal. lia. Qed.

Lemma slice_drop_to {A : Type} (l : list A) i j :
  0 <= i -> slice l i j = slice_to (slice_from l i) (j - i).
Proof. done. Qed.

(** Reading one field of a concatenation. *)
Lemma slice_field {A : Type} (pre f post : list A) i j :
  len pre = i -> len f = j - i -> slice (pre ++ f ++ post) i j = f.
Proof.
  intros Hi Hj. rewrite slice_drop_to by (pose proof (len_nonneg pre); lia).
  rewrite slice_from_app by done. by apply slice_to_app_len.
Qed.

Lemma slice_tail_field {A : Type} (pre f : list A) i j :
  len pre = i -> len f = j - i -> slice (pre ++ f) i j = f.
Proof. intros Hi Hj. rewrite <-(app_nil_r f) at 1. by apply slice_field. Qed.
