(* ===== verification/GoState.v ===== *)
(** * GoState: calls with state

    A Go method changes its receiver and may return an error or panic.  [M S A] is
    such a call on the state [S]; the state is kept when the call panics, because
    a deferred function may recover and go on with it.  [x ←? m; k] is the idiom
    [x, err := m(); if err != nil { return err }; k]. *)

From S2P Require Export Prelude.

Definition M (S A : Type) : Type := S -> res A * S.

#[export] Instance M_ret S : MRet (M S) := fun A a s => (Ok a, s).
#[export] Instance M_bind S : MBind (M S) := fun A B f m s =>
  match m s with
  | (Ok a, s) => f a s
  | (Panic why, s) => (Panic why, s)
  end.

Section calls.
Context {S : Type}.

Definition gets {A : Type} (f : S -> A) : M S A := fun s => (Ok (f s), s).
Definition modify (f : S -> S) : M S unit := fun s => (Ok tt, f s).
Definition panic {A : Type} (why : string) : M S A := fun s => (Panic why, s).

(** [return nil], [return err] *)
Definition no_error : M S (Result unit) := mret (inr tt).
Definition return_err {A : Type} (e : error) : M S (Result A) := mret (inl e).

(** A call on a part of the state. *)
Definition zoom {T A : Type} (get : S -> T) (put : T -> S -> S) (m : M T A) : M S A :=
  fun s => let '(r, t) := m (get s) in (r, put t s).

(** [for _, x := range xs { body }] *)
Fixpoint for_each {A : Type} (xs : list A) (body : A -> M S unit) : M S unit :=
  match xs with
  | []%list => mret tt
  | x :: xs => _ ← body x; for_each xs body
  end.

(** The same with a body that may [return err]; the loop carries a value. *)
Fixpoint for_fold {A B : Type} (xs : list A) (b : B) (body : A -> B -> M S (Result B)) : M S (Result B) :=
  match xs with
  | []%list => mret (inr b)
  | x :: xs =>
      r ← body x b;
      match r with
      | inl e => mret (inl e)
      | inr b => for_fold xs b body
      end
  end.

End calls.

(** [if err != nil { return err }] *)
Definition on_ok {S A B : Type} (k : A -> M S (Result B)) (r : Result A) : M S (Result B) :=
  match r with
  | inl e => mret (inl e)
  | inr a => k a
  end.

Notation "x ←? y ; z" := (y ≫= on_ok (fun x => z))
  (at level 20, y at level 100, z at level 200, only parsing) : stdpp_scope.
Notation "' x ←? y ; z" := (y ≫= on_ok (fun x => z))
  (at level 20, x pattern, y at level 100, z at level 200, only parsing) : stdpp_scope.

(** ** Running calls *)

Lemma bind_run {S A B : Type} (m : M S A) (f : A -> M S B) s a s' :
  m s = (Ok a, s') -> (m ≫= f) s = f a s'.
Proof. unfold mbind, M_bind. by intros ->. Qed.

Lemma bind_run_panic {S A B : Type} (m : M S A) (f : A -> M S B) s why s' :
  m s = (Panic why, s') -> (m ≫= f) s = (Panic why, s').
Proof. unfold mbind, M_bind. by intros ->. Qed.

Lemma zoom_run {S T A : Type} (get : S -> T) put (m : M T A) s r t :
  m (get s) = (r, t) -> zoom get put m s = (r, put t s).
Proof. unfold zoom. by intros ->. Qed.

(** Runs the next call of a sequence with a known result. *)
Ltac run H := rewrite (bind_run _ _ _ _ _ H); cbn beta iota.

Lemma for_each_app {S A : Type} (xs ys : list A) (body : A -> M S unit) s s1 :
  for_each xs body s = (Ok tt, s1) -> for_each (xs ++ ys) body s = for_each ys body s1.
Proof.
  revert s. induction xs as [|x xs IH]; intros s H; simpl in *; [by injection H as ->|].
  unfold mbind, M_bind in *. destruct (body x s) as [[[]|] s2]; [by apply IH|done].
Qed.

(** A loop whose body succeeds and keeps a property. *)
Lemma for_each_run {S A : Type} (P : list A -> S -> Prop) (body : A -> M S unit) xs s :
  (forall pre x post s, xs = pre ++ x :: post -> P pre s -> exists s', body x s = (Ok tt, s') /\ P (pre ++ [x]) s') ->
  P [] s -> exists s', for_each xs body s = (Ok tt, s') /\ P xs s'.
Proof.
  intros Hb. assert (forall post pre s, xs = pre ++ post -> P pre s ->
    exists s', for_each post body s = (Ok tt, s') /\ P xs s') as H; [|intros H0; by apply (H xs [])].
  induction post as [|x post IH]; intros pre s0 Hxs HP; simpl.
  - rewrite app_nil_r in Hxs. subst. by eexists.
  - destruct (Hb _ _ _ _ Hxs HP) as (s1 & H1 & HP1). run H1.
    apply (IH (pre ++ [x])); [by rewrite <-app_assoc|done].
Qed.
