(* ===== verification/Bytes.v ===== *)
(** * Bytes: Go's byte slices and [encoding/binary]

    Byte slices and strings are lists of [Byte.byte].  The little-endian and
    big-endian integer codecs of Go's [encoding/binary], which every on-disk and
    wire format of the program uses, are built from coqutil's [le_split] and
    [le_combine]. *)

From S2P Require Export Prelude.
From coqutil Require Byte Word.LittleEndianList.

Abbreviation byte := Corelib.Init.Byte.byte.
Abbreviation bytes := (list Corelib.Init.Byte.byte).

#[export] Instance byte_eq_dec : EqDecision byte := Stdlib.Strings.Byte.byte_eq_dec.

Lemma byte_to_of_N (b : byte) :
  Stdlib.Strings.Byte.of_N (Stdlib.Strings.Byte.to_N b) = Some b.
Proof. apply Stdlib.Strings.Byte.of_to_N. Qed.

#[export] Instance byte_countable : Countable byte :=
  inj_countable Stdlib.Strings.Byte.to_N Stdlib.Strings.Byte.of_N byte_to_of_N.

(** [binary.LittleEndian.PutUint32/64] into a fresh buffer, and
    [binary.LittleEndian.Uint32/64] on the first bytes of a slice.  The readers
    index [b[3]] and [b[7]], so a shorter slice panics; here the callers check
    lengths first and the readers are applied to the exact slice. *)
Definition PutUint32 (v : Z) : bytes := LittleEndianList.le_split 4 v.
Definition PutUint64 (v : Z) : bytes := LittleEndianList.le_split 8 v.
Definition Uint32 (b : bytes) : Z := LittleEndianList.le_combine (take 4 b).
Definition Uint64 (b : bytes) : Z := LittleEndianList.le_combine (take 8 b).

(** A single byte, [buf[i] = byte(v)] and [payload[i]]. *)
Definition PutUint8 (v : Z) : bytes := LittleEndianList.le_split 1 v.
Definition Uint8 (b : bytes) : Z := LittleEndianList.le_combine (take 1 b).

(** [binary.BigEndian.PutUint64] and [binary.BigEndian.Uint64]. *)
Definition BE_PutUint64 (v : Z) : bytes := rev (PutUint64 v).
Definition BE_Uint64 (b : bytes) : Z := LittleEndianList.le_combine (rev (take 8 b)).

#[global] Arguments PutUint8 v : simpl never.
#[global] Arguments Uint8 b : simpl never.
#[global] Arguments PutUint32 v : simpl never.
#[global] Arguments PutUint64 v : simpl never.
#[global] Arguments Uint32 b : simpl never.
#[global] Arguments Uint64 b : simpl never.

(** ** Lemmas *)

Lemma length_PutUint32 v : length (PutUint32 v) = 4%nat.
Proof. apply LittleEndianList.length_le_split. Qed.

Lemma length_PutUint64 v : length (PutUint64 v) = 8%nat.
Proof. apply LittleEndianList.length_le_split. Qed.

Lemma len_PutUint32 v : len (PutUint32 v) = 4.
Proof. unfold len. by rewrite length_PutUint32. Qed.

Lemma len_PutUint64 v : len (PutUint64 v) = 8.
Proof. unfold len. by rewrite length_PutUint64. Qed.

Lemma Uint32_Put_wrap v rest : Uint32 (PutUint32 v ++ rest) = wrap32 v.
Proof.
  unfold Uint32. rewrite take_app_length' by (by rewrite length_PutUint32).
  unfold PutUint32. by rewrite LittleEndianList.le_combine_split.
Qed.

Lemma Uint64_Put_wrap v rest : Uint64 (PutUint64 v ++ rest) = wrap64 v.
Proof.
  unfold Uint64. rewrite take_app_length' by (by rewrite length_PutUint64).
  unfold PutUint64. by rewrite LittleEndianList.le_combine_split.
Qed.

Lemma Uint32_Put v rest : is_u32 v -> Uint32 (PutUint32 v ++ rest) = v.
Proof. intros. rewrite Uint32_Put_wrap. apply Z.mod_small. done. Qed.

Lemma Uint64_Put v rest : is_u64 v -> Uint64 (PutUint64 v ++ rest) = v.
Proof. intros. rewrite Uint64_Put_wrap. by apply wrap64_id. Qed.

Lemma len_PutUint8 v : len (PutUint8 v) = 1.
Proof. unfold len, PutUint8. by rewrite LittleEndianList.length_le_split. Qed.

Lemma Uint8_Put v rest : 0 <= v < 256 -> Uint8 (PutUint8 v ++ rest) = v.
Proof.
  intros Hv. unfold Uint8, PutUint8.
  rewrite take_app_length' by (by rewrite LittleEndianList.length_le_split).
  rewrite LittleEndianList.le_combine_split. by apply Z.mod_small.
Qed.

Lemma Uint8_range b : 0 <= Uint8 b < 256.
Proof.
  unfold Uint8. pose proof (LittleEndianList.le_combine_bound (take 1 b)) as H.
  rewrite length_take in H.
  assert (2 ^ (8 * Z.of_nat (Nat.min 1 (length b))) <= 256); [|lia].
  change 256 with (2 ^ 8). apply Z.pow_le_mono_r; lia.
Qed.

Lemma BE_Uint64_Put v rest : is_u64 v -> BE_Uint64 (BE_PutUint64 v ++ rest) = v.
Proof.
  intros Hv. unfold BE_Uint64, BE_PutUint64.
  rewrite take_app_length' by (by rewrite length_rev, length_PutUint64).
  rewrite rev_involutive. unfold PutUint64.
  rewrite LittleEndianList.le_combine_split. by apply Z.mod_small.
Qed.

Lemma Uint32_range b : is_u32 (Uint32 b).
Proof.
  unfold Uint32. pose proof (LittleEndianList.le_combine_bound (take 4 b)) as [Hl Hu].
  split; [done|]. eapply Z.lt_le_trans; [exact Hu|].
  apply Z.pow_le_mono_r; [lia|]. rewrite length_take. lia.
Qed.

Lemma Uint64_range b : is_u64 (Uint64 b).
Proof.
  unfold Uint64. pose proof (LittleEndianList.le_combine_bound (take 8 b)) as [Hl Hu].
  split; [done|]. eapply Z.lt_le_trans; [exact Hu|].
  apply Z.pow_le_mono_r; [lia|]. rewrite length_take. lia.
Qed.

(** Reading what was read back: the bytes of a field are determined by its
    value. *)
Lemma PutUint64_Uint64 b : (8 <= length b)%nat -> PutUint64 (Uint64 b) = take 8 b.
Proof.
  intros. unfold PutUint64, Uint64.
  apply LittleEndianList.split_le_combine'. rewrite length_take. lia.
Qed.

Lemma PutUint32_Uint32 b : (4 <= length b)%nat -> PutUint32 (Uint32 b) = take 4 b.
Proof.
  intros. unfold PutUint32, Uint32.
  apply LittleEndianList.split_le_combine'. rewrite length_take. lia.
Qed.

Lemma Uint32_field pre v post i j :
  len pre = i -> j = i + 4 -> is_u32 v -> Uint32 (slice (pre ++ PutUint32 v ++ post) i j) = v.
Proof.
  intros Hi -> Hv. rewrite slice_field by (rewrite ?len_PutUint32; lia).
  rewrite <-(app_nil_r (PutUint32 v)). by apply Uint32_Put.
Qed.

Ltac len_fields := rewrite ?len_app, ?len_PutUint8, ?len_PutUint64, ?len_PutUint32; lia.

Lemma Uint64_field pre v post i j :
  len pre = i -> j = i + 8 -> is_u64 v -> Uint64 (slice (pre ++ PutUint64 v ++ post) i j) = v.
Proof.
  intros Hi -> Hv. rewrite slice_field by (rewrite ?len_PutUint64; lia).
  rewrite <-(app_nil_r (PutUint64 v)). by apply Uint64_Put.
Qed.
