(* ===== verification/Disk.v ===== *)
(** * Disk: files and open files

    The operating system is a [World]: the files of the data directory and the
    outcome of the I/O calls still to come ([faults]; an empty list means that
    everything works from now on).  A failing write may leave a prefix of its
    data behind.  What a call has written stays when the process stops; a loss of
    power is not modelled, so a [Sync] can fail and does nothing else.  [file] is an [os.File] opened with [O_CREATE|O_APPEND|O_RDWR]:
    writes go to the end and leave the offset there, reads start at the offset. *)

From S2P Require Export GoState Bytes.
From Stdlib Require Import String.

Inductive iofault : Type := Works | Fails (written : nat).

Record World : Type := mkWorld {
  files : gmap string bytes;
  faults : list iofault
}.

#[export] Instance eta_World : Eta World := fun w => mkWorld (files w) (faults w).

(** The outcome of the next I/O call. *)
Definition io (W : World) : iofault * World :=
  match faults W with
  | [] => (Works, W)
  | f :: fs => (f, W <| faults := fs |>)
  end.

(** An I/O call with no effect on file contents ([Sync], [Close], [Stat], ...). *)
Definition io_call (W : World) : option error * World :=
  match io W with
  | (Works, W) => (None, W)
  | (Fails _, W) => (Some IOErr, W)
  end.

Definition content (name : string) (W : World) : bytes := default [] (files W !! name).

(** [os.MkdirAll] and [os.OpenFile] with [O_CREATE]. *)
Definition openFile (name : string) (W : World) : option error * World :=
  match io_call W with
  | (Some e, W) => (Some e, W)
  | (None, W) =>
      match io_call W with
      | (Some e, W) => (Some e, W)
      | (None, W) => (None, W <| files ::= <[ name := content name W ]> |>)
      end
  end.

(** [os.Remove]; the callers treat a missing file as no error. *)
Definition removeFile (name : string) (W : World) : option error * World :=
  match io_call W with
  | (Some e, W) => (Some e, W)
  | (None, W) => (None, W <| files ::= delete name |>)
  end.

(** [os.Truncate]: shortens, or extends with zeros. *)
Definition truncate_to (n : Z) (data : bytes) : bytes :=
  take (Z.to_nat n) (data ++ replicate (Z.to_nat n) Byte.x00).

(** [os.Rename] *)
Definition renameFile (from to_ : string) (W : World) : option error * World :=
  match io_call W with
  | (Some e, W) => (Some e, W)
  | (None, W) =>
      match files W !! from with
      | None => (Some IOErr, W)
      | Some data => (None, W <| files ::= fun fs => <[ to_ := data ]> (delete from fs) |>)
      end
  end.

(** ** Open files *)

Record file : Type := mkFile {
  fl_name : string;
  fl_pos : Z;
  fl_open : bool
}.

#[export] Instance eta_file : Eta file := fun f => mkFile (fl_name f) (fl_pos f) (fl_open f).

Definition as_result (e : option error) : Result unit :=
  match e with Some e => inl e | None => inr tt end.

Definition open_file (name : string) : M World (Result file) := fun W =>
  match openFile name W with
  | (Some e, W) => (Ok (inl e), W)
  | (None, W) => (Ok (inr (mkFile name 0 true)), W)
  end.

Definition remove_file (name : string) : M World (Result unit) := fun W =>
  match io_call W with
  | (Some e, W) => (Ok (inl e), W)
  | (None, W) =>
      match files W !! name with
      | None => (Ok (inl IOErr), W)
      | Some _ => (Ok (inr tt), W <| files ::= delete name |>)
      end
  end.

Definition rename_file (from to_ : string) : M World (Result unit) := fun W =>
  let '(e, W) := renameFile from to_ W in (Ok (as_result e), W).

(** [os.Create]: an empty file, whatever was there. *)
Definition create_file (name : string) : M World (Result file) := fun W =>
  match io_call W with
  | (Some e, W) => (Ok (inl e), W)
  | (None, W) => (Ok (inr (mkFile name 0 true)), W <| files ::= <[ name := [] ]> |>)
  end.

(** A call on the directory, next to some other state. *)
Definition on_dir {T A : Type} (m : M World A) : M (T * World) A :=
  zoom snd (fun W '(t, _) => (t, W)) m.

Section handles.
Implicit Types f : file.

(** A call that only needs the handle to be open. *)
Definition file_call : M (file * World) (Result unit) := fun '(f, W) =>
  if fl_open f then let '(e, W) := io_call W in (Ok (as_result e), (f, W))
  else (Ok (inl IOErr), (f, W)).

Definition file_Sync : M (file * World) (Result unit) := file_call.

Definition file_Close : M (file * World) (Result unit) :=
  r ← file_call; _ ← modify (fun '(f, W) => (f <| fl_open := false |>, W)); mret r.

Definition file_Size : M (file * World) (Result Z) :=
  _ ←? file_call; gets (fun '(f, W) => inr (len (content (fl_name f) W))).

Definition file_Seek (offset : Z) : M (file * World) (Result unit) :=
  _ ←? file_call; _ ← modify (fun '(f, W) => (f <| fl_pos := offset |>, W)); no_error.

Definition file_Truncate (n : Z) : M (file * World) (Result unit) :=
  _ ←? file_call;
  _ ← modify (fun '(f, W) => (f, W <| files ::= <[ fl_name f := truncate_to n (content (fl_name f) W) ]> |>));
  no_error.

(** Bytes that reach the file. *)
Definition appended (data : bytes) : file * World -> file * World := fun '(f, W) =>
  let data := (content (fl_name f) W ++ data)%list in
  (f <| fl_pos := len data |>, W <| files ::= <[ fl_name f := data ]> |>).

Definition file_Write (data : bytes) : M (file * World) (Result unit) := fun '(f, W) =>
  if fl_open f then
    match io W with
    | (Works, W) => (Ok (inr tt), appended data (f, W))
    | (Fails n, W) => (Ok (inl IOErr), appended (take n data) (f, W))
    end
  else (Ok (inl IOErr), (f, W)).

(** [io.ReadFull] into a buffer of [n] bytes. *)
Definition file_ReadFull (n : Z) : M (file * World) (Result bytes) :=
  if n =? 0 then mret (inr [])
  else
    _ ←? file_call;
    fun '(f, W) =>
      let rest := slice_from (content (fl_name f) W) (fl_pos f) in
      if len rest =? 0 then (Ok (inl ErrEOF), (f, W))
      else if len rest <? n then (Ok (inl ErrUnexpectedEOF), (f <| fl_pos := len (content (fl_name f) W) |>, W))
      else (Ok (inr (slice_to rest n)), (f <| fl_pos ::= Z.add n |>, W)).

End handles.

(** ** Calls that work *)

Section working.
Context (W : World) (HW : faults W = []).

Lemma io_call_works : io_call W = (None, W).
Proof using HW. unfold io_call, io. by rewrite HW. Qed.

Lemma file_call_works f : fl_open f = true -> file_call (f, W) = (Ok (inr tt), (f, W)).
Proof using HW. intros Ho. unfold file_call. by rewrite Ho, io_call_works. Qed.

Lemma open_file_works name :
  open_file name W = (Ok (inr (mkFile name 0 true)), W <| files ::= <[ name := content name W ]> |>).
Proof using HW. unfold open_file, openFile. by rewrite !io_call_works. Qed.

Lemma file_Write_works data f :
  fl_open f = true -> file_Write data (f, W) = (Ok (inr tt), appended data (f, W)).
Proof using HW. intros Ho. unfold file_Write, io. by rewrite Ho, HW. Qed.

Lemma file_Size_works f :
  fl_open f = true -> file_Size (f, W) = (Ok (inr (len (content (fl_name f) W))), (f, W)).
Proof using HW. intros Ho. unfold file_Size. by run (file_call_works f Ho). Qed.

Lemma file_Seek_works offset f :
  fl_open f = true -> file_Seek offset (f, W) = (Ok (inr tt), (f <| fl_pos := offset |>, W)).
Proof using HW. intros Ho. unfold file_Seek. by run (file_call_works f Ho). Qed.

Lemma file_Close_works f :
  fl_open f = true -> file_Close (f, W) = (Ok (inr tt), (f <| fl_open := false |>, W)).
Proof using HW. intros Ho. unfold file_Close. by run (file_call_works f Ho). Qed.

(** The three outcomes of [io.ReadFull]. *)
Lemma ReadFull_exact f pre data rest :
  fl_open f = true -> content (fl_name f) W = pre ++ data ++ rest -> fl_pos f = len pre ->
  file_ReadFull (len data) (f, W) = (Ok (inr data), (f <| fl_pos := len pre + len data |>, W)).
Proof using HW.
  intros Ho Hc Hp. unfold file_ReadFull. destruct (_ =? 0) eqn:E; to_prop.
  - destruct data; [|rewrite len_cons in E; pose proof (len_nonneg data); lia].
    rewrite len_nil, Z.add_0_r, <-Hp. by destruct f.
  - run (file_call_works f Ho). cbv [on_ok]. rewrite Hc, Hp.
    replace (slice_from (pre ++ data ++ rest) (len pre)) with (data ++ rest)
      by (unfold slice_from, len; by rewrite Nat2Z.id, drop_app_length).
    rewrite len_app. pose proof (len_nonneg data). pose proof (len_nonneg rest).
    rewrite (proj2 (Z.eqb_neq _ _)), (proj2 (Z.ltb_ge _ _)) by lia.
    replace (slice_to (data ++ rest) (len data)) with data
      by (unfold slice_to, len; by rewrite Nat2Z.id, take_app_length).
    destruct f. cbn in Hp. subst. by rewrite Z.add_comm.
Qed.

Lemma ReadFull_eof f n :
  fl_open f = true -> 0 < n -> fl_pos f = len (content (fl_name f) W) ->
  file_ReadFull n (f, W) = (Ok (inl ErrEOF), (f, W)).
Proof using HW.
  intros Ho Hn Hp. unfold file_ReadFull. rewrite (proj2 (Z.eqb_neq _ _)) by lia.
  run (file_call_works f Ho). cbv [on_ok]. rewrite Hp. unfold slice_from, len.
  by rewrite Nat2Z.id, drop_all.
Qed.

Lemma ReadFull_short f n pre rest :
  fl_open f = true -> content (fl_name f) W = pre ++ rest -> fl_pos f = len pre ->
  0 < len rest < n ->
  file_ReadFull n (f, W) =
    (Ok (inl ErrUnexpectedEOF), (f <| fl_pos := len (pre ++ rest) |>, W)).
Proof using HW.
  intros Ho Hc Hp Hn. unfold file_ReadFull. rewrite (proj2 (Z.eqb_neq _ _)) by lia.
  run (file_call_works f Ho). cbv [on_ok]. rewrite Hc, Hp.
  replace (slice_from (pre ++ rest) (len pre)) with rest
    by (unfold slice_from, len; by rewrite Nat2Z.id, drop_app_length).
  by rewrite (proj2 (Z.eqb_neq _ _)), (proj2 (Z.ltb_lt _ _)) by lia.
Qed.

Lemma file_Truncate_works f n :
  fl_open f = true ->
  file_Truncate n (f, W) =
    (Ok (inr tt), (f, W <| files ::= <[ fl_name f := truncate_to n (content (fl_name f) W) ]> |>)).
Proof using HW. intros Ho. unfold file_Truncate. by run (file_call_works f Ho). Qed.

End working.

Lemma string_length_app (a b : string) :
  String.length (a ++ b) = (String.length a + String.length b)%nat.
Proof. induction a as [|x a IH]; [done|]. exact (f_equal S IH). Qed.

Lemma content_insert name data W : content name (W <| files ::= <[ name := data ]> |>) = data.
Proof. unfold content. simpl. by rewrite lookup_insert_eq. Qed.

Lemma content_insert_ne name name' data W :
  name <> name' -> content name (W <| files ::= <[ name' := data ]> |>) = content name W.
Proof. intros. unfold content. simpl. by rewrite lookup_insert_ne. Qed.

Lemma truncate_to_prefix (a b : bytes) : truncate_to (len a) (a ++ b) = a.
Proof. unfold truncate_to, len. rewrite Nat2Z.id, <-app_assoc. by apply take_app_length. Qed.
