(* ===== verification/Pb.v ===== *)
(** * Pb: the Raft wire types of [raftpb/raft.pb.go]

    The plain data carried by the messages [Entry], [SnapshotMeta], [HardState]
    and [Message] (the generated reflection code is not modelled).  A proto3
    field that is absent has its zero value, so [msg0] is Go's [&Message{}]. *)

From S2P Require Export Bytes.

Inductive MessageType : Type :=
| MsgUnknown | MsgApp | MsgAppResp | MsgVote | MsgVoteResp | MsgSnap | MsgHup
| MsgBeat | MsgProp | MsgHeartbeat | MsgHeartbeatResp | MsgReadIndex
| MsgReadIndexResp | MsgCheckQuorum | MsgPreVote | MsgPreVoteResp
| MsgTransferLeader | MsgTimeoutNow.

#[export] Instance MessageType_eq_dec : EqDecision MessageType.
Proof. solve_decision. Defined.

Record Entry : Type := mkEntry {
  e_Index : Z;
  e_Term : Z;
  e_Data : bytes
}.

Record SnapshotMeta : Type := mkSnap {
  LastIncludedIndex : Z;
  LastIncludedTerm : Z
}.

Record HardState : Type := mkHard {
  h_Term : Z;
  h_VotedFor : Z;
  h_CommittedIndex : Z
}.

Record Message : Type := mkMessage {
  m_Type : MessageType;
  m_From : Z;
  m_To : Z;
  m_Index : Z;
  m_LogTerm : Z;
  m_Term : Z;
  m_Commit : Z;
  m_Entries : list Entry;
  m_Reject : bool;
  m_RejectHint : Z;
  m_Snapshot : option SnapshotMeta;
  m_Context : bytes
}.

#[export] Instance Entry_eq_dec : EqDecision Entry.
Proof. solve_decision. Defined.
#[export] Instance SnapshotMeta_eq_dec : EqDecision SnapshotMeta.
Proof. solve_decision. Defined.
#[export] Instance HardState_eq_dec : EqDecision HardState.
Proof. solve_decision. Defined.
#[export] Instance Message_eq_dec : EqDecision Message.
Proof. solve_decision. Defined.

#[export] Instance eta_Message : Eta Message := fun m =>
  mkMessage (m_Type m) (m_From m) (m_To m) (m_Index m) (m_LogTerm m) (m_Term m)
    (m_Commit m) (m_Entries m) (m_Reject m) (m_RejectHint m) (m_Snapshot m) (m_Context m).

Definition msg0 : Message :=
  mkMessage MsgUnknown 0 0 0 0 0 0 [] false 0 None [].

Definition mkmsg (t : MessageType) : Message := msg0 <| m_Type := t |>.

(** [IsEmptyHardState] of [raft/raft.go]; [None] is the nil pointer. *)
Definition IsEmptyHardState (hard : option HardState) : bool :=
  match hard with
  | None => true
  | Some h => (h_Term h =? 0) && (h_VotedFor h =? 0) && (h_CommittedIndex h =? 0)
  end.

(** Values that fit the widths of the proto fields. *)
Definition entry_wf (e : Entry) : Prop := is_u64 (e_Index e) /\ is_u64 (e_Term e).
Definition snap_wf (s : SnapshotMeta) : Prop :=
  is_u64 (LastIncludedIndex s) /\ is_u64 (LastIncludedTerm s).
Definition hard_wf (h : HardState) : Prop :=
  is_u64 (h_Term h) /\ is_u64 (h_VotedFor h) /\ is_u64 (h_CommittedIndex h).
