(* ===== verification/Quorum.v ===== *)
(** * Quorum: majority configurations ([raft/quorum/quorum.go])

    [MajorityConfig] is Go's [map[uint64]struct{}], a finite set of voter ids.
    [MajorityConfig_VoteResult] tallies votes and [MajorityConfig_CommittedIndex]
    computes the log index a majority has acknowledged.  Both iterate over a Go
    map, whose order is unspecified: here the order is that of [elements], and
    the characterisations below mention sets only, so they hold for any order. *)

From S2P Require Export Prelude.

Inductive VoteResult : Type := VotePending | VoteLost | VoteWon.

#[export] Instance VoteResult_eq_dec : EqDecision VoteResult.
Proof. solve_decision. Defined.

Abbreviation MajorityConfig := (gset Z).

(** One iteration of the loop of [VoteResult]: the counters are
    [(granted, missing)]. *)
Definition tally_vote (votes : gmap Z bool) (acc : Z * Z) (id : Z) : Z * Z :=
  let '(granted, missing) := acc in
  match votes !! id : option bool with
  | None => (granted, missing + 1)
  | Some v => (if v then granted + 1 else granted, missing)
  end.

Definition MajorityConfig_VoteResult (c : MajorityConfig) (votes : gmap Z bool) : VoteResult :=
  if Z.of_nat (size c) =? 0 then VoteWon
  else
    let '(granted, missing) := foldl (tally_vote votes) (0, 0) (elements c) in
    let q := Z.of_nat (size c) / 2 + 1 in
    if q <=? granted then VoteWon
    else if q <=? granted + missing then VotePending
    else VoteLost.

(** The interface [AckedIndexer]: [AckedIndex(id)] returns an index and whether
    it was found. *)
Definition AckedIndexer : Type := Z -> option Z.

(** One iteration of the loop that fills [srt] from its end. *)
Definition fill_acked (l : AckedIndexer) (acc : list Z * Z) (id : Z) : list Z * Z :=
  let '(srt, i) := acc in
  match l id with
  | Some idx => (<[Z.to_nat i := idx]> srt, i - 1)
  | None => (srt, i)
  end.

Definition MajorityConfig_CommittedIndex (c : MajorityConfig) (l : AckedIndexer) : Z :=
  let n := Z.of_nat (size c) in
  if n =? 0 then MaxUint64
  else
    let '(srt, _) := foldl (fill_acked l) (replicate (Z.to_nat n) 0, n - 1) (elements c) in
    let srt := merge_sort Z.le srt in
    let pos := n - (n / 2 + 1) in
    default 0 (index srt pos).

(** ** Specification vocabulary *)

(** The size of a majority of [c]. *)
Definition quorum (c : MajorityConfig) : Z := Z.of_nat (size c) / 2 + 1.

(** The voters that granted, and those that have not answered. *)
Definition granted_by (c : MajorityConfig) (votes : gmap Z bool) : gset Z :=
  filter (fun id => votes !! id = Some true) c.
Definition missing_in (c : MajorityConfig) (votes : gmap Z bool) : gset Z :=
  filter (fun id => votes !! id = None) c.

(** The voters that acknowledged index [i]; a voter with no progress counts as 0. *)
Definition acked_at_least (c : MajorityConfig) (l : AckedIndexer) (i : Z) : gset Z :=
  filter (fun id => i <= default 0 (l id)) c.

(** [votes'] answers at least what [votes] answers, the same way. *)
Definition extends (votes votes' : gmap Z bool) : Prop := votes ⊆ votes'.

(** ** Counting *)

Lemma size_filter_elements (P : Z -> Prop) `{!forall x, Decision (P x)} (c : gset Z) :
  size (filter P c) = length (filter P (elements c)).
Proof.
  unfold filter at 1, set_filter. apply size_list_to_set.
  apply NoDup_filter, NoDup_elements.
Qed.

Lemma size_nonempty (c : gset Z) : c <> ∅ -> size c <> 0%nat.
Proof. intros Hne Hsz. apply Hne. apply leibniz_equiv, size_empty_inv, Hsz. Qed.

Lemma tally_votes_count votes l g m :
  foldl (tally_vote votes) (g, m) l =
  (g + len (filter (fun id => votes !! id = Some true) l),
   m + len (filter (fun id => votes !! id = None) l)).
Proof.
  revert g m. induction l as [|id l IH]; intros g m; simpl.
  { rewrite !Z.add_0_r. done. }
  rewrite !filter_cons.
  destruct (votes !! id) as [[]|] eqn:E; rewrite IH;
    repeat (case_decide; try congruence); rewrite ?len_cons; f_equal; lia.
Qed.

Lemma VoteResult_unfold c votes :
  MajorityConfig_VoteResult c votes =
  if Z.of_nat (size c) =? 0 then VoteWon
  else if quorum c <=? Z.of_nat (size (granted_by c votes)) then VoteWon
  else if quorum c <=? Z.of_nat (size (granted_by c votes)) + Z.of_nat (size (missing_in c votes))
       then VotePending else VoteLost.
Proof.
  unfold MajorityConfig_VoteResult, granted_by, missing_in, quorum.
  rewrite tally_votes_count, !size_filter_elements. done.
Qed.

Lemma VoteResult_won_iff c votes :
  c <> ∅ -> MajorityConfig_VoteResult c votes = VoteWon <->
    quorum c <= Z.of_nat (size (granted_by c votes)).
Proof.
  intros Hne. rewrite VoteResult_unfold.
  pose proof (size_nonempty c Hne).
  split_ifs; split; intros; try done; lia.
Qed.

(** Two sets of voters that together outnumber the configuration share one. *)
Lemma majorities_meet (c X Y : gset Z) :
  X ⊆ c -> Y ⊆ c ->
  Z.of_nat (size c) < Z.of_nat (size X) + Z.of_nat (size Y) ->
  exists id, id ∈ X /\ id ∈ Y.
Proof.
  intros HX HY Hsz.
  destruct (decide (X ∩ Y = ∅)) as [Hd|Hd].
  - assert (size (X ∪ Y) = (size X + size Y)%nat) by (apply size_union; set_solver).
    assert (size (X ∪ Y) <= size c)%nat by (apply subseteq_size; set_solver). lia.
  - apply set_choose_L in Hd as [id ?]. exists id. set_solver.
Qed.

Lemma quorum_double c : Z.of_nat (size c) < quorum c + quorum c.
Proof. unfold quorum. Z.to_euclidean_division_equations. lia. Qed.

Lemma granted_by_subset c votes : granted_by c votes ⊆ c.
Proof. unfold granted_by. set_solver. Qed.

Lemma granted_by_mono c votes votes' :
  extends votes votes' -> granted_by c votes ⊆ granted_by c votes'.
Proof.
  intros Hs id. unfold granted_by. rewrite !elem_of_filter.
  intros [? ?]. split; [|done]. eapply lookup_weaken; eauto.
Qed.

(** ** The order statistic behind [CommittedIndex] *)

Definition count_ge (i : Z) (l : list Z) : nat := length (filter (fun x => i <= x) l).

#[export] Instance count_ge_perm i : Proper (Permutation ==> eq) (count_ge i).
Proof. intros l l' H. unfold count_ge. by rewrite H. Qed.

Lemma count_ge_app i l k : count_ge i (l ++ k) = (count_ge i l + count_ge i k)%nat.
Proof. unfold count_ge. by rewrite filter_app, length_app. Qed.

Lemma count_ge_all i l : Forall (fun x => i <= x) l -> count_ge i l = length l.
Proof.
  intros H. unfold count_ge. f_equal. induction H; [done|].
  rewrite filter_cons_True; [|done]. by f_equal.
Qed.

Lemma count_ge_none i l : Forall (fun x => x < i) l -> count_ge i l = 0%nat.
Proof.
  intros H. unfold count_ge. induction H; [done|].
  rewrite filter_cons_False; [done|lia].
Qed.

Lemma count_ge_le i l : (count_ge i l <= length l)%nat.
Proof. apply length_filter. Qed.

(** In a sorted list the element at [pos] is at most everything from [pos] on
    and at least everything before it. *)
Lemma sorted_count_ge l pos v :
  StronglySorted Z.le l -> l !! pos = Some v ->
  (length l - pos <= count_ge v l)%nat /\
  (forall i, v < i -> (count_ge i l < length l - pos)%nat).
Proof.
  intros Hs Hv.
  rewrite <-(take_drop_middle l pos v Hv) in Hs |- *.
  pose proof (lookup_lt_Some _ _ _ Hv).
  assert (Hlen : length (take pos l) = pos) by (rewrite length_take; lia).
  apply StronglySorted_app in Hs as (Hb & _ & Ha).
  apply StronglySorted_cons in Ha as [Ha _].
  rewrite length_app, Hlen. simpl. split.
  - rewrite count_ge_app. rewrite (count_ge_all v (v :: _)); [simpl; lia|].
    constructor; [lia|]. done.
  - intros i Hi. rewrite count_ge_app.
    rewrite (count_ge_none i (take pos l)).
    + change (v :: drop (S pos) l) with ([v] ++ drop (S pos) l).
      rewrite count_ge_app, (count_ge_none i [v]) by (repeat constructor; lia).
      pose proof (count_ge_le i (drop (S pos) l)). lia.
    + apply Forall_forall. intros x Hx. specialize (Hb x v Hx ltac:(left)). lia.
Qed.

(** Filling [srt] from the end yields a permutation of the acknowledged indices,
    zero-filled. *)
Lemma fill_acked_perm l ids k pre :
  (length ids <= k)%nat ->
  fst (foldl (fill_acked l) (replicate k 0 ++ pre, Z.of_nat k - 1) ids) ≡ₚ
  ((fun id => default 0 (l id)) <$> ids) ++ replicate (k - length ids) 0 ++ pre.
Proof.
  revert k pre. induction ids as [|id ids IH]; intros k pre Hk; simpl in *.
  { by rewrite Nat.sub_0_r. }
  destruct (l id) as [idx|] eqn:E; simpl.
  - destruct k as [|k]; [lia|].
    assert (<[Z.to_nat (Z.of_nat (S k) - 1) := idx]> (replicate (S k) 0 ++ pre)
            = replicate k 0 ++ idx :: pre) as ->.
    { rewrite replicate_S_end, <-app_assoc.
      replace (Z.to_nat (Z.of_nat (S k) - 1)) with (length (replicate k 0%Z) + 0)%nat
        by (rewrite length_replicate; lia).
      by rewrite insert_app_r. }
    replace (Z.of_nat (S k) - 1 - 1) with (Z.of_nat k - 1) by lia.
    rewrite IH by lia. rewrite <-Permutation_middle, app_assoc, <-Permutation_middle.
    by rewrite <-app_assoc.
  - rewrite IH by lia.
    replace (k - length ids)%nat with (S (k - S (length ids)))%nat by lia.
    simpl. by rewrite <-Permutation_middle.
Qed.

Lemma CommittedIndex_sorted c l :
  c <> ∅ ->
  exists (srt : list Z) (pos : nat) (v : Z),
    MajorityConfig_CommittedIndex c l = v /\ srt !! pos = Some v /\
    StronglySorted Z.le srt /\
    srt ≡ₚ ((fun id => default 0 (l id)) <$> elements c) /\
    Z.of_nat (length srt - pos) = quorum c.
Proof.
  intros Hne.
  pose proof (size_nonempty c Hne).
  unfold MajorityConfig_CommittedIndex, quorum.
  assert ((Z.of_nat (size c) =? 0) = false) as -> by lia.
  rewrite Nat2Z.id.
  pose proof (fill_acked_perm l (elements c) (size c) []) as Hp.
  rewrite app_nil_r in Hp.
  destruct (foldl _ _ (elements c)) as [srt i] eqn:Ef; simpl in Hp.
  assert (Hle : length (elements c) = size c) by done.
  rewrite Hle, Nat.sub_diag, !app_nil_r in Hp. specialize (Hp ltac:(lia)).
  set (pos := Z.of_nat (size c) - (Z.of_nat (size c) / 2 + 1)).
  assert (Hlen : length (merge_sort Z.le srt) = size c).
  { rewrite merge_sort_Permutation, Hp, length_fmap. done. }
  assert (0 <= pos < Z.of_nat (size c)) by (unfold pos; Z.to_euclidean_division_equations; lia).
  destruct (index_is_Some (merge_sort Z.le srt) pos) as [v Hv].
  { unfold len. rewrite Hlen. lia. }
  exists (merge_sort Z.le srt), (Z.to_nat pos), v. split_and!.
  - by rewrite Hv.
  - unfold index in Hv. by rewrite decide_True in Hv by lia.
  - apply StronglySorted_merge_sort; apply _.
  - by rewrite merge_sort_Permutation.
  - rewrite Hlen. unfold pos. Z.to_euclidean_division_equations. lia.
Qed.

Lemma acked_count c l i :
  size (acked_at_least c l i) =
  count_ge i ((fun id => default 0 (l id)) <$> elements c).
Proof.
  unfold acked_at_least, count_ge. rewrite size_filter_elements.
  induction (elements c) as [|id ids IH]; [done|].
  simpl. rewrite !filter_cons. simpl. case_decide; simpl; by rewrite ?IH.
Qed.

Lemma CommittedIndex_order_statistic c l :
  c <> ∅ ->
  quorum c <= Z.of_nat (size (acked_at_least c l (MajorityConfig_CommittedIndex c l))) /\
  (forall i, MajorityConfig_CommittedIndex c l < i ->
     Z.of_nat (size (acked_at_least c l i)) < quorum c).
Proof.
  intros Hne. destruct (CommittedIndex_sorted c l Hne) as (srt & pos & v & -> & Hv & Hs & Hp & Hq).
  destruct (sorted_count_ge srt pos v Hs Hv) as [Hge Hlt].
  split; [|intros i Hi; specialize (Hlt i Hi)]; rewrite acked_count, <-Hp; lia.
Qed.

(** Two won tallies of a non-empty configuration share a granting voter. *)
Lemma won_tallies_meet c votes1 votes2 :
  c <> ∅ ->
  MajorityConfig_VoteResult c votes1 = VoteWon ->
  MajorityConfig_VoteResult c votes2 = VoteWon ->
  exists id, id ∈ c /\ votes1 !! id = Some true /\ votes2 !! id = Some true.
Proof.
  intros Hne H1 H2. rewrite (VoteResult_won_iff _ _ Hne) in H1.
  rewrite (VoteResult_won_iff _ _ Hne) in H2.
  destruct (majorities_meet c (granted_by c votes1) (granted_by c votes2))
    as (id & Hid1 & Hid2); [apply granted_by_subset..| |].
  { pose proof (quorum_double c). lia. }
  unfold granted_by in *. rewrite !elem_of_filter in *. exists id. naive_solver.
Qed.

(** Answering every missing voter with a grant is the most favourable way to
    complete the votes. *)
Definition grant_missing (c : MajorityConfig) (votes : gmap Z bool) : gmap Z bool :=
  votes ∪ gset_to_gmap true (missing_in c votes).

Lemma grant_missing_extends c votes : extends votes (grant_missing c votes).
Proof. apply map_union_subseteq_l. Qed.

Lemma granted_grant_missing c votes :
  granted_by c (grant_missing c votes) = granted_by c votes ∪ missing_in c votes.
Proof.
  apply set_eq. intros id. unfold granted_by, grant_missing, missing_in.
  rewrite elem_of_union, !elem_of_filter, lookup_union, lookup_gset_to_gmap.
  destruct (votes !! id) as [v|] eqn:E; simpl.
  - rewrite union_Some_l. naive_solver.
  - rewrite (left_id None (∪)). rewrite option_guard_bool_decide.
    case_bool_decide as Hf; rewrite elem_of_filter in Hf; naive_solver.
Qed.

Lemma granted_bound c votes votes' :
  extends votes votes' -> granted_by c votes' ⊆ granted_by c votes ∪ missing_in c votes.
Proof.
  intros Hs id. unfold granted_by, missing_in. rewrite elem_of_union, !elem_of_filter.
  intros [Ht Hc]. destruct (votes !! id) as [v|] eqn:E; [|naive_solver].
  assert (votes' !! id = Some v) by (eapply lookup_weaken; eauto). naive_solver.
Qed.

Lemma size_granted_missing c votes :
  size (granted_by c votes ∪ missing_in c votes) =
  (size (granted_by c votes) + size (missing_in c votes))%nat.
Proof.
  apply size_union. unfold granted_by, missing_in. intros id.
  rewrite !elem_of_filter. naive_solver.
Qed.

(** ** Properties *)

(** The vote tally is exact. A configuration is [VoteWon] when the granting
    voters form a majority (or there are no voters), it is [VoteLost] exactly
    when no way of completing the missing answers can win it any more, and it is
    [VotePending] exactly when it is not won yet but some completion wins it. *)
Theorem VoteResult_exact (c : MajorityConfig) (votes : gmap Z bool) :
  (MajorityConfig_VoteResult c votes = VoteWon <->
     c = ∅ \/ quorum c <= Z.of_nat (size (granted_by c votes))) /\
  (MajorityConfig_VoteResult c votes = VoteLost <->
     forall votes', extends votes votes' -> MajorityConfig_VoteResult c votes' <> VoteWon) /\
  (MajorityConfig_VoteResult c votes = VotePending <->
     MajorityConfig_VoteResult c votes <> VoteWon /\
     exists votes', extends votes votes' /\ MajorityConfig_VoteResult c votes' = VoteWon).
Proof.
  destruct (decide (c = ∅)) as [->|Hne].
  { assert (Hall : forall v, MajorityConfig_VoteResult ∅ v = VoteWon) by done.
    rewrite !Hall. split_and!; [naive_solver| |naive_solver].
    split; [done|]. intros H. exfalso. apply (H votes); [unfold extends; done|done]. }
  pose proof (size_nonempty c Hne).
  assert (Hbest : MajorityConfig_VoteResult c (grant_missing c votes) = VoteWon <->
    quorum c <= Z.of_nat (size (granted_by c votes)) + Z.of_nat (size (missing_in c votes))).
  { rewrite (VoteResult_won_iff _ _ Hne), granted_grant_missing, size_granted_missing. lia. }
  assert (Hany : forall votes', extends votes votes' ->
    MajorityConfig_VoteResult c votes' = VoteWon ->
    quorum c <= Z.of_nat (size (granted_by c votes)) + Z.of_nat (size (missing_in c votes))).
  { intros votes' He. rewrite (VoteResult_won_iff _ _ Hne).
    pose proof (subseteq_size _ _ (granted_bound c votes votes' He)) as Hsz.
    rewrite size_granted_missing in Hsz. lia. }
  pose proof (grant_missing_extends c votes) as Hext.
  pose proof (VoteResult_won_iff c votes Hne) as Hwon.
  assert (Hrefl : extends votes votes) by (unfold extends; done).
  split_and!.
  - rewrite Hwon. split; [by right|]. by intros [?|?].
  - rewrite VoteResult_unfold. split_ifs; to_prop; [lia|..]; split; try done.
    + intros HH. exfalso. by apply (HH votes Hrefl), Hwon.
    + intros HH. exfalso. by apply (HH _ Hext), Hbest.
    + intros _ votes' He Hw. specialize (Hany votes' He Hw). lia.
  - rewrite VoteResult_unfold. split_ifs; to_prop; [lia|..]; split; try done.
    + by intros [? _].
    + intros _. split; [done|]. exists (grant_missing c votes). split; [done|]. by apply Hbest.
    + intros (_ & votes' & He & Hw). specialize (Hany votes' He Hw). lia.
Qed.

(** Quorum intersection. Two won elections of the same configuration share a
    voter that granted both, so they cannot be won by disjoint sets of voters. *)
Theorem VoteResult_intersect (c : MajorityConfig) (votes1 votes2 : gmap Z bool) :
  c <> ∅ ->
  MajorityConfig_VoteResult c votes1 = VoteWon ->
  MajorityConfig_VoteResult c votes2 = VoteWon ->
  exists id, id ∈ c /\ votes1 !! id = Some true /\ votes2 !! id = Some true.
Proof.
  apply won_tallies_meet.
Qed.

Definition votes_123 : gmap Z bool := <[1 := true]> (<[2 := true]> ∅).
Definition votes_321 : gmap Z bool := <[3 := true]> (<[2 := true]> (<[1 := false]> ∅)).

Lemma VoteResult_intersect_witness :
  exists id, id ∈ ({[1; 2; 3]} : gset Z) /\
    votes_123 !! id = Some true /\ votes_321 !! id = Some true.
Proof.
  apply (VoteResult_intersect {[1; 2; 3]}); [|vm_compute; reflexivity..].
  intros H. assert (1 ∈ (∅ : gset Z)) by (rewrite <-H; set_solver). set_solver.
Defined.

(** [CommittedIndex] is the largest index a majority has acknowledged: a
    quorum of voters acknowledged it and no larger index has a quorum. *)
Theorem CommittedIndex_largest (c : MajorityConfig) (l : AckedIndexer) :
  c <> ∅ ->
  quorum c <= Z.of_nat (size (acked_at_least c l (MajorityConfig_CommittedIndex c l))) /\
  (forall i, MajorityConfig_CommittedIndex c l < i ->
     Z.of_nat (size (acked_at_least c l i)) < quorum c).
Proof.
  apply CommittedIndex_order_statistic.
Qed.

Definition acked_357 : AckedIndexer := fun id =>
  if id =? 1 then Some 7 else if id =? 2 then Some 3 else if id =? 3 then Some 5 else None.

Lemma CommittedIndex_largest_witness :
  MajorityConfig_CommittedIndex {[1; 2; 3]} acked_357 = 5 /\
  2 <= Z.of_nat (size (acked_at_least {[1; 2; 3]} acked_357 5)) /\
  Z.of_nat (size (acked_at_least {[1; 2; 3]} acked_357 6)) < 2.
Proof.
  assert (Hne : ({[1; 2; 3]} : gset Z) <> ∅).
  { intros H. assert (1 ∈ (∅ : gset Z)) by (rewrite <-H; set_solver). set_solver. }
  destruct (CommittedIndex_largest {[1; 2; 3]} acked_357 Hne) as [H1 H2].
  split; [vm_compute; reflexivity|]. split; [exact H1|].
  apply (H2 6). vm_compute. reflexivity.
Defined.
