(* ===== verification/Tracker.v ===== *)
(** * Tracker: replication progress and votes ([raft/tracker/tracker.go])

    [ProgressTracker] keeps, per voter, how far replication got ([Progress]) and
    the votes of the running election.  Go's [Visit] passes pointers into the
    map, so a visitor mutates the entries in place: [ProgressTracker_Visit] maps
    a function over the entries.  Visitors that send messages do depend on Go's
    map order; they use [visit_order] of the [Runtime] class. *)

From S2P Require Export Quorum.

Record Progress : Type := mkProgress {
  MatchIndex : Z;
  NextIndex : Z;
  RecentActive : bool
}.

#[export] Instance eta_Progress : Eta Progress := fun p =>
  mkProgress (MatchIndex p) (NextIndex p) (RecentActive p).

Record ProgressTracker : Type := mkTracker {
  selfID : Z;
  Voters : MajorityConfig;
  progress : gmap Z Progress;
  votes : gmap Z bool
}.

#[export] Instance eta_ProgressTracker : Eta ProgressTracker := fun t =>
  mkTracker (selfID t) (Voters t) (progress t) (votes t).

(** The choices the Go runtime makes for the program: the values [crypto/rand]
    returns ([choose_int k n] is the [k]-th draw below [n]) and the order in
    which [range] walks a map ([visit_order k] at the [k]-th walk). *)
Class Runtime : Type := {
  choose_int : nat -> Z -> Z;
  choose_int_range : forall k n, 0 < n -> 0 <= choose_int k n < n;
  visit_order : nat -> gmap Z Progress -> list (Z * Progress);
  visit_order_perm : forall k m, visit_order k m ≡ₚ map_to_list m
}.

(** [matchAckIndexer.AckedIndex] *)
Definition matchAckIndexer_AckedIndex (m : gmap Z Progress) : AckedIndexer :=
  fun id => MatchIndex <$> m !! id.

Definition NewTracker (self : Z) (config : MajorityConfig) : ProgressTracker :=
  mkTracker self config {[ self := mkProgress 0 0 false ]} ∅.

Definition ProgressTracker_InitProgress (id mtch next : Z) (t : ProgressTracker) : ProgressTracker :=
  t <| progress ::= <[ id := mkProgress mtch next false ]> |>.

Definition ProgressTracker_IsSingleton (t : ProgressTracker) : bool :=
  Z.of_nat (size (progress t)) =? 1.

Definition ProgressTracker_ResetVotes (t : ProgressTracker) : ProgressTracker :=
  t <| votes := ∅ |>.

Definition ProgressTracker_RecordVote (id : Z) (v : bool) (t : ProgressTracker) : ProgressTracker :=
  t <| votes ::= <[ id := v ]> |>.

Definition ProgressTracker_TallyVotes (t : ProgressTracker) : VoteResult :=
  MajorityConfig_VoteResult (Voters t) (votes t).

Definition ProgressTracker_Committed (t : ProgressTracker) : Z :=
  MajorityConfig_CommittedIndex (Voters t) (matchAckIndexer_AckedIndex (progress t)).

(** The map [votes] built by the visitor of [QuorumActive]. *)
Definition recent_votes (t : ProgressTracker) : gmap Z bool := RecentActive <$> progress t.

Definition ProgressTracker_QuorumActive (t : ProgressTracker) : bool :=
  bool_decide (MajorityConfig_VoteResult (Voters t) (recent_votes t) = VoteWon).

Definition ProgressTracker_Progress (id : Z) (t : ProgressTracker) : option Progress :=
  progress t !! id.

Definition ProgressTracker_Visit (f : Z -> Progress -> Progress) (t : ProgressTracker) : ProgressTracker :=
  t <| progress ::= map_imap (fun id pr => Some (f id pr)) |>.

Definition ProgressTracker_ResetRecentActive (t : ProgressTracker) : ProgressTracker :=
  ProgressTracker_Visit (fun _ pr => pr <| RecentActive := false |>) t.

(** The assignment [prs.f = v] through the pointer [prs := t.Progress(id)]. *)
Definition update_progress (id : Z) (f : Progress -> Progress) (t : ProgressTracker) : ProgressTracker :=
  t <| progress ::= alter f id |>.

(** A tracker as [newRaft] builds it and as every operation keeps it: the voters
    are the ids with a progress entry, the node itself included. *)
Definition tracker_ok (t : ProgressTracker) : Prop :=
  dom (progress t) = Voters t /\ selfID t ∈ Voters t.

(** ** Lemmas *)

Lemma Visit_lookup f t id :
  progress (ProgressTracker_Visit f t) !! id = f id <$> progress t !! id.
Proof. simpl. rewrite map_lookup_imap. by destruct (progress t !! id). Qed.

Lemma Visit_dom f t : dom (progress (ProgressTracker_Visit f t)) = dom (progress t).
Proof.
  apply set_eq. intros id. rewrite !elem_of_dom, Visit_lookup. apply fmap_is_Some.
Qed.

Lemma update_progress_dom id f t :
  dom (progress (update_progress id f t)) = dom (progress t).
Proof. simpl. apply dom_alter_L. Qed.

Lemma tracker_ok_Visit f t : tracker_ok t -> tracker_ok (ProgressTracker_Visit f t).
Proof. intros [Hd Hs]. split; [by rewrite Visit_dom|done]. Qed.

Lemma tracker_ok_update id f t : tracker_ok t -> tracker_ok (update_progress id f t).
Proof. intros [Hd Hs]. split; [by rewrite update_progress_dom|done]. Qed.

Lemma tracker_ok_RecordVote id v t : tracker_ok t -> tracker_ok (ProgressTracker_RecordVote id v t).
Proof. done. Qed.

Lemma tracker_ok_ResetVotes t : tracker_ok t -> tracker_ok (ProgressTracker_ResetVotes t).
Proof. done. Qed.

#[export] Hint Resolve tracker_ok_Visit tracker_ok_update tracker_ok_RecordVote
  tracker_ok_ResetVotes : kvgo.

Lemma tracker_ok_nonempty t : tracker_ok t -> Voters t <> ∅.
Proof. intros [_ Hs] He. rewrite He in Hs. set_solver. Qed.

Lemma tracker_ok_self t : tracker_ok t -> is_Some (ProgressTracker_Progress (selfID t) t).
Proof. intros [Hd Hs]. apply elem_of_dom. by rewrite Hd. Qed.

(** A voter's match index is what the committed index is computed from. *)
Lemma Committed_quorum t :
  tracker_ok t ->
  quorum (Voters t) <=
    Z.of_nat (size (filter (fun id => ProgressTracker_Committed t
       <= default 0 (MatchIndex <$> progress t !! id)) (Voters t))).
Proof.
  intros Hok. pose proof (tracker_ok_nonempty t Hok) as Hne.
  apply (CommittedIndex_order_statistic (Voters t) (matchAckIndexer_AckedIndex (progress t)) Hne).
Qed.
