(* ===== verification/Storage.v ===== *)
(** * Storage: the [Storage] interface of [raft/storage.go]

    [Storage] is the Go interface the Raft core is written against.  Its methods
    are modelled as functions on a storage state; a method that mutates returns
    the new state, and a call that could index out of range is in [res].
    [StorageSpec] states what an implementation promises to the Raft log: a
    storage is a snapshot boundary followed by a contiguous list of entries, and
    each method is described on that view.  [DurableStorage] (in the file
    DurableStorage) discharges it. *)

From S2P Require Export Pb.

Class Storage (S : Type) : Type := {
  InitialState : S -> Result HardState;
  Save : list Entry -> option HardState -> S -> res (S * option error);
  Entries : Z -> Z -> S -> res (Result (list Entry));
  FirstIndex : S -> Z;
  LastIndex : S -> Z;
  Snapshot : S -> Result SnapshotMeta;
  ApplySnapshot : option SnapshotMeta -> S -> res (S * option error);
  Term : Z -> S -> res (Result Z)
}.

(** [contig i l]: the entries of [l] carry the indices [i], [i+1], ... *)
Definition contig (start : Z) (l : list Entry) : Prop :=
  forall (i : nat) (e : Entry), l !! i = Some e -> e_Index e = start + Z.of_nat i.

(** Log indices stay below this bound, so that neither [index+1] nor the
    conversions [int(i)] of the sources overflow. *)
Abbreviation MaxIndex := (2 ^ 63 - 1)%Z.

(** The index of the first entry, [entries[0].Index]. *)
Definition first_of (l : list Entry) : Z := default 0 (e_Index <$> head l).

(** [filterRetainedEntries]: the entries above a snapshot boundary.  The Go loop
    skips the leading entries at or below the boundary. *)
Fixpoint skip_upto (boundary : Z) (l : list Entry) : list Entry :=
  match l with
  | [] => []
  | e :: l' => if e_Index e <=? boundary then skip_upto boundary l' else l
  end.

Definition filterRetainedEntries (entries : list Entry) (lastIncludedIndex : Z) : list Entry :=
  if lastIncludedIndex =? 0 then entries else skip_upto lastIncludedIndex entries.

Class StorageSpec (S : Type) `{!Storage S} : Type := {
  st_ok : S -> Prop;
  st_snap : S -> SnapshotMeta;
  st_log : S -> list Entry;
  st_contig s : st_ok s -> contig (LastIncludedIndex (st_snap s) + 1) (st_log s);
  st_bounds s : st_ok s ->
    0 <= LastIncludedIndex (st_snap s) /\
    LastIncludedIndex (st_snap s) + len (st_log s) < MaxIndex;
  st_FirstIndex s : st_ok s ->
    FirstIndex s = if (LastIncludedIndex (st_snap s) =? 0) && (len (st_log s) =? 0) then 0
                   else LastIncludedIndex (st_snap s) + 1;
  st_LastIndex s : st_ok s -> LastIndex s = LastIncludedIndex (st_snap s) + len (st_log s);
  st_Snapshot s : st_ok s -> Snapshot s = inr (st_snap s);
  st_Term s i : st_ok s ->
    Term i s = Ok (
      let b := LastIncludedIndex (st_snap s) in
      if i <? b then inl ErrCompacted
      else if b + len (st_log s) <? i then inl ErrUnavailable
      else if i =? b then inr (LastIncludedTerm (st_snap s))
      else inr (default 0 (e_Term <$> index (st_log s) (i - b - 1))));
  st_Entries s lo hi : st_ok s ->
    LastIncludedIndex (st_snap s) < lo -> lo < hi ->
    hi <= LastIncludedIndex (st_snap s) + len (st_log s) + 1 ->
    Entries lo hi s =
      Ok (inr (slice (st_log s) (lo - LastIncludedIndex (st_snap s) - 1)
                     (hi - LastIncludedIndex (st_snap s) - 1)));
  st_Entries_total s lo hi : st_ok s -> exists x, Entries lo hi s = Ok x;
  st_Save s ents hard s' : st_ok s ->
    Save ents hard s = Ok (s', None) -> ents <> [] ->
    contig (first_of ents) ents ->
    LastIncludedIndex (st_snap s) < first_of ents ->
    first_of ents <= LastIncludedIndex (st_snap s) + len (st_log s) + 1 ->
    first_of ents + len ents <= MaxIndex ->
    st_ok s' /\ st_snap s' = st_snap s /\
    st_log s' = slice_to (st_log s) (first_of ents - LastIncludedIndex (st_snap s) - 1) ++ ents;
  st_ApplySnapshot s snap s' e : st_ok s ->
    0 < LastIncludedIndex snap -> LastIncludedIndex snap < MaxIndex ->
    ApplySnapshot (Some snap) s = Ok (s', e) ->
    st_ok s' /\
    match e with
    | None => st_snap s' = snap /\ st_log s' = skip_upto (LastIncludedIndex snap) (st_log s)
              /\ LastIncludedIndex (st_snap s) <= LastIncludedIndex snap
    | Some _ => st_snap s' = st_snap s /\ st_log s' = st_log s
    end
}.

(** The last index of the view. *)
Definition st_last {S} `{!Storage S} `{!StorageSpec S} (s : S) : Z :=
  LastIncludedIndex (st_snap s) + len (st_log s).

(** ** Contiguous entry lists *)

Lemma contig_nil start : contig start [].
Proof. intros i e H. by rewrite lookup_nil in H. Qed.

Lemma contig_cons start e l :
  contig start (e :: l) <-> e_Index e = start /\ contig (start + 1) l.
Proof.
  split.
  - intros H. split.
    + specialize (H 0%nat e eq_refl). lia.
    + intros i e' Hi. specialize (H (S i) e' Hi). lia.
  - intros [He Hl] [|i] e' Hi; simpl in Hi.
    + injection Hi as ->. lia.
    + specialize (Hl i e' Hi). lia.
Qed.

Lemma contig_app start l k :
  contig start (l ++ k) <-> contig start l /\ contig (start + len l) k.
Proof.
  revert start. induction l as [|e l IH]; intros start; simpl.
  - rewrite len_nil, Z.add_0_r. split; [|naive_solver]. split; [apply contig_nil|done].
  - rewrite !contig_cons, IH, len_cons.
    replace (start + 1 + len l) with (start + (len l + 1)) by lia. tauto.
Qed.

Lemma contig_take start l n : contig start l -> contig start (take n l).
Proof. intros H i e [Hi _]%lookup_take_Some. by apply H. Qed.

Lemma contig_drop start l n :
  (n <= length l)%nat -> contig start l -> contig (start + Z.of_nat n) (drop n l).
Proof.
  intros Hn H i e Hi. rewrite lookup_drop in Hi. specialize (H _ _ Hi). lia.
Qed.

Lemma contig_first start l : contig start l -> l <> [] -> first_of l = start.
Proof. destruct l as [|e l]; [done|]. intros [? _]%contig_cons _. done. Qed.

Lemma contig_index start l i e :
  contig start l -> index l i = Some e -> e_Index e = start + i.
Proof.
  unfold index. intros H. case_decide; [|done]. intros Hi. specialize (H _ _ Hi). lia.
Qed.

Lemma contig_last start l e :
  contig start l -> last l = Some e -> e_Index e = start + len l - 1.
Proof.
  intros H He. rewrite last_lookup in He. specialize (H _ _ He).
  pose proof (lookup_lt_Some _ _ _ He). unfold len. lia.
Qed.

(** On a contiguous list, skipping to a boundary drops a computed number of
    entries. *)
Lemma skip_upto_contig start l b :
  contig start l -> skip_upto b l = drop (Z.to_nat (b - start + 1)) l.
Proof.
  revert start. induction l as [|e l IH]; intros start H; simpl; [by rewrite drop_nil|].
  apply contig_cons in H as [He Hl]. destruct (e_Index e <=? b) eqn:E; to_prop.
  - rewrite (IH _ Hl). replace (Z.to_nat (b - start + 1)) with (S (Z.to_nat (b - (start + 1) + 1))) by lia.
    done.
  - by replace (Z.to_nat (b - start + 1)) with 0%nat by lia.
Qed.

#[export] Hint Resolve contig_nil contig_take : kvgo.
