(* ===== verification/Codec.v ===== *)
(** * Codec: the on-disk encodings of [raft/message.go]

    The encoders of the sources write into a caller's buffer at an offset; here
    they return the bytes they store.  [uint32(n)] conversions are the wrapping
    of [PutUint32]. *)

From S2P Require Export Storage.

Definition SnapshotMetaBytes : Z := 16.
Definition HardStateBytes : Z := 24.
Definition frameHeaderSize : Z := 4.

Definition entrySize (e : Entry) : Z := 8 + 8 + len (e_Data e).

Definition encodeEntry (e : Entry) : bytes :=
  PutUint64 (e_Index e) ++ PutUint64 (e_Term e) ++ e_Data e.

Definition DecodeEntry (data : bytes) : Result Entry :=
  if len data <? 16 then inl ErrUnexpectedBytes
  else inr (mkEntry (Uint64 data) (Uint64 (slice_from data 8)) (slice_from data 16)).

Definition encodeHardState (h : HardState) : bytes :=
  PutUint64 (h_Term h) ++ PutUint64 (h_VotedFor h) ++ PutUint64 (h_CommittedIndex h).

Definition DecodeHardState (data : bytes) : Result HardState :=
  if negb (len data =? HardStateBytes) then inl ErrUnexpectedBytes
  else inr (mkHard (Uint64 (slice data 0 8)) (Uint64 (slice data 8 16)) (Uint64 (slice_from data 16))).

Definition encodeSnapshotMeta (s : SnapshotMeta) : bytes :=
  PutUint64 (LastIncludedIndex s) ++ PutUint64 (LastIncludedTerm s).

Definition DecodeSnapshotMeta (data : bytes) : Result SnapshotMeta :=
  if negb (len data =? SnapshotMetaBytes) then inl ErrUnexpectedBytes
  else inr (mkSnap (Uint64 (slice data 0 8)) (Uint64 (slice data 8 16))).

(** The second loop of [encodeSaveBatch]: each entry is framed by its size. *)
Fixpoint encodeEntries (entries : list Entry) : bytes :=
  match entries with
  | [] => []
  | e :: rest => PutUint32 (entrySize e) ++ encodeEntry e ++ encodeEntries rest
  end.

(** [entryBytes], also [computeTotalSize] of storage.go. *)
Fixpoint computeTotalSize (entries : list Entry) : Z :=
  match entries with
  | [] => 0
  | e :: rest => frameHeaderSize + entrySize e + computeTotalSize rest
  end.

Definition encodeSaveBatch (hard : HardState) (entries : list Entry) : bytes :=
  encodeHardState hard ++ PutUint32 (computeTotalSize entries) ++ encodeEntries entries.

(** The loop of [decodeEntries]; every iteration consumes at least the four
    bytes of a frame header, so [S (length data)] iterations are enough. *)
Fixpoint decodeEntries_loop (fuel : nat) (data : bytes) : Result (list Entry) :=
  match fuel with
  | O => inl (Errorf "out of fuel")
  | S fuel =>
      if len data =? 0 then inr []
      else if len data <? frameHeaderSize then inl ErrCorruption
      else
        let frame := Uint32 (slice data 0 frameHeaderSize) in
        let buf := slice_from data frameHeaderSize in
        if len buf <? frame then inl ErrCorruption
        else
          match DecodeEntry (slice_to buf frame) with
          | inl _ => inl ErrCorruption
          | inr e =>
              match decodeEntries_loop fuel (slice_from buf frame) with
              | inl err => inl err
              | inr rest => inr (e :: rest)
              end
          end
  end.

Definition decodeEntries (data : bytes) : Result (list Entry) :=
  decodeEntries_loop (S (length data)) data.

(** Go also returns the hard state beside the error; no caller reads it then. *)
Definition decodeSaveBatch (batch : bytes) : Result (HardState * list Entry) :=
  if len batch <? HardStateBytes then inl ErrCorruption
  else
    match DecodeHardState (slice batch 0 HardStateBytes) with
    | inl _ => inl ErrCorruption
    | inr hd =>
        let batch := slice_from batch HardStateBytes in
        if len batch <? frameHeaderSize then inl ErrCorruption
        else
          let entryBytes := Uint32 batch in
          let batch := slice_from batch frameHeaderSize in
          if negb (len batch =? entryBytes) then inl ErrCorruption
          else
            match decodeEntries batch with
            | inl _ => inl ErrCorruption
            | inr ents => inr (hd, ents)
            end
    end.

(** ** Lemmas *)

Lemma len_encodeEntry e : len (encodeEntry e) = entrySize e.
Proof. unfold encodeEntry, entrySize. rewrite !len_app, !len_PutUint64. lia. Qed.

Lemma len_encodeHardState h : len (encodeHardState h) = HardStateBytes.
Proof. unfold encodeHardState. by rewrite !len_app, !len_PutUint64. Qed.

Lemma len_encodeEntries ents : len (encodeEntries ents) = computeTotalSize ents.
Proof.
  induction ents as [|e ents IH]; [done|]. cbn [encodeEntries computeTotalSize].
  rewrite !len_app, len_PutUint32, len_encodeEntry, IH. unfold frameHeaderSize. lia.
Qed.

Lemma computeTotalSize_nonneg ents : 0 <= computeTotalSize ents.
Proof. rewrite <-len_encodeEntries. apply len_nonneg. Qed.

Lemma DecodeEntry_encode e : entry_wf e -> DecodeEntry (encodeEntry e) = inr e.
Proof.
  intros [Hi Ht]. unfold DecodeEntry. rewrite len_encodeEntry.
  pose proof (len_nonneg (e_Data e)). unfold entrySize.
  replace (_ <? 16) with false by lia. unfold encodeEntry.
  rewrite Uint64_Put by done. rewrite (slice_from_app (PutUint64 _)) by apply len_PutUint64.
  rewrite Uint64_Put by done. rewrite app_assoc, slice_from_app by
    (rewrite len_app, !len_PutUint64; done).
  by destruct e.
Qed.

(** Reading one field of a record of [uint64]s. *)
Lemma Uint64_tail_field pre v post i :
  len pre = i -> is_u64 v -> Uint64 (slice_from (pre ++ PutUint64 v ++ post) i) = v.
Proof. intros Hi Hv. rewrite slice_from_app by done. by apply Uint64_Put. Qed.

Lemma Uint64_field0 v post : is_u64 v -> Uint64 (slice (PutUint64 v ++ post) 0 8) = v.
Proof. by apply (Uint64_field []). Qed.

Lemma DecodeHardState_encode h : hard_wf h -> DecodeHardState (encodeHardState h) = inr h.
Proof.
  intros (Ht & Hv & Hc). unfold DecodeHardState. rewrite len_encodeHardState. simpl negb.
  unfold encodeHardState.
  rewrite Uint64_field0, (Uint64_field (PutUint64 (h_Term h)) (h_VotedFor h))
    by (rewrite ?len_PutUint64; done).
  rewrite app_assoc, <-(app_nil_r (PutUint64 (h_CommittedIndex h))).
  rewrite Uint64_tail_field by (rewrite ?len_app, ?len_PutUint64; done).
  by destruct h.
Qed.

Lemma DecodeSnapshotMeta_encode s : snap_wf s -> DecodeSnapshotMeta (encodeSnapshotMeta s) = inr s.
Proof.
  intros (Hi & Ht). unfold DecodeSnapshotMeta, encodeSnapshotMeta.
  rewrite len_app, !len_PutUint64. simpl negb.
  rewrite <-(app_nil_r (PutUint64 (LastIncludedTerm s))).
  rewrite Uint64_field0,
    (Uint64_field (PutUint64 (LastIncludedIndex s)) (LastIncludedTerm s))
    by (rewrite ?len_PutUint64; done).
  by destruct s.
Qed.

Lemma decodeEntries_loop_encode ents fuel :
  Forall entry_wf ents -> computeTotalSize ents < 2 ^ 32 ->
  (length ents < fuel)%nat ->
  decodeEntries_loop fuel (encodeEntries ents) = inr ents.
Proof.
  revert fuel. induction ents as [|e ents IH]; intros fuel Hwf Hsz Hf;
    (destruct fuel as [|fuel]; [simpl in Hf; lia|]); [done|].
  apply Forall_cons in Hwf as [He Hwf]. simpl in Hsz, Hf.
  pose proof (computeTotalSize_nonneg ents). pose proof (len_nonneg (e_Data e)).
  unfold frameHeaderSize, entrySize in Hsz.
  cbn [decodeEntries_loop]. change (encodeEntries (e :: ents))
    with (PutUint32 (entrySize e) ++ encodeEntry e ++ encodeEntries ents).
  rewrite !len_app, len_PutUint32, len_encodeEntry, len_encodeEntries.
  replace (_ =? 0) with false by (unfold entrySize; lia).
  replace (_ <? frameHeaderSize) with false by (unfold entrySize, frameHeaderSize; lia).
  rewrite slice_0_to, slice_to_app_len by apply len_PutUint32.
  rewrite <-(app_nil_r (PutUint32 (entrySize e))) at 1.
  assert (Hfr : Uint32 (PutUint32 (entrySize e) ++ []) = entrySize e).
  { apply Uint32_Put. unfold is_u32, entrySize. lia. }
  rewrite app_nil_r in *. rewrite Hfr.
  rewrite slice_from_app by apply len_PutUint32.
  rewrite len_app, len_encodeEntry, len_encodeEntries.
  replace (_ <? entrySize e) with false by lia.
  rewrite slice_to_app_len, DecodeEntry_encode by (done || apply len_encodeEntry).
  rewrite slice_from_app by apply len_encodeEntry.
  rewrite IH; [done|done|lia|lia].
Qed.

Lemma length_encodeEntries ents : (length ents <= length (encodeEntries ents))%nat.
Proof.
  induction ents as [|e ents IH]; [done|]. cbn [encodeEntries length]. rewrite !length_app, length_PutUint32. lia.
Qed.

Lemma decodeSaveBatch_encode hard ents :
  hard_wf hard -> Forall entry_wf ents -> computeTotalSize ents < 2 ^ 32 ->
  decodeSaveBatch (encodeSaveBatch hard ents) = inr (hard, ents).
Proof.
  intros Hh He Hs. unfold decodeSaveBatch, encodeSaveBatch.
  pose proof (computeTotalSize_nonneg ents).
  rewrite len_app, len_encodeHardState, len_app, len_PutUint32, len_encodeEntries.
  replace (_ <? HardStateBytes) with false by (unfold HardStateBytes; lia).
  rewrite slice_0_to, slice_to_app_len by apply len_encodeHardState.
  rewrite DecodeHardState_encode by done.
  rewrite slice_from_app by apply len_encodeHardState.
  rewrite len_app, len_PutUint32, len_encodeEntries.
  replace (_ <? frameHeaderSize) with false by (unfold frameHeaderSize; lia).
  rewrite Uint32_Put by (unfold is_u32; lia).
  rewrite slice_from_app by apply len_PutUint32.
  rewrite len_encodeEntries, Z.eqb_refl. simpl.
  unfold decodeEntries. rewrite decodeEntries_loop_encode; [done|done|done|].
  pose proof (length_encodeEntries ents). lia.
Qed.
