(* ===== verification/Protocol.v ===== *)
(** * Protocol: the request and response payloads ([protocol/message.go])

    [Cmd] and [Status] are [uint8]s: the decoders accept values the constants do
    not name.  The encoders fill one buffer field by field; here they return its
    bytes.  [int] has 64 bits. *)

From S2P Require Export Codec.

Definition u32Max : Z := 2 ^ 32 - 1.
Definition maxInt : Z := 2 ^ 63 - 1.

Definition requestHeaderSize : Z := 1 + 1 + 8 + 4 + 4 + 4.
Definition responseHeaderSize : Z := 1 + 8 + 4.
Definition FlagHasSeq : Z := 1.

Definition CmdGet : Z := 1.
Definition CmdPut : Z := 2.

Definition StatusOK : Z := 0.
Definition StatusNotFound : Z := 1.
Definition StatusError : Z := 2.
Definition StatusTimeout : Z := 3.
Definition statusMaxKnown : Z := 4.

Record Request : Type := mkRequest {
  q_Cmd : Z;
  q_Key : bytes;
  q_Value : bytes;
  q_Seq : Z
}.

Record Response : Type := mkResponse {
  p_Status : Z;
  p_Value : bytes;
  p_Seq : Z
}.

Definition lenFromU32 (u : Z) : Z * bool :=
  if maxInt <? u then (0, false) else (u, true).

Definition ensureU32Len (n : Z) : option error :=
  if u32Max <? n then Some ErrFrameTooLarge else None.

Definition statusCanCarryValue (st : Z) : bool := st =? StatusOK.

Definition EncodeRequest (req : Request) : Result bytes :=
  let klen := len (q_Key req) in
  match ensureU32Len klen with
  | Some e => inl e
  | None =>
      let vlen := len (q_Value req) in
      match ensureU32Len vlen with
      | Some e => inl e
      | None =>
          let flags := if q_Cmd req =? CmdPut then Z.lor 0 FlagHasSeq else 0 in
          inr (PutUint8 (q_Cmd req) ++ PutUint8 flags ++ PutUint64 (q_Seq req) ++
               PutUint32 0 ++ PutUint32 klen ++ PutUint32 vlen ++ q_Key req ++ q_Value req)
      end
  end.

Definition DecodeRequest (payload : bytes) : Result Request :=
  if len payload <? requestHeaderSize then inl ErrInvalidMessage
  else
    let cmd := Uint8 payload in
    let flags := Uint8 (slice_from payload 1) in
    let seq := Uint64 (slice payload 2 10) in
    let ridU32 := Uint32 (slice payload 10 14) in
    let kU32 := Uint32 (slice payload 14 18) in
    let vU32 := Uint32 (slice payload 18 22) in
    let '(ridlen, ok1) := lenFromU32 ridU32 in
    if negb ok1 then inl ErrInvalidMessage
    else
      let '(klen, ok2) := lenFromU32 kU32 in
      if negb ok2 then inl ErrInvalidMessage
      else
        let '(vlen, ok3) := lenFromU32 vU32 in
        if negb ok3 then inl ErrInvalidMessage
        else
          let need := requestHeaderSize + ridlen + klen + vlen in
          if negb (len payload =? need) then inl ErrInvalidMessage
          else
            let off := requestHeaderSize + ridlen in
            let key := slice payload off (off + klen) in
            let off := off + klen in
            let val := slice payload off (off + vlen) in
            inr (mkRequest cmd key val (if negb (Z.land flags FlagHasSeq =? 0) then seq else 0)).

Definition EncodeResponse (resp : Response) : Result bytes :=
  let vlen := len (p_Value resp) in
  match ensureU32Len vlen with
  | Some e => inl e
  | None =>
      if statusMaxKnown <? p_Status resp then inl ErrUnknownStatus
      else if negb (statusCanCarryValue (p_Status resp)) && negb (vlen =? 0) then inl ErrInvalidMessage
      else inr (PutUint8 (p_Status resp) ++ PutUint64 (p_Seq resp) ++ PutUint32 vlen ++ p_Value resp)
  end.

Definition DecodeResponse (payload : bytes) : Result Response :=
  if len payload <? responseHeaderSize then inl ErrInvalidMessage
  else
    let st := Uint8 payload in
    let seq := Uint64 (slice payload 1 9) in
    let vU32 := Uint32 (slice payload 9 13) in
    let '(vlen, ok) := lenFromU32 vU32 in
    if negb ok then inl ErrInvalidMessage
    else
      let need := responseHeaderSize + vlen in
      if negb (len payload =? need) then inl ErrInvalidMessage
      else if statusMaxKnown <? st then inl ErrUnknownStatus
      else if negb (statusCanCarryValue st) && negb (vlen =? 0) then inl ErrInvalidMessage
      else inr (mkResponse st (slice payload responseHeaderSize need) seq).

(** ** Round trips *)

(** The values a [Request] or [Response] of the sources can have. *)
Definition request_wf (req : Request) : Prop := 0 <= q_Cmd req < 256 /\ is_u64 (q_Seq req).
Definition response_wf (resp : Response) : Prop := 0 <= p_Status resp < 256 /\ is_u64 (p_Seq resp).

Lemma lenFromU32_u32 u : is_u32 u -> lenFromU32 u = (u, true).
Proof. unfold is_u32, lenFromU32, maxInt. intros H. by rewrite (proj2 (Z.ltb_ge _ _)) by lia. Qed.

Lemma DecodeRequest_Encode req b :
  request_wf req -> EncodeRequest req = inr b ->
  DecodeRequest b = inr (mkRequest (q_Cmd req) (q_Key req) (q_Value req)
                           (if q_Cmd req =? CmdPut then q_Seq req else 0)).
Proof.
  intros [Hc Hs] H. unfold EncodeRequest, ensureU32Len, u32Max in H.
  destruct (_ <? len (q_Key req)) eqn:E1; to_prop; [done|]. destruct (_ <? len (q_Value req)) eqn:E2; to_prop; [done|].
  apply (inj inr) in H as <-. pose proof (len_nonneg (q_Key req)). pose proof (len_nonneg (q_Value req)).
  set (fl := if q_Cmd req =? CmdPut then Z.lor 0 FlagHasSeq else 0).
  assert (Hfl : 0 <= fl < 256 /\ negb (Z.land fl FlagHasSeq =? 0) = (q_Cmd req =? CmdPut))
    by (subst fl; by destruct (_ =? _)). destruct Hfl as [Hfl Hbit].
  unfold DecodeRequest. rewrite !len_app, !len_PutUint8, len_PutUint64, !len_PutUint32. unfold requestHeaderSize.
  rewrite (proj2 (Z.ltb_ge _ _)) by lia.
  rewrite Uint8_Put by done. rewrite slice_from_app by apply len_PutUint8. rewrite Uint8_Put by done.
  rewrite (app_assoc (PutUint8 (q_Cmd req))), Uint64_field by (done || len_fields).
  rewrite (app_assoc _ (PutUint64 _)), Uint32_field by (done || len_fields).
  rewrite (app_assoc _ (PutUint32 0)), Uint32_field by (unfold is_u32; done || lia || len_fields).
  rewrite (app_assoc _ (PutUint32 (len (q_Key req)))), Uint32_field by (unfold is_u32; done || lia || len_fields).
  rewrite !lenFromU32_u32 by (unfold is_u32; lia). cbn [negb].
  rewrite (proj2 (Z.eqb_eq _ _)) by lia. cbn [negb]. f_equal. f_equal.
  - rewrite (app_assoc _ (PutUint32 (len (q_Value req)))). apply slice_field; len_fields.
  - rewrite (app_assoc _ (PutUint32 (len (q_Value req)))), (app_assoc _ (q_Key req)).
    apply slice_tail_field; len_fields.
  - by rewrite Hbit.
Qed.

Lemma EncodeRequest_total req :
  len (q_Key req) < 2 ^ 32 -> len (q_Value req) < 2 ^ 32 -> exists b, EncodeRequest req = inr b.
Proof.
  intros Hk Hv. unfold EncodeRequest, ensureU32Len, u32Max.
  rewrite !(proj2 (Z.ltb_ge _ _)) by lia. by eexists.
Qed.

Lemma DecodeResponse_Encode resp b :
  response_wf resp -> EncodeResponse resp = inr b -> DecodeResponse b = inr resp.
Proof.
  intros [Hc Hs] H. unfold EncodeResponse, ensureU32Len, u32Max in H.
  destruct (_ <? len _) eqn:E1; to_prop; [done|]. destruct (statusMaxKnown <? _) eqn:E2; [done|].
  destruct (negb (statusCanCarryValue _) && _) eqn:E3; [done|]. apply (inj inr) in H as <-.
  pose proof (len_nonneg (p_Value resp)).
  unfold DecodeResponse. rewrite !len_app, len_PutUint8, len_PutUint64, len_PutUint32. unfold responseHeaderSize.
  rewrite (proj2 (Z.ltb_ge _ _)) by lia.
  rewrite Uint8_Put by done. rewrite Uint64_field by (done || len_fields).
  rewrite (app_assoc (PutUint8 _)), Uint32_field by (unfold is_u32; done || lia || len_fields).
  rewrite lenFromU32_u32 by (unfold is_u32; lia). cbn [negb].
  rewrite (proj2 (Z.eqb_eq _ _)) by lia. cbn [negb]. rewrite E2, E3. destruct resp as [st v sq]. cbn [p_Status p_Value p_Seq]. f_equal. f_equal.
  rewrite (app_assoc _ (PutUint32 _)). apply slice_tail_field; len_fields.
Qed.
