(* ===== verification/Frame.v ===== *)
(** * Frame: length-prefixed frames on a byte stream ([transport/frame.go])

    A [Framer] reads from the bytes that arrive before the stream ends, and
    [f_end] is what the underlying reader reports then: [io.EOF] when the peer
    closes, another error when a deadline expires.  Written bytes are appended to
    [f_out]; [flush] is the outcome of [Flush]. *)

From S2P Require Export Codec.

Definition DefaultMaxFrameSize : Z := Z.shiftl 16 20.

Record Framer : Type := mkFramer {
  f_in : bytes;
  f_end : error;
  f_out : bytes;
  f_maxPayload : Z;
  f_readDL : bool;   (* the reader supports deadlines *)
  f_writeDL : bool
}.

#[export] Instance eta_Framer : Eta Framer := fun f =>
  mkFramer (f_in f) (f_end f) (f_out f) (f_maxPayload f) (f_readDL f) (f_writeDL f).

Definition NewFramer (input : bytes) (end_ : error) (readDL writeDL : bool) : Framer :=
  mkFramer input end_ [] DefaultMaxFrameSize readDL writeDL.

Definition SetMaxPayload (n : Z) (f : Framer) : Framer := f <| f_maxPayload := n |>.

(** [io.ReadFull]: [io.EOF] only if nothing was read. *)
Definition readFull (n : Z) (end_ : error) (s : bytes) : Result bytes * bytes :=
  if len s <? n then
    (inl (match end_ with
          | ErrEOF => if len s =? 0 then ErrEOF else ErrUnexpectedEOF
          | e => e
          end), [])
  else (inr (slice_to s n), slice_from s n).

Definition readFrameMax (end_ : error) (maxPayload : Z) (s : bytes) : Result bytes * bytes :=
  if maxPayload <=? 0 then (inl ErrInvalidFrame, s)
  else
    match readFull 4 end_ s with
    | (inl e, s) => (inl e, s)
    | (inr hdr, s) =>
        let ln := Uint32 hdr in
        if (ln <? 0) || (maxPayload <? ln) then (inl ErrFrameTooLarge, s)
        else if ln =? 0 then (inr [], s)
        else
          match readFull ln end_ s with
          | (inl e, s) => (inl e, s)
          | (inr payload, s) => (inr payload, s)
          end
    end.

Definition writeFrame (payload out : bytes) : option error * bytes :=
  if 2 ^ 32 - 1 <? len payload then (Some ErrFrameTooLarge, out)
  else (None, out ++ PutUint32 (len payload) ++ payload).

Definition Framer_Read (f : Framer) : Result bytes * Framer :=
  let '(r, s) := readFrameMax (f_end f) (f_maxPayload f) (f_in f) in (r, f <| f_in := s |>).

Definition Framer_Write (flush : option error) (payload : bytes) (f : Framer) : option error * Framer :=
  let '(e, out) := writeFrame payload (f_out f) in
  let f := f <| f_out := out |> in
  match e with Some e => (Some e, f) | None => (flush, f) end.

(** [setDL] is the outcome of [SetReadDeadline]; a zero deadline means none. *)
Definition Framer_ReadWithDeadline (deadline : option (option error)) (f : Framer) : Result bytes * Framer :=
  match deadline with
  | None => Framer_Read f
  | Some setDL =>
      if negb (f_readDL f) then (inl (Errorf "reader/writer does not support deadlines"), f)
      else match setDL with Some e => (inl e, f) | None => Framer_Read f end
  end.

Definition Framer_ReadWithTimeout (timeout : Z) (setDL : option error) (f : Framer) : Result bytes * Framer :=
  if timeout <? 0 then (inl (Errorf "invalid timeout"), f)
  else if timeout =? 0 then Framer_Read f
  else Framer_ReadWithDeadline (Some setDL) f.

Definition Framer_WriteWithDeadline (deadline : option (option error)) (flush : option error)
  (payload : bytes) (f : Framer) : option error * Framer :=
  match deadline with
  | None => Framer_Write flush payload f
  | Some setDL =>
      if negb (f_writeDL f) then (Some (Errorf "reader/writer does not support deadlines"), f)
      else match setDL with Some e => (Some e, f) | None => Framer_Write flush payload f end
  end.

Definition Framer_WriteWithTimeout (timeout : Z) (setDL flush : option error) (payload : bytes) (f : Framer)
  : option error * Framer :=
  if timeout <? 0 then (Some (Errorf "invalid timeout"), f)
  else if timeout =? 0 then Framer_Write flush payload f
  else Framer_WriteWithDeadline (Some setDL) flush payload f.

(** ** What a reader gets from a writer *)

(** The frames written for a list of payloads. *)
Definition wire (payloads : list bytes) : bytes :=
  mjoin ((fun p => PutUint32 (len p) ++ p) <$> payloads).

(** [n] reads in a row. *)
Fixpoint read_many (n : nat) (f : Framer) : list (Result bytes) * Framer :=
  match n with
  | O => ([], f)
  | S n => let '(r, f) := Framer_Read f in let '(rs, f) := read_many n f in (r :: rs, f)
  end.

Fixpoint write_many (payloads : list bytes) (f : Framer) : Framer :=
  match payloads with
  | [] => f
  | p :: ps => write_many ps (Framer_Write None p f).2
  end.

Lemma write_many_wire ps f :
  Forall (fun p => len p < 2 ^ 32) ps -> f_out (write_many ps f) = f_out f ++ wire ps.
Proof.
  revert f. induction ps as [|p ps IH]; intros f Hps; [by rewrite app_nil_r|].
  apply Forall_cons in Hps as [Hp Hps]. cbn [write_many]. rewrite IH by done.
  unfold Framer_Write, writeFrame. rewrite (proj2 (Z.ltb_ge _ _)) by lia.
  simpl f_out. unfold wire. cbn [fmap list_fmap mjoin list_join]. by rewrite <-app_assoc.
Qed.

Lemma read_frame p tl f :
  f_in f = (PutUint32 (len p) ++ p) ++ tl -> len p <= f_maxPayload f -> len p < 2 ^ 32 -> 0 < f_maxPayload f ->
  Framer_Read f = (inr p, f <| f_in := tl |>).
Proof.
  intros Hin Hmax H32 Hpos. unfold Framer_Read, readFrameMax. rewrite Hin.
  rewrite (proj2 (Z.leb_gt _ _)) by lia. unfold readFull.
  pose proof (len_nonneg p). pose proof (len_nonneg tl).
  rewrite !len_app, len_PutUint32, (proj2 (Z.ltb_ge _ 4)) by lia.
  rewrite <-app_assoc, slice_to_app_len, slice_from_app by apply len_PutUint32.
  rewrite <-(app_nil_r (PutUint32 _)), Uint32_Put by (unfold is_u32; lia).
  rewrite (proj2 (Z.ltb_ge _ 0)), (proj2 (Z.ltb_ge (f_maxPayload f) _)) by lia. cbn [orb].
  destruct (len p =? 0) eqn:E; to_prop.
  - assert (p = []) as -> by (apply nil_length_inv; unfold len in *; lia). done.
  - rewrite len_app, (proj2 (Z.ltb_ge _ (len p))) by lia. by rewrite slice_to_app_len, slice_from_app.
Qed.

Lemma read_many_wire ps f tl :
  Forall (fun p => len p <= f_maxPayload f /\ len p < 2 ^ 32) ps -> 0 < f_maxPayload f ->
  f_in f = wire ps ++ tl ->
  read_many (length ps) f = (inr <$> ps, f <| f_in := tl |>).
Proof.
  revert f. induction ps as [|p ps IH]; intros f Hps Hpos Hin; [destruct f; simpl in *; by subst|].
  apply Forall_cons in Hps as [[Hp1 Hp2] Hps]. cbn [length read_many].
  rewrite (read_frame p (wire ps ++ tl)); [|by rewrite Hin, app_assoc|done..].
  rewrite IH by done. done.
Qed.

(** A stream that ends inside a frame gives an error, not a payload. *)
Lemma read_torn p n f :
  f_in f = take n (PutUint32 (len p) ++ p) -> (n < length (PutUint32 (len p) ++ p))%nat -> len p < 2 ^ 32 ->
  exists e, (Framer_Read f).1 = inl e.
Proof.
  intros Hin Hn H32. unfold Framer_Read, readFrameMax.
  destruct (_ <=? 0); [by eexists|]. unfold readFull at 1. rewrite Hin.
  assert (Hl : len (take n (PutUint32 (len p) ++ p)) = Z.of_nat n) by (unfold len at 1; rewrite length_take; lia).
  rewrite Hl. destruct (_ <? 4) eqn:E4; to_prop; [by eexists|].
  assert (Hhdr : slice_to (take n (PutUint32 (len p) ++ p)) 4 = PutUint32 (len p)).
  { unfold slice_to. rewrite take_take, Nat.min_l by lia.
    rewrite take_app_le by (rewrite length_PutUint32; lia). apply take_ge. rewrite length_PutUint32. lia. }
  assert (Hu : Uint32 (PutUint32 (len p)) = len p).
  { rewrite <-(app_nil_r (PutUint32 _)). apply Uint32_Put. pose proof (len_nonneg p). unfold is_u32. lia. }
  rewrite Hhdr, Hu. destruct (_ || _); [by eexists|].
  rewrite length_app, length_PutUint32 in Hn.
  destruct (len p =? 0) eqn:E0; to_prop; [unfold len in *; lia|].
  unfold readFull. rewrite (proj2 (Z.ltb_lt _ (len p))); [by eexists|].
  unfold slice_from. unfold len at 1. rewrite length_drop. unfold len in Hl at 1.
  apply Nat2Z.inj in Hl. rewrite Hl. unfold len. lia.
Qed.

Lemma read_many_app a b f :
  read_many (a + b) f = let '(rs, f1) := read_many a f in let '(rs', f2) := read_many b f1 in (rs ++ rs', f2).
Proof.
  revert f. induction a as [|a IH]; intros f; simpl; [by destruct (read_many b f)|].
  destruct (Framer_Read f) as [r f1]. rewrite IH. destruct (read_many a f1) as [rs f2]. by destruct (read_many b f2).
Qed.

(** Frames followed by a part of another one. *)
Lemma read_many_torn ps p n f :
  Forall (fun p => len p <= f_maxPayload f /\ len p < 2 ^ 32) ps -> 0 < f_maxPayload f -> len p < 2 ^ 32 ->
  (n < length (PutUint32 (len p) ++ p))%nat ->
  f_in f = wire ps ++ take n (PutUint32 (len p) ++ p) ->
  exists e, (read_many (S (length ps)) f).1 = (inr <$> ps) ++ [inl e].
Proof.
  intros Hps Hpos H32 Hn Hin. replace (S (length ps)) with (length ps + 1)%nat by lia.
  rewrite read_many_app. rewrite (read_many_wire ps f _ Hps Hpos Hin). cbn [read_many].
  destruct (read_torn p n (f <| f_in := take n (PutUint32 (len p) ++ p) |>)) as [e He]; [done..|].
  destruct (Framer_Read _) as [r f1]. simpl in He. subst r. by exists e.
Qed.
