(* ===== verification/Mux.v ===== *)
(** * Mux: requests multiplexed over one connection ([transport/multiplexed_transport.go])

    A frame carries the id of a request and its payload.  A client registers a
    channel under a fresh id, writes the frame and waits; a goroutine reads the
    frames that arrive and passes each to the channel registered under its id.  A
    server echoes the id of the last frame it received.

    [Request] is modelled in the pieces between its blocking points, and the read
    loop in two: looking the channel up, and delivering, between which [Close] may
    run.  A response channel has room for one response; [mx_chans] holds what is in
    them.  Allocating an id and registering it are one piece. *)

From S2P Require Export GoState Frame.

Definition DefaultMaxInflight : Z := 128.

Record response : Type := mkMuxResponse {
  rp_payload : bytes;
  rp_err : option error
}.

(** Where the read loop is. *)
Inductive loop_state : Type :=
| LoopIdle
| LoopReading
| LoopDelivering (id : Z) (ch : nat) (payload : bytes)
| LoopExited.

Record MultiplexedTransport : Type := mkMux {
  mx_framer : Framer;
  mx_pending : gmap Z nat;
  mx_nextId : Z;
  mx_inflight : Z;                      (* what is in [inflightSem] *)
  mx_maxInflight : Z;
  mx_closed : bool;                     (* [closeCh] is closed *)
  mx_lastRecvId : Z;
  mx_loop : loop_state;
  mx_chans : gmap nat (list response);
  mx_nextCh : nat
}.

#[export] Instance eta_Mux : Eta MultiplexedTransport := fun t =>
  mkMux (mx_framer t) (mx_pending t) (mx_nextId t) (mx_inflight t) (mx_maxInflight t) (mx_closed t)
    (mx_lastRecvId t) (mx_loop t) (mx_chans t) (mx_nextCh t).

Definition NewMultiplexedTransportWithLimit (conn : Framer) (maxInflight : Z) : MultiplexedTransport :=
  let maxInflight := if maxInflight <=? 0 then DefaultMaxInflight else maxInflight in
  mkMux conn ∅ 0 0 maxInflight false 0 LoopIdle ∅ 0.

Definition NewMultiplexedTransport (conn : Framer) : MultiplexedTransport :=
  NewMultiplexedTransportWithLimit conn DefaultMaxInflight.

(** The loop ends at the first id that is not pending; [None]: out of fuel. *)
Fixpoint allocateID_loop (fuel : nat) (pending : gmap Z nat) (nextId : Z) : option Z :=
  match fuel with
  | O => None
  | S fuel =>
      let id := wrap32 (nextId + 1) in
      match pending !! id with
      | None => Some id
      | Some _ => allocateID_loop fuel pending id
      end
  end.

(** One try more than there are pending requests is enough. *)
Definition allocateID (t : MultiplexedTransport) : option (Z * MultiplexedTransport) :=
  id ← allocateID_loop (S (size (mx_pending t))) (mx_pending t) (mx_nextId t);
  Some (id, t <| mx_nextId := id |>).

(** ** Streaming *)

Section streaming.
Context (deadline : option (option error)).

Definition Mux_Send (flush : option error) (payload : bytes) (t : MultiplexedTransport)
  : option error * MultiplexedTransport :=
  if len payload =? 0 then (Some (Errorf "invalid payload"), t)
  else
    let id := mx_lastRecvId t in
    let buf := PutUint32 id ++ payload in
    let '(e, f) := Framer_WriteWithDeadline deadline flush buf (mx_framer t) in
    (e, t <| mx_lastRecvId := 0 |> <| mx_framer := f |>).

Definition Mux_receiveInternal (t : MultiplexedTransport) : Result (Z * bytes) * MultiplexedTransport :=
  let '(r, f) := Framer_ReadWithDeadline deadline (mx_framer t) in
  let t := t <| mx_framer := f |> in
  match r with
  | inl e => (inl e, t)
  | inr payload =>
      if len payload <=? 4 then (inl (Errorf "transport: invalid payload"), t)
      else (inr (Uint32 (slice payload 0 4), slice_from payload 4), t)
  end.

Definition Mux_Receive (t : MultiplexedTransport) : Result bytes * MultiplexedTransport :=
  match Mux_receiveInternal t with
  | (inl e, t) => (inl e, t)
  | (inr (id, payload), t) => (inr payload, t <| mx_lastRecvId := id |>)
  end.

End streaming.

(** ** Requests *)

(** [Request] up to its first [select]: the payload is checked and the read loop
    started. *)
Definition Request_start (payload : bytes) (t : MultiplexedTransport) : option error * MultiplexedTransport :=
  if len payload =? 0 then (Some (Errorf "invalid payload"), t)
  else (None, match mx_loop t with LoopIdle => t <| mx_loop := LoopReading |> | _ => t end).

(** The case the [select] takes; [None] if it is not ready. *)
Inductive acquire_case : Type := SemFree | AcquireClosed | AcquireDone (e : error).

Definition Request_acquire (c : acquire_case) (t : MultiplexedTransport)
  : option (option error * MultiplexedTransport) :=
  match c with
  | SemFree => if mx_inflight t <? mx_maxInflight t then Some (None, t <| mx_inflight ::= Z.add 1 |>) else None
  | AcquireClosed => if mx_closed t then Some (Some ErrTransportClosed, t) else None
  | AcquireDone e => Some (Some e, t)
  end.

(** The id, the channel registered under it and the frame to write. *)
Definition Request_register (payload : bytes) (t : MultiplexedTransport)
  : option (Z * nat * bytes * MultiplexedTransport) :=
  '(requestId, t) ← allocateID t;
  let buf := PutUint32 requestId ++ payload in
  let respCh := mx_nextCh t in
  Some (requestId, respCh, buf,
    t <| mx_pending ::= <[ requestId := respCh ]> |> <| mx_chans ::= <[ respCh := [] ]> |> <| mx_nextCh := S respCh |>).

(** [defer func() { <-t.inflightSem }()] *)
Definition release (t : MultiplexedTransport) : MultiplexedTransport := t <| mx_inflight ::= fun n => n - 1 |>.

(** A failed write ends the request. *)
Definition Request_write (deadline : option (option error)) (flush : option error) (requestId : Z) (buf : bytes)
  (t : MultiplexedTransport) : option error * MultiplexedTransport :=
  let '(e, f) := Framer_WriteWithDeadline deadline flush buf (mx_framer t) in
  let t := t <| mx_framer := f |> in
  match e with
  | Some e => (Some e, release (t <| mx_pending ::= delete requestId |>))
  | None => (None, t)
  end.

(** The case the second [select] takes. *)
Inductive wait_case : Type := GotResponse | WaitDone (e : error) | WaitClosed.

Definition Request_wait (c : wait_case) (requestId : Z) (respCh : nat) (t : MultiplexedTransport)
  : option (Result bytes * MultiplexedTransport) :=
  match c with
  | GotResponse =>
      match mx_chans t !! respCh with
      | Some (resp :: rest) =>
          Some (match rp_err resp with Some e => inl e | None => inr (rp_payload resp) end,
                release (t <| mx_chans ::= <[ respCh := rest ]> |>))
      | _ => None
      end
  | WaitDone e => Some (inl e, release (t <| mx_pending ::= delete requestId |>))
  | WaitClosed => if mx_closed t then Some (inl ErrTransportClosed, release t) else None
  end.

(** ** The read loop *)

(** A send on a response channel; [None] if it blocks. *)
Definition send_response (ch : nat) (r : response) (t : MultiplexedTransport) : option MultiplexedTransport :=
  match mx_chans t !! ch with
  | Some [] => Some (t <| mx_chans ::= <[ ch := [r] ]> |>)
  | _ => None
  end.

(** The requests in the order the runtime walks the map. *)
Definition cleanup_pending (order : list (Z * nat)) (t : MultiplexedTransport) : option MultiplexedTransport :=
  foldl (fun t '(id, ch) =>
    t ← t; t ← send_response ch (mkMuxResponse [] (Some ErrTransportClosed)) t;
    Some (t <| mx_pending ::= delete id |>)) (Some t) order.

Definition Mux_cleanup (t : MultiplexedTransport) : option MultiplexedTransport :=
  if mx_closed t then Some t
  else cleanup_pending (map_to_list (mx_pending t)) (t <| mx_closed := true |>).

(** Reading a frame and looking its request up. *)
Definition readLoop_read (t : MultiplexedTransport) : option MultiplexedTransport :=
  match mx_loop t with
  | LoopReading =>
      let '(r, f) := Framer_Read (mx_framer t) in
      let t := t <| mx_framer := f |> in
      match r with
      | inl _ => t ← Mux_cleanup t; Some (t <| mx_loop := LoopExited |>)
      | inr payload =>
          if len payload <? 4 then Some t
          else
            let requestID := Uint32 (slice payload 0 4) in
            let payloadData := slice_from payload 4 in
            if requestID =? 0 then Some t
            else
              match mx_pending t !! requestID with
              | Some ch => Some (t <| mx_loop := LoopDelivering requestID ch payloadData |>)
              | None => Some t
              end
      end
  | _ => None
  end.

Definition readLoop_deliver (t : MultiplexedTransport) : option MultiplexedTransport :=
  match mx_loop t with
  | LoopDelivering requestID ch payload =>
      t ← send_response ch (mkMuxResponse payload None) (t <| mx_pending ::= delete requestID |>);
      Some (t <| mx_loop := LoopReading |>)
  | _ => None
  end.

(** An iteration that nothing interrupts. *)
Definition readLoop_turn (t : MultiplexedTransport) : option MultiplexedTransport :=
  t ← readLoop_read t;
  match mx_loop t with
  | LoopDelivering _ _ _ => readLoop_deliver t
  | _ => Some t
  end.

(** [closeErr] is what closing the connection reports; of what has arrived the reader
    still has [buffered] bytes. *)
Definition Mux_Close (closeErr : option error) (buffered : Z) (t : MultiplexedTransport)
  : option (option error * MultiplexedTransport) :=
  t ← Mux_cleanup (t <| mx_framer ::= fun f => f <| f_in ::= fun s => slice_to s buffered |> <| f_end := ErrClosed |> |>);
  Some (closeErr, t).
