(* ===== verification/MuxSpec.v ===== *)
(** * MuxSpec: every request gets its own response

    Ids of pending requests are distinct, allocation terminates, and the read loop
    routes each frame to the request it answers, whatever else arrives. *)

From S2P Require Export Mux.

(** ** Allocating ids *)

Lemma wrap32_range z : is_u32 (wrap32 z).
Proof. unfold is_u32, wrap32. apply Z.mod_pos_bound. lia. Qed.

Lemma wrap32_add a b : wrap32 (wrap32 a + b) = wrap32 (a + b).
Proof. unfold wrap32. by rewrite Zplus_mod_idemp_l. Qed.

Definition tried (n : Z) (k : nat) : list Z := (fun j => wrap32 (n + Z.of_nat j)) <$> seq 1 k.

Lemma tried_NoDup n k : Z.of_nat k <= 2 ^ 32 -> NoDup (tried n k).
Proof.
  intros Hk. apply NoDup_fmap_2_strong; [|apply NoDup_seq]. intros i j Hi%elem_of_seq Hj%elem_of_seq Heq.
  unfold wrap32 in Heq. apply Nat2Z.inj.
  assert ((Z.of_nat i - Z.of_nat j) mod 2 ^ 32 = 0) as Hm.
  { replace (Z.of_nat i - Z.of_nat j) with ((n + Z.of_nat i) - (n + Z.of_nat j)) by lia.
    by rewrite Zminus_mod, Heq, Z.sub_diag. }
  apply Z.mod_divide in Hm as [q Hq]; [|lia]. assert (q = 0) as -> by nia. lia.
Qed.

Lemma allocateID_fails k pending n :
  allocateID_loop k pending n = None -> Forall (fun id => is_Some (pending !! id)) (tried n k).
Proof.
  revert n. induction k as [|k IH]; intros n H; [constructor|]. cbn [allocateID_loop] in H.
  destruct (pending !! wrap32 (n + 1)) eqn:E; [|done]. apply IH in H. unfold tried. cbn [seq fmap list_fmap].
  constructor; [change (Z.of_nat 1) with 1; by rewrite E|]. rewrite <-fmap_S_seq, <-list_fmap_compose. unfold tried in H.
  rewrite Forall_forall in *. intros x (j & -> & Hj)%list_elem_of_fmap. cbn [compose].
  specialize (H (wrap32 (wrap32 (n + 1) + Z.of_nat j))). rewrite wrap32_add in H.
  replace (n + 1 + Z.of_nat j) with (n + Z.of_nat (S j)) in H by lia. apply H.
  apply list_elem_of_fmap. exists j. split; [|done]. rewrite wrap32_add. f_equal. lia.
Qed.

Lemma allocateID_found k pending n id :
  allocateID_loop k pending n = Some id -> pending !! id = None /\ is_u32 id.
Proof.
  revert n. induction k as [|k IH]; intros n H; [done|]. cbn [allocateID_loop] in H.
  destruct (pending !! wrap32 (n + 1)) eqn:E; [by eapply IH|]. injection H as <-. split; [done|apply wrap32_range].
Qed.

Lemma allocateID_total t :
  Z.of_nat (size (mx_pending t)) < 2 ^ 32 ->
  exists id, allocateID t = Some (id, t <| mx_nextId := id |>) /\ mx_pending t !! id = None /\ is_u32 id.
Proof.
  intros Hs. unfold allocateID. destruct (allocateID_loop _ _ _) as [id|] eqn:E.
  - exists id. split; [done|]. by eapply allocateID_found.
  - exfalso. apply allocateID_fails in E. set (k := S (size (mx_pending t))) in *.
    pose proof (tried_NoDup (mx_nextId t) k ltac:(lia)) as Hnd.
    assert (list_to_set (tried (mx_nextId t) k) ⊆ dom (mx_pending t)) as Hsub.
    { intros x Hx%elem_of_list_to_set. rewrite Forall_forall in E. by apply elem_of_dom, E. }
    apply subseteq_size in Hsub. rewrite size_list_to_set, size_dom in Hsub by done.
    unfold tried in Hsub. rewrite length_fmap, length_seq in Hsub. lia.
Qed.

(** ** The invariant *)

Record mux_ok (t : MultiplexedTransport) : Prop := {
  mo_inj i j ch : mx_pending t !! i = Some ch -> mx_pending t !! j = Some ch -> i = j;
  mo_empty i ch : mx_pending t !! i = Some ch -> mx_chans t !! ch = Some [];
  mo_fresh ch : (mx_nextCh t <= ch)%nat -> mx_chans t !! ch = None
}.

Lemma mux_ok_new f n : mux_ok (NewMultiplexedTransportWithLimit f n).
Proof. by split. Qed.

Lemma register_ok payload t :
  mux_ok t -> Z.of_nat (size (mx_pending t)) < 2 ^ 32 ->
  exists id t', Request_register payload t = Some (id, mx_nextCh t, PutUint32 id ++ payload, t') /\ is_u32 id /\
    mx_pending t !! id = None /\ mux_ok t' /\ mx_pending t' = <[ id := mx_nextCh t ]> (mx_pending t) /\
    mx_chans t' = <[ mx_nextCh t := [] ]> (mx_chans t) /\ mx_framer t' = mx_framer t /\ mx_loop t' = mx_loop t.
Proof.
  intros [Hi He Hf] Hs. destruct (allocateID_total t Hs) as (id & Ha & Hn & Hu). exists id. unfold Request_register.
  rewrite Ha. cbn [mbind option_bind]. eexists. split; [reflexivity|]. split_and!; try done.
  assert (forall i ch, mx_pending t !! i = Some ch -> (ch < mx_nextCh t)%nat) as Hlt.
  { intros i ch H. destruct (decide (mx_nextCh t <= ch)%nat) as [Hge|]; [|lia].
    apply He in H. by rewrite Hf in H. }
  split; simpl.
  - intros i j ch. rewrite !lookup_insert_Some. intros [[<- <-]|[? H1]] [[<- ?]|[? H2]]; try done.
    + apply Hlt in H2. lia.
    + apply Hlt in H1. lia.
    + by eapply Hi.
  - intros i ch. rewrite lookup_insert_Some. intros [[<- <-]|[? H]]; [by rewrite lookup_insert_eq|].
    rewrite lookup_insert_ne by (apply Hlt in H; lia). by eapply He.
  - intros ch Hch. rewrite lookup_insert_ne by lia. apply Hf. lia.
Qed.

(** ** Routing *)

(** The response a frame carries for a request. *)
Definition answers (id : Z) (frame : bytes) : bool :=
  negb (len frame <? 4) && (Uint32 (slice frame 0 4) =? id) && negb (id =? 0).

Fixpoint first_answer (id : Z) (frames : list bytes) : option bytes :=
  match frames with
  | [] => None
  | f :: frames => if answers id f then Some (slice_from f 4) else first_answer id frames
  end.

Definition readable (t : MultiplexedTransport) (frame : bytes) : Prop :=
  len frame <= f_maxPayload (mx_framer t) /\ len frame < 2 ^ 32.

(** What reading a frame does. *)
Record routed (frame : bytes) (t t' : MultiplexedTransport) : Prop := {
  ro_ok : mux_ok t';
  ro_loop : mx_loop t' = LoopReading;
  ro_sub : mx_pending t' ⊆ mx_pending t;
  ro_hit id ch : mx_pending t !! id = Some ch -> answers id frame = true ->
    mx_pending t' !! id = None /\ mx_chans t' !! ch = Some [mkMuxResponse (slice_from frame 4) None];
  ro_miss id ch : mx_pending t !! id = Some ch -> answers id frame = false -> mx_pending t' !! id = Some ch;
  ro_other ch : (forall id, mx_pending t !! id <> Some ch) -> mx_chans t' !! ch = mx_chans t !! ch
}.

Lemma routed_skip frame t t' :
  mux_ok t -> mx_loop t = LoopReading -> mx_pending t' = mx_pending t -> mx_chans t' = mx_chans t ->
  mx_nextCh t' = mx_nextCh t -> mx_loop t' = LoopReading ->
  (forall id ch, mx_pending t !! id = Some ch -> answers id frame = false) -> routed frame t t'.
Proof.
  intros [Hi He Hf] Hl Hp Hc Hn Hl' Hno. split; rewrite ?Hp, ?Hc; try done.
  - split; by rewrite ?Hp, ?Hc, ?Hn.
  - intros id ch H Ha. by rewrite (Hno id ch H) in Ha.
Qed.

Lemma routed_deliver frame id ch t t' :
  mux_ok t -> mx_pending t !! id = Some ch -> answers id frame = true ->
  mx_pending t' = delete id (mx_pending t) ->
  mx_chans t' = <[ ch := [mkMuxResponse (slice_from frame 4) None] ]> (mx_chans t) ->
  mx_nextCh t' = mx_nextCh t -> mx_loop t' = LoopReading -> routed frame t t'.
Proof.
  intros [Hi He Hf] Hid Ha Hp Hc Hn Hl'. split; rewrite ?Hp, ?Hc; try done.
  - split; rewrite ?Hp, ?Hc, ?Hn.
    + intros i j c. rewrite !lookup_delete_Some. intros [_ ?] [_ ?]. by eapply Hi.
    + intros i c. rewrite lookup_delete_Some. intros [Hne H].
      rewrite lookup_insert_ne by (intros <-; by apply Hne, (Hi _ _ ch)). by eapply He.
    + intros c Hge. rewrite lookup_insert_ne; [by apply Hf|]. intros <-. apply He in Hid. by rewrite (Hf ch Hge) in Hid.
  - apply delete_subseteq.
  - intros i c H Hi'. assert (i = id) as ->.
    { unfold answers in *. to_prop. lia. }
    rewrite Hid in H. injection H as <-. by rewrite lookup_delete_eq, lookup_insert_eq.
  - intros i c H Hi'. rewrite lookup_delete_ne; [done|]. intros <-. congruence.
  - intros c H. apply lookup_insert_ne. intros <-. by apply (H id).
Qed.

(** One turn on a frame. *)
Lemma readLoop_turn_frame frame rest t :
  mux_ok t -> mx_loop t = LoopReading -> f_in (mx_framer t) = (PutUint32 (len frame) ++ frame) ++ rest ->
  readable t frame -> 0 < f_maxPayload (mx_framer t) ->
  exists t', readLoop_turn t = Some t' /\ routed frame t t' /\ mx_framer t' = (mx_framer t) <| f_in := rest |>.
Proof.
  intros Hok Hl Hin [Hmax H32] Hpos. unfold readLoop_turn, readLoop_read. rewrite Hl, (read_frame frame rest) by done.
  set (t1 := t <| mx_framer := (mx_framer t) <| f_in := rest |> |>).
  assert (mx_loop t1 = LoopReading) as Hl1 by done.
  destruct (len frame <? 4) eqn:E4.
  { exists t1. cbn [mbind option_bind]. rewrite Hl1. split_and!; try done. apply routed_skip; try done.
    intros. unfold answers. by rewrite E4. }
  set (rid := Uint32 (slice frame 0 4)). destruct (rid =? 0) eqn:E0.
  { exists t1. cbn [mbind option_bind]. rewrite Hl1. split_and!; try done. apply routed_skip; try done.
    intros id ch _. unfold answers. fold rid. destruct (Z.eqb_spec rid id) as [Er|Er]; [|by rewrite andb_false_r].
    rewrite <-Er, E0. apply andb_false_r. }
  change (mx_pending t1) with (mx_pending t). destruct (mx_pending t !! rid) as [ch|] eqn:Ep.
  - cbn [mbind option_bind]. unfold readLoop_deliver, send_response. simpl. rewrite (mo_empty t Hok rid ch Ep).
    cbn [mbind option_bind]. eexists. split; [reflexivity|]. split; [|done]. apply (routed_deliver frame rid ch); try done.
    unfold answers. rewrite E4. fold rid. by rewrite Z.eqb_refl, E0.
  - exists t1. cbn [mbind option_bind]. rewrite Hl1. split_and!; try done. apply routed_skip; try done.
    intros id c Hp. unfold answers. fold rid. destruct (Z.eqb_spec rid id) as [Er|Er]; [|by rewrite andb_false_r]. congruence.
Qed.

(** Turns on a sequence of frames. *)
Fixpoint readLoop_turns (n : nat) (t : MultiplexedTransport) : option MultiplexedTransport :=
  match n with
  | O => Some t
  | S n => t ← readLoop_turn t; readLoop_turns n t
  end.

Lemma readLoop_turns_frames frames rest t :
  mux_ok t -> mx_loop t = LoopReading -> f_in (mx_framer t) = wire frames ++ rest ->
  Forall (readable t) frames -> 0 < f_maxPayload (mx_framer t) ->
  exists t', readLoop_turns (length frames) t = Some t' /\ mux_ok t' /\ mx_loop t' = LoopReading /\
    mx_framer t' = (mx_framer t) <| f_in := rest |> /\ mx_pending t' ⊆ mx_pending t /\
    (forall ch, (forall id, mx_pending t !! id <> Some ch) -> mx_chans t' !! ch = mx_chans t !! ch) /\
    forall id ch, mx_pending t !! id = Some ch ->
      match first_answer id frames with
      | Some p => mx_pending t' !! id = None /\ mx_chans t' !! ch = Some [mkMuxResponse p None]
      | None => mx_pending t' !! id = Some ch /\ mx_chans t' !! ch = Some []
      end.
Proof.
  revert t. induction frames as [|f frames IH]; intros t Hok Hl Hin Hr Hpos.
  { exists t. cbn. split_and!; try done; [by destruct t as [[]]; simpl in *; subst|]. intros id ch Hp. split; [done|by eapply mo_empty]. }
  apply Forall_cons in Hr as [Hr1 Hr]. cbn [length readLoop_turns].
  destruct (readLoop_turn_frame f (wire frames ++ rest) t Hok Hl) as (t1 & R1 & [O1 L1 S1 Hit Miss Oth] & F1);
    [by rewrite Hin, app_assoc|done|done|].
  rewrite R1. cbn [mbind option_bind].
  destruct (IH t1 O1 L1) as (t' & R & O' & L' & F' & S' & Oth' & Ans); [by rewrite F1|unfold readable; by rewrite F1|by rewrite F1|].
  exists t'. split; [done|]. split; [done|]. split; [done|]. split; [by rewrite F', F1|].
  assert (forall ch, (forall id, mx_pending t !! id <> Some ch) -> forall id, mx_pending t1 !! id <> Some ch) as Hnp
    by (intros ch H id H1; by apply (H id), (lookup_weaken _ _ _ _ H1)).
  split; [by etransitivity|]. split; [intros ch H; by rewrite Oth', Oth by auto|]. intros id ch Hp. cbn [first_answer].
  destruct (answers id f) eqn:Ea; [|by apply Ans, Miss]. destruct (Hit id ch Hp Ea) as [Hn Hc]. split.
  - destruct (mx_pending t' !! id) eqn:E; [|done]. by rewrite (lookup_weaken _ _ _ _ E S') in Hn.
  - rewrite Oth'; [done|]. intros i Hi. assert (i = id) as -> by (eapply (mo_inj t Hok); [by apply (lookup_weaken _ _ _ _ Hi)|done]).
    congruence.
Qed.

(** ** A client and a server *)

(** A request up to its turn to write, when the semaphore is free. *)
Definition request_begin (p : bytes) (t : MultiplexedTransport) : option MultiplexedTransport :=
  match Request_start p t with
  | (Some _, _) => None
  | (None, t) => match Request_acquire SemFree t with Some (None, t) => Some t | _ => None end
  end.

(** Requests written one after the other, with the id and channel of each. *)
Fixpoint request_all (payloads : list bytes) (t : MultiplexedTransport)
  : option (list (Z * nat) * MultiplexedTransport) :=
  match payloads with
  | [] => Some ([], t)
  | p :: payloads =>
      t ← request_begin p t;
      '(id, ch, buf, t) ← Request_register p t;
      match Request_write None None id buf t with
      | (Some _, _) => None
      | (None, t) => '(l, t) ← request_all payloads t; Some ((id, ch) :: l, t)
      end
  end.

(** A server that receives a request and sends a response, in turn. *)
Fixpoint serve_all (responses : list bytes) (t : MultiplexedTransport)
  : option (list bytes * MultiplexedTransport) :=
  match responses with
  | [] => Some ([], t)
  | r :: responses =>
      match Mux_Receive None t with
      | (inl _, _) => None
      | (inr p, t) =>
          match Mux_Send None None r t with
          | (Some _, _) => None
          | (None, t) => '(ps, t) ← serve_all responses t; Some (p :: ps, t)
          end
      end
  end.

(** The ids of a client that has not made 2^32 requests yet. *)
Definition ids_below (t : MultiplexedTransport) : Prop :=
  0 <= mx_nextId t /\ forall id ch, mx_pending t !! id = Some ch -> 0 < id <= mx_nextId t.

Definition tag (id : Z) (p : bytes) : bytes := PutUint32 id ++ p.

Lemma len_tag id p : len (tag id p) = 4 + len p.
Proof. unfold tag. by rewrite len_app, len_PutUint32. Qed.

Lemma tag_fields id p : is_u32 id -> Uint32 (slice (tag id p) 0 4) = id /\ slice_from (tag id p) 4 = p.
Proof.
  intros Hid. unfold tag. split; [|apply slice_from_app, len_PutUint32].
  apply (Uint32_field [] id p); [done|done|done].
Qed.

Lemma write_tag id p f :
  len p < 2 ^ 32 - 4 ->
  Framer_WriteWithDeadline None None (tag id p) f =
    (None, f <| f_out ::= fun out => out ++ PutUint32 (len (tag id p)) ++ tag id p |>).
Proof.
  intros Hp. cbn. unfold Framer_Write, writeFrame. rewrite (proj2 (Z.ltb_ge _ _)) by (rewrite len_tag; lia). by destruct f.
Qed.

(** Registering takes the next id. *)
Lemma register_next p t :
  mux_ok t -> ids_below t -> mx_nextId t + 1 < 2 ^ 32 ->
  let id := mx_nextId t + 1 in
  Request_register p t = Some (id, mx_nextCh t, tag id p,
    t <| mx_nextId := id |> <| mx_pending ::= <[ id := mx_nextCh t ]> |> <| mx_chans ::= <[ mx_nextCh t := [] ]> |>
      <| mx_nextCh := S (mx_nextCh t) |>).
Proof.
  intros Hok [H0 Hb] Hlt id. assert (mx_pending t !! id = None) as Hn.
  { destruct (mx_pending t !! id) as [ch|] eqn:E; [|done]. apply Hb in E. lia. }
  unfold Request_register, allocateID. cbn [allocateID_loop]. unfold wrap32. rewrite Z.mod_small by lia.
  fold id. rewrite Hn. done.
Qed.

Lemma some_ends {A B C D : Type} (a a' : A) (b b' : B) (c c' : C) (d d' : D) :
  Some (a, b, c, d) = Some (a', b', c', d') -> a = a' /\ d = d'.
Proof. by intros [= -> _ _ ->]. Qed.

Lemma write_twice (f : Framer) a b :
  f <| f_out ::= fun out => out ++ a |> <| f_out ::= fun out => out ++ b |> = f <| f_out ::= fun out => out ++ (a ++ b) |>.
Proof. destruct f. unfold set_field. cbn. by rewrite app_assoc. Qed.

(** The ids and channels of requests written in a row. *)
Fixpoint numbered (id : Z) (ch : nat) (ps : list bytes) : list (Z * nat) :=
  match ps with
  | [] => []
  | _ :: ps => (id + 1, ch) :: numbered (id + 1) (S ch) ps
  end.

Definition fits_frame (max : Z) (p : bytes) : Prop := 0 < len p /\ 4 + len p <= max.

(** The client is ready to make [n] requests. *)
Record client_ready (n : Z) (t : MultiplexedTransport) : Prop := {
  cr_ok : mux_ok t;
  cr_below : ids_below t;
  cr_ids : mx_nextId t + n < 2 ^ 32;
  cr_sem : mx_inflight t + n <= mx_maxInflight t;
  cr_loop : mx_loop t = LoopIdle \/ mx_loop t = LoopReading
}.

Lemma request_begin_ok p t :
  0 < len p -> mx_inflight t < mx_maxInflight t -> mx_loop t = LoopIdle \/ mx_loop t = LoopReading ->
  request_begin p t = Some (t <| mx_loop := LoopReading |> <| mx_inflight ::= Z.add 1 |>).
Proof.
  intros Hp Hs Hl. unfold request_begin, Request_start. rewrite (proj2 (Z.eqb_neq _ _)) by lia.
  assert ((match mx_loop t with LoopIdle => t <| mx_loop := LoopReading |> | _ => t end) = t <| mx_loop := LoopReading |>) as ->.
  { destruct t. simpl in Hl. by destruct Hl as [-> | ->]. }
  unfold Request_acquire. cbn [mx_inflight mx_maxInflight set_field]. simpl.
  by rewrite (proj2 (Z.ltb_lt _ _)) by lia.
Qed.

Lemma pending_small t : ids_below t -> Z.of_nat (size (mx_pending t)) <= mx_nextId t.
Proof.
  intros [H0 Hids]. rewrite <-size_dom.
  assert (dom (mx_pending t) ⊆ list_to_set (Z.of_nat <$> seq 1 (Z.to_nat (mx_nextId t)))) as Hsub.
  { intros i [ch Hi]%elem_of_dom. apply Hids in Hi. apply elem_of_list_to_set, list_elem_of_fmap.
    exists (Z.to_nat i). split; [lia|]. apply elem_of_seq. lia. }
  apply subseteq_size in Hsub. rewrite size_list_to_set in Hsub by (apply NoDup_fmap_2; [apply _|apply NoDup_seq]).
  rewrite length_fmap, length_seq in Hsub. lia.
Qed.

Lemma request_all_spec ps t :
  client_ready (len ps) t -> Forall (fits_frame (2 ^ 32 - 1)) ps ->
  exists t', request_all ps t = Some (numbered (mx_nextId t) (mx_nextCh t) ps, t') /\ mux_ok t' /\
    (ps <> [] -> mx_loop t' = LoopReading) /\
    mx_framer t' = (mx_framer t) <| f_out ::= fun out => out ++ wire (zip_with tag (numbered (mx_nextId t) (mx_nextCh t) ps).*1 ps) |> /\
    mx_pending t ⊆ mx_pending t' /\
    forall id ch, (id, ch) ∈ numbered (mx_nextId t) (mx_nextCh t) ps -> mx_pending t' !! id = Some ch.
Proof.
  revert t. induction ps as [|p ps IH]; intros t [Hok Hb Hlt Hsem Hl] Hps.
  { exists t. do 3 (split; [done|]). split; [|split; [done|by intros id ch ?%elem_of_nil]].
    destruct (mx_framer t). unfold set_field. cbn. f_equal. symmetry. apply app_nil_r. }
  apply Forall_cons in Hps as [[Hp Hp'] Hps]. rewrite len_cons in Hlt, Hsem. pose proof (len_nonneg ps). pose proof Hb as [H0 Hids].
  cbn [request_all]. rewrite request_begin_ok by (done || lia). cbn [mbind option_bind].
  set (ta := t <| mx_loop := LoopReading |> <| mx_inflight ::= Z.add 1 |>).
  assert (Ha : mux_ok ta) by (by destruct Hok). assert (Hba : ids_below ta) by done.
  rewrite register_next by (done || (simpl; lia)). cbn [mbind option_bind]. unfold Request_write.
  rewrite write_tag by lia. cbn beta iota.
  set (id := mx_nextId ta + 1). match goal with |- context [request_all ps ?t1] => set (t1' := t1) end.
  destruct (register_ok p ta Ha) as (id' & t2 & R2 & _ & Hn & O2 & P2 & C2 & _).
  { pose proof (pending_small ta Hba). change (mx_nextId ta) with (mx_nextId t) in *. lia. }
  rewrite register_next in R2 by (done || (simpl; lia)). apply some_ends in R2 as [<- <-]. fold id in Hn, O2, P2, C2.
  assert (Hid : id = mx_nextId t + 1) by done.
  assert (client_ready (len ps) t1') as O1.
  { split; [destruct O2; by split| |unfold t1'; simpl; lia|unfold t1'; simpl; lia|by right].
    split; unfold t1'; simpl; [lia|]. intros i ch. rewrite lookup_insert_Some. intros [[<- _]|[_ Hi]]; [lia|]. apply Hids in Hi. lia. }
  destruct (IH t1' O1) as (t' & R & O' & L' & F' & S' & M'); [done|].
  rewrite R. cbn [mbind option_bind]. exists t'. split; [done|]. split; [done|]. split_and!.
  - intros _. destruct ps; [|by apply L']. simpl in R. by injection R as <-.
  - rewrite F'. change (mx_framer t1') with ((mx_framer t) <| f_out ::= fun out => out ++ PutUint32 (len (tag id p)) ++ tag id p |>).
    by rewrite write_twice.
  - etransitivity; [|exact S']. unfold t1'. simpl. by apply insert_subseteq.
  - intros i ch [[= -> ->]|Hin]%elem_of_cons; [|by apply M'].
    apply (lookup_weaken _ _ _ _ (lookup_insert_eq (mx_pending t) id (mx_nextCh t)) S').
Qed.

Lemma wire_cons p ps : wire (p :: ps) = (PutUint32 (len p) ++ p) ++ wire ps.
Proof. done. Qed.

Lemma serve_all_spec ids ps rs rest t :
  let f := mx_framer t in
  length ids = length ps -> length rs = length ps -> 0 < f_maxPayload f < 2 ^ 32 ->
  Forall is_u32 ids -> Forall (fits_frame (f_maxPayload f)) ps -> Forall (fits_frame (2 ^ 32 - 1)) rs ->
  f_in f = wire (zip_with tag ids ps) ++ rest ->
  exists t', serve_all rs t = Some (ps, t') /\ f_in (mx_framer t') = rest /\
    f_out (mx_framer t') = f_out f ++ wire (zip_with tag ids rs).
Proof.
  revert ps rs t. induction ids as [|id ids IH]; intros [|p ps] [|r rs] t f Hl1 Hl2 Hmax Hid Hps Hrs Hin; try done.
  { exists t. by rewrite app_nil_r. }
  apply Forall_cons in Hid as [Hid Hids], Hps as [[Hp1 Hp2] Hps], Hrs as [[Hr1 Hr2] Hrs]. cbn [serve_all].
  cbn [zip_with] in Hin. unfold f in *. unfold Mux_Receive, Mux_receiveInternal. cbn [Framer_ReadWithDeadline].
  rewrite (read_frame (tag id p) (wire (zip_with tag ids ps) ++ rest)); 
    [|by rewrite Hin, wire_cons, <-(app_assoc (PutUint32 _ ++ _))|rewrite len_tag; lia..|lia].
  rewrite len_tag, (proj2 (Z.leb_gt _ _)) by lia. destruct (tag_fields id p Hid) as [-> ->].
  unfold Mux_Send. rewrite (proj2 (Z.eqb_neq _ _)) by lia. cbn [mx_lastRecvId]. fold (tag id r).
  change (PutUint32 (mx_lastRecvId _) ++ r) with (tag id r). rewrite write_tag by lia. cbn beta iota.
  match goal with |- context [serve_all rs ?t1] => destruct (IH ps rs t1) as (t' & R & Hi & Ho) end; try done; try (simpl in *; lia).
  rewrite R. cbn [mbind option_bind]. exists t'. split; [done|]. split; [done|]. rewrite Ho. cbn [zip_with].
  transitivity ((f_out (mx_framer t) ++ PutUint32 (len (tag id r)) ++ tag id r) ++ wire (zip_with tag ids rs)); [done|].
  by rewrite wire_cons, !app_assoc.
Qed.

Lemma first_answer_own ids rs i id r :
  NoDup ids -> Forall (fun id => 0 < id < 2 ^ 32) ids -> length ids = length rs -> ids !! i = Some id -> rs !! i = Some r ->
  first_answer id (zip_with tag ids rs) = Some r.
Proof.
  revert rs i. induction ids as [|id0 ids IH]; intros [|r0 rs] i Hnd Hu Hl Hi Hr; try done.
  apply NoDup_cons in Hnd as [Hn Hnd]. apply Forall_cons in Hu as [Hu0 Hu]. cbn [zip_with first_answer].
  destruct (tag_fields id0 r0) as [E1 E2]; [unfold is_u32; lia|]. unfold answers. rewrite E1, E2, len_tag.
  pose proof (len_nonneg r0). rewrite (proj2 (Z.ltb_ge _ _)) by lia. destruct i as [|i]; simpl in Hi, Hr.
  - injection Hi as <-. injection Hr as <-. rewrite Z.eqb_refl, (proj2 (Z.eqb_neq _ _)) by lia. done.
  - destruct (Z.eqb_spec id0 id) as [->|Hne]; [exfalso; apply Hn, list_elem_of_lookup; by exists i|]. simpl. apply (IH rs i); try done. by injection Hl.
Qed.

Lemma Forall_zip_with_tag max ids rs :
  max < 2 ^ 32 -> Forall (fits_frame max) rs -> Forall (fun frame => len frame <= max /\ len frame < 2 ^ 32) (zip_with tag ids rs).
Proof.
  intros Hm Hrs. revert ids. induction Hrs as [|r rs [_ Hr] Hrs IH]; intros [|id ids]; [constructor..|].
  cbn [zip_with]. constructor; [|apply IH]. rewrite len_tag. lia.
Qed.

Lemma numbered_ids n ch ps :
  0 <= n -> n + len ps < 2 ^ 32 ->
  NoDup (numbered n ch ps).*1 /\ Forall (fun id => n < id < 2 ^ 32) (numbered n ch ps).*1 /\ length (numbered n ch ps) = length ps.
Proof.
  revert n ch. induction ps as [|p ps IH]; intros n ch H0 Hlt; [by split_and!; constructor|].
  rewrite len_cons in Hlt. pose proof (len_nonneg ps). destruct (IH (n + 1) (S ch)) as (Hnd & Hb & Hl); [lia..|].
  cbn [numbered fmap list_fmap fst length]. split_and!.
  - constructor; [|done]. intros Hin. rewrite Forall_forall in Hb. apply Hb in Hin. lia.
  - constructor; [lia|]. eapply Forall_impl; [exact Hb|]. simpl. lia.
  - by rewrite Hl.
Qed.
