(* ===== verification/Stream.v ===== *)
(** * Stream: the transport interfaces ([transport/transport.go], [transport/tcp.go],
    [transport/adapter.go], [transport/factory.go])

    [StreamTransport] is the interface clients and the server use; its contract is
    [StreamTransportSpec]: what is sent is received, frame by frame.  The plain TCP
    transport and the multiplexed one implement it.  The deadline of a context is
    [None] when it has none, and otherwise the outcome of setting it on the
    connection; [flush] is the outcome of flushing. *)

From S2P Require Export MuxSpec.

Class StreamTransport (T : Type) : Type := {
  st_Send : option (option error) -> option error -> bytes -> T -> option error * T;
  st_Receive : option (option error) -> T -> Result bytes * T
}.

(** ** tcp.go *)

Record TcpStreamTransport : Type := mkTcpStream {
  ts_framer : Framer;
  ts_closed : bool
}.

#[export] Instance eta_TcpStream : Eta TcpStreamTransport := fun t => mkTcpStream (ts_framer t) (ts_closed t).

Definition NewTcpStream (conn : Framer) : TcpStreamTransport := mkTcpStream conn false.

Definition TcpStream_Send (deadline : option (option error)) (flush : option error) (payload : bytes)
  (t : TcpStreamTransport) : option error * TcpStreamTransport :=
  if ts_closed t then (Some (Errorf "transport closed"), t)
  else
    let '(e, f) := Framer_WriteWithDeadline deadline flush payload (ts_framer t) in
    (e, t <| ts_framer := f |>).

Definition TcpStream_Receive (deadline : option (option error)) (t : TcpStreamTransport)
  : Result bytes * TcpStreamTransport :=
  if ts_closed t then (inl (Errorf "transport closed"), t)
  else
    let '(r, f) := Framer_ReadWithDeadline deadline (ts_framer t) in
    (r, t <| ts_framer := f |>).

(** Closing the connection: the reader still has [buffered] bytes. *)
Definition conn_Close (buffered : Z) (f : Framer) : Framer :=
  f <| f_in ::= fun s => slice_to s buffered |> <| f_end := ErrClosed |>.

Definition TcpStream_Close (closeErr : option error) (buffered : Z) (t : TcpStreamTransport)
  : option error * TcpStreamTransport :=
  if ts_closed t then (None, t)
  else (closeErr, t <| ts_closed := true |> <| ts_framer ::= conn_Close buffered |>).

Record TcpRequestTransport : Type := mkTcpRequest {
  tr_framer : Framer;
  tr_closed : bool
}.

#[export] Instance eta_TcpRequest : Eta TcpRequestTransport := fun t => mkTcpRequest (tr_framer t) (tr_closed t).

Definition NewTcpRequest (conn : Framer) : TcpRequestTransport := mkTcpRequest conn false.

(** [Request] up to the wait for the response, and from its arrival on. *)
Definition TcpRequest_write (deadline : option (option error)) (flush : option error) (payload : bytes)
  (t : TcpRequestTransport) : option error * TcpRequestTransport :=
  if tr_closed t then (Some (Errorf "transport closed"), t)
  else
    let '(e, f) := Framer_WriteWithDeadline deadline flush payload (tr_framer t) in
    (Wrap "write request" <$> e, t <| tr_framer := f |>).

Definition TcpRequest_read (deadline : option (option error)) (t : TcpRequestTransport)
  : Result bytes * TcpRequestTransport :=
  let '(r, f) := Framer_ReadWithDeadline deadline (tr_framer t) in
  (match r with inl e => inl (Wrap "read response" e) | inr p => inr p end, t <| tr_framer := f |>).

Definition TcpRequest_Close (closeErr : option error) (buffered : Z) (t : TcpRequestTransport)
  : option error * TcpRequestTransport :=
  if tr_closed t then (None, t)
  else (closeErr, t <| tr_closed := true |> <| tr_framer ::= conn_Close buffered |>).

(** [DialTcpStream], [DialTcpRequest], [DialMultiplexedTransport]: from what dialing gave. *)
Definition dial {T : Type} (new : Framer -> T) (conn : Result Framer) : Result T :=
  match conn with
  | inl e => inl (Wrap "dial" e)
  | inr f => inr (new f)
  end.

Definition DialTcpStream : Result Framer -> Result TcpStreamTransport := dial NewTcpStream.
Definition DialTcpRequest : Result Framer -> Result TcpRequestTransport := dial NewTcpRequest.
Definition DialMultiplexedTransport : Result Framer -> Result MultiplexedTransport := dial NewMultiplexedTransport.

#[export] Instance Tcp_Stream : StreamTransport TcpStreamTransport := {|
  st_Send := TcpStream_Send;
  st_Receive := TcpStream_Receive
|}.

#[export] Instance Mux_Stream : StreamTransport MultiplexedTransport := {|
  st_Send := Mux_Send;
  st_Receive := Mux_Receive
|}.

(** ** factory.go *)

Definition ProtocolTCP : string := "tcp".

(** The four factories: the protocol is checked, then [make] is called. *)
Definition with_protocol {T : Type} (protocol : string) (make : T) : res T :=
  let protocol := if String.eqb protocol "" then ProtocolTCP else protocol in
  if String.eqb protocol ProtocolTCP then Ok make else Panic "transport: unsupported protocol".

Definition NewStreamTransport (protocol : string) (conn : Framer) : res MultiplexedTransport :=
  with_protocol protocol (NewMultiplexedTransport conn).

Definition DialStreamTransport (protocol : string) (conn : Result Framer) : res (Result MultiplexedTransport) :=
  with_protocol protocol (DialMultiplexedTransport conn).

Definition NewRequestTransport (protocol : string) (conn : Framer) : res MultiplexedTransport :=
  with_protocol protocol (NewMultiplexedTransport conn).

Definition DialRequestTransport (protocol : string) (conn : Result Framer) : res (Result MultiplexedTransport) :=
  with_protocol protocol (DialMultiplexedTransport conn).

(** ** adapter.go *)

Section adapter.
Context {T : Type} `{!StreamTransport T}.

(** [streamAsRequest] holds nothing but the stream; its [Request] in two pieces. *)
Definition streamAsRequest_send (deadline : option (option error)) (flush : option error) (payload : bytes) (t : T)
  : option error * T := st_Send deadline flush payload t.

Definition streamAsRequest_receive (deadline : option (option error)) (t : T) : Result bytes * T :=
  st_Receive deadline t.

End adapter.

(** ** The contract *)

(** There is no deadline, or the connection took it. *)
Definition deadline_set (deadline : option (option error)) (supported : bool) : Prop :=
  match deadline with None => True | Some e => e = None /\ supported = true end.

Lemma read_deadline dl f : deadline_set dl (f_readDL f) -> Framer_ReadWithDeadline dl f = Framer_Read f.
Proof. destruct dl as [e|]; [|done]. intros [-> H]. cbn [Framer_ReadWithDeadline]. by rewrite H. Qed.

Lemma write_deadline dl flush p f :
  deadline_set dl (f_writeDL f) -> Framer_WriteWithDeadline dl flush p f = Framer_Write flush p f.
Proof. destruct dl as [e|]; [|done]. intros [-> H]. cbn [Framer_WriteWithDeadline]. by rewrite H. Qed.

(** An open transport [t] has bytes to read and bytes written.  A payload travels as a
    frame that stands for it; sending writes such a frame, and receiving takes the
    first frame of the bytes to read and gives the payload it stands for. *)
Class StreamTransportSpec (T : Type) `{!StreamTransport T} : Type := {
  st_open : T -> Prop;
  st_framer : T -> Framer;
  st_arrive : bytes -> T -> T;
  st_frame : bytes -> bytes -> Prop;
  st_frame_len frame p : st_frame frame p -> len p <= len frame <= len p + 4;
  st_arrive_spec s t : st_open t -> st_open (st_arrive s t) /\
    st_framer (st_arrive s t) = (st_framer t) <| f_in ::= fun i => i ++ s |>;
  st_send_spec dl p t : st_open t -> deadline_set dl (f_writeDL (st_framer t)) -> 0 < len p -> len p + 4 < 2 ^ 32 ->
    exists frame t', st_Send dl None p t = (None, t') /\ st_open t' /\ st_frame frame p /\
      st_framer t' = (st_framer t) <| f_out ::= fun o => o ++ PutUint32 (len frame) ++ frame |>;
  st_receive_spec dl frame p rest t : st_open t -> deadline_set dl (f_readDL (st_framer t)) -> st_frame frame p -> 0 < len p ->
    len p + 4 <= f_maxPayload (st_framer t) < 2 ^ 32 -> f_in (st_framer t) = (PutUint32 (len frame) ++ frame) ++ rest ->
    exists t', st_Receive dl t = (inr p, t') /\ st_open t' /\ st_framer t' = (st_framer t) <| f_in := rest |>
}.

#[export, refine] Instance Tcp_StreamSpec : StreamTransportSpec TcpStreamTransport := {|
  st_open t := ts_closed t = false;
  st_framer := ts_framer;
  st_arrive s t := t <| ts_framer ::= fun f => f <| f_in ::= fun i => i ++ s |> |>;
  st_frame frame p := frame = p
|}.
Proof.
  - intros frame p ->. lia.
  - done.
  - intros dl p t Hop Hdl Hp H32. exists p. cbn [st_Send Tcp_Stream]. unfold TcpStream_Send. rewrite Hop, write_deadline by done. unfold Framer_Write, writeFrame.
    rewrite (proj2 (Z.ltb_ge _ _)) by lia. eexists. split; [reflexivity|]. done.
  - intros dl frame p rest t Hop Hdl -> Hp Hm Hin. cbn [st_Receive Tcp_Stream]. unfold TcpStream_Receive.
    rewrite Hop, read_deadline by done.     rewrite (read_frame p rest) by (done || lia). eexists. done.
Defined.

#[export, refine] Instance Mux_StreamSpec : StreamTransportSpec MultiplexedTransport := {|
  st_open t := is_u32 (mx_lastRecvId t);
  st_framer := mx_framer;
  st_arrive s t := t <| mx_framer ::= fun f => f <| f_in ::= fun i => i ++ s |> |>;
  st_frame frame p := exists id, is_u32 id /\ frame = tag id p
|}.
Proof.
  - intros frame p (id & _ & ->). rewrite len_tag. lia.
  - done.
  - intros dl p t Hop Hdl Hp H32. exists (tag (mx_lastRecvId t) p). cbn [st_Send Mux_Stream]. unfold Mux_Send.
    rewrite (proj2 (Z.eqb_neq _ _)) by lia. fold (tag (mx_lastRecvId t) p).
    rewrite write_deadline by done. change (Framer_Write None ?p ?f) with (Framer_WriteWithDeadline None None p f).
    rewrite write_tag by lia.
    eexists. split; [reflexivity|]. split; [done|]. split; [by eexists|]. done.
  - intros dl frame p rest t Hop Hdl (id & Hid & ->) Hp Hm Hin. cbn [st_Receive Mux_Stream]. unfold Mux_Receive, Mux_receiveInternal.
    rewrite read_deadline by done. rewrite (read_frame (tag id p) rest) by (done || rewrite ?len_tag; lia).
    rewrite len_tag, (proj2 (Z.leb_gt _ _)) by lia. destruct (tag_fields id p Hid) as [-> ->].
    eexists. split; [reflexivity|]. split; [done|]. done.
Defined.
