(* ===== verification/RaftTransport.v ===== *)
(** * RaftTransport: messages between nodes ([transport/raft/raft_transport.go],
    [transport/raft/tcp_peer.go])

    Each peer has a bounded queue and a goroutine that dials, writes the queued
    messages as frames, and backs off after a failure; what does not fit the queue
    or fails to be written is lost.  Each accepted connection has a goroutine that
    reads frames and hands the messages to the node.  Protocol buffers are a library:
    [Proto] is its interface.  Dialing, and the outcome of a flush, are inputs. *)

From S2P Require Export Frame Pb.
From Stdlib Require Import SpecFloat.

Class Proto : Type := {
  proto_Marshal : Message -> Result bytes;
  proto_Unmarshal : bytes -> Result Message
}.

Definition messageBufferSize : Z := 64.

(** ** tcp_peer.go *)

Definition Millisecond : Z := 10 ^ 6.
Definition backoffMin : Z := 50 * Millisecond.
Definition backoffMax : Z := 1000 * Millisecond.

(** [math.Pow(2, n)] *)
Definition pow2 (n : Z) : spec_float := binary_normalize 53 1024 1 n false.

(** [rand] is the number [rand.Float64] gives. *)
Definition backoffDuration (failures : Z) (rand : spec_float) : Z :=
  let exp := SFmul 53 1024 (f64 backoffMin) (pow2 (failures - 1)) in
  let exp := if SFltb (f64 backoffMax) exp then f64 backoffMax else exp in
  let quarter := SFdiv 53 1024 (f64 1) (f64 4) in
  let jitter := SFadd 53 1024 (f64 1)
    (SFmul 53 1024 quarter (SFsub 53 1024 (SFmul 53 1024 rand (f64 2)) (f64 1))) in
  let d := float_int (SFmul 53 1024 exp jitter) in
  let d := if d <? backoffMin then backoffMin else d in
  if backoffMax <? d then backoffMax else d.

(** Where the writer goroutine is. *)
Inductive writer_state : Type :=
| WDialing
| WBackoff (d : Z)
| WWriting (f : Framer)
| WExited.

(** [tp_closed] keeps the framers of the connections that were closed. *)
Record tcpPeer : Type := mkPeer {
  tp_id : Z;
  tp_msgc : list Message;
  tp_resetc : bool;
  tp_stopped : bool;
  tp_failures : Z;
  tp_writer : writer_state;
  tp_closed : list Framer
}.

#[export] Instance eta_tcpPeer : Eta tcpPeer := fun p =>
  mkPeer (tp_id p) (tp_msgc p) (tp_resetc p) (tp_stopped p) (tp_failures p) (tp_writer p) (tp_closed p).

Definition newTCPPeer (id : Z) : tcpPeer := mkPeer id [] false false 0 WDialing [].

(** A message that finds the queue full is dropped. *)
Definition tcpPeer_enqueue (p : tcpPeer) (m : Message) : tcpPeer :=
  if len (tp_msgc p) <? messageBufferSize then p <| tp_msgc ::= fun q => q ++ [m] |> else p.

Definition tcpPeer_Send (msgs : list Message) (p : tcpPeer) : tcpPeer := foldl tcpPeer_enqueue p msgs.

(** [Stop] up to waiting for the goroutine. *)
Definition tcpPeer_Stop (p : tcpPeer) : tcpPeer := p <| tp_stopped := true |>.

Definition tcpPeer_Reset (p : tcpPeer) : tcpPeer := p <| tp_resetc := true |>.

(** The pieces of the goroutine; [None] when it is elsewhere or the case is not
    ready.  [writerLoop] checks [stopc] and dials. *)
Definition writerLoop (dialed : bool) (rand : spec_float) (p : tcpPeer) : option tcpPeer :=
  match tp_writer p with
  | WDialing =>
      if tp_stopped p then Some (p <| tp_writer := WExited |>)
      else if dialed then
        Some (p <| tp_failures := 0 |> <| tp_writer := WWriting (NewFramer [] ErrEOF true true) |>)
      else
        let failures := tp_failures p + 1 in
        Some (p <| tp_failures := failures |> <| tp_writer := WBackoff (backoffDuration failures rand) |>)
  | _ => None
  end.

Inductive backoff_case : Type := BackoffStop | BackoffReset | BackoffTimer.

Definition tcpPeer_backoff (c : backoff_case) (p : tcpPeer) : option tcpPeer :=
  match tp_writer p, c with
  | WBackoff _, BackoffStop => if tp_stopped p then Some (p <| tp_writer := WExited |>) else None
  | WBackoff _, BackoffReset =>
      if tp_resetc p then Some (p <| tp_resetc := false |> <| tp_writer := WDialing |>) else None
  | WBackoff _, BackoffTimer => Some (p <| tp_writer := WDialing |>)
  | _, _ => None
  end.

(** [writeToConn] returns: the deferred [conn.Close]. *)
Definition close_conn (f : Framer) (p : tcpPeer) : tcpPeer :=
  p <| tp_closed ::= fun l => l ++ [f] |> <| tp_writer := WDialing |>.

Inductive write_case : Type := WriteStop | WriteMsg (flush : option error).

Section transport.
Context {PB : Proto}.

(** One [select] of [writeToConn]. *)
Definition writeToConn (c : write_case) (p : tcpPeer) : option tcpPeer :=
  match tp_writer p, c with
  | WWriting f, WriteStop => if tp_stopped p then Some (close_conn f p) else None
  | WWriting f, WriteMsg flush =>
      match tp_msgc p with
      | [] => None
      | m :: rest =>
          let p := p <| tp_msgc := rest |> in
          match proto_Marshal m with
          | inl _ => Some p
          | inr data =>
              match Framer_Write flush data f with
              | (Some _, f) => Some (close_conn f p)
              | (None, f) => Some (p <| tp_writer := WWriting f |>)
              end
          end
      end
  | _, _ => None
  end.

(** ** raft_transport.go *)

(** An accepted connection and the local variable of its [readLoop]. *)
Record inbound : Type := mkInbound {
  in_framer : Framer;
  in_identified : bool
}.

#[export] Instance eta_inbound : Eta inbound := fun c => mkInbound (in_framer c) (in_identified c).

(** Connections are numbered; [rt_process] are the calls of [Process], each with
    the connection it came from.  [stopped] is set and [ctx] is cancelled together. *)
Record RaftTransport : Type := mkRaftTransport {
  rt_peers : gmap Z tcpPeer;
  rt_hasListener : bool;       (* [cfg.Listener] is set *)
  rt_accepting : bool;         (* [acceptLoop] runs *)
  rt_conns : gmap nat inbound;
  rt_nextConn : nat;
  rt_started : bool;
  rt_stopped : bool;
  rt_process : list (nat * Message)
}.

#[export] Instance eta_RaftTransport : Eta RaftTransport := fun r =>
  mkRaftTransport (rt_peers r) (rt_hasListener r) (rt_accepting r) (rt_conns r) (rt_nextConn r)
    (rt_started r) (rt_stopped r) (rt_process r).

(** Whether a node, an address, a listener and a logger were given. *)
Definition NewRaftTransport (raft addr listener logger : bool) : Result RaftTransport :=
  if negb raft then inl (Errorf "raft is required")
  else if negb addr && negb listener then inl (Errorf "listen address or listener is required")
  else if negb logger then inl (Errorf "logger is required")
  else inr (mkRaftTransport ∅ listener false ∅ 0 false false []).

(** The messages of a batch by receiver. *)
Definition group_by_to (msgs : list Message) : gmap Z (list Message) :=
  foldl (fun groups m => <[ m_To m := default [] (groups !! m_To m) ++ [m] ]> groups) ∅ msgs.

(** The groups go to different peers, so the order of the walk does not matter;
    messages to unknown peers are dropped. *)
Definition RaftTransport_Send (msgs : list Message) (r : RaftTransport) : RaftTransport :=
  if rt_stopped r then r
  else if len msgs =? 0 then r
  else r <| rt_peers ::= map_imap (fun to p =>
         Some (match group_by_to msgs !! to with Some ml => tcpPeer_Send ml p | None => p end)) |>.

(** [listen] is the outcome of [net.Listen]. *)
Definition RaftTransport_Start (listen : option error) (r : RaftTransport) : option error * RaftTransport :=
  if rt_stopped r then (Some ErrTransportStopped, r)
  else if rt_started r then (Some ErrTransportStarted, r)
  else
    let r := r <| rt_started := true |> in
    if rt_hasListener r then (None, r <| rt_accepting := true |>)
    else match listen with
         | Some e => (Some e, r <| rt_started := false |>)
         | None => (None, r <| rt_accepting := true |>)
         end.

Definition RaftTransport_AddPeer (id : Z) (r : RaftTransport) : RaftTransport :=
  match rt_peers r !! id with
  | Some _ => r
  | None => r <| rt_peers ::= <[ id := newTCPPeer id ]> |>
  end.

(** [Stop] up to waiting for the goroutines, which see [ctx] cancelled. *)
Definition RaftTransport_Stop (r : RaftTransport) : RaftTransport :=
  r <| rt_stopped := true |> <| rt_peers ::= fmap tcpPeer_Stop |>.

(** One iteration of [acceptLoop], on a connection or an error. *)
Definition acceptLoop (accepted : option Framer) (r : RaftTransport) : option RaftTransport :=
  if negb (rt_accepting r) then None
  else
    match accepted with
    | None => Some (if rt_stopped r then r <| rt_accepting := false |> else r)
    | Some f =>
        Some (r <| rt_conns ::= <[ rt_nextConn r := mkInbound f false ]> |> <| rt_nextConn ::= S |>)
    end.

(** On the first message of a connection, wake the peer's writer from backoff. *)
Definition readLoop_identify (from : Z) (r : RaftTransport) : RaftTransport :=
  match rt_peers r !! from with
  | Some p => r <| rt_peers ::= <[ from := tcpPeer_Reset p ]> |>
  | None => r
  end.

(** One iteration of a connection's [readLoop]; a connection whose loop returned is
    gone from [rt_conns]. *)
Definition readLoop (conn : nat) (r : RaftTransport) : option RaftTransport :=
  match rt_conns r !! conn with
  | None => None
  | Some c =>
      if rt_stopped r then Some (r <| rt_conns ::= delete conn |>)
      else
        match Framer_Read (in_framer c) with
        | (inl _, _) => Some (r <| rt_conns ::= delete conn |>)
        | (inr payload, f) =>
            let c := c <| in_framer := f |> in
            match proto_Unmarshal payload with
            | inl _ => Some (r <| rt_conns ::= <[ conn := c ]> |>)
            | inr m =>
                let r := r <| rt_process ::= fun l => l ++ [(conn, m)] |>
                           <| rt_conns ::= <[ conn := c <| in_identified := true |> ]> |> in
                Some (if in_identified c then r else readLoop_identify (m_From m) r)
            end
        end
  end.

(** ** The interleavings *)

Inductive peer_event : Type :=
| PeerDial (dialed : bool) (rand : spec_float)
| PeerBackoff (c : backoff_case)
| PeerWrite (c : write_case).

Definition peer_step (e : peer_event) (p : tcpPeer) : option tcpPeer :=
  match e with
  | PeerDial dialed rand => writerLoop dialed rand p
  | PeerBackoff c => tcpPeer_backoff c p
  | PeerWrite c => writeToConn c p
  end.

Inductive rt_event : Type :=
| RtSend (msgs : list Message)
| RtAddPeer (id : Z)
| RtStart (listen : option error)
| RtStop
| RtPeer (id : Z) (e : peer_event)
| RtAccept (accepted : option Framer)
| RtRead (conn : nat).

Definition rt_step (e : rt_event) (r : RaftTransport) : option RaftTransport :=
  match e with
  | RtSend msgs => Some (RaftTransport_Send msgs r)
  | RtAddPeer id => Some (RaftTransport_AddPeer id r)
  | RtStart listen => Some (RaftTransport_Start listen r).2
  | RtStop => Some (RaftTransport_Stop r)
  | RtPeer id e =>
      match rt_peers r !! id with
      | None => None
      | Some p =>
          match peer_step e p with
          | None => None
          | Some p => Some (r <| rt_peers ::= <[ id := p ]> |>)
          end
      end
  | RtAccept accepted => acceptLoop accepted r
  | RtRead conn => readLoop conn r
  end.

Fixpoint rt_run (es : list rt_event) (r : RaftTransport) : option RaftTransport :=
  match es with
  | [] => Some r
  | e :: es => match rt_step e r with None => None | Some r => rt_run es r end
  end.

(** What was given to [Send] for a peer. *)
Definition sends_by (id : Z) (e : rt_event) : list Message :=
  match e with RtSend msgs => filter (fun m => m_To m = id) msgs | _ => [] end.

Definition sends_to (id : Z) (es : list rt_event) : list Message := mjoin (sends_by id <$> es).

(** The connections a peer opened, in order. *)
Definition peer_conns (p : tcpPeer) : list Framer :=
  tp_closed p ++ match tp_writer p with WWriting f => [f] | _ => [] end.

(** What came in over a connection. *)
Definition processed (conn : nat) (r : RaftTransport) : list Message :=
  (filter (fun cm => cm.1 = conn) (rt_process r)).*2.

End transport.
