(* ===== verification/RaftTransportSpec.v ===== *)
(** * RaftTransportSpec: what a connection carries

    A peer's connections carry disjoint runs of the messages sent to it, in the order
    of sending ([peer_carries]); what a receiver processes from a connection, of which
    any part of the bytes arrived, is a prefix of the run it carries ([conn_reads]). *)

From S2P Require Export RaftTransport.

(** What is assumed of the protocol buffer library: decoding inverts encoding. *)
Class ProtoSpec (PB : Proto) : Prop := {
  proto_roundtrip m data : proto_Marshal m = inr data -> proto_Unmarshal data = inr m
}.

(** ** Reading from a part of a stream *)

Lemma wire_snoc ps p : wire (ps ++ [p]) = wire ps ++ PutUint32 (len p) ++ p.
Proof. unfold wire. rewrite fmap_app, join_app. cbn [fmap list_fmap mjoin list_join]. by rewrite app_nil_r. Qed.

Lemma read_empty f : f_in f = [] -> exists e, (Framer_Read f).1 = inl e.
Proof.
  intros E. unfold Framer_Read, readFrameMax. rewrite E.
  destruct (_ <=? 0); by eexists.
Qed.

Lemma read_too_large p tl f :
  f_in f = (PutUint32 (len p) ++ p) ++ tl -> f_maxPayload f < len p -> len p < 2 ^ 32 ->
  exists e, (Framer_Read f).1 = inl e.
Proof.
  intros Hin Hmax H32. unfold Framer_Read, readFrameMax. rewrite Hin.
  destruct (_ <=? 0) eqn:E; to_prop; [by eexists|]. unfold readFull at 1.
  pose proof (len_nonneg p). pose proof (len_nonneg tl).
  rewrite !len_app, len_PutUint32, (proj2 (Z.ltb_ge _ 4)) by lia.
  rewrite <-app_assoc, slice_to_app_len, slice_from_app by apply len_PutUint32.
  rewrite <-(app_nil_r (PutUint32 _)), Uint32_Put by (unfold is_u32; lia).
  rewrite (proj2 (Z.ltb_lt (f_maxPayload f) _)) by lia. rewrite orb_true_r. by eexists.
Qed.

Lemma prefix_app_cases {A} (l a b : list A) :
  l `prefix_of` a ++ b ->
  (l = take (length l) a /\ (length l < length a)%nat) \/ (exists tl, l = a ++ tl /\ tl `prefix_of` b).
Proof.
  intros [k Hk]. destruct (Nat.lt_ge_cases (length l) (length a)) as [Hl|Hl].
  - left. split; [|done]. apply (f_equal (take (length l))) in Hk.
    by rewrite take_app_length, take_app_le in Hk by lia.
  - right. exists (drop (length a) l).
    pose proof (f_equal (take (length a)) Hk) as Ht. rewrite take_app_length, take_app_le in Ht by lia.
    split; [rewrite Ht at 1; by rewrite take_drop|]. exists k.
    apply (f_equal (drop (length a))) in Hk. by rewrite drop_app_length, drop_app_le in Hk by lia.
Qed.

(** A read gives the first frame whole or an error, and the rest of the part. *)
Lemma read_prefix p ps f :
  f_in f `prefix_of` wire (p :: ps) -> len p < 2 ^ 32 ->
  (exists e, (Framer_Read f).1 = inl e) \/
  (exists tl, Framer_Read f = (inr p, f <| f_in := tl |>) /\ tl `prefix_of` wire ps).
Proof.
  intros Hpre H32. change (wire (p :: ps)) with ((PutUint32 (len p) ++ p) ++ wire ps) in Hpre.
  apply prefix_app_cases in Hpre as [[Hin Hl]|(tl & Hin & Htl)]; [left; by eapply read_torn|].
  destruct (Z.le_gt_cases (len p) (f_maxPayload f)) as [Hm|Hm]; [|left; by eapply read_too_large].
  destruct (Z.le_gt_cases (f_maxPayload f) 0) as [H0|H0].
  - left. unfold Framer_Read, readFrameMax. rewrite (proj2 (Z.leb_le _ _)) by done. by eexists.
  - right. exists tl. split; [by apply read_frame|done].
Qed.

(** ** The sender *)

Section sender.
Context {PB : Proto}.

(** A framer holds the frames of some messages. *)
Definition carries (f : Framer) (ms : list Message) : Prop :=
  exists datas, Forall2 (fun m data => proto_Marshal m = inr data /\ len data < 2 ^ 32) ms datas /\
    f_out f = wire datas.

(** The runs the connections of a peer carry, then its queue, are a part of what was
    sent, in order. *)
Definition peer_carries (p : tcpPeer) (sent : list Message) : Prop :=
  exists runs, Forall2 carries (peer_conns p) runs /\ mjoin runs ++ tp_msgc p `sublist_of` sent.

Lemma carries_new : carries (NewFramer [] ErrEOF true true) [].
Proof. by exists []. Qed.

Lemma carries_write f ms m data flush :
  carries f ms -> proto_Marshal m = inr data ->
  carries (Framer_Write flush data f).2 (ms ++ [m]) \/
  ((Framer_Write flush data f).1 <> None /\ (Framer_Write flush data f).2 = f).
Proof.
  intros (datas & Hd & Ho) Hm. unfold Framer_Write, writeFrame.
  destruct (_ <? len data) eqn:E; to_prop.
  - right. split; [done|]. destruct f; reflexivity.
  - left. exists (datas ++ [data]). rewrite wire_snoc, <-Ho. cbn. split.
    + apply Forall2_app; [done|]. repeat constructor; [done|lia].
    + by destruct flush.
Qed.

Lemma enqueue_carries p m sent : peer_carries p sent -> peer_carries (tcpPeer_enqueue p m) (sent ++ [m]).
Proof.
  intros (runs & Hr & Hs). unfold tcpPeer_enqueue. destruct (_ <? _); exists runs; (split; [done|]).
  - cbn. rewrite app_assoc. by apply sublist_app.
  - by apply sublist_inserts_r.
Qed.

Lemma Send_carries msgs p sent : peer_carries p sent -> peer_carries (tcpPeer_Send msgs p) (sent ++ msgs).
Proof.
  revert p sent. induction msgs as [|m msgs IH]; intros p sent Hp; [by rewrite app_nil_r|].
  change (m :: msgs) with ([m] ++ msgs). rewrite app_assoc. by apply IH, enqueue_carries.
Qed.

Lemma runs_snoc_inv fs f (runs : list (list Message)) :
  Forall2 carries (fs ++ [f]) runs -> exists runs0 ms, runs = runs0 ++ [ms] /\ Forall2 carries fs runs0 /\ carries f ms.
Proof.
  intros H. apply Forall2_app_inv_l in H as (runs0 & l & H0 & Hl & ->).
  apply Forall2_cons_inv_l in Hl as (ms & l' & Hms & Hl & ->). apply Forall2_nil_inv_l in Hl as ->.
  by exists runs0, ms.
Qed.

Lemma write_carries c p p' sent : peer_carries p sent -> writeToConn c p = Some p' -> peer_carries p' sent.
Proof.
  intros (runs & Hr & Hs). unfold peer_conns in Hr. unfold writeToConn.
  destruct (tp_writer p) as [| |f|] eqn:Ew; try done. destruct c as [|flush].
  - destruct (tp_stopped p); [|done]. intros [= <-]. exists runs. unfold peer_conns. cbn. by rewrite app_nil_r.
  - destruct (tp_msgc p) as [|m rest] eqn:Eq; [done|].
    destruct (proto_Marshal m) as [e|data] eqn:Em.
    { intros [= <-]. exists runs. unfold peer_conns. cbn. rewrite Ew. split; [done|].
      etransitivity; [|done]. apply sublist_app; [done|]. by apply sublist_cons. }
    apply runs_snoc_inv in Hr as (runs0 & ms & -> & H0 & Hms). rewrite join_app in Hs.
    cbn [mjoin list_join] in Hs. rewrite app_nil_r in Hs.
    destruct (carries_write f ms m data flush Hms Em) as [Hf|[Hne Hf]];
      destruct (Framer_Write flush data f) as [[e|] f']; cbn in Hf; intros [= <-]; try done.
    1,2: exists (runs0 ++ [ms ++ [m]]); unfold peer_conns; cbn; rewrite ?app_nil_r, join_app; cbn [mjoin list_join];
      rewrite app_nil_r, <-!app_assoc; split; [by apply Forall2_app; [|constructor]|];
      by rewrite <-app_assoc in Hs.
    subst f'. exists (runs0 ++ [ms]). unfold peer_conns. cbn. rewrite app_nil_r, join_app. cbn [mjoin list_join].
    rewrite app_nil_r.
    split; [by apply Forall2_app; [|constructor]|]. etransitivity; [|done]. apply sublist_app; [done|].
    by apply sublist_cons.
Qed.

Lemma peer_step_carries e p p' sent : peer_carries p sent -> peer_step e p = Some p' -> peer_carries p' sent.
Proof.
  destruct e as [dialed rand|c|c]; [| |apply write_carries]; intros (runs & Hr & Hs); unfold peer_conns in Hr;
    cbn [peer_step]; unfold writerLoop, tcpPeer_backoff; destruct (tp_writer p) eqn:Ew; try done.
  - destruct (tp_stopped p); [|destruct dialed]; intros [= <-].
    2: { exists (runs ++ [[]]). unfold peer_conns. cbn. rewrite app_nil_r in Hr. split.
         - apply Forall2_app; [done|]. repeat constructor. apply carries_new.
         - rewrite join_app. cbn. by rewrite app_nil_r. }
    all: by exists runs.
  - destruct c; [destruct (tp_stopped p)|destruct (tp_resetc p)|]; try done; intros [= <-]; by exists runs.
Qed.

(** [Send] gives each peer its messages in order. *)
Lemma group_by_to_fold msgs (groups : gmap Z (list Message)) id :
  default [] (foldl (fun groups m => <[ m_To m := default [] (groups !! m_To m) ++ [m] ]> groups) groups msgs !! id)
  = default [] (groups !! id) ++ filter (fun m => m_To m = id) msgs.
Proof.
  revert groups. induction msgs as [|m msgs IH]; intros groups; [by rewrite app_nil_r|].
  cbn [foldl]. rewrite IH, filter_cons. destruct (decide (m_To m = id)) as [<-|Hne].
  - rewrite lookup_insert_eq. cbn [from_option id]. by rewrite <-app_assoc.
  - by rewrite lookup_insert_ne.
Qed.

Lemma group_by_to_spec msgs id : default [] (group_by_to msgs !! id) = filter (fun m => m_To m = id) msgs.
Proof. unfold group_by_to. by rewrite group_by_to_fold. Qed.

Lemma RaftTransport_Send_peer msgs r id p' :
  rt_peers (RaftTransport_Send msgs r) !! id = Some p' ->
  exists p, rt_peers r !! id = Some p /\
    (p' = p \/ p' = tcpPeer_Send (filter (fun m => m_To m = id) msgs) p).
Proof.
  unfold RaftTransport_Send. destruct (rt_stopped r); [eauto|]. destruct (_ =? 0); [eauto|]. cbn.
  rewrite map_lookup_imap. destruct (rt_peers r !! id) as [p|]; [|done]. cbn. intros [= <-]. exists p. split; [done|].
  rewrite <-group_by_to_spec. destruct (group_by_to msgs !! id); cbn; auto.
Qed.

End sender.

(** ** Runs of a transport *)

Section runs.
Context {PB : Proto} {PS : ProtoSpec PB}.

Definition peers_carry (r : RaftTransport) (sent : Z -> list Message) : Prop :=
  forall id p, rt_peers r !! id = Some p -> peer_carries p (sent id).

Lemma peer_carries_mono p s1 s2 : peer_carries p s1 -> peer_carries p (s1 ++ s2).
Proof. intros (runs & Hr & Hs). exists runs. split; [done|]. by apply sublist_inserts_r. Qed.

Lemma new_carries id : peer_carries (newTCPPeer id) [].
Proof. exists []. split; [constructor|done]. Qed.

(** The peers after a step, each from a peer that was there or a new one. *)
Lemma rt_step_peer e r r' id p' sent :
  rt_step e r = Some r' -> rt_peers r' !! id = Some p' ->
  (forall p, rt_peers r !! id = Some p -> peer_carries p sent) -> peer_carries p' (sent ++ sends_by id e).
Proof.
  intros Hstep Hp' Hp.
  assert (Hkeep : rt_peers r !! id = Some p' -> peer_carries p' (sent ++ sends_by id e)).
  { intros E. by apply peer_carries_mono, Hp. }
  destruct e as [msgs|id'|listen| |id' e|acc|conn]; cbn [rt_step] in Hstep.
  - injection Hstep as <-. apply RaftTransport_Send_peer in Hp' as (p & E & [-> | ->]).
    + by apply peer_carries_mono, Hp.
    + by apply Send_carries, Hp.
  - injection Hstep as <-. unfold RaftTransport_AddPeer in Hp'.
    destruct (rt_peers r !! id') eqn:E; [by apply Hkeep|]. cbn in Hp'.
    apply lookup_insert_Some in Hp' as [[-> <-]|[_ E']]; [|by apply Hkeep].
    destruct (new_carries id) as (runs & Hr & Hs). exists runs. split; [done|].
    etransitivity; [done|]. apply sublist_nil_l.
  - injection Hstep as <-. apply Hkeep. revert Hp'. unfold RaftTransport_Start.
    destruct (rt_stopped r), (rt_started r); try done. cbn. destruct (rt_hasListener r), listen; done.
  - injection Hstep as <-. cbn in Hp'. apply lookup_fmap_Some in Hp' as (p & <- & E).
    destruct (Hp p E) as (runs & Hr & Hs). apply peer_carries_mono. by exists runs.
  - destruct (rt_peers r !! id') as [p|] eqn:E; [|done]. destruct (peer_step e p) as [q|] eqn:Es; [|done].
    injection Hstep as <-. cbn in Hp'. apply lookup_insert_Some in Hp' as [[<- <-]|[_ E']]; [|by apply Hkeep].
    apply peer_carries_mono. eapply peer_step_carries; [|done]. by apply Hp.
  - apply Hkeep. revert Hstep Hp'. unfold acceptLoop. destruct (negb _); [done|].
    destruct acc; [|destruct (rt_stopped r)]; by intros [= <-].
  - revert Hstep. unfold readLoop. destruct (rt_conns r !! conn) as [c|]; [|done].
    destruct (rt_stopped r); [intros [= <-]; by apply Hkeep|].
    destruct (Framer_Read _) as [[e|payload] f]; [intros [= <-]; by apply Hkeep|].
    destruct (proto_Unmarshal _) as [e|m]; [intros [= <-]; by apply Hkeep|].
    intros [= <-]. cbn in Hp'. destruct (in_identified c); [by apply Hkeep|].
    unfold readLoop_identify in Hp'. cbn in Hp'. destruct (rt_peers r !! m_From m) as [p|] eqn:E; [|by apply Hkeep].
    cbn in Hp'. apply lookup_insert_Some in Hp' as [[<- <-]|[_ E']]; [|by apply Hkeep].
    destruct (Hp p E) as (runs & Hr & Hs). apply peer_carries_mono. by exists runs.
Qed.

Lemma rt_run_peers es r r' sent :
  rt_run es r = Some r' -> peers_carry r sent -> peers_carry r' (fun id => sent id ++ sends_to id es).
Proof.
  revert r sent. induction es as [|e es IH]; intros r sent Hrun Hr.
  - injection Hrun as <-. intros id p E. by apply peer_carries_mono, Hr.
  - cbn [rt_run] in Hrun. destruct (rt_step e r) as [r1|] eqn:Es; [|done].
    pose proof (IH r1 (fun id => sent id ++ sends_by id e) Hrun) as IH'.
    intros id p E. unfold sends_to. cbn [fmap list_fmap mjoin list_join]. rewrite app_assoc.
    apply IH'; [|done]. intros id' p' E'. eapply rt_step_peer; [done..|]. apply Hr.
Qed.

(** ** The receiver *)

(** A connection that carries [ms]: what was processed, and what is left to read. *)
Definition conn_reads (conn : nat) (ms : list Message) (r : RaftTransport) : Prop :=
  (conn < rt_nextConn r)%nat /\
  exists rest, ms = processed conn r ++ rest /\
    forall c, rt_conns r !! conn = Some c ->
      exists datas, Forall2 (fun m data => proto_Marshal m = inr data /\ len data < 2 ^ 32) rest datas /\
        f_in (in_framer c) `prefix_of` wire datas.

Lemma accept_reads f ms g r r' :
  carries f ms -> f_in g `prefix_of` f_out f -> processed (rt_nextConn r) r = [] ->
  acceptLoop (Some g) r = Some r' -> conn_reads (rt_nextConn r) ms r'.
Proof.
  intros (datas & Hd & Ho) Hg Hnone. unfold acceptLoop. destruct (negb _); [done|]. intros [= <-].
  split; [cbn; lia|]. exists ms. split; [by unfold processed in *; cbn; rewrite Hnone|].
  cbn. intros c. rewrite lookup_insert_eq. intros [= <-]. exists datas. by rewrite <-Ho.
Qed.

Lemma processed_snoc conn conn' m r l :
  rt_process r = l ++ [(conn', m)] ->
  processed conn r = (filter (fun cm => cm.1 = conn) l).*2 ++ (if decide (conn' = conn) then [m] else []).
Proof.
  intros E. unfold processed. rewrite E, filter_app, fmap_app. f_equal.
  rewrite filter_cons, filter_nil. cbn. by destruct (decide (conn' = conn)).
Qed.

Lemma identify_same from r :
  rt_process (readLoop_identify from r) = rt_process r /\ rt_conns (readLoop_identify from r) = rt_conns r /\
  rt_nextConn (readLoop_identify from r) = rt_nextConn r.
Proof. unfold readLoop_identify. by destruct (rt_peers r !! from). Qed.

(** What a step does to the connections. *)
Inductive conn_step (r r' : RaftTransport) : Prop :=
| conn_same : rt_process r' = rt_process r -> rt_conns r' = rt_conns r -> rt_nextConn r' = rt_nextConn r ->
    conn_step r r'
| conn_accepted g : rt_process r' = rt_process r -> rt_conns r' = <[ rt_nextConn r := mkInbound g false ]> (rt_conns r) ->
    rt_nextConn r' = S (rt_nextConn r) -> conn_step r r'
| conn_ended conn : rt_process r' = rt_process r -> rt_conns r' = delete conn (rt_conns r) ->
    rt_nextConn r' = rt_nextConn r -> conn_step r r'
| conn_skipped conn c c' payload e : rt_conns r !! conn = Some c -> Framer_Read (in_framer c) = (inr payload, in_framer c') ->
    proto_Unmarshal payload = inl e -> rt_process r' = rt_process r -> rt_conns r' = <[ conn := c' ]> (rt_conns r) ->
    rt_nextConn r' = rt_nextConn r -> conn_step r r'
| conn_processed conn c c' payload m : rt_conns r !! conn = Some c ->
    Framer_Read (in_framer c) = (inr payload, in_framer c') -> proto_Unmarshal payload = inr m ->
    rt_process r' = rt_process r ++ [(conn, m)] -> rt_conns r' = <[ conn := c' ]> (rt_conns r) ->
    rt_nextConn r' = rt_nextConn r -> conn_step r r'.

Lemma readLoop_conns conn r r' : readLoop conn r = Some r' -> conn_step r r'.
Proof.
  unfold readLoop. destruct (rt_conns r !! conn) as [c|] eqn:Ec; [|done].
  destruct (rt_stopped r); [intros [= <-]; by eapply conn_ended|].
  destruct (Framer_Read (in_framer c)) as [[e|payload] f] eqn:Ef; [intros [= <-]; by eapply conn_ended|].
  destruct (proto_Unmarshal payload) as [e|m] eqn:Eu; intros [= <-].
  - eapply (conn_skipped r _ conn c (c <| in_framer := f |>)); done.
  - set (r1 := set_field rt_conns _ _). set (b := in_identified _).
    apply (conn_processed r _ conn c (c <| in_framer := f |> <| in_identified := true |>) payload m); try done;
      destruct b; try done; destruct (identify_same (m_From m) r1) as (H1 & H2 & H3); rewrite ?H1, ?H2, ?H3; done.
Qed.

Lemma rt_step_conns e r r' : rt_step e r = Some r' -> conn_step r r'.
Proof.
  destruct e as [msgs|id'|listen| |id' e|acc|conn]; cbn [rt_step].
  - intros [= <-]. unfold RaftTransport_Send. destruct (rt_stopped r); [by apply conn_same|].
    destruct (_ =? 0); by apply conn_same.
  - intros [= <-]. unfold RaftTransport_AddPeer. destruct (rt_peers r !! id'); by apply conn_same.
  - intros [= <-]. unfold RaftTransport_Start. destruct (rt_stopped r), (rt_started r); try by apply conn_same.
    cbn. destruct (rt_hasListener r), listen; by apply conn_same.
  - intros [= <-]. by apply conn_same.
  - destruct (rt_peers r !! id'); [|done]. destruct (peer_step _ _); [|done]. intros [= <-]. by apply conn_same.
  - unfold acceptLoop. destruct (negb _); [done|]. destruct acc as [g|]; intros [= <-].
    + by apply (conn_accepted r _ g).
    + destruct (rt_stopped r); by apply conn_same.
  - apply readLoop_conns.
Qed.

(** Connections are numbered before they are used. *)
Definition conns_numbered (r : RaftTransport) : Prop :=
  (forall conn, is_Some (rt_conns r !! conn) -> (conn < rt_nextConn r)%nat) /\
  Forall (fun cm => (cm.1 < rt_nextConn r)%nat) (rt_process r).

Lemma conn_step_numbered r r' : conn_step r r' -> conns_numbered r -> conns_numbered r'.
Proof.
  unfold conns_numbered. intros Hs [Hc Hp].
  destruct Hs as [-> -> ->|g -> -> ->|conn -> -> ->|conn c c' payload e Ec _ _ -> -> ->|conn c c' payload m Ec _ _ -> -> ->].
  - done.
  - split; [|eapply Forall_impl; [done|]; simpl; lia].
    intros conn. rewrite lookup_insert_is_Some. intros [<-|[_ H]]; [lia|]. apply Hc in H. lia.
  - split; [|done]. intros conn'. rewrite lookup_delete_is_Some. intros [_ H]. by apply Hc.
  - split; [|done]. intros conn'. rewrite lookup_insert_is_Some. intros [<-|[_ H]]; by apply Hc.
  - split.
    + intros conn'. rewrite lookup_insert_is_Some. intros [<-|[_ H]]; by apply Hc.
    + apply Forall_app. split; [done|]. repeat constructor. by apply Hc.
Qed.

Lemma numbered_unused r : conns_numbered r -> processed (rt_nextConn r) r = [].
Proof.
  intros [_ Hp]. unfold processed. replace (filter _ _) with (@nil (nat * Message)); [done|].
  induction Hp as [|cm l Hcm Hl IH]; [done|]. rewrite filter_cons. rewrite decide_False by lia. done.
Qed.

(** Reading on from a connection gives its next message, or ends it. *)
Lemma reads_next conn ms r c c' payload :
  conn_reads conn ms r -> rt_conns r !! conn = Some c -> Framer_Read (in_framer c) = (inr payload, in_framer c') ->
  exists m rest, ms = processed conn r ++ m :: rest /\ proto_Marshal m = inr payload /\ proto_Unmarshal payload = inr m /\
    exists datas, Forall2 (fun m data => proto_Marshal m = inr data /\ len data < 2 ^ 32) rest datas /\
      f_in (in_framer c') `prefix_of` wire datas.
Proof.
  intros (_ & rest & Hms & Hrest) Ec Hread. destruct (Hrest c Ec) as (datas & Hd & Hpre).
  destruct Hd as [|m data rest datas [Hm H32] Hd].
  - apply prefix_nil_inv in Hpre. destruct (read_empty _ Hpre) as [e He]. by rewrite Hread in He.
  - destruct (read_prefix data datas (in_framer c) Hpre H32) as [[e He]|(tl & Heq & Htl)].
    + by rewrite Hread in He.
    + rewrite Hread in Heq. injection Heq as -> Hf. exists m, rest. split; [done|]. split; [done|].
      split; [by apply proto_roundtrip|].
      exists datas. split; [done|]. by rewrite Hf.
Qed.

Lemma conn_step_reads conn ms r r' : conn_step r r' -> conn_reads conn ms r -> conn_reads conn ms r'.
Proof.
  intros Hs Hr. pose proof Hr as (Hlt & rest & Hms & Hrest).
  assert (Hkeep : rt_process r' = rt_process r -> processed conn r' = processed conn r) by (unfold processed; by intros ->).
  destruct Hs as [Hp Hc Hn|g Hp Hc Hn|conn' Hp Hc Hn|conn' c c' payload e Ec Hread Hu Hp Hc Hn|conn' c c' payload m Ec Hread Hu Hp Hc Hn];
    (split; [lia|]).
  - exists rest. rewrite Hkeep, Hc by done. done.
  - exists rest. rewrite Hkeep, Hc by done. split; [done|]. rewrite lookup_insert_ne by lia. done.
  - exists rest. rewrite Hkeep, Hc by done. split; [done|]. intros c [_ Ec]%lookup_delete_Some. by apply Hrest.
  - exists rest. rewrite Hkeep, Hc by done. split; [done|].
    intros c0 [[-> _]|[_ Ec']]%lookup_insert_Some; [|by apply Hrest].
    destruct (reads_next conn ms r c c' payload Hr Ec Hread) as (m & _ & _ & _ & Hu' & _). congruence.
  - rewrite (processed_snoc conn conn' m r' _ Hp). fold (processed conn r). rewrite Hc. case_decide as Heq.
    + subst conn'. destruct (reads_next conn ms r c c' payload Hr Ec Hread) as (m' & rest' & Hms' & _ & Hu' & Hrest').
      assert (m' = m) as -> by congruence. exists rest'. split; [by rewrite <-app_assoc|].
      intros c0. rewrite lookup_insert_eq. by intros [= <-].
    + exists rest. rewrite app_nil_r. split; [done|]. by rewrite lookup_insert_ne.
Qed.

Lemma rt_run_reads es conn ms r r' : rt_run es r = Some r' -> conn_reads conn ms r -> conn_reads conn ms r'.
Proof.
  revert r. induction es as [|e es IH]; intros r; [by intros [= <-]|]. cbn [rt_run].
  destruct (rt_step e r) as [r1|] eqn:Es; [|done]. intros Hrun Hr.
  eapply IH; [done|]. eapply conn_step_reads; [by eapply rt_step_conns|done].
Qed.

Lemma rt_run_numbered es r r' : rt_run es r = Some r' -> conns_numbered r -> conns_numbered r'.
Proof.
  revert r. induction es as [|e es IH]; intros r; [by intros [= <-]|]. cbn [rt_run].
  destruct (rt_step e r) as [r1|] eqn:Es; [|done]. intros Hrun Hr.
  eapply IH; [done|]. eapply conn_step_numbered; [by eapply rt_step_conns|done].
Qed.

(** Nothing above the frame limit comes in. *)
Definition conn_small (conn : nat) (max : Z) (r : RaftTransport) : Prop :=
  (forall c, rt_conns r !! conn = Some c -> f_maxPayload (in_framer c) = max) /\
  Forall (fun m => forall data, proto_Marshal m = inr data -> len data <= max) (processed conn r).

Lemma read_size f payload f' :
  Framer_Read f = (inr payload, f') -> len payload <= f_maxPayload f /\ f_maxPayload f' = f_maxPayload f.
Proof.
  unfold Framer_Read, readFrameMax. destruct (_ <=? 0) eqn:E0; to_prop; [done|].
  destruct (readFull 4 _ _) as [[e|hdr] s]; [done|]. destruct (_ || _) eqn:E1; [done|]. to_prop.
  destruct (_ =? 0); [intros [= <- <-]; split; [|done]; change (len []) with 0; lia|].
  unfold readFull. destruct (_ <? Uint32 hdr) eqn:E2; [done|]. to_prop. intros [= <- <-]. split; [|done].
  unfold slice_to, len. rewrite length_take. lia.
Qed.

Lemma conn_step_small conn ms max r r' :
  conn_step r r' -> conn_reads conn ms r -> conn_small conn max r -> conn_small conn max r'.
Proof.
  intros Hs Hr [Hm Hp]. pose proof Hr as [Hlt _].
  assert (Hkeep : rt_process r' = rt_process r -> processed conn r' = processed conn r) by (unfold processed; by intros ->).
  destruct Hs as [Hq Hc _|g Hq Hc _|conn' Hq Hc _|conn' c c' payload e Ec Hread Hu Hq Hc _|conn' c c' payload m Ec Hread Hu Hq Hc _];
    unfold conn_small; rewrite Hc; [rewrite Hkeep by done..|].
  - done.
  - split; [|done]. rewrite lookup_insert_ne by lia. done.
  - split; [|done]. intros c [_ E]%lookup_delete_Some. by apply Hm.
  - split; [|done]. intros c0 [[-> <-]|[_ E]]%lookup_insert_Some; [|by apply Hm].
    apply read_size in Hread as [_ ->]. by apply Hm.
  - split.
    + intros c0 [[-> <-]|[_ E]]%lookup_insert_Some; [|by apply Hm]. apply read_size in Hread as [_ ->]. by apply Hm.
    + rewrite (processed_snoc conn conn' m r' _ Hq). fold (processed conn r). apply Forall_app. split; [done|].
      case_decide as Heq; [subst conn'|constructor]. repeat constructor. intros data Hdata.
      destruct (reads_next conn ms r c c' payload Hr Ec Hread) as (m' & _ & _ & Hm' & Hu' & _).
      assert (m' = m) as -> by congruence. rewrite Hm' in Hdata. injection Hdata as <-.
      apply read_size in Hread as [Hsz _]. by rewrite (Hm c Ec) in Hsz.
Qed.

Lemma rt_run_small es conn ms max r r' :
  rt_run es r = Some r' -> conn_reads conn ms r -> conn_small conn max r -> conn_small conn max r'.
Proof.
  revert r. induction es as [|e es IH]; intros r; [by intros [= <-]|]. cbn [rt_run].
  destruct (rt_step e r) as [r1|] eqn:Es; [|done]. intros Hrun Hr Hs. apply rt_step_conns in Es.
  eapply IH; [done|by eapply conn_step_reads|by eapply conn_step_small].
Qed.

Lemma accept_small g r r' :
  processed (rt_nextConn r) r = [] -> acceptLoop (Some g) r = Some r' -> conn_small (rt_nextConn r) (f_maxPayload g) r'.
Proof.
  intros Hnone. unfold acceptLoop. destruct (negb _); [done|]. intros [= <-]. split.
  - cbn. intros c. rewrite lookup_insert_eq. by intros [= <-].
  - unfold processed in *. cbn. rewrite Hnone. constructor.
Qed.

Lemma carries_encoded f run m : carries f run -> m ∈ run -> exists data, proto_Marshal m = inr data.
Proof.
  intros (datas & Hd & _). induction Hd as [|m0 data run datas [Hm _] Hd IH]; [by intros ?%elem_of_nil|].
  intros [->|Hin]%elem_of_cons; [by exists data|by apply IH].
Qed.

(** A connection read to its end gives all it carries. *)
Lemma reads_all conn ms datas c r :
  Forall2 (fun m data => proto_Marshal m = inr data /\ len data < 2 ^ 32) ms datas ->
  Forall (fun data => len data <= f_maxPayload (in_framer c)) datas -> 0 < f_maxPayload (in_framer c) ->
  rt_stopped r = false -> rt_conns r !! conn = Some c -> f_in (in_framer c) = wire datas ->
  exists r', rt_run (replicate (length ms) (RtRead conn)) r = Some r' /\ processed conn r' = processed conn r ++ ms.
Proof.
  intros Hd. revert c r. induction Hd as [|m data ms datas [Hm H32] Hd IH]; intros c r Hmax Hpos Hst Hc Hin.
  { exists r. by rewrite app_nil_r. }
  apply Forall_cons in Hmax as [Hdata Hmax]. cbn [length replicate rt_run rt_step].
  unfold readLoop at 1. rewrite Hc, Hst, (read_frame data (wire datas) (in_framer c) Hin Hdata H32 Hpos).
  rewrite (proto_roundtrip m data Hm). cbn [in_identified set_field].
  match goal with |- context [rt_run _ ?s] => set (r1 := s) end.
  set (c1 := c <| in_framer ::= fun f => f <| f_in := wire datas |> |> <| in_identified := true |>).
  assert (Hr1 : rt_process r1 = rt_process r ++ [(conn, m)] /\ rt_conns r1 !! conn = Some c1 /\ rt_stopped r1 = false).
  { subst r1 c1. unfold readLoop_identify. destruct (in_identified _); [|cbn; destruct (rt_peers r !! m_From m)];
      cbn; rewrite lookup_insert_eq; done. }
  destruct Hr1 as (Hp1 & Hc1 & Hs1).
  destruct (IH c1 r1) as (r' & Hrun & Hpr); [done..|]. exists r'. split; [exact Hrun|].
  rewrite Hpr, (processed_snoc conn conn m r1 _ Hp1), decide_True by done. by rewrite <-app_assoc.
Qed.

Lemma accept_reads_all ms datas g r :
  Forall2 (fun m data => proto_Marshal m = inr data /\ len data < 2 ^ 32) ms datas ->
  Forall (fun data => len data <= f_maxPayload g) datas -> 0 < f_maxPayload g ->
  conns_numbered r -> rt_stopped r = false -> rt_accepting r = true -> f_in g = wire datas ->
  exists r', rt_run (RtAccept (Some g) :: replicate (length ms) (RtRead (rt_nextConn r))) r = Some r' /\
    processed (rt_nextConn r) r' = ms.
Proof.
  intros Hd Hmax Hpos Hn Hst Hacc Hin. cbn [rt_run rt_step]. unfold acceptLoop. rewrite Hacc. cbn [negb].
  set (r1 := r <| rt_conns ::= _ |> <| rt_nextConn ::= S |>).
  destruct (reads_all (rt_nextConn r) ms datas (mkInbound g false) r1) as (r' & Hrun & Hp); try done.
  { cbn. by rewrite lookup_insert_eq. }
  exists r'. split; [done|]. rewrite Hp. change (processed (rt_nextConn r) r1) with (processed (rt_nextConn r) r).
  by rewrite numbered_unused.
Qed.

Lemma rt_run_app es1 es2 r r' :
  rt_run (es1 ++ es2) r = Some r' <-> exists r1, rt_run es1 r = Some r1 /\ rt_run es2 r1 = Some r'.
Proof.
  revert r. induction es1 as [|e es1 IH]; intros r; cbn [rt_run app].
  - split; [by eauto|]. by intros (r1 & [= <-] & H).
  - destruct (rt_step e r); [apply IH|]. split; [done|]. by intros (r1 & ? & _).
Qed.

Lemma new_transport raft addr listener logger r :
  NewRaftTransport raft addr listener logger = inr r -> peers_carry r (fun _ => []) /\ conns_numbered r.
Proof.
  unfold NewRaftTransport. destruct raft; [|done]. destruct (_ && _); [done|]. destruct logger; [|done].
  intros [= <-]. split; [by intros id p|]. split; [|constructor]. cbn. by intros conn [c Hc].
Qed.

End runs.
