(* ===== verification/Wait.v ===== *)
(** * Wait: the channels between the apply loop and the handlers ([pkg/wait])

    Channels are numbers into a store.  A [waitList] channel has a buffer of one
    value; a [timeList] channel is only ever closed.  A send into a full buffer
    blocks ([None]); closing a closed channel panics. *)

From S2P Require Export Pb.

(** The values sent through a [chan any]: nil, an error, or a read index. *)
Inductive any : Type :=
| AnyNil
| AnyErr (e : error)
| AnyIndex (i : Z).

(** ** wait.go *)

Record waitList : Type := mkWaitList {
  wl_m : gmap Z nat;
  wl_chans : gmap nat (list any);   (* the buffers *)
  wl_next : nat
}.

#[export] Instance eta_waitList : Eta waitList := fun w => mkWaitList (wl_m w) (wl_chans w) (wl_next w).

Definition newWait : waitList := mkWaitList ∅ ∅ 0.

Definition waitList_Register (id : Z) (w : waitList) : nat * waitList :=
  let ch := wl_next w in
  (ch, mkWaitList (<[ id := ch ]> (wl_m w)) (<[ ch := [] ]> (wl_chans w)) (S ch)).

(** [ch <- x] on a channel of capacity one. *)
Definition chan_send (ch : nat) (x : any) (w : waitList) : option waitList :=
  match wl_chans w !! ch with
  | Some [] => Some (w <| wl_chans ::= <[ ch := [x] ]> |>)
  | _ => None
  end.

(** [<-ch], when something is there. *)
Definition chan_recv (ch : nat) (w : waitList) : option (any * waitList) :=
  match wl_chans w !! ch with
  | Some (x :: rest) => Some (x, w <| wl_chans ::= <[ ch := rest ]> |>)
  | _ => None
  end.

Definition waitList_Trigger (id : Z) (x : any) (w : waitList) : option waitList :=
  match wl_m w !! id with
  | Some ch => chan_send ch x (w <| wl_m ::= delete id |>)
  | None => Some w
  end.

Definition waitList_IsRegistered (id : Z) (w : waitList) : bool := bool_decide (is_Some (wl_m w !! id)).

(** ** wait_time.go *)

Inductive waitChan : Type :=
| Closec               (* the package's channel, closed at start *)
| TimeChan (ch : nat).

Record timeList : Type := mkTimeList {
  lastTriggerDeadline : Z;
  tl_m : gmap Z nat;
  tl_closed : gset nat;
  tl_next : nat
}.

Definition NewTimeList : timeList := mkTimeList 0 ∅ ∅ 0.

Definition timeList_Wait (deadline : Z) (tl : timeList) : waitChan * timeList :=
  if deadline <=? lastTriggerDeadline tl then (Closec, tl)
  else match tl_m tl !! deadline with
       | Some ch => (TimeChan ch, tl)
       | None =>
           let ch := tl_next tl in
           (TimeChan ch, mkTimeList (lastTriggerDeadline tl) (<[ deadline := ch ]> (tl_m tl)) (tl_closed tl) (S ch))
       end.

Definition due (deadline : Z) (tl : timeList) : gmap Z nat := filter (fun p => p.1 <= deadline) (tl_m tl).

Definition timeList_Trigger (deadline : Z) (tl : timeList) : res timeList :=
  let chans := (map_to_list (due deadline tl)).*2 in
  if bool_decide (Exists (fun ch => ch ∈ tl_closed tl) chans) || negb (bool_decide (NoDup chans))
  then Panic "close of closed channel"
  else Ok (mkTimeList deadline (filter (fun p => ~ p.1 <= deadline) (tl_m tl))
             (tl_closed tl ∪ list_to_set chans) (tl_next tl)).

Definition chan_closed (c : waitChan) (tl : timeList) : bool :=
  match c with Closec => true | TimeChan ch => bool_decide (ch ∈ tl_closed tl) end.

(** ** Invariants *)

(** Every registered waiter has an empty channel of its own. *)
Definition wait_ok (w : waitList) : Prop :=
  (forall id ch, wl_m w !! id = Some ch -> wl_chans w !! ch = Some [] /\ (ch < wl_next w)%nat) /\
  (forall i j ch, wl_m w !! i = Some ch -> wl_m w !! j = Some ch -> i = j) /\
  (forall ch b, wl_chans w !! ch = Some b -> (ch < wl_next w)%nat).

Lemma wait_ok_new : wait_ok newWait.
Proof. split_and!; intros *; simpl; rewrite ?lookup_empty; done. Qed.

Lemma wait_ok_Register id w : wait_ok w -> wait_ok (waitList_Register id w).2.
Proof.
  intros (H1 & H2 & H3). split_and!; simpl.
  - intros i ch Hi. apply lookup_insert_Some in Hi as [[<- <-]|[Hne Hi]].
    + rewrite lookup_insert_eq. split; [done|lia].
    + destruct (H1 _ _ Hi) as [Hb Hlt]. rewrite lookup_insert_ne by lia. split; [done|lia].
  - intros i j ch Hi Hj. apply lookup_insert_Some in Hi as [[<- <-]|[Hi1 Hi]], Hj as [[Ej Ej']|[Hj1 Hj]]; try done.
    + apply H1 in Hj as [_ Hj]. lia.
    + subst. apply H1 in Hi as [_ Hi]. lia.
    + by eapply H2.
  - intros ch b Hb. apply lookup_insert_Some in Hb as [[<- _]|[_ Hb]]; [lia|]. apply H3 in Hb. lia.
Qed.

(** Triggering never blocks: it fills the waiter's channel and forgets it. *)
Lemma wait_ok_Trigger id x w :
  wait_ok w -> exists w', waitList_Trigger id x w = Some w' /\ wait_ok w' /\
    wl_m w' = delete id (wl_m w) /\
    (forall ch, wl_chans w' !! ch =
       if bool_decide (wl_m w !! id = Some ch) then Some [x] else wl_chans w !! ch).
Proof.
  intros Hok. pose proof Hok as (H1 & H2 & H3). unfold waitList_Trigger. destruct (wl_m w !! id) as [ch|] eqn:E.
  - destruct (H1 _ _ E) as [Hb Hlt]. unfold chan_send. simpl. rewrite Hb. eexists. split; [reflexivity|]. simpl.
    split; [|split; [done|]].
    + split_and!; simpl.
      * intros i c Hi. apply lookup_delete_Some in Hi as [Hne Hi].
        rewrite lookup_insert_ne; [by apply H1 in Hi|]. intros <-. by apply Hne, (H2 _ _ ch).
      * intros i j c Hi Hj. apply lookup_delete_Some in Hi as [_ Hi], Hj as [_ Hj]. by eapply H2.
      * intros c b Hc. apply lookup_insert_Some in Hc as [[<- _]|[_ Hc]]; [done|by eapply H3].
    + intros c. case_bool_decide as Hc.
      * injection Hc as <-. by rewrite lookup_insert_eq.
      * rewrite lookup_insert_ne; [done|congruence].
  - exists w. split; [done|]. split; [done|]. split; [by rewrite delete_id|]. done.
Qed.

(** The channels a [timeList] still holds are open, distinct, and wait for later
    deadlines. *)
Definition time_ok (tl : timeList) : Prop :=
  (forall t ch, tl_m tl !! t = Some ch -> lastTriggerDeadline tl < t /\ ch ∉ tl_closed tl /\ (ch < tl_next tl)%nat) /\
  (forall s t ch, tl_m tl !! s = Some ch -> tl_m tl !! t = Some ch -> s = t) /\
  (forall ch, ch ∈ tl_closed tl -> (ch < tl_next tl)%nat).

Lemma time_ok_new : time_ok NewTimeList.
Proof. split_and!; intros *; simpl; rewrite ?lookup_empty; done. Qed.

Lemma time_ok_Wait d tl : time_ok tl -> time_ok (timeList_Wait d tl).2.
Proof.
  intros Hok. pose proof Hok as (H1 & H2 & H3). unfold timeList_Wait.
  destruct (_ <=? _) eqn:E; to_prop; [done|]. destruct (tl_m tl !! d) eqn:Ed; [done|]. split_and!; simpl.
  - intros t ch Ht. apply lookup_insert_Some in Ht as [[<- <-]|[_ Ht]].
    + split; [done|]. split; [|lia]. intros Hc%H3. lia.
    + apply H1 in Ht as (? & ? & ?). split_and!; [done|done|lia].
  - intros s t ch Hs Ht. apply lookup_insert_Some in Hs as [[<- <-]|[_ Hs]], Ht as [[Et Et']|[_ Ht]]; try done.
    + apply H1 in Ht. lia.
    + subst. apply H1 in Hs. lia.
    + by eapply H2.
  - intros ch Hc%H3. lia.
Qed.

Lemma due_NoDup d tl :
  (forall s t ch, tl_m tl !! s = Some ch -> tl_m tl !! t = Some ch -> s = t) ->
  NoDup ((map_to_list (due d tl)).*2).
Proof.
  intros H. apply NoDup_fmap_2_strong; [|apply NoDup_map_to_list].
  intros [s c1] [t c2] Hs Ht Heq. simpl in Heq. subst c2.
  apply elem_of_map_to_list, map_lookup_filter_Some in Hs as [Hs _], Ht as [Ht _].
  by rewrite (H _ _ _ Hs Ht).
Qed.

(** Triggering never closes a channel twice; it closes exactly the due ones. *)
Lemma time_ok_Trigger d tl :
  time_ok tl -> exists tl', timeList_Trigger d tl = Ok tl' /\ time_ok tl' /\
    lastTriggerDeadline tl' = d /\
    (forall ch, ch ∈ tl_closed tl' <-> ch ∈ tl_closed tl \/ exists t, tl_m tl !! t = Some ch /\ t <= d).
Proof.
  intros (H1 & H2 & H3). unfold timeList_Trigger. set (chans := (map_to_list (due d tl)).*2).
  assert (Hin : forall ch, ch ∈ chans <-> exists t, tl_m tl !! t = Some ch /\ t <= d).
  { intros ch. unfold chans. rewrite list_elem_of_fmap. split.
    - intros ([t c] & -> & Hm). apply elem_of_map_to_list, map_lookup_filter_Some in Hm as [? ?]. by exists t.
    - intros (t & Ht & Hle). exists (t, ch). split; [done|]. by apply elem_of_map_to_list, map_lookup_filter_Some. }
  rewrite (bool_decide_eq_false_2 (Exists _ _)).
  2: { rewrite Exists_exists. intros (ch & Hc & Hcl). apply Hin in Hc as (t & Ht & _). by apply H1 in Ht as (_ & ? & _). }
  rewrite (bool_decide_eq_true_2 (NoDup _)) by (by apply due_NoDup). simpl.
  eexists. split; [reflexivity|]. simpl. split; [|split; [done|]].
  - split_and!; simpl.
    + intros t ch Ht. apply map_lookup_filter_Some in Ht as [Ht Hgt]. simpl in Hgt.
      destruct (H1 _ _ Ht) as (_ & Hcl & Hlt). split; [lia|]. split; [|done].
      rewrite elem_of_union, elem_of_list_to_set, Hin. intros [?|(t' & Ht' & Hle)]; [done|].
      rewrite (H2 _ _ _ Ht' Ht) in Hle. done.
    + intros s t ch Hs Ht. apply map_lookup_filter_Some in Hs as [Hs _], Ht as [Ht _]. by eapply H2.
    + intros ch. rewrite elem_of_union, elem_of_list_to_set, Hin. intros [?|(t & Ht & _)]; [by apply H3|by apply H1 in Ht as (_ & _ & ?)].
  - intros ch. by rewrite elem_of_union, elem_of_list_to_set, Hin.
Qed.

(** A channel handed out for a deadline is closed exactly when the deadline has
    been reached. *)
Lemma wait_until_due i tl :
  time_ok tl ->
  let '(c, tl1) := timeList_Wait i tl in
  (chan_closed c tl1 = true <-> i <= lastTriggerDeadline tl) /\
  forall d, exists tl2, timeList_Trigger d tl1 = Ok tl2 /\
    (chan_closed c tl2 = true <-> i <= lastTriggerDeadline tl \/ i <= d).
Proof.
  intros Hok. pose proof (time_ok_Wait i tl Hok) as Hok1. unfold timeList_Wait in *.
  destruct (i <=? lastTriggerDeadline tl) eqn:E; to_prop.
  { split; [done|]. intros d. destruct (time_ok_Trigger d tl Hok) as (tl2 & H & _). exists tl2. split; [done|]. naive_solver. }
  assert (exists ch tl1, (match tl_m tl !! i with
      | Some ch => (TimeChan ch, tl)
      | None => (TimeChan (tl_next tl), mkTimeList (lastTriggerDeadline tl) (<[ i := tl_next tl ]> (tl_m tl)) (tl_closed tl) (S (tl_next tl)))
      end) = (TimeChan ch, tl1) /\ tl_m tl1 !! i = Some ch /\ time_ok tl1) as (ch & tl1 & -> & Hch & Ht1).
  { destruct (tl_m tl !! i) as [ch|] eqn:Em; [by exists ch, tl|]. do 2 eexists. split; [reflexivity|].
    split; [simpl; by rewrite lookup_insert_eq|exact Hok1]. }
  destruct Ht1 as (H1 & H2 & H3). split.
  - simpl. rewrite bool_decide_eq_true. destruct (H1 _ _ Hch) as (_ & ? & _). split; [done|lia].
  - intros d. destruct (time_ok_Trigger d tl1) as (tl2 & Ht & _ & _ & Hcl); [by split_and!|].
    exists tl2. split; [done|]. simpl. rewrite bool_decide_eq_true, Hcl. split.
    + intros [Hc|(t & Ht' & Hle)]; [by destruct (H1 _ _ Hch) as (_ & ? & _)|]. right. by rewrite (H2 _ _ _ Hch Ht').
    + intros [?|?]; [lia|]. right. by exists i.
Qed.
