(* ===== verification/Wal.v ===== *)
(** * Wal: files, framed write-ahead logs and segments ([raft/wal.go], [raft/segment.go])

    A [wal] is an open file of the [World] of [Disk] with its read offset and the
    size the code tracks; [segmentedWAL] is a sequence of such files. *)

From S2P Require Export Codec Disk.
From Stdlib Require Import String Ascii.

(** ** wal.go *)

Record wal : Type := mkWal {
  w_filename : string;
  w_size : Z;
  w_pos : Z;      (* the offset of the next read *)
  w_open : bool   (* whether the handle is still open *)
}.

#[export] Instance eta_wal : Eta wal := fun w =>
  mkWal (w_filename w) (w_size w) (w_pos w) (w_open w).

Definition fileSize (name : string) (W : World) : Result Z * World :=
  match io_call W with
  | (Some e, W) => (inl e, W)
  | (None, W) => (inr (len (content name W)), W)
  end.

Definition newWAL (name : string) (W : World) : Result wal * World :=
  match openFile name W with
  | (Some e, W) => (inl e, W)
  | (None, W) =>
      match fileSize name W with
      | (inl e, W) => (inl e, W)
      | (inr size, W) => (inr (mkWal name size 0 true), W)
      end
  end.

(** [os.Open], which fails on a missing file. *)
Definition openWALReadOnly (name : string) (W : World) : Result wal * World :=
  match io_call W with
  | (Some e, W) => (inl e, W)
  | (None, W) =>
      match files W !! name with
      | None => (inl IOErr, W)
      | Some _ =>
          match fileSize name W with
          | (inl e, W) => (inl e, W)
          | (inr size, W) => (inr (mkWal name size 0 true), W)
          end
      end
  end.

Definition wal_close (w : wal) (W : World) : option error * wal * World :=
  if negb (w_open w) then (Some IOErr, w, W)
  else let '(e, W) := io_call W in (e, w <| w_open := false |>, W).

Definition wal_clear (w : wal) (W : World) : option error * wal * World :=
  let '(e, w, W) := wal_close w W in
  match e with
  | Some e => (Some e, w, W)
  | None => let '(e, W) := removeFile (w_filename w) W in (e, w, W)
  end.

Definition wal_sync (w : wal) (W : World) : option error * World :=
  if negb (w_open w) then (Some IOErr, W) else io_call W.

(** The bytes [write] sends to the file. *)
Definition frame (batch : bytes) : bytes := PutUint32 (len batch) ++ batch.

Definition wal_write (batch : bytes) (w : wal) (W : World) : option error * wal * World :=
  if negb (w_open w) then (Some IOErr, w, W)
  else
    let framed := frame batch in
    match io W with
    | (Works, W) =>
        (None, w <| w_size ::= Z.add (len framed) |>
                 <| w_pos := len (content (w_filename w) W ++ framed) |>,
         W <| files ::= <[ w_filename w := content (w_filename w) W ++ framed ]> |>)
    | (Fails n, W) =>
        let part := take n framed in
        (Some IOErr, w <| w_size ::= Z.add (len part) |>
                       <| w_pos := len (content (w_filename w) W ++ part) |>,
         W <| files ::= <[ w_filename w := content (w_filename w) W ++ part ]> |>)
    end.

(** [io.ReadFull(w.file, buf)] for [n] bytes: the bytes it got, fewer at the end of the
    file; a read that fails may have got some too.  Reading nothing makes no call. *)
Definition wal_readFull (n : Z) (w : wal) (W : World) : Result bytes * wal * World :=
  if n =? 0 then (inr [], w, W)
  else
    let buf := slice_to (slice_from (content (w_filename w) W) (w_pos w)) n in
    match io W with
    | (Fails k, W) => (inl IOErr, w <| w_pos ::= Z.add (len (take k buf)) |>, W)
    | (Works, W) => (inr buf, w <| w_pos ::= Z.add (len buf) |>, W)
    end.

(** The header, the position in the file ([Seek]) for the check against the tracked size,
    and the payload. *)
Definition wal_read (w : wal) (W : World) : Result bytes * wal * World :=
  if negb (w_open w) then (inl IOErr, w, W)
  else
    match wal_readFull frameHeaderSize w W with
    | (inl e, w, W) => (inl e, w, W)
    | (inr hdr, w, W) =>
        if len hdr =? 0 then (inl ErrEOF, w, W)
        else if len hdr <? frameHeaderSize then (inl ErrTailCorruption, w, W)
        else
          let size := Uint32 hdr in
          match io_call W with
          | (Some e, W) => (inl e, w, W)
          | (None, W) =>
              let remaining := w_size w - w_pos w in
              if remaining <? size then (inl ErrTailCorruption, w, W)
              else
                match wal_readFull size w W with
                | (inl e, w, W) => (inl e, w, W)
                | (inr buf, w, W) =>
                    if len buf <? size then (inl ErrTailCorruption, w, W) else (inr buf, w, W)
                end
          end
    end.

(** Close, [os.Truncate], reopen. *)
Definition wal_truncate (offset : Z) (w : wal) (W : World) : option error * wal * World :=
  let '(e, w, W) := wal_close w W in
  match e with
  | Some e => (Some e, w, W)
  | None =>
      match io_call W with
      | (Some e, W) => (Some e, w, W)
      | (None, W) =>
          let W := W <| files ::= <[ w_filename w := truncate_to offset (content (w_filename w) W) ]> |> in
          match openFile (w_filename w) W with
          | (Some e, W) => (Some e, w, W)
          | (None, W) => (None, mkWal (w_filename w) offset 0 true, W)
          end
      end
  end.

(** ** segment.go *)

Record segmentedWAL : Type := mkSegWal {
  segmentLimit : Z;
  segments : list string;
  current : wal
}.

#[export] Instance eta_segmentedWAL : Eta segmentedWAL := fun s =>
  mkSegWal (segmentLimit s) (segments s) (current s).

Definition segmentPrefix : string := "wal-".
Definition segmentSuffix : string := ".log".
Definition defaultSegmentLimit : Z := 64 * 1000 * 1000.

(** The last [k] decimal digits of [n]. *)
Fixpoint decimal (k : nat) (n : Z) : string :=
  match k with
  | O => ""
  | S k => decimal k (n / 10) ++ String (ascii_of_nat (48 + Z.to_nat (n mod 10))) ""
  end.

(** [fmt.Sprintf("wal-%08d.log", seq)]: eight digits, more when [seq] (a
    [uint32]) needs them. *)
Definition segmentName (seq : Z) : string :=
  let k := if seq <? 10 ^ 8 then 8%nat else if seq <? 10 ^ 9 then 9%nat else 10%nat in
  segmentPrefix ++ decimal k seq ++ segmentSuffix.

Definition is_digit (c : ascii) : bool :=
  ((48 <=? nat_of_ascii c) && (nat_of_ascii c <=? 57))%nat.

(** [fmt.Sscanf(s, "%08d", &seq)]: blanks, then at most eight digits, at least
    one; what follows is ignored. *)
Fixpoint scan_digits (width : nat) (s : string) (acc : Z) : Z :=
  match width, s with
  | S width, String c s =>
      if is_digit c then scan_digits width s (acc * 10 + (Z.of_nat (nat_of_ascii c) - 48))
      else acc
  | _, _ => acc
  end.

Fixpoint skip_space (s : string) : string :=
  match s with
  | String c s' => if Ascii.eqb c " " then skip_space s' else s
  | EmptyString => s
  end.

Definition scan_seq (s : string) : option Z :=
  match skip_space s with
  | String c _ as s => if is_digit c then Some (scan_digits 8 s 0) else None
  | EmptyString => None
  end.

Definition parseSegmentSeq (name : string) : option Z :=
  let n := String.length name in
  if String.prefix segmentPrefix name && (8 <=? n)%nat &&
     String.eqb (String.substring (n - 4) 4 name) segmentSuffix
  then scan_seq (String.substring 4 (n - 8) name)
  else None.

Definition string_le (a b : string) : Prop := String.leb a b = true.

#[export] Instance string_le_dec a b : Decision (string_le a b).
Proof. unfold string_le. apply _. Defined.

(** [os.ReadDir] and [sort.Strings]. *)
Definition listSegments (W : World) : Result (list string) * World :=
  match io_call W with
  | (Some e, W) => (inl e, W)
  | (None, W) =>
      let names := List.filter (fun n => match parseSegmentSeq n with Some _ => true | None => false end)
                     (elements (dom (files W))) in
      (inr (merge_sort string_le names), W)
  end.

Definition newSegmentedWAL (limit : Z) (W : World) : Result segmentedWAL * World :=
  match io_call W with (* os.MkdirAll *)
  | (Some e, W) => (inl e, W)
  | (None, W) =>
      let limit := if limit <=? 0 then defaultSegmentLimit else limit in
      match listSegments W with
      | (inl e, W) => (inl e, W)
      | (inr segs, W) =>
          let segs := match segs with [] => [segmentName 0] | _ => segs end in
          match newWAL (default "" (last segs)) W with
          | (inl e, W) => (inl e, W)
          | (inr w, W) => (inr (mkSegWal limit segs w), W)
          end
      end
  end.

Definition segmentedWAL_write (batch : bytes) (sw : segmentedWAL) (W : World)
  : option error * segmentedWAL * World :=
  let '(e, w, W) := wal_write batch (current sw) W in (e, sw <| current := w |>, W).

Definition segmentedWAL_sync (sw : segmentedWAL) (W : World) : option error * World :=
  wal_sync (current sw) W.

Definition segmentedWAL_cut (sw : segmentedWAL) (W : World) : option error * segmentedWAL * World :=
  match wal_sync (current sw) W with
  | (Some e, W) => (Some e, sw, W)
  | (None, W) =>
      let '(e, w, W) := wal_close (current sw) W in
      let sw := sw <| current := w |> in
      match e with
      | Some e => (Some e, sw, W)
      | None =>
          let lastSeq := default 0 (parseSegmentSeq (default "" (last (segments sw)))) in
          let name := segmentName (wrap32 (lastSeq + 1)) in
          match newWAL name W with
          | (inl e, W) => (Some e, sw, W)
          | (inr w, W) =>
              (None, sw <| segments ::= fun l => (l ++ [name])%list |> <| current := w |>, W)
          end
      end
  end.

Definition segmentedWAL_maybeCut (sw : segmentedWAL) (W : World)
  : option error * segmentedWAL * World :=
  if segmentLimit sw <=? w_size (current sw) then segmentedWAL_cut sw W else (None, sw, W).

Definition segmentedWAL_currentSegment (sw : segmentedWAL) : string := w_filename (current sw).

(** The outcomes of [readSegmentFrames]: end of file, a corrupted tail after
    [goodPos] good bytes, or another error. *)
Inductive frames_end : Type :=
| FramesDone
| FramesTail (goodPos : Z)
| FramesErr (e : error).

Section readers.
Context {A : Type} (fn : string -> bytes -> A -> res (A * option error)).

(** Each good frame moves the read offset by at least four bytes, so the number
    of iterations is bounded by the length of the file. *)
Fixpoint readSegmentFrames (fuel : nat) (name : string) (goodPos : Z) (w : wal) (a : A) (W : World)
  : res (frames_end * wal * A * World) :=
  match fuel with
  | O => Ok (FramesErr (Errorf "out of fuel"), w, a, W)
  | S fuel =>
      let '(r, w, W) := wal_read w W in
      match r with
      | inl ErrEOF => Ok (FramesDone, w, a, W)
      | inl ErrTailCorruption => Ok (FramesTail goodPos, w, a, W)
      | inl e => Ok (FramesErr e, w, a, W)
      | inr batch =>
          '(a, e) ← fn name batch a;
          match e with
          | Some e => Ok (FramesErr e, w, a, W)
          | None =>
              readSegmentFrames fuel name (goodPos + (frameHeaderSize + len batch)) w a W
          end
      end
  end.

Definition frames_fuel (name : string) (W : World) : nat := S (S (List.length (content name W))).

(** The sealed segments, oldest first: corruption there is an error. *)
Fixpoint readSealed (names : list string) (a : A) (W : World) : res (option error * A * World) :=
  match names with
  | [] => Ok (None, a, W)
  | name :: rest =>
      match openWALReadOnly name W with
      | (inl e, W) => Ok (Some e, a, W)
      | (inr r, W) =>
          '(out, r, a, W) ← readSegmentFrames (frames_fuel name W) name 0 r a W;
          let '(_, _, W) := wal_close r W in
          match out with
          | FramesDone => readSealed rest a W
          | FramesTail _ => Ok (Some (Errorf "corruption in sealed segment"), a, W)
          | FramesErr e => Ok (Some e, a, W)
          end
      end
  end.

(** The last segment, read through the open handle; a corrupted tail is cut
    off. *)
Definition readLast (name : string) (sw : segmentedWAL) (a : A) (W : World)
  : res (option error * segmentedWAL * A * World) :=
  match (if w_open (current sw) then io_call W else (Some IOErr, W)) with (* Seek *)
  | (Some e, W) => Ok (Some e, sw, a, W)
  | (None, W) =>
      let w := (current sw) <| w_pos := 0 |> in
      '(out, w, a, W) ← readSegmentFrames (frames_fuel (w_filename w) W) name 0 w a W;
      match out with
      | FramesDone => Ok (None, sw <| current := w |>, a, W)
      | FramesTail goodPos =>
          let '(e, w, W) := wal_truncate goodPos w W in
          Ok (e, sw <| current := w |>, a, W)
      | FramesErr e => Ok (Some e, sw <| current := w |>, a, W)
      end
  end.

Definition segmentedWAL_readAll (sw : segmentedWAL) (a : A) (W : World)
  : res (option error * segmentedWAL * A * World) :=
  '(e, a, W) ← readSealed (removelast (segments sw)) a W;
  match e, last (segments sw) with
  | Some e, _ => Ok (Some e, sw, a, W)
  | None, None => Ok (None, sw, a, W)
  | None, Some name => readLast name sw a W
  end.

End readers.

(** On a removal error Go returns before assigning [sw.segments = kept]. *)
Fixpoint deleteSegments_loop (shouldDelete : string -> bool) (cur : string) (names : list string)
  (W : World) : option error * list string * World :=
  match names with
  | [] => (None, [], W)
  | name :: rest =>
      if String.eqb name cur || negb (shouldDelete name) then
        let '(e, kept, W) := deleteSegments_loop shouldDelete cur rest W in
        (e, name :: kept, W)
      else
        match removeFile name W with
        | (Some e, W) => (Some e, [], W)
        | (None, W) => deleteSegments_loop shouldDelete cur rest W
        end
  end.

Definition segmentedWAL_deleteSegments (shouldDelete : string -> bool) (sw : segmentedWAL) (W : World)
  : option error * segmentedWAL * World :=
  let '(e, kept, W) := deleteSegments_loop shouldDelete (w_filename (current sw)) (segments sw) W in
  match e with
  | Some e => (Some e, sw, W)
  | None => (None, sw <| segments := kept |>, W)
  end.

Definition segmentedWAL_close (sw : segmentedWAL) (W : World) : option error * segmentedWAL * World :=
  let '(e, w, W) := wal_close (current sw) W in (e, sw <| current := w |>, W).
