(* ===== verification/EngineWal.v ===== *)
(** * EngineWal: the index and value files of a shard ([engine/wal.go], [engine/atomic_file.go])

    A shard of the key-value engine keeps the values in one file and, in a second
    one, an entry per write: the key and where its value is.  Paths are names in
    the data directory. *)

From S2P Require Export Disk.
From Stdlib Require Import String.

Definition walIndexHeaderBytes : Z := 16.

Record engineWAL : Type := mkEngineWAL {
  indexFilename : string;
  valueFilename : string;
  indexFile : file;
  valueFile : file
}.

#[export] Instance eta_engineWAL : Eta engineWAL := fun w =>
  mkEngineWAL (indexFilename w) (valueFilename w) (indexFile w) (valueFile w).

Record indexEntry : Type := mkIndexEntry {
  ie_Key : bytes;
  ie_ValueSize : Z;
  ie_ValueOffset : Z
}.

(** Calls on one of the two files. *)
Definition on_index {A : Type} (m : M (file * World) A) : M (engineWAL * World) A :=
  zoom (fun '(w, W) => (indexFile w, W)) (fun '(f, W) '(w, _) => (w <| indexFile := f |>, W)) m.
Definition on_value {A : Type} (m : M (file * World) A) : M (engineWAL * World) A :=
  zoom (fun '(w, W) => (valueFile w, W)) (fun '(f, W) '(w, _) => (w <| valueFile := f |>, W)) m.

Definition newEngineWAL (index value : string) : M World (Result engineWAL) :=
  indexF ←? open_file index;
  valueF ←? open_file value;
  mret (inr (mkEngineWAL index value indexF valueF)).

(** [errors.Join]: nil if both are nil. *)
Definition errors_Join (r1 r2 : Result unit) : Result unit :=
  match r1, r2 with
  | inl e1, inl e2 => inl (Join e1 e2)
  | inl e, _ | _, inl e => inl e
  | _, _ => inr tt
  end.

Definition engineWAL_close : M (engineWAL * World) (Result unit) :=
  err1 ← on_index file_Close;
  err2 ← on_value file_Close;
  mret (errors_Join err1 err2).

Definition engineWAL_clear : M (engineWAL * World) (Result unit) :=
  _ ←? engineWAL_close;
  '(index, value) ← gets (fun '(w, _) => (indexFilename w, valueFilename w));
  e1 ← on_dir (remove_file index);
  e2 ← on_dir (remove_file value);
  mret (errors_Join e1 e2).

Definition walIndexLen (klen : Z) : Z := walIndexHeaderBytes + klen.

(** [copy(dst[off:], data)] inside [dst]. *)
Definition put_at (off : Z) (data dst : bytes) : bytes :=
  (slice_to dst off ++ data ++ slice_from dst (off + len data))%list.

(** The buffer after the call, and the number of bytes used. *)
Definition encodeInto (dst key : bytes) (vsize voffset : Z) : res (bytes * Z) :=
  let klen := len key in
  let total := walIndexLen klen in
  if len dst <? total then Panic "slice bounds out of range"
  else
    let dst := put_at 0 (PutUint32 klen) dst in
    let dst := put_at 4 (PutUint32 vsize) dst in
    let dst := put_at 8 (PutUint64 voffset) dst in
    let dst := put_at walIndexHeaderBytes key dst in
    Ok (dst, total).

(** How the loop of [readIndex] ends. *)
Inductive read_end : Type :=
| ReadDone
| ReadCorrupted (position : Z)
| ReadErr (e : error).

(** Each entry is at least sixteen bytes, so the length of the file bounds the
    number of iterations. *)
Fixpoint readIndex_loop {A : Type} (handler : indexEntry -> A -> A * option error)
  (fuel : nat) (position : Z) (a : A) : M (engineWAL * World) (A * read_end) :=
  match fuel with
  | O => mret (a, ReadErr (Errorf "out of fuel"))
  | S fuel =>
      r ← on_index (file_ReadFull walIndexHeaderBytes);
      match r with
      | inl ErrUnexpectedEOF => mret (a, ReadCorrupted position)
      | inl ErrEOF => mret (a, ReadDone)
      | inl e => mret (a, ReadErr e)
      | inr header =>
          let klen := Uint32 (slice header 0 4) in
          let vlen := Uint32 (slice header 4 8) in
          let offset := Uint64 (slice header 8 16) in
          r ← on_index (file_ReadFull klen);
          match r with
          | inl ErrUnexpectedEOF | inl ErrEOF => mret (a, ReadCorrupted position)
          | inl e => mret (a, ReadErr e)
          | inr buf =>
              let position := int64 (position + wrap32 (walIndexHeaderBytes + klen)) in
              let '(a, e) := handler (mkIndexEntry buf vlen (int64 offset)) a in
              match e with
              | Some e => mret (a, ReadErr e)
              | None => readIndex_loop handler fuel position a
              end
          end
      end
  end.

(** The deferred function cuts a corrupted tail off. *)
Definition engineWAL_readIndex {A : Type} (handler : indexEntry -> A -> A * option error) (a : A)
  : M (engineWAL * World) (A * Result unit) :=
  fuel ← gets (fun '(w, W) => S (List.length (content (fl_name (indexFile w)) W)));
  '(a, out) ← readIndex_loop handler fuel 0 a;
  match out with
  | ReadDone => mret (a, inr tt)
  | ReadErr e => mret (a, inl e)
  | ReadCorrupted position =>
      t ← on_index (file_Truncate position);
      mret (a, match t with
               | inr _ => inl ErrCorruption
               | inl e => inl (Join ErrCorruption e)
               end)
  end.

(** [readValue] in its two parts: moving the offset of the shared handle, and
    reading from wherever it is. *)
Definition readValue_seek (offset : Z) : M (engineWAL * World) (Result unit) :=
  if 0 <? offset then on_value (file_Seek offset) else no_error.

Definition readValue_read (offset size : Z) : M (engineWAL * World) (Result bytes) :=
  r ← on_value (file_ReadFull size);
  match r with
  | inl ErrUnexpectedEOF =>
      t ← on_value (file_Truncate offset);
      mret (match t with
            | inl e => inl (Join ErrCorruption (Join ErrTruncate e))
            | inr _ => inl ErrCorruption
            end)
  | r => mret r
  end.

Definition engineWAL_readValue (offset size : Z) : M (engineWAL * World) (Result bytes) :=
  if (offset <? 0) || (size <=? 0) then return_err ErrInvalidRead
  else _ ←? readValue_seek offset; readValue_read offset size.

Definition engineWAL_writeIndex (data : bytes) : M (engineWAL * World) (Result unit) :=
  _ ←? on_index (file_Write data); on_index file_Sync.

Definition engineWAL_writeValue (data : bytes) : M (engineWAL * World) (Result unit) :=
  _ ←? on_value (file_Write data); on_value file_Sync.

(** ** atomic_file.go *)

Section platform.
Context (IsWindows : bool).

Definition replaceWALFile (livePath newPath : string) : M World (Result unit) :=
  if negb IsWindows then rename_file newPath livePath
  else _ ← remove_file livePath; rename_file newPath livePath.

Definition replaceWALFiles (indexPath valuePath tempIndexPath tempValuePath : string) : M World (Result unit) :=
  if negb IsWindows then
    _ ←? rename_file tempIndexPath indexPath;
    rename_file tempValuePath valuePath
  else
    _ ← remove_file indexPath;
    _ ←? rename_file tempIndexPath indexPath;
    _ ← remove_file valuePath;
    rename_file tempValuePath valuePath.

End platform.
