(* ===== verification/EngineShard.v ===== *)
(** * EngineShard: a shard of the engine and its group committer
    ([engine/shard.go], [engine/group_committer.go])

    A shard holds a map of its keys, with the values it has in memory, and the two
    files of [EngineWal].  One goroutine, the group committer, writes to the files:
    clients hand it requests on [reqCh] and wait for its answer.

    A channel is the list of what waits in it, oldest first; a sender that finds
    the buffer full is queued behind it, as the Go runtime does.  The channel a
    client waits on is a number, and [s_resps] holds what was sent on it.  The
    state of a call is the shard and an [Env]: the directory and the channel
    [FatalErr] that the shards share.  The field [requested] of [valueEntry], which
    no code reads or sets, is left out. *)

From S2P Require Export EngineWal.
From stdpp Require Import pretty.
From Stdlib Require Import String SpecFloat.
Local Open Scope Z_scope.

Record valueEntry : Type := mkValueEntry {
  payload : option bytes;   (* nil when the value is only on disk *)
  ve_size : Z;
  ve_offset : Z
}.

#[export] Instance eta_valueEntry : Eta valueEntry := fun v =>
  mkValueEntry (payload v) (ve_size v) (ve_offset v).

Record writeRequest : Type := mkWriteRequest {
  wr_key : bytes;
  wr_value : bytes;
  wr_respCh : option nat
}.

(** What the committer is asked to do between writes. *)
Inductive maintenance : Type := DoCompact | DoCleanup.

Record compactRequest : Type := mkCompactRequest {
  doCompact_fn : maintenance;
  cr_err : nat
}.

(** ** compaction.go: the policy *)

Record compactionPolicy : Type := mkPolicy {
  CheckEvery : Z;
  MinInterval : Z;
  MaxInterval : Z;
  AmpThreshold : spec_float
}.

Definition Minute : Z := 60 * 10 ^ 9.
Definition Hour : Z := 60 * Minute.

Definition defaultCompactionPolicy : compactionPolicy :=
  mkPolicy Minute (10 * Minute) (24 * Hour) (f64 4).

Definition isReasonable (p : compactionPolicy) : bool :=
  (Minute <=? CheckEvery p) && (Minute <=? MinInterval p) && (Minute <=? MaxInterval p) &&
  SFltb (f64 1) (AmpThreshold p) && (CheckEvery p <=? MinInterval p) && (MinInterval p <=? MaxInterval p).

(** [lastCompacted] is [None] for the zero time. *)
Record compactWorker : Type := mkCompactWorker {
  lastCompacted : option Z;
  policy : compactionPolicy
}.

Definition newCompactionWorker (p : compactionPolicy) : Result compactWorker :=
  if negb (isReasonable p) then inl ErrInvalidCompactionPolicy else inr (mkCompactWorker None p).

(** ** shard.go, group_committer.go: the state *)

Definition syncBatchSize : Z := 100.

Record shard : Type := mkShard {
  s_data : gmap bytes valueEntry;
  s_cancelled : bool;               (* [ctx.Done()] *)
  s_wal : engineWAL;
  s_buf : list writeRequest;
  s_reqCh : list writeRequest;
  s_compactCh : list compactRequest;
  s_walIndexBuf : bytes;            (* the reusable buffers, to their capacity *)
  s_walValueBuf : bytes;
  s_stopped : bool;                 (* [stopCh] is closed *)
  s_done : bool;                    (* [doneCh] is closed *)
  s_compactionWorker : compactWorker;
  keyBytesInRAM : Z;
  numKeys : Z;
  indexBytesOnDisk : Z;
  valueOffset : Z;
  s_resps : gmap nat (Result unit);
  s_next : nat
}.

#[export] Instance eta_shard : Eta shard := fun s =>
  mkShard (s_data s) (s_cancelled s) (s_wal s) (s_buf s) (s_reqCh s) (s_compactCh s)
    (s_walIndexBuf s) (s_walValueBuf s) (s_stopped s) (s_done s) (s_compactionWorker s)
    (keyBytesInRAM s) (numKeys s) (indexBytesOnDisk s) (valueOffset s) (s_resps s) (s_next s).

Record Env : Type := mkEnv {
  env_world : World;
  FatalErr : bool                   (* whether the channel is closed *)
}.

#[export] Instance eta_Env : Eta Env := fun e => mkEnv (env_world e) (FatalErr e).

Abbreviation Shard A := (M (shard * Env) A).

Definition on_wal {A : Type} (m : M (engineWAL * World) A) : Shard A :=
  zoom (fun '(s, E) => (s_wal s, env_world E))
    (fun '(w, W) '(s, E) => (s <| s_wal := w |>, E <| env_world := W |>)) m.

Definition on_env_dir {A : Type} (m : M World A) : Shard A :=
  zoom (fun '(_, E) => env_world E) (fun W '(s, E) => (s, E <| env_world := W |>)) m.

Definition upd (f : shard -> shard) : Shard unit := modify (fun '(s, E) => (f s, E)).
Definition get_s {A : Type} (f : shard -> A) : Shard A := gets (fun '(s, _) => f s).

Definition indexName (i : nat) : string := "shar" ++ pretty i ++ ".index".
Definition valueName (i : nat) : string := "shar" ++ pretty i ++ ".value".

Definition newShard (i : nat) : M World (Result shard) :=
  w ←? newEngineWAL (indexName i) (valueName i);
  match newCompactionWorker defaultCompactionPolicy with
  | inl e => mret (inl e)
  | inr worker =>
      size ←? zoom (fun W => (valueFile w, W)) (fun '(_, W) _ => W) file_Size;
      mret (inr (mkShard ∅ false w [] [] [] [] [] false false worker 0 0 0 size ∅ 0))
  end.

(** ** Reading *)

Definition replay_entry (ie : indexEntry) (data : gmap bytes valueEntry)
  : gmap bytes valueEntry * option error :=
  (<[ ie_Key ie := mkValueEntry None (ie_ValueSize ie) (ie_ValueOffset ie) ]> data, None).

(** The bytes of all keys; the order of the walk does not matter. *)
Definition key_bytes (data : gmap bytes valueEntry) : Z :=
  foldr (fun '(k, _) n => len k + n) 0 (map_to_list data).

Definition shard_replay : Shard (Result unit) :=
  data0 ← get_s s_data;
  '(data, r) ← on_wal (engineWAL_readIndex replay_entry data0);
  _ ← upd (fun s => s <| s_data := data |>);
  _ ←? mret (M:=M _) r;
  _ ← upd (fun s => s <| keyBytesInRAM := key_bytes (s_data s) |>
                      <| numKeys := Z.of_nat (size (s_data s)) |>);
  no_error.

(** [getValue] on the entry of [key]; a value read from disk is kept. *)
Definition shard_getValue (key : bytes) (ve : valueEntry) : Shard (Result bytes) :=
  let keep v := upd (fun s => s <| s_data ::= <[ key := ve <| payload := Some v |> ]> |>) in
  match payload ve with
  | Some v => mret (inr v)
  | None =>
      if ve_size ve =? 0 then _ ← keep []; mret (inr [])
      else
        v ←? on_wal (engineWAL_readValue (ve_offset ve) (ve_size ve));
        _ ← keep v; mret (inr v)
  end.

(** [None] for a missing key. *)
Definition shard_get (key : bytes) : Shard (Result (option bytes)) :=
  data ← get_s s_data;
  match data !! key with
  | None => mret (inr None)
  | Some ve => v ←? shard_getValue key ve; mret (inr (Some v))
  end.

(** [forEach] over the entries in the order the runtime walks the map; [fn] has
    its own state. *)
Fixpoint shard_forEach {A : Type} (fn : bytes -> bytes -> A -> A * bool)
  (order : list (bytes * valueEntry)) (a : A) : Shard (A * Result unit) :=
  match order with
  | [] => mret (a, inr tt)
  | (k, ve) :: order =>
      r ← shard_getValue k ve;
      match r with
      | inl e => mret (a, inl e)
      | inr v =>
          let '(a, more) := fn k v a in
          if more then shard_forEach fn order a else mret (a, inr tt)
      end
  end.

(** ** Writing *)

Definition shard_putInternal (key value : bytes) (s : shard) : shard :=
  let s := match s_data s !! key with
           | Some _ => s
           | None => s <| keyBytesInRAM ::= fun n => int64 (n + len key) |>
                       <| numKeys ::= fun n => int64 (n + 1) |>
           end in
  s <| s_data ::= <[ key := mkValueEntry (Some value) (len value) 0 ]> |>.

(** A fresh response channel. *)
Definition make_respCh : Shard nat :=
  ch ← get_s s_next; _ ← upd (fun s => s <| s_next := S ch |>); mret ch.

Definition respond (ch : nat) (r : Result unit) : Shard unit :=
  upd (fun s => s <| s_resps ::= <[ ch := r ]> |>).

(** The [select] that sends on [reqCh] unless [stopCh] is closed.  With both
    possible Go picks either ([pick]); [false]: it took the stop case.  A sender that has
    to wait is entered behind the buffer, beyond the capacity of the channel: it has not
    returned from the [select] until its request is among the first [syncBatchSize * 2],
    or the channel is stopped ([shard_stop]), which takes it out again. *)
Definition send_req (pick : bool) (r : writeRequest) : Shard bool :=
  '(stopped, room) ← get_s (fun s => (s_stopped s, len (s_reqCh s) <? syncBatchSize * 2));
  if (stopped : bool) && negb (pick && room) then mret false
  else _ ← upd (fun s => s <| s_reqCh ::= fun l => (l ++ [r])%list |>); mret true.

(** [put]: the check of the context, and then the send; other goroutines may run in
    between.  The put waits for the answer on the channel that is returned. *)
Definition put_check : Shard (Result unit) :=
  cancelled ← get_s s_cancelled;
  if (cancelled : bool) then return_err ErrCanceled else mret (inr tt).

Definition put_send (pick : bool) (key : bytes) (value : option bytes) : Shard (Result nat) :=
  ch ← make_respCh;
  sent ← send_req pick (mkWriteRequest key (default [] value) (Some ch));
  if (sent : bool) then mret (inr ch) else return_err ErrClosed.

Definition shard_put (pick : bool) (key : bytes) (value : option bytes) : Shard (Result nat) :=
  _ ←? put_check; put_send pick key value.

Definition shard_putAsync (pick : bool) (key : bytes) (value : option bytes) : Shard unit :=
  let value := default [] value in
  _ ← upd (shard_putInternal key value);
  _ ← send_req pick (mkWriteRequest key value None);
  mret tt.

Definition shard_clear : Shard (Result unit) :=
  _ ←? on_wal engineWAL_clear;
  _ ← upd (fun s => s <| keyBytesInRAM := 0 |> <| numKeys := 0 |> <| indexBytesOnDisk := 0 |>
                      <| valueOffset := 0 |> <| s_data := ∅ |>);
  w ← get_s s_wal;
  w ←? on_env_dir (newEngineWAL (indexFilename w) (valueFilename w));
  _ ← upd (fun s => s <| s_wal := w |>);
  no_error.

(** ** group_committer.go *)

(** [make([]byte, size)] if the buffer is too small, else its first bytes. *)
Definition reuse (buf : bytes) (size : Z) : bytes :=
  if len buf <? size then replicate (Z.to_nat size) Byte.x00 else buf.

(** The encode loop of [flush]: the index buffer, the value buffer, and the
    offsets in both and in the value file. *)
Fixpoint encode_batch (batch : list writeRequest) (idxBuf valBuf : bytes) (idxOff valOff fileOff : Z)
  : res (bytes * bytes * Z) :=
  match batch with
  | [] => Ok (idxBuf, valBuf, fileOff)
  | r :: batch =>
      '(tail, n) ← encodeInto (slice_from idxBuf idxOff) (wr_key r) (len (wr_value r)) fileOff;
      encode_batch batch (slice_to idxBuf idxOff ++ tail)%list (put_at valOff (wr_value r) valBuf)
        (idxOff + n) (valOff + len (wr_value r)) (int64 (fileOff + len (wr_value r)))
  end.

Definition idx_total (batch : list writeRequest) : Z :=
  foldr (fun r n => walIndexLen (len (wr_key r)) + n) 0 batch.
Definition val_total (batch : list writeRequest) : Z :=
  foldr (fun r n => len (wr_value r) + n) 0 batch.

(** A failed write is reported to everyone who waits, then the committer panics. *)
Definition flush_failed (batch : list writeRequest) (what : string) : Shard unit :=
  _ ← for_each batch (fun r => match wr_respCh r with
                               | Some ch => respond ch (inl (Errorf what))
                               | None => mret tt
                               end);
  panic what.

Definition flush_ack (r : writeRequest) : Shard unit :=
  match wr_respCh r with
  | Some ch => _ ← upd (shard_putInternal (wr_key r) (wr_value r)); respond ch (inr tt)
  | None => mret tt
  end.

Definition lift_res {A : Type} (x : res A) : Shard A := fun st => (x, st).

Definition shard_flush (batch : list writeRequest) : Shard unit :=
  s ← get_s id;
  let idxTotal := idx_total batch in
  let valTotal := val_total batch in
  let idxBack := reuse (s_walIndexBuf s) idxTotal in
  let valBack := reuse (s_walValueBuf s) valTotal in
  '(idxBuf, valBuf, fileOff) ← lift_res
    (encode_batch batch (slice_to idxBack idxTotal) (slice_to valBack valTotal) 0 0 (valueOffset s));
  _ ← upd (fun s => s <| s_walIndexBuf := put_at 0 idxBuf idxBack |>
                      <| s_walValueBuf := put_at 0 valBuf valBack |>);
  r ← on_wal (engineWAL_writeValue valBuf);
  match r with
  | inl _ => flush_failed batch "WAL write value failed"
  | inr _ =>
      r ← on_wal (engineWAL_writeIndex idxBuf);
      match r with
      | inl _ => flush_failed batch "WAL write index failed"
      | inr _ =>
          _ ← upd (fun s => s <| indexBytesOnDisk ::= fun n => int64 (n + len idxBuf) |>
                              <| valueOffset := fileOff |>);
          for_each batch flush_ack
      end
  end.

Definition flushBuffered : Shard unit :=
  buf ← get_s s_buf;
  if 0 <? len buf then
    _ ← shard_flush buf;
    upd (fun s => s <| s_buf := [] |>)
  else mret tt.

Definition appendToBatch (r : writeRequest) : Shard unit :=
  _ ← upd (fun s => s <| s_buf ::= fun l => (l ++ [r])%list |>);
  buf ← get_s s_buf;
  if syncBatchSize <=? len buf then
    _ ← shard_flush buf;
    upd (fun s => s <| s_buf := [] |>)
  else mret tt.

(** The oldest request of [reqCh]. *)
Definition recv_req (r : writeRequest) (rest : list writeRequest) : Shard unit :=
  _ ← upd (fun s => s <| s_reqCh := rest |>); appendToBatch r.

Fixpoint drain (reqs : list writeRequest) : Shard unit :=
  match reqs with
  | [] => flushBuffered
  | r :: rest => _ ← recv_req r rest; drain rest
  end.

Definition drainReqCh : Shard unit := reqs ← get_s s_reqCh; drain reqs.

(** Writes and maintenance requests are taken in any order; the latter are only
    refused, so the order does not matter. *)
Definition drainAllForShutdown : Shard unit :=
  crs ← get_s s_compactCh;
  _ ← for_each crs (fun cr => respond (cr_err cr) (inl ErrClosed));
  _ ← upd (fun s => s <| s_compactCh := [] |>);
  drainReqCh.
