(* ===== verification/EngineFiles.v ===== *)
(** * EngineFiles: what the files of a shard contain

    The reference format of an index file is [entry_bytes], one entry after the
    other.  The in-place encoder of the engine produces it, whatever the reused
    buffers held before, and [readIndex] reads it back; a torn last entry is
    reported and cut off. *)

From S2P Require Export EngineShard.
Local Open Scope Z_scope.

Definition entry_bytes (ie : indexEntry) : bytes :=
  PutUint32 (len (ie_Key ie)) ++ PutUint32 (ie_ValueSize ie) ++ PutUint64 (ie_ValueOffset ie) ++ ie_Key ie.

Definition index_bytes (l : list indexEntry) : bytes := concat (entry_bytes <$> l).

(** Sizes fit their fields; the key leaves room for the header in 32 bits. *)
Definition entry_ok (ie : indexEntry) : Prop :=
  len (ie_Key ie) < 2 ^ 32 - 16 /\ 0 <= ie_ValueSize ie < 2 ^ 32 /\ 0 <= ie_ValueOffset ie < 2 ^ 63.

(** The entries a batch is given when its values start at [off]. *)
Fixpoint batch_entries (off : Z) (batch : list writeRequest) : list indexEntry :=
  match batch with
  | [] => []
  | r :: batch =>
      mkIndexEntry (wr_key r) (len (wr_value r)) off :: batch_entries (off + len (wr_value r)) batch
  end.

Definition batch_values (batch : list writeRequest) : bytes := concat (wr_value <$> batch).

(** ** Encoding *)

Lemma len_entry_bytes ie : len (entry_bytes ie) = walIndexLen (len (ie_Key ie)).
Proof. unfold entry_bytes, walIndexLen, walIndexHeaderBytes. len_fields. Qed.

Lemma put_at_head (a b data dst : bytes) off :
  len a = off -> len b = len data -> put_at off data (a ++ b ++ dst) = a ++ data ++ dst.
Proof.
  intros Ha Hb. unfold put_at. rewrite slice_to_app_len by done. do 2 f_equal.
  rewrite app_assoc, slice_from_app; [done|]. rewrite len_app. lia.
Qed.

(** Any buffer that is long enough splits into parts of given lengths. *)
Lemma split_at {A : Type} (l : list A) n :
  0 <= n <= len l -> exists a b, l = a ++ b /\ len a = n /\ len b = len l - n.
Proof.
  intros Hn. exists (slice_to l n), (slice_from l n). rewrite slice_to_from.
  unfold len, slice_to, slice_from in *. rewrite length_take, length_drop. split; [done|lia].
Qed.

Lemma encodeInto_spec dst key vsize voffset :
  walIndexLen (len key) <= len dst ->
  encodeInto dst key vsize voffset =
    Ok (entry_bytes (mkIndexEntry key vsize voffset) ++ slice_from dst (walIndexLen (len key)), walIndexLen (len key)).
Proof.
  intros Hl. unfold encodeInto. rewrite (proj2 (Z.ltb_ge _ _)) by done.
  unfold walIndexLen, walIndexHeaderBytes in *. pose proof (len_nonneg key).
  destruct (split_at dst 4) as (a & d1 & -> & Ha & H1); [lia|].
  destruct (split_at d1 4) as (b & d2 & -> & Hb & H2); [rewrite len_app in *; lia|].
  destruct (split_at d2 8) as (c & d3 & -> & Hc & H3); [rewrite !len_app in *; lia|].
  destruct (split_at d3 (len key)) as (d & e & -> & Hd & H4); [rewrite !len_app in *; lia|].
  assert (slice_from (a ++ b ++ c ++ d ++ e) (16 + len key) = e) as ->.
  { rewrite !app_assoc. apply slice_from_app. rewrite !len_app in *. lia. }
  do 2 f_equal. change (a ++ b ++ c ++ d ++ e) with ([] ++ a ++ b ++ c ++ d ++ e).
  rewrite (put_at_head [] a), app_nil_l by (by rewrite ?len_PutUint32).
  rewrite (put_at_head _ b) by (by rewrite ?len_PutUint32).
  rewrite (app_assoc (PutUint32 _)), (put_at_head _ c) by (by rewrite ?len_app, ?len_PutUint32, ?len_PutUint64).
  rewrite (app_assoc _ (PutUint64 _)), (put_at_head _ d) by len_fields.
  unfold entry_bytes. cbn [ie_Key ie_ValueSize ie_ValueOffset]. by rewrite <-!app_assoc.
Qed.

Lemma index_bytes_cons ie l : index_bytes (ie :: l) = entry_bytes ie ++ index_bytes l.
Proof. done. Qed.

Lemma index_bytes_app l k : index_bytes (l ++ k) = index_bytes l ++ index_bytes k.
Proof. unfold index_bytes. by rewrite fmap_app, concat_app. Qed.

Lemma batch_values_cons r batch : batch_values (r :: batch) = wr_value r ++ batch_values batch.
Proof. done. Qed.

Lemma batch_values_app b1 b2 : batch_values (b1 ++ b2) = batch_values b1 ++ batch_values b2.
Proof. unfold batch_values. by rewrite fmap_app, concat_app. Qed.

Lemma val_total_len batch : val_total batch = len (batch_values batch).
Proof.
  induction batch as [|r batch IH]; [done|]. rewrite batch_values_cons, len_app. simpl. lia.
Qed.

Lemma idx_total_len off batch : idx_total batch = len (index_bytes (batch_entries off batch)).
Proof.
  revert off. induction batch as [|r batch IH]; intros off; [done|]. simpl.
  rewrite index_bytes_cons, len_app, len_entry_bytes, (IH (off + len (wr_value r))). done.
Qed.

(** The loop fills the rest of both buffers. *)
Lemma encode_batch_spec batch ipre vpre idst vdst off :
  len idst = idx_total batch -> len vdst = val_total batch ->
  0 <= off -> off + val_total batch < 2 ^ 63 ->
  encode_batch batch (ipre ++ idst) (vpre ++ vdst) (len ipre) (len vpre) off =
    Ok (ipre ++ index_bytes (batch_entries off batch), vpre ++ batch_values batch, off + val_total batch).
Proof.
  revert ipre vpre idst vdst off. induction batch as [|r batch IH]; intros ipre vpre idst vdst off Hi Hv Hoff Hfit.
  { simpl in *. destruct idst; [|by rewrite len_cons in Hi; pose proof (len_nonneg idst); lia].
    destruct vdst; [|by rewrite len_cons in Hv; pose proof (len_nonneg vdst); lia]. by rewrite Z.add_0_r. }
  cbn [encode_batch idx_total val_total foldr] in *. fold (idx_total batch) in *. fold (val_total batch) in *.
  pose proof (len_nonneg (wr_key r)). pose proof (len_nonneg (wr_value r)).
  pose proof (len_nonneg (batch_values batch)) as Hbv. rewrite <-val_total_len in Hbv.
  pose proof (len_nonneg (index_bytes (batch_entries 0 batch))) as Hbi. rewrite <-idx_total_len in Hbi.
  rewrite slice_from_app by done. unfold walIndexLen, walIndexHeaderBytes in *.
  rewrite encodeInto_spec by (unfold walIndexLen, walIndexHeaderBytes; lia). cbn [mbind res_bind].
  destruct (split_at idst (16 + len (wr_key r))) as (i1 & i2 & -> & Hi1 & Hi2); [lia|].
  destruct (split_at vdst (len (wr_value r))) as (v1 & v2 & -> & Hv1 & Hv2); [lia|].
  rewrite slice_to_app_len by done. unfold walIndexLen, walIndexHeaderBytes.
  rewrite slice_from_app, put_at_head by done. rewrite !(app_assoc _ _ i2), !(app_assoc _ _ v2).
  rewrite !len_app in *. rewrite int64_id by lia.
  replace (len ipre + (16 + len (wr_key r)))
    with (len (ipre ++ entry_bytes (mkIndexEntry (wr_key r) (len (wr_value r)) off)))
    by (rewrite len_app, len_entry_bytes; done).
  replace (len vpre + len (wr_value r)) with (len (vpre ++ wr_value r)) by apply len_app.
  rewrite IH by lia. cbn [batch_entries]. rewrite batch_values_cons, index_bytes_cons, <-!app_assoc. do 2 f_equal. lia.
Qed.

Lemma reuse_long buf size : 0 <= size -> size <= len (reuse buf size).
Proof.
  intros Hs. unfold reuse. destruct (_ <? _) eqn:E; to_prop; [|done].
  unfold len. rewrite length_replicate. lia.
Qed.

(** ** Reading the index back *)

(** The index file is open, at [pre], with [rest] still to read. *)
Record index_at (w : engineWAL) (W : World) (pre rest : bytes) : Prop := {
  ia_open : fl_open (indexFile w) = true;
  ia_faults : faults W = [];
  ia_content : content (fl_name (indexFile w)) W = pre ++ rest;
  ia_pos : fl_pos (indexFile w) = len pre
}.

Definition at_pos (p : Z) (w : engineWAL) : engineWAL := w <| indexFile ::= fun f => f <| fl_pos := p |> |>.

Lemma read_exact w W pre data rest :
  index_at w W pre (data ++ rest) ->
  on_index (file_ReadFull (len data)) (w, W) = (Ok (inr data), (at_pos (len pre + len data) w, W)) /\
  index_at (at_pos (len pre + len data) w) W (pre ++ data) rest.
Proof.
  intros [Ho Hf Hc Hp]. split.
  - unfold on_index. by erewrite zoom_run by by apply (ReadFull_exact W Hf _ pre data rest).
  - split; simpl; [done|done|by rewrite <-app_assoc|by rewrite len_app].
Qed.

Lemma read_eof w W pre n :
  index_at w W pre [] -> 0 < n ->
  on_index (file_ReadFull n) (w, W) = (Ok (inl ErrEOF), (w, W)).
Proof.
  intros [Ho Hf Hc Hp] Hn. unfold on_index. erewrite zoom_run; [|apply ReadFull_eof]; try done.
  - simpl. by destruct w.
  - by rewrite Hc, app_nil_r.
Qed.

Lemma read_short w W pre rest n :
  index_at w W pre rest -> 0 < len rest < n ->
  on_index (file_ReadFull n) (w, W) =
    (Ok (inl ErrUnexpectedEOF), (at_pos (len (pre ++ rest)) w, W)).
Proof. intros [Ho Hf Hc Hp] Hn. unfold on_index. by erewrite zoom_run by by apply ReadFull_short. Qed.

Lemma at_pos_twice p q w : at_pos p (at_pos q w) = at_pos p w.
Proof. by destruct w. Qed.

Definition entry_header (ie : indexEntry) : bytes :=
  PutUint32 (len (ie_Key ie)) ++ PutUint32 (ie_ValueSize ie) ++ PutUint64 (ie_ValueOffset ie).

Lemma entry_bytes_header ie : entry_bytes ie = entry_header ie ++ ie_Key ie.
Proof. unfold entry_bytes, entry_header. by rewrite <-!app_assoc. Qed.

Lemma len_entry_header ie : len (entry_header ie) = walIndexHeaderBytes.
Proof. unfold entry_header, walIndexHeaderBytes. len_fields. Qed.

(** The three fields of a header. *)
Lemma header_fields ie :
  entry_ok ie ->
  Uint32 (slice (entry_header ie) 0 4) = len (ie_Key ie) /\
  Uint32 (slice (entry_header ie) 4 8) = ie_ValueSize ie /\
  int64 (Uint64 (slice (entry_header ie) 8 16)) = ie_ValueOffset ie.
Proof.
  intros (Hk & Hs & Ho). pose proof (len_nonneg (ie_Key ie)). unfold entry_header. split_and!.
  - apply (Uint32_field []); [done|done|]. unfold is_u32. lia.
  - by apply Uint32_field; [apply len_PutUint32| |].
  - rewrite <-(app_nil_r (PutUint64 _)), !app_assoc, <-app_assoc.
    rewrite Uint64_field by (done || len_fields || (unfold is_u64; lia)). apply int64_id. lia.
Qed.

Section readIndex.
Context {A : Type} (handler : indexEntry -> A -> A * option error) (h : indexEntry -> A -> A).
Hypothesis handler_total : forall ie a, handler ie a = (h ie a, None).

(** One iteration of the loop. *)
Lemma readIndex_entry fuel position a w W pre ie rest :
  index_at w W pre (entry_bytes ie ++ rest) -> entry_ok ie ->
  0 <= position -> position + len (entry_bytes ie) < 2 ^ 63 ->
  readIndex_loop handler (S fuel) position a (w, W) =
    readIndex_loop handler fuel (position + len (entry_bytes ie)) (h ie a)
      (at_pos (len pre + len (entry_bytes ie)) w, W) /\
  index_at (at_pos (len pre + len (entry_bytes ie)) w) W (pre ++ entry_bytes ie) rest.
Proof using handler_total.
  intros Hat Hok Hp Hfit. pose proof (len_nonneg (ie_Key ie)). pose proof Hok as (Hk & _).
  rewrite entry_bytes_header, <-app_assoc in Hat.
  destruct (read_exact _ _ _ _ _ Hat) as [R1 Hat1]. destruct (read_exact _ _ _ _ _ Hat1) as [R2 Hat2].
  rewrite len_entry_header in R1, R2, Hat1, Hat2. rewrite at_pos_twice in R2, Hat2.
  rewrite entry_bytes_header, len_app, len_entry_header, app_assoc, !Z.add_assoc.
  rewrite len_app, len_entry_header in Hat2, R2. split; [|done].
  destruct (header_fields ie Hok) as (F1 & F2 & F3).
  cbn [readIndex_loop]. run R1. rewrite F1, F2, F3. run R2. rewrite handler_total.
  rewrite len_entry_bytes in Hfit. unfold walIndexLen, walIndexHeaderBytes in *.
  unfold wrap32. rewrite Z.mod_small, int64_id by lia. rewrite Z.add_assoc. by destruct ie.
Qed.

Lemma readIndex_entries l position a w W pre rest fuel :
  index_at w W pre (index_bytes l ++ rest) -> Forall entry_ok l ->
  0 <= position -> position + len (index_bytes l) < 2 ^ 63 ->
  readIndex_loop handler (length l + fuel) position a (w, W) =
    readIndex_loop handler fuel (position + len (index_bytes l)) (foldl (fun a ie => h ie a) a l)
      (at_pos (len pre + len (index_bytes l)) w, W) /\
  index_at (at_pos (len pre + len (index_bytes l)) w) W (pre ++ index_bytes l) rest.
Proof using handler_total.
  revert position a w pre. induction l as [|ie l IH]; intros position a w pre Hat Hok Hp Hfit.
  { change (index_bytes []) with (@nil byte) in *. rewrite len_nil, !Z.add_0_r, app_nil_r. destruct Hat as [Ho Hf Hc Hpos]. rewrite <-Hpos.
    destruct w as [? ? [] ?]. by split. }
  apply Forall_cons in Hok as [Hie Hok]. rewrite index_bytes_cons, len_app in *. rewrite <-app_assoc in Hat.
  pose proof (len_nonneg (entry_bytes ie)). pose proof (len_nonneg (index_bytes l)).
  destruct (readIndex_entry (length l + fuel) position a w W pre ie _ Hat Hie Hp ltac:(lia)) as [R1 Hat1].
  cbn [length Nat.add foldl]. rewrite R1.
  destruct (IH (position + len (entry_bytes ie)) (h ie a) _ _ Hat1 Hok ltac:(lia) ltac:(lia)) as [R2 Hat2].
  rewrite R2. rewrite at_pos_twice, len_app, <-app_assoc in *. by rewrite !Z.add_assoc in *.
Qed.

(** A torn entry stops the loop at the position before it. *)
Lemma readIndex_torn fuel position a w W pre ie n :
  index_at w W pre (take n (entry_bytes ie)) -> entry_ok ie ->
  (0 < n < length (entry_bytes ie))%nat ->
  exists p, readIndex_loop handler (S fuel) position a (w, W) = (Ok (a, ReadCorrupted position), (at_pos p w, W)).
Proof.
  intros Hat Hok Hn. pose proof (len_entry_header ie) as Hh. unfold walIndexHeaderBytes in Hh.
  destruct (decide (n < 16)%nat) as [Hs|Hl]; cbn [readIndex_loop].
  - eexists. rewrite (bind_run _ _ _ _ _ (read_short _ _ _ _ walIndexHeaderBytes Hat
      ltac:(unfold len; rewrite length_take; unfold walIndexHeaderBytes; lia))). done.
  - rewrite entry_bytes_header, take_app_ge in Hat by (unfold len in Hh; lia).
    destruct (read_exact _ _ _ _ _ Hat) as [R1 Hat1]. rewrite len_entry_header in R1, Hat1.
    run R1. destruct (header_fields ie Hok) as (-> & _ & _).
    rewrite entry_bytes_header, length_app in Hn. unfold len in Hh.
    destruct (decide (n = 16)%nat) as [->|Hne].
    + replace (16 - length (entry_header ie))%nat with 0%nat in Hat1 by lia.
      eexists. by rewrite (bind_run _ _ _ _ _ (read_eof _ _ _ (len (ie_Key ie)) Hat1 ltac:(unfold len; lia))).
    + eexists. rewrite (bind_run _ _ _ _ _ (read_short _ _ _ _ (len (ie_Key ie)) Hat1
        ltac:(unfold len; rewrite length_take; lia))). by rewrite at_pos_twice.
Qed.

Lemma fuel_enough l rest : (length l <= length (index_bytes l ++ rest))%nat.
Proof.
  induction l as [|ie l IH]; [simpl; lia|]. rewrite index_bytes_cons, <-app_assoc, length_app. simpl.
  pose proof (len_entry_bytes ie) as H. pose proof (len_nonneg (ie_Key ie)).
  unfold len, walIndexLen, walIndexHeaderBytes in *. lia.
Qed.

(** A whole index is read; *)
Lemma readIndex_whole l a w W :
  index_at w W [] (index_bytes l) -> Forall entry_ok l -> len (index_bytes l) < 2 ^ 63 ->
  engineWAL_readIndex handler a (w, W) =
    (Ok (foldl (fun a ie => h ie a) a l, inr tt), (at_pos (len (index_bytes l)) w, W)).
Proof using handler_total.
  intros Hat Hok Hfit. unfold engineWAL_readIndex.
  erewrite bind_run by reflexivity. cbn beta iota. rewrite (ia_content _ _ _ _ Hat), app_nil_l.
  pose proof (fuel_enough l []) as Hk. rewrite app_nil_r in Hk. rewrite <-(app_nil_r (index_bytes l)) in Hat.
  destruct (readIndex_entries l 0 a w W [] [] (S (length (index_bytes l) - length l)) Hat Hok ltac:(lia) ltac:(lia))
    as [R Hat1].
  replace (length l + S (length (index_bytes l) - length l))%nat with (S (length (index_bytes l))) in R by lia.
  erewrite bind_run; [|rewrite R; cbn [readIndex_loop];
    rewrite (bind_run _ _ _ _ _ (read_eof _ _ _ walIndexHeaderBytes Hat1 eq_refl)); reflexivity].
  done.
Qed.

(** with a torn entry at the end, the entries before it are read, the tail is cut
    off, and the call fails. *)
Lemma readIndex_whole_torn l ie n a w W :
  index_at w W [] (index_bytes l ++ take n (entry_bytes ie)) -> Forall entry_ok l -> entry_ok ie ->
  (0 < n < length (entry_bytes ie))%nat -> len (index_bytes l) < 2 ^ 63 ->
  exists p, engineWAL_readIndex handler a (w, W) =
    (Ok (foldl (fun a ie => h ie a) a l, inl ErrCorruption),
     (at_pos p w, W <| files ::= <[ fl_name (indexFile w) := index_bytes l ]> |>)).
Proof using handler_total.
  intros Hat Hok Hie Hn Hfit. unfold engineWAL_readIndex.
  erewrite bind_run by reflexivity. cbn beta iota. rewrite (ia_content _ _ _ _ Hat), app_nil_l.
  set (tail := take n (entry_bytes ie)) in *. pose proof (fuel_enough l tail) as Hk.
  destruct (readIndex_entries l 0 a w W [] tail (S (length (index_bytes l ++ tail) - length l)) Hat Hok
    ltac:(lia) ltac:(lia)) as [R Hat1].
  replace (length l + S (length (index_bytes l ++ tail) - length l))%nat
    with (S (length (index_bytes l ++ tail))) in R by lia.
  edestruct readIndex_torn as [p Hp]; [exact Hat1|done|done|]. exists p.
  erewrite bind_run; [|rewrite R; exact Hp]. cbn beta iota. destruct Hat as [Ho Hf Hc Hpos].
  unfold on_index. erewrite bind_run; [|by erewrite zoom_run by by apply file_Truncate_works]. cbn beta iota.
  rewrite !at_pos_twice. unfold at_pos. cbn [indexFile fl_name set_field].
  change (fl_name (indexFile _)) with (fl_name (indexFile w)). rewrite Hc, app_nil_l.
  rewrite Z.add_0_l, truncate_to_prefix. by destruct w as [? ? [] ?].
Qed.

End readIndex.
