(* ===== verification/EngineMaint.v ===== *)
(** * EngineMaint: compaction, cleanup and the committer's loop
    ([engine/compaction.go], [engine/cleanup.go], [engine/group_committer.go])

    Compaction rewrites the index file from memory; cleanup rewrites both files.
    Both run inside the group committer, between writes.  The order in which
    [range] walks the map of a shard is a choice of the Go runtime ([MapOrder]),
    and whether the program runs on Windows is a parameter. *)

From S2P Require Export EngineShard.
From Stdlib Require Import String SpecFloat.
Local Open Scope Z_scope.

Class MapOrder : Type := {
  range_order : gmap bytes valueEntry -> list (bytes * valueEntry);
  range_order_perm : forall m, range_order m ≡ₚ map_to_list m
}.

Section maintenance.
Context (IsWindows : bool) {MO : MapOrder}.

(** ** compaction.go *)

Definition compactingFileSuffix : string := ".compacting".

Definition shouldCompact (now : Z) (s : shard) : bool :=
  let p := policy (s_compactionWorker s) in
  let last := lastCompacted (s_compactionWorker s) in
  let too_soon := match last with Some t => now - t <? MinInterval p | None => false end in
  if too_soon then false
  else if indexBytesOnDisk s <=? 0 then false
  else
    let maxDue := match last with Some t => MaxInterval p <=? now - t | None => false end in
    if (keyBytesInRAM s <=? 0) || (numKeys s <=? 0) then maxDue
    else
      let expected := int64 (keyBytesInRAM s + numKeys s * walIndexHeaderBytes) in
      let amp := SFdiv 53 1024 (f64 (indexBytesOnDisk s)) (f64 expected) in
      maxDue || SFleb (AmpThreshold p) amp.

(** The encode loop of [snapshot]. *)
Fixpoint encode_index (order : list (bytes * valueEntry)) (buf : bytes) (offset : Z) : res (bytes * Z) :=
  match order with
  | [] => Ok (buf, offset)
  | (k, v) :: order =>
      '(tail, n) ← encodeInto (slice_from buf offset) k (ve_size v) (ve_offset v);
      encode_index order (slice_to buf offset ++ tail)%list (offset + n)
  end.

Definition shard_snapshot (s : shard) : res bytes :=
  let total := foldr (fun '(k, _) n => walIndexLen (len k) + n) 0 (range_order (s_data s)) in
  '(buf, offset) ← encode_index (range_order (s_data s)) (replicate (Z.to_nat total) Byte.x00) 0;
  Ok (slice_to buf offset).

(** A call on a file held in a local variable. *)
Definition with_file {A : Type} (m : M (file * World) A) (f : file) : M World (A * file) := fun W =>
  let '(r, (f, W)) := m (f, W) in
  match r with
  | Ok a => (Ok (a, f), W)
  | Panic why => (Panic why, W)
  end.

(** The deferred function closes the file, and removes it after an error. *)
Definition writeSnapshot (path : string) (data : bytes) : M World (Result unit) :=
  f ←? create_file path;
  '(r, f) ← with_file (_ ←? file_Write data; file_Sync) f;
  '(c, f) ← with_file file_Close f;
  let r := errors_Join r c in
  match r with
  | inl e => _ ← remove_file path; mret (inl e)
  | inr _ => mret (inr tt)
  end.

Definition reopenIndexFile : Shard (Result unit) :=
  w ← get_s s_wal;
  f ←? on_env_dir (open_file (indexFilename w));
  _ ← upd (fun s => s <| s_wal ::= fun w => w <| indexFile := f |> |>);
  size ← on_wal (on_index file_Size);
  _ ← upd (fun s => s <| indexBytesOnDisk := match size with inr n => n | inl _ => 0 end |>);
  no_error.

(** [close(s.fatalErrCh)] after logging the directory. *)
Definition handleWindowsFailure : Shard unit :=
  closed ← gets (fun '(_, E) => FatalErr E);
  if (closed : bool) then panic "close of closed channel"
  else modify (fun '(s, E) => (s, E <| FatalErr := true |>)).

Definition doCompact : Shard (Result unit) :=
  s ← get_s id;
  indices ← lift_res (shard_snapshot s);
  if len indices =? 0 then no_error
  else
    let indexFilePath := indexFilename (s_wal s) in
    let tempPath := (indexFilePath ++ compactingFileSuffix)%string in
    _ ←? on_env_dir (writeSnapshot tempPath indices);
    _ ←? on_wal (on_index file_Close);
    r ← on_env_dir (replaceWALFile IsWindows indexFilePath tempPath);
    match r with
    | inl e =>
        _ ← (if IsWindows then handleWindowsFailure else mret tt);
        r ← reopenIndexFile;
        match r with
        | inl e2 => return_err (Join e e2)
        | inr _ => return_err e
        end
    | inr _ => reopenIndexFile
    end.

(** ** cleanup.go *)

Definition cleanupIndexBufferSize : Z := 1024 * 1024.
Definition cleanupFlushThreshold : Z := 512 * 1024.
Definition tempFileSuffix : string := ".tmp".

Definition createCleanupTempFiles (w : engineWAL) : M World (Result (file * file)) :=
  tempIndexFile ←? open_file (indexFilename w ++ tempFileSuffix)%string;
  tempValueFile ←? open_file (valueFilename w ++ tempFileSuffix)%string;
  mret (inr (tempIndexFile, tempValueFile)).

(** The local variables of [writeCleanupData]. *)
Record cleanup : Type := mkCleanup {
  cl_index : file;
  cl_value : file;
  cl_indexBuf : bytes;
  cl_valueBuf : bytes;
  cl_newOffsets : gmap bytes Z;
  cl_newValueOffset : Z
}.

#[export] Instance eta_cleanup : Eta cleanup := fun c =>
  mkCleanup (cl_index c) (cl_value c) (cl_indexBuf c) (cl_valueBuf c) (cl_newOffsets c) (cl_newValueOffset c).

Definition cleanup_writeValue (c : cleanup) : Shard (Result cleanup) :=
  '(r, f) ← on_env_dir (with_file (file_Write (cl_valueBuf c)) (cl_value c));
  _ ←? mret (M:=M _) r;
  mret (inr (c <| cl_value := f |> <| cl_valueBuf := [] |>)).

Definition cleanup_writeIndex (c : cleanup) : Shard (Result cleanup) :=
  '(r, f) ← on_env_dir (with_file (file_Write (cl_indexBuf c)) (cl_index c));
  _ ←? mret (M:=M _) r;
  mret (inr (c <| cl_index := f |> <| cl_indexBuf := [] |>)).

(** Adding a value to the buffer, which is written out when it is long. *)
Definition add_value (v : bytes) (c : cleanup) : Shard (Result cleanup) :=
  if 0 <? len v then
    let c := c <| cl_valueBuf ::= fun b => (b ++ v)%list |> in
    if cleanupFlushThreshold <=? len (cl_valueBuf c) then cleanup_writeValue c else mret (inr c)
  else mret (inr c).

(** Making room for an index entry. *)
Definition make_room (n : Z) (c : cleanup) : Shard (Result cleanup) :=
  if cleanupIndexBufferSize - len (cl_indexBuf c) <? n then cleanup_writeIndex c else mret (inr c).

(** One iteration: the value, its offset, and the index entry, which must fit the
    buffer's capacity ([indexBuf[:oldLen+entrySize]] panics otherwise). *)
Definition cleanup_entry (kv : bytes * valueEntry) (c : cleanup) : Shard (Result cleanup) :=
  let '(key, ve) := kv in
  value ←? shard_getValue key ve;
  c ←? add_value value c;
  let c := c <| cl_newOffsets ::= <[ key := cl_newValueOffset c ]> |> in
  let entrySize := walIndexLen (len key) in
  c ←? make_room entrySize c;
  if cleanupIndexBufferSize <? len (cl_indexBuf c) + entrySize then panic "slice bounds out of range"
  else
    '(enc, _) ← lift_res (encodeInto (replicate (Z.to_nat entrySize) Byte.x00) key (len value) (cl_newValueOffset c));
    mret (inr (c <| cl_indexBuf ::= fun b => (b ++ enc)%list |>
                 <| cl_newValueOffset ::= fun n => int64 (n + len value) |>)).

Definition writeCleanupData (indexF valueF : file) : Shard (Result cleanup) :=
  data ← get_s s_data;
  c ←? for_fold (range_order data) (mkCleanup indexF valueF [] [] ∅ 0) cleanup_entry;
  c ←? (if 0 <? len (cl_valueBuf c) then cleanup_writeValue c else mret (inr c));
  if 0 <? len (cl_indexBuf c) then cleanup_writeIndex c else mret (inr c).

Definition swapCleanupFiles (c : cleanup) : Shard (Result unit) :=
  '(r, valueF) ← on_env_dir (with_file file_Sync (cl_value c));
  _ ←? mret (M:=M _) r;
  '(r, indexF) ← on_env_dir (with_file file_Sync (cl_index c));
  _ ←? mret (M:=M _) r;
  _ ← on_env_dir (with_file file_Close indexF);
  _ ← on_env_dir (with_file file_Close valueF);
  _ ←? on_wal engineWAL_close;
  w ← get_s s_wal;
  r ← on_env_dir (replaceWALFiles IsWindows (indexFilename w) (valueFilename w)
        (indexFilename w ++ tempFileSuffix)%string (valueFilename w ++ tempFileSuffix)%string);
  match r with
  | inl e => _ ← (if IsWindows then handleWindowsFailure else mret tt); return_err e
  | inr _ => no_error
  end.

(** [if ve, exists := s.data[key]; exists { ve.offset = newOffset }] for each new
    offset. *)
Definition set_offsets (offsets : gmap bytes Z) (data : gmap bytes valueEntry) : gmap bytes valueEntry :=
  map_imap (fun k ve => Some (match offsets !! k with Some o => ve <| ve_offset := o |> | None => ve end)) data.

Definition updateShardAfterCleanup (c : cleanup) : Shard (Result unit) :=
  w ← get_s s_wal;
  w ←? on_env_dir (newEngineWAL (indexFilename w) (valueFilename w));
  _ ← upd (fun s => s <| s_wal := w |> <| s_data ::= set_offsets (cl_newOffsets c) |>
                      <| valueOffset := cl_newValueOffset c |>);
  no_error.

(** The deferred closes of the temporary files act on handles nobody uses again. *)
Definition doCleanup : Shard (Result unit) :=
  w ← get_s s_wal;
  '(indexF, valueF) ←? on_env_dir (createCleanupTempFiles w);
  c ←? writeCleanupData indexF valueF;
  _ ←? swapCleanupFiles c;
  updateShardAfterCleanup c.

(** ** Requests for maintenance ([compact] and [clean]): [None] if the committer has
    been told to stop, else the channel to wait on. *)
Definition shard_maintain (what : maintenance) : Shard (option nat) :=
  stopped ← get_s s_stopped;
  if (stopped : bool) then mret None
  else
    ch ← make_respCh;
    _ ← upd (fun s => s <| s_compactCh ::= fun l => (l ++ [mkCompactRequest what ch])%list |>);
    mret (Some ch).

(** The ticker case of [startCompactionWorker], up to waiting for the answer, and
    what it does with the answer. *)
Definition compaction_tick (now : Z) : Shard (option nat) :=
  due ← get_s (shouldCompact now);
  if (due : bool) then shard_maintain DoCompact else mret None.

Definition compaction_done (now : Z) (r : Result unit) : Shard unit :=
  match r with
  | inr _ => upd (fun s => s <| s_compactionWorker ::= fun w => mkCompactWorker (Some now) (policy w) |>)
  | inl _ => mret tt
  end.

(** ** The committer's loop *)

Inductive commit_event : Type := OnReq | OnCommitTick | OnCompact | OnStop.

Definition commit_enabled (ev : commit_event) (s : shard) : bool :=
  negb (s_done s) &&
  match ev with
  | OnReq => 0 <? len (s_reqCh s)
  | OnCommitTick => true
  | OnCompact => 0 <? len (s_compactCh s)
  | OnStop => s_stopped s
  end.

Definition run_maintenance (what : maintenance) : Shard (Result unit) :=
  match what with DoCompact => doCompact | DoCleanup => doCleanup end.

(** A case of the [select]. *)
Definition commit_case (ev : commit_event) : Shard unit :=
  match ev with
  | OnReq =>
      reqs ← get_s s_reqCh;
      match reqs with
      | r :: rest => recv_req r rest
      | [] => mret tt
      end
  | OnCommitTick => flushBuffered
  | OnCompact =>
      crs ← get_s s_compactCh;
      match crs with
      | cr :: rest =>
          _ ← upd (fun s => s <| s_compactCh := rest |>);
          _ ← drainReqCh;
          err ← run_maintenance (doCompact_fn cr);
          respond (cr_err cr) err
      | [] => mret tt
      end
  | OnStop =>
      _ ← drainAllForShutdown;
      upd (fun s => s <| s_done := true |>)
  end.

(** The deferred function: a panic closes [FatalErr]; either way [doneCh] is
    closed. *)
Definition commit_turn (ev : commit_event) : Shard unit := fun st =>
  match commit_case ev st with
  | (Ok _, st) => (Ok tt, st)
  | (Panic _, (s, E)) => (Ok tt, (s <| s_done := true |>, E <| FatalErr := true |>))
  end.

(** ** Stopping *)

(** [close(stopCh)]: a sender still waiting for room gives up; a put among them
    returns [ErrClosed]. *)
Definition shard_stop : Shard unit :=
  late ← get_s (fun s => slice_from (s_reqCh s) (syncBatchSize * 2));
  crs ← get_s s_compactCh;
  _ ← for_each late (fun r => match wr_respCh r with
                              | Some ch => respond ch (inl ErrClosed)
                              | None => mret tt
                              end);
  _ ← for_each crs (fun cr => respond (cr_err cr) (inl ErrClosed));
  upd (fun s => s <| s_stopped := true |> <| s_reqCh ::= fun l => slice_to l (syncBatchSize * 2) |>
                  <| s_compactCh := [] |>).

(** [stopBackgroundWorker], after [doneCh] is closed. *)
Definition shard_stopped : Shard (Result unit) := on_wal engineWAL_close.

End maintenance.
