(* ===== verification/EngineSpec.v ===== *)
(** * EngineSpec: the contents of a shard

    [disk_view] is the map that the two files of a shard stand for, [shard_view] the
    map that the shard in memory stands for.  [shard_ok] is the invariant that ties
    memory, files and the requests still on their way together; every operation of
    the shard and every turn of its committer (compaction apart) keeps it. *)

From S2P Require Export EngineMaint EngineFiles.
Local Open Scope Z_scope.

(** ** Views *)

Definition index_map (l : list indexEntry) : gmap bytes (Z * Z) :=
  foldl (fun m ie => <[ ie_Key ie := (ie_ValueSize ie, ie_ValueOffset ie) ]> m) ∅ l.

Definition value_at (vals : bytes) (p : Z * Z) : bytes := slice vals p.2 (p.2 + p.1).

Definition disk_view (l : list indexEntry) (vals : bytes) : gmap bytes bytes :=
  value_at vals <$> index_map l.

Definition ve_value (vals : bytes) (ve : valueEntry) : bytes :=
  match payload ve with
  | Some v => v
  | None => value_at vals (ve_size ve, ve_offset ve)
  end.

Definition shard_view (s : shard) (vals : bytes) : gmap bytes bytes := ve_value vals <$> s_data s.

(** The abstract effect of write requests. *)
Definition apply_req (m : gmap bytes bytes) (r : writeRequest) : gmap bytes bytes := <[ wr_key r := wr_value r ]> m.
Abbreviation apply_reqs reqs m := (foldl apply_req m reqs).

(** ** The invariant *)

Definition entry_in (vals : bytes) (ie : indexEntry) : Prop :=
  entry_ok ie /\ ie_ValueOffset ie + ie_ValueSize ie <= len vals.

Definition req_ok (r : writeRequest) : Prop := len (wr_key r) < 2 ^ 32 - 16 /\ len (wr_value r) < 2 ^ 32.

(** The files are open, hold whole entries, and every entry points into the values. *)
Record shard_files (s : shard) (E : Env) (l : list indexEntry) (vals : bytes) : Prop := {
  sf_faults : faults (env_world E) = [];
  sf_iopen : fl_open (indexFile (s_wal s)) = true;
  sf_vopen : fl_open (valueFile (s_wal s)) = true;
  sf_iname : fl_name (indexFile (s_wal s)) = indexFilename (s_wal s);
  sf_vname : fl_name (valueFile (s_wal s)) = valueFilename (s_wal s);
  sf_ne : indexFilename (s_wal s) <> valueFilename (s_wal s);
  sf_index : content (indexFilename (s_wal s)) (env_world E) = index_bytes l;
  sf_value : content (valueFilename (s_wal s)) (env_world E) = vals;
  sf_entries : Forall (entry_in vals) l;
  sf_voff : valueOffset s = len vals
}.

(** What is in memory: a loaded value has the recorded size, and an entry that is
    not loaded is the last one of its key in the index. *)
Record shard_mem (s : shard) (l : list indexEntry) : Prop := {
  sm_entry k ve : s_data s !! k = Some ve ->
    match payload ve with
    | Some v => ve_size ve = len v
    | None => index_map l !! k = Some (ve_size ve, ve_offset ve)
    end;
  sm_dom k : is_Some (index_map l !! k) -> is_Some (s_data s !! k);
  sm_keyBytes : keyBytesInRAM s = int64 (key_bytes (s_data s));
  sm_numKeys : numKeys s = int64 (Z.of_nat (size (s_data s)))
}.

Definition loaded (s : shard) (k : bytes) : Prop :=
  exists ve v, s_data s !! k = Some ve /\ payload ve = Some v.

(** The requests the committer has not written yet. *)
Definition pending (s : shard) : list writeRequest := s_buf s ++ s_reqCh s.

Record pending_ok (s : shard) (vals : bytes) : Prop := {
  po_reqs : Forall req_ok (pending s);
  po_fit : len vals + val_total (pending s) < 2 ^ 63;
  po_async r : r ∈ pending s -> wr_respCh r = None -> loaded s (wr_key r)
}.

Record shard_ok (s : shard) (E : Env) (l : list indexEntry) (vals : bytes) : Prop := {
  so_files : shard_files s E l vals;
  so_mem : shard_mem s l;
  so_pending : pending_ok s vals
}.

(** ** Views of longer files *)

Lemma index_map_snoc l ie :
  index_map (l ++ [ie]) = <[ ie_Key ie := (ie_ValueSize ie, ie_ValueOffset ie) ]> (index_map l).
Proof. unfold index_map. by rewrite foldl_snoc. Qed.

Lemma index_map_in l k p :
  index_map l !! k = Some p -> exists ie, ie ∈ l /\ ie_Key ie = k /\ p = (ie_ValueSize ie, ie_ValueOffset ie).
Proof.
  induction l as [|ie l IH] using rev_ind; [done|]. rewrite index_map_snoc, lookup_insert_Some.
  intros [[<- <-]|[_ H]].
  - exists ie. split; [apply elem_of_app; right; by left|done].
  - destruct (IH H) as (ie' & Hin & ?). exists ie'. split; [apply elem_of_app; by left|done].
Qed.

Lemma entry_in_app vals more ie : entry_in vals ie -> entry_in (vals ++ more) ie.
Proof. intros [H1 H2]. split; [done|]. rewrite len_app. pose proof (len_nonneg more). lia. Qed.

Lemma value_at_app vals more sz off :
  0 <= off -> off + sz <= len vals -> value_at (vals ++ more) (sz, off) = value_at vals (sz, off).
Proof.
  intros Ho Hs. unfold value_at. simpl. rewrite slice_app by done.
  rewrite Z.min_l, (slice_empty more) by lia. apply app_nil_r.
Qed.

Lemma value_at_end vals v : value_at (vals ++ v) (len v, len vals) = v.
Proof. unfold value_at. simpl. apply slice_tail_field; lia. Qed.

Lemma index_map_values l vals more k p :
  Forall (entry_in vals) l -> index_map l !! k = Some p -> value_at (vals ++ more) p = value_at vals p.
Proof.
  intros Hl H. apply index_map_in in H as (ie & Hin & _ & ->).
  rewrite Forall_forall in Hl. destruct (Hl ie Hin) as [(_ & _ & ?) ?]. apply value_at_app; lia.
Qed.

Lemma disk_view_app l vals more : Forall (entry_in vals) l -> disk_view l (vals ++ more) = disk_view l vals.
Proof.
  intros Hl. unfold disk_view. apply map_eq. intros k. rewrite !lookup_fmap.
  destruct (index_map l !! k) eqn:E; [|done]. simpl. by erewrite index_map_values.
Qed.

Lemma batch_entries_in batch vals off :
  off = len vals -> Forall req_ok batch -> off + val_total batch < 2 ^ 63 ->
  Forall (entry_in (vals ++ batch_values batch)) (batch_entries off batch).
Proof.
  revert vals off. induction batch as [|r batch IH]; intros vals off -> Hok Hfit; [constructor|].
  apply Forall_cons in Hok as [[Hk Hv] Hok]. cbn [batch_entries].
  cbn [val_total foldr] in Hfit. fold (val_total batch) in Hfit.
  pose proof (len_nonneg (wr_value r)). pose proof (len_nonneg vals).
  pose proof (len_nonneg (batch_values batch)) as Hb. rewrite <-val_total_len in Hb.
  rewrite batch_values_cons. constructor.
  - split; [repeat split; simpl; lia|]. simpl. rewrite !len_app, <-val_total_len. lia.
  - rewrite app_assoc. apply IH; [by rewrite len_app|done|lia].
Qed.

(** Writing a batch extends the view by its requests. *)
Lemma disk_view_batch batch l vals off :
  off = len vals -> Forall (entry_in vals) l -> Forall req_ok batch -> off + val_total batch < 2 ^ 63 ->
  disk_view (l ++ batch_entries off batch) (vals ++ batch_values batch) = apply_reqs batch (disk_view l vals).
Proof.
  revert l vals off. induction batch as [|r batch IH]; intros l vals off -> Hl Hok Hfit.
  { simpl. by rewrite !app_nil_r. }
  pose proof (batch_entries_in [r] vals (len vals) eq_refl) as Hin.
  apply Forall_cons in Hok as [Hr Hok]. cbn [val_total foldr batch_entries foldl] in *. fold (val_total batch) in *.
  pose proof (len_nonneg (batch_values batch)) as Hb. rewrite <-val_total_len in Hb.
  change (batch_values [r]) with (wr_value r ++ [])%list in Hin. rewrite app_nil_r in Hin.
  rewrite batch_values_cons, (app_assoc vals), cons_middle, (app_assoc l), IH; [|by rewrite len_app| |done|lia].
  - f_equal. unfold disk_view at 1. rewrite index_map_snoc, fmap_insert. cbn [ie_Key ie_ValueSize ie_ValueOffset].
    rewrite value_at_end. unfold apply_req. f_equal. by apply disk_view_app.
  - apply Forall_app. split; [eapply Forall_impl; [exact Hl|intros; by apply entry_in_app]|].
    apply Hin; [by constructor|lia].
Qed.

(** The key of a batch entry is the key of a request. *)
Lemma batch_entries_keys off batch ie : ie ∈ batch_entries off batch -> exists r, r ∈ batch /\ wr_key r = ie_Key ie.
Proof.
  revert off. induction batch as [|r batch IH]; intros off H; [by inversion H|]. cbn [batch_entries] in H.
  apply elem_of_cons in H as [->|H]; [exists r; split; [by left|done]|].
  destruct (IH _ H) as (r' & ? & ?). exists r'. split; [by right|done].
Qed.

Lemma index_map_app_other l k key :
  (forall ie, ie ∈ k -> ie_Key ie <> key) -> index_map (l ++ k) !! key = index_map l !! key.
Proof.
  induction k as [|ie k IH] using rev_ind; intros H; [by rewrite app_nil_r|].
  rewrite app_assoc, index_map_snoc, lookup_insert_ne; [|apply H, elem_of_app; right; by left].
  apply IH. intros ie' Hin. apply H, elem_of_app. by left.
Qed.

Lemma index_map_app_dom l k key :
  is_Some (index_map (l ++ k) !! key) -> is_Some (index_map l !! key) \/ exists ie, ie ∈ k /\ ie_Key ie = key.
Proof.
  induction k as [|ie k IH] using rev_ind; [rewrite app_nil_r; by left|].
  rewrite app_assoc, index_map_snoc. destruct (decide (ie_Key ie = key)) as [<-|Hne].
  - intros _. right. exists ie. split; [apply elem_of_app; right; by left|done].
  - rewrite lookup_insert_ne by done. intros [?|(ie' & ? & ?)]%IH; [by left|].
    right. exists ie'. split; [apply elem_of_app; by left|done].
Qed.
