(* ===== verification/EngineFlush.v ===== *)
(** * EngineFlush: writing a batch

    A flush appends the values and the index entries of its batch to the files,
    then enters the synchronous requests into memory and answers them.  If a write
    fails, everyone who waits is told, memory is unchanged and the committer stops. *)

From S2P Require Export EngineSpec.
From Stdlib Require Import String.
Local Open Scope Z_scope.

(** ** Writing to the files *)

Lemma writeValue_works data w W :
  faults W = [] -> fl_open (valueFile w) = true ->
  engineWAL_writeValue data (w, W) =
    (Ok (inr tt), (w <| valueFile := (appended data (valueFile w, W)).1 |>, (appended data (valueFile w, W)).2)).
Proof.
  intros Hf Ho. unfold engineWAL_writeValue, on_value.
  erewrite bind_run by (by erewrite zoom_run by by apply file_Write_works). cbn [on_ok].
  by erewrite zoom_run by by apply file_call_works.
Qed.

Lemma writeIndex_works data w W :
  faults W = [] -> fl_open (indexFile w) = true ->
  engineWAL_writeIndex data (w, W) =
    (Ok (inr tt), (w <| indexFile := (appended data (indexFile w, W)).1 |>, (appended data (indexFile w, W)).2)).
Proof.
  intros Hf Ho. unfold engineWAL_writeIndex, on_index.
  erewrite bind_run by (by erewrite zoom_run by by apply file_Write_works). cbn [on_ok].
  by erewrite zoom_run by by apply file_call_works.
Qed.

(** The files after both writes. *)
Definition wrote (vdata idata : bytes) (w : engineWAL) (W : World) : engineWAL * World :=
  let '(vf, W) := appended vdata (valueFile w, W) in
  let '(xf, W) := appended idata (indexFile w, W) in
  (w <| valueFile := vf |> <| indexFile := xf |>, W).

(** ** Acknowledging *)

Definition ack (s : shard) (r : writeRequest) : shard :=
  match wr_respCh r with
  | Some ch => (shard_putInternal (wr_key r) (wr_value r) s) <| s_resps ::= <[ ch := inr tt ]> |>
  | None => s
  end.

Lemma flush_ack_run batch s E : for_each batch flush_ack (s, E) = (Ok tt, (foldl ack s batch, E)).
Proof.
  revert s. induction batch as [|r batch IH]; intros s; [done|]. cbn [for_each foldl].
  erewrite bind_run; [apply IH|]. unfold flush_ack, ack. by destruct (wr_respCh r).
Qed.

(** ** The flush *)

Lemma flush_buffers s batch :
  0 <= valueOffset s -> valueOffset s + val_total batch < 2 ^ 63 ->
  encode_batch batch (slice_to (reuse (s_walIndexBuf s) (idx_total batch)) (idx_total batch))
    (slice_to (reuse (s_walValueBuf s) (val_total batch)) (val_total batch)) 0 0 (valueOffset s) =
  Ok (index_bytes (batch_entries (valueOffset s) batch), batch_values batch, valueOffset s + val_total batch).
Proof.
  intros H0 Hfit. pose proof (len_nonneg (batch_values batch)) as Hv. rewrite <-val_total_len in Hv.
  pose proof (len_nonneg (index_bytes (batch_entries 0 batch))) as Hi. rewrite <-idx_total_len in Hi.
  apply (encode_batch_spec batch [] []); [apply len_slice_to..|done|done].
  - split; [done|by apply reuse_long].
  - split; [done|by apply reuse_long].
Qed.

(** The shard after the writes and before the acknowledgements. *)
Definition flushed (batch : list writeRequest) (s : shard) (E : Env) : shard * Env :=
  let idx := index_bytes (batch_entries (valueOffset s) batch) in
  let '(w, W) := wrote (batch_values batch) idx (s_wal s) (env_world E) in
  (s <| s_walIndexBuf := put_at 0 idx (reuse (s_walIndexBuf s) (idx_total batch)) |>
     <| s_walValueBuf := put_at 0 (batch_values batch) (reuse (s_walValueBuf s) (val_total batch)) |>
     <| s_wal := w |>
     <| indexBytesOnDisk ::= fun n => int64 (n + len idx) |>
     <| valueOffset := valueOffset s + val_total batch |>,
   E <| env_world := W |>).

Lemma flush_run s E l vals batch :
  shard_files s E l vals -> len vals + val_total batch < 2 ^ 63 ->
  shard_flush batch (s, E) =
    (Ok tt, (foldl ack (flushed batch s E).1 batch, (flushed batch s E).2)).
Proof.
  intros [Hf Hio Hvo Hin Hvn Hne Hx Hv Hl Hoff] Hfit. unfold shard_flush.
  erewrite bind_run by reflexivity. unfold id. rewrite flush_buffers by (rewrite Hoff; pose proof (len_nonneg vals); lia).
  unfold lift_res. do 2 (erewrite bind_run by reflexivity; cbn beta iota). unfold on_wal.
  erewrite bind_run by (erewrite zoom_run by (by apply writeValue_works); reflexivity). cbn beta iota.
  erewrite bind_run by (erewrite zoom_run by (by apply writeIndex_works); reflexivity). cbn beta iota.
  erewrite bind_run by reflexivity. rewrite flush_ack_run. by destruct s, E.
Qed.

(** ** Counting keys *)

Lemma key_bytes_perm (l k : list (bytes * valueEntry)) :
  l ≡ₚ k -> foldr (fun '(k, _) n => len k + n) 0 l = foldr (fun '(k, _) n => len k + n) 0 k.
Proof. induction 1 as [|[] ? ? _ IH|[] []|]; simpl; [done|by rewrite IH|lia|congruence]. Qed.

Lemma key_bytes_insert_new data k ve : data !! k = None -> key_bytes (<[ k := ve ]> data) = len k + key_bytes data.
Proof. intros H. unfold key_bytes. by rewrite (key_bytes_perm _ _ (map_to_list_insert data k ve H)). Qed.

Lemma key_bytes_insert_old data k ve old : data !! k = Some old -> key_bytes (<[ k := ve ]> data) = key_bytes data.
Proof.
  intros H. rewrite <-(insert_id data k old H) at 2. rewrite <-(insert_delete_eq data k ve), <-(insert_delete_eq data k old).
  by rewrite !key_bytes_insert_new by apply lookup_delete_eq.
Qed.

Lemma int64_add a b : int64 (int64 a + b) = int64 (a + b).
Proof.
  unfold int64. rewrite <-(Z.add_assoc _ b), (Z.add_comm b), <-Z.add_sub_swap, <-Z.add_sub_assoc.
  rewrite Zplus_mod_idemp_l. do 2 f_equal. lia.
Qed.

(** ** Memory under writes *)

Lemma putInternal_data k v s : s_data (shard_putInternal k v s) = <[ k := mkValueEntry (Some v) (len v) 0 ]> (s_data s).
Proof. unfold shard_putInternal. by destruct (s_data s !! k). Qed.

Lemma putInternal_mem k v s l : shard_mem s l -> shard_mem (shard_putInternal k v s) l.
Proof.
  intros [He Hd Hb Hn]. split.
  - intros k' ve. rewrite putInternal_data, lookup_insert_Some. intros [[<- <-]|[_ H]]; [done|by apply He].
  - intros k' H. rewrite putInternal_data. destruct (decide (k = k')) as [<-|Hne].
    + rewrite lookup_insert_eq. by eexists.
    + rewrite lookup_insert_ne by done. by apply Hd.
  - unfold shard_putInternal. destruct (s_data s !! k) eqn:E; simpl.
    + by rewrite (key_bytes_insert_old _ _ _ _ E).
    + rewrite key_bytes_insert_new, Hb, int64_add by done. f_equal. lia.
  - unfold shard_putInternal. destruct (s_data s !! k) eqn:E; simpl.
    + by rewrite map_size_insert_Some by (by eexists).
    + rewrite map_size_insert_None, Hn, int64_add by done. f_equal. lia.
Qed.

Lemma putInternal_loaded k v s k' : loaded s k' -> loaded (shard_putInternal k v s) k'.
Proof.
  intros (ve & x & H & Hp). unfold loaded. rewrite putInternal_data. destruct (decide (k = k')) as [<-|Hne].
  - rewrite lookup_insert_eq. by do 2 eexists.
  - rewrite lookup_insert_ne by done. by do 2 eexists.
Qed.

Lemma putInternal_view k v s vals :
  shard_view (shard_putInternal k v s) vals = <[ k := v ]> (shard_view s vals).
Proof. unfold shard_view. by rewrite putInternal_data, fmap_insert. Qed.

(** Shards that differ only in their data, metrics and answers. *)
Definition same_frame (s s' : shard) : Prop :=
  s_cancelled s' = s_cancelled s /\ s_wal s' = s_wal s /\ s_buf s' = s_buf s /\ s_reqCh s' = s_reqCh s /\
  s_compactCh s' = s_compactCh s /\ s_stopped s' = s_stopped s /\ s_done s' = s_done s /\
  s_compactionWorker s' = s_compactionWorker s /\ valueOffset s' = valueOffset s /\ s_next s' = s_next s.

Lemma putInternal_frame k v s : same_frame s (shard_putInternal k v s).
Proof. unfold shard_putInternal. by destruct (s_data s !! k). Qed.

Lemma ack_frame s r : same_frame s (ack s r).
Proof. unfold ack. destruct (wr_respCh r); [apply (putInternal_frame (wr_key r) (wr_value r) s)|done]. Qed.

Lemma same_frame_trans s1 s2 s3 : same_frame s1 s2 -> same_frame s2 s3 -> same_frame s1 s3.
Proof. unfold same_frame. intros H1 H2. destruct_and!. split_and!; congruence. Qed.

Lemma acks_frame batch s : same_frame s (foldl ack s batch).
Proof.
  revert s. induction batch as [|r batch IH]; intros s; [done|].
  eapply same_frame_trans; [apply (ack_frame s r)|apply IH].
Qed.

Lemma frame_files s s' E l vals : same_frame s s' -> shard_files s E l vals -> shard_files s' E l vals.
Proof. intros (_ & Hw & _ & _ & _ & _ & _ & _ & Ho & _) []. split; rewrite ?Hw, ?Ho; done. Qed.

Lemma frame_pending s s' : same_frame s s' -> pending s' = pending s.
Proof. intros (_ & _ & Hb & Hr & _). unfold pending. by rewrite Hb, Hr. Qed.

Definition is_sync (r : writeRequest) : bool := match wr_respCh r with Some _ => true | None => false end.

Lemma acks_mem batch s l : shard_mem s l -> shard_mem (foldl ack s batch) l.
Proof.
  revert s. induction batch as [|r batch IH]; intros s Hm; [done|]. apply IH. unfold ack.
  destruct (wr_respCh r); [|done]. destruct (putInternal_mem (wr_key r) (wr_value r) s l Hm). by split.
Qed.

Lemma acks_loaded batch s k : loaded s k -> loaded (foldl ack s batch) k.
Proof.
  revert s. induction batch as [|r batch IH]; intros s Hl; [done|]. apply IH. unfold ack.
  destruct (wr_respCh r); [|done]. by apply (putInternal_loaded (wr_key r) (wr_value r)).
Qed.

Lemma acks_load_sync batch s r : r ∈ batch -> is_sync r = true -> loaded (foldl ack s batch) (wr_key r).
Proof.
  revert s. induction batch as [|r' batch IH]; intros s Hin Hs; [by inversion Hin|]. simpl.
  apply elem_of_cons in Hin as [<-|Hin]; [|by apply IH]. apply acks_loaded. unfold ack.
  unfold is_sync in Hs. destruct (wr_respCh r); [|done].
  change (loaded (shard_putInternal (wr_key r) (wr_value r) s) (wr_key r)). unfold loaded.
  rewrite putInternal_data, lookup_insert_eq. by do 2 eexists.
Qed.

Lemma acks_unloaded batch s k ve :
  s_data (foldl ack s batch) !! k = Some ve -> payload ve = None -> s_data s !! k = Some ve.
Proof.
  revert s. induction batch as [|r batch IH]; intros s Hk Hn; [done|]. specialize (IH _ Hk Hn). unfold ack in IH.
  destruct (wr_respCh r); [|done]. change (s_data _) with (s_data (shard_putInternal (wr_key r) (wr_value r) s)) in IH.
  rewrite putInternal_data, lookup_insert_Some in IH. by destruct IH as [[_ <-]|[_ ?]].
Qed.

Lemma acks_view batch s vals :
  shard_view (foldl ack s batch) vals = apply_reqs (List.filter is_sync batch) (shard_view s vals).
Proof.
  revert s. induction batch as [|r batch IH]; intros s; [done|]. cbn [foldl List.filter]. rewrite IH.
  unfold is_sync at 2, ack. destruct (wr_respCh r); [|done]. cbn [foldl]. f_equal.
  apply (putInternal_view (wr_key r) (wr_value r) s).
Qed.

(** ** The invariant after a flush *)

Lemma flushed_files s E l vals batch :
  shard_files s E l vals -> Forall req_ok batch -> len vals + val_total batch < 2 ^ 63 ->
  shard_files (flushed batch s E).1 (flushed batch s E).2
    (l ++ batch_entries (len vals) batch) (vals ++ batch_values batch).
Proof.
  intros [Hf Hio Hvo Hin Hvn Hne Hx Hv Hl Hoff] Hok Hfit. unfold flushed, wrote, appended.
  rewrite Hvn, Hin. split; cbn -[content index_bytes batch_values entry_in]; try done.
  - rewrite content_insert, content_insert_ne, Hx, Hoff, index_bytes_app by done. done.
  - rewrite content_insert_ne, content_insert by done. by rewrite Hv.
  - apply Forall_app. split; [eapply Forall_impl; [exact Hl|intros; by apply entry_in_app]|].
    by apply batch_entries_in.
  - by rewrite Hoff, val_total_len, len_app.
Qed.

Lemma flushed_mem s E l (vals : bytes) batch :
  shard_mem s l -> (forall r, r ∈ batch -> wr_respCh r = None -> loaded s (wr_key r)) ->
  shard_mem (foldl ack (flushed batch s E).1 batch) (l ++ batch_entries (len vals) batch).
Proof.
  intros Hm Hasync.
  assert (forall r, r ∈ batch -> loaded (foldl ack (flushed batch s E).1 batch) (wr_key r)) as Hloaded.
  { intros r Hr. destruct (is_sync r) eqn:Es; [by apply acks_load_sync|].
    apply acks_loaded. unfold is_sync in Es. destruct (wr_respCh r) eqn:Er; [done|]. by apply Hasync. }
  assert (shard_mem (foldl ack (flushed batch s E).1 batch) l) as [He Hd Hb Hn].
  { apply acks_mem. by destruct Hm; split. }
  split; [| |done|done].
  - intros k ve Hk. specialize (He k ve Hk). destruct (payload ve) eqn:Ep; [done|].
    rewrite index_map_app_other; [done|]. intros ie (r & Hr & <-)%batch_entries_keys <-.
    destruct (Hloaded r Hr) as (ve' & v & Hk' & Hp'). congruence.
  - intros k [H|(ie & (r & Hr & <-)%batch_entries_keys & <-)]%index_map_app_dom; [by apply Hd|].
    destruct (Hloaded r Hr) as (ve & v & Hk & _). by eexists.
Qed.

(** Longer files do not change what memory stands for. *)
Lemma shard_view_app s l vals more :
  shard_mem s l -> Forall (entry_in vals) l -> shard_view s (vals ++ more) = shard_view s vals.
Proof.
  intros Hm Hl. unfold shard_view. apply map_eq. intros k. rewrite !lookup_fmap.
  destruct (s_data s !! k) as [ve|] eqn:E; [|done]. simpl. f_equal. unfold ve_value.
  pose proof (sm_entry _ _ Hm k ve E) as He. destruct (payload ve); [done|]. by eapply index_map_values.
Qed.

(** What a flush does, in terms of the views. *)
Record flush_spec (batch : list writeRequest) (s : shard) (E : Env) (l : list indexEntry) (vals : bytes)
  (s' : shard) (E' : Env) (l' : list indexEntry) (vals' : bytes) : Prop := {
  fs_files : shard_files s' E' l' vals';
  fs_mem : shard_mem s' l';
  fs_disk : disk_view l' vals' = apply_reqs batch (disk_view l vals);
  fs_view : shard_view s' vals' = apply_reqs (List.filter is_sync batch) (shard_view s vals);
  fs_vals : len vals' = len vals + val_total batch;
  fs_loaded k : loaded s k -> loaded s' k;
  fs_unloaded k ve : s_data s' !! k = Some ve -> payload ve = None -> s_data s !! k = Some ve;
  fs_queues : s_buf s' = s_buf s /\ s_reqCh s' = s_reqCh s /\ s_compactCh s' = s_compactCh s /\
    s_stopped s' = s_stopped s /\ s_done s' = s_done s /\ s_cancelled s' = s_cancelled s /\ s_next s' = s_next s;
  fs_fatal : FatalErr E' = FatalErr E;
  fs_names : indexFilename (s_wal s') = indexFilename (s_wal s) /\ valueFilename (s_wal s') = valueFilename (s_wal s);
  fs_others n : n <> indexFilename (s_wal s) -> n <> valueFilename (s_wal s) ->
    files (env_world E') !! n = files (env_world E) !! n;
  fs_resps : s_resps s' = foldl (fun m r => match wr_respCh r with Some ch => <[ ch := inr tt ]> m | None => m end)
                            (s_resps s) batch
}.

Lemma acks_resps batch s :
  s_resps (foldl ack s batch) =
  foldl (fun m r => match wr_respCh r with Some ch => <[ ch := inr tt ]> m | None => m end) (s_resps s) batch.
Proof.
  revert s. induction batch as [|r batch IH]; intros s; [done|]. cbn [foldl]. rewrite IH. f_equal.
  unfold ack. destruct (wr_respCh r); [|done]. unfold shard_putInternal. by destruct (s_data s !! _).
Qed.

Lemma flush_works s E l vals batch :
  shard_files s E l vals -> shard_mem s l -> Forall req_ok batch ->
  (forall r, r ∈ batch -> wr_respCh r = None -> loaded s (wr_key r)) ->
  len vals + val_total batch < 2 ^ 63 ->
  exists s' E' l' vals', shard_flush batch (s, E) = (Ok tt, (s', E')) /\ flush_spec batch s E l vals s' E' l' vals'.
Proof.
  intros Hf Hm Hok Has Hfit. do 4 eexists. split; [by eapply flush_run|].
  pose proof (acks_frame batch (flushed batch s E).1) as Hfr. pose proof (flushed_files s E l vals batch Hf Hok Hfit) as Hff.
  split.
  - eapply frame_files; [exact Hfr|exact Hff].
  - by apply flushed_mem.
  - apply disk_view_batch; [done|by destruct Hf|done|done].
  - rewrite acks_view. f_equal. transitivity (shard_view s (vals ++ batch_values batch)); [done|].
    eapply shard_view_app; [done|by destruct Hf].
  - by rewrite len_app, val_total_len.
  - intros k Hk. by apply acks_loaded.
  - exact (acks_unloaded batch (flushed batch s E).1).
  - destruct Hfr as (? & ? & ? & ? & ? & ? & ? & ? & ? & ?). done.
  - done.
  - destruct Hfr as (_ & -> & _). done.
  - intros n N1 N2. unfold flushed, wrote, appended. rewrite (sf_iname _ _ _ _ Hf), (sf_vname _ _ _ _ Hf). simpl.
    by rewrite !lookup_insert_ne.
  - exact (acks_resps batch (flushed batch s E).1).
Qed.
