(* ===== verification/EngineRun.v ===== *)
(** * EngineRun: the committer and its clients at work

    Each turn of the committer takes a prefix of the pending requests to disk, in
    order ([commit_step]); clients only append to them.  [shard_run] is any
    interleaving of puts, gets and committer turns on a working disk. *)

From S2P Require Export EngineFlush.
From Stdlib Require Import String.
Local Open Scope Z_scope.

(** ** Progress of the committer *)

Definition ack_resps (batch : list writeRequest) (m : gmap nat (Result unit)) : gmap nat (Result unit) :=
  foldl (fun m r => match wr_respCh r with Some ch => <[ ch := inr tt ]> m | None => m end) m batch.

(** From [s] to [s'] the requests [now] went to disk. *)
Record commit_step (now : list writeRequest) (s : shard) (E : Env) (l : list indexEntry) (vals : bytes)
  (s' : shard) (E' : Env) (l' : list indexEntry) (vals' : bytes) : Prop := {
  cs_ok : shard_ok s' E' l' vals';
  cs_pending : pending s = now ++ pending s';
  cs_disk : disk_view l' vals' = apply_reqs now (disk_view l vals);
  cs_view : shard_view s' vals' = apply_reqs (List.filter is_sync now) (shard_view s vals);
  cs_resps : s_resps s' = ack_resps now (s_resps s);
  cs_loaded k : loaded s k -> loaded s' k;
  cs_unloaded k ve : s_data s' !! k = Some ve -> payload ve = None -> s_data s !! k = Some ve;
  cs_names : indexFilename (s_wal s') = indexFilename (s_wal s) /\ valueFilename (s_wal s') = valueFilename (s_wal s);
  cs_others n : n <> indexFilename (s_wal s) -> n <> valueFilename (s_wal s) ->
    files (env_world E') !! n = files (env_world E) !! n;
  cs_frame : s_compactCh s' = s_compactCh s /\ s_stopped s' = s_stopped s /\ s_done s' = s_done s /\
    s_cancelled s' = s_cancelled s /\ s_next s' = s_next s /\ FatalErr E' = FatalErr E
}.

Lemma commit_step_trans d1 d2 s1 E1 l1 v1 s2 E2 l2 v2 s3 E3 l3 v3 :
  commit_step d1 s1 E1 l1 v1 s2 E2 l2 v2 -> commit_step d2 s2 E2 l2 v2 s3 E3 l3 v3 ->
  commit_step (d1 ++ d2) s1 E1 l1 v1 s3 E3 l3 v3.
Proof.
  intros [_ P1 D1 V1 R1 L1 U1 [NI NV] X1 F1] [O2 P2 D2 V2 R2 L2 U2 [NI2 NV2] X2 F2]. split.
  - done.
  - by rewrite P1, P2, app_assoc.
  - by rewrite D2, D1, foldl_app.
  - rewrite V2, V1. by rewrite List.filter_app, foldl_app.
  - unfold ack_resps in *. by rewrite R2, R1, foldl_app.
  - intros k Hk. by apply L2, L1.
  - intros k ve Hk Hn. exact (U1 _ _ (U2 _ _ Hk Hn) Hn).
  - split; congruence.
  - intros n H1 H2. rewrite X2, X1 by congruence. done.
  - destruct_and!. split_and!; congruence.
Qed.

Lemma pending_ok_eq s s' vals :
  pending s' = pending s -> (forall k, loaded s k -> loaded s' k) -> pending_ok s vals -> pending_ok s' vals.
Proof. intros Hp Hl [H1 H2 H3]. split; rewrite ?Hp; [done|done|]. intros r Hr Hn. by apply Hl, H3. Qed.

(** Moving a request from the channel to the batch changes no view. *)
Lemma commit_step_move buf reqs s E l vals :
  shard_ok s E l vals -> buf ++ reqs = pending s ->
  commit_step [] s E l vals (s <| s_buf := buf |> <| s_reqCh := reqs |>) E l vals.
Proof.
  intros [Hf Hm Hp] Hb. split; try done. split.
  - by destruct Hf; split.
  - by destruct Hm; split.
  - by apply (pending_ok_eq s).
Qed.

Lemma val_total_app b1 b2 : val_total (b1 ++ b2) = val_total b1 + val_total b2.
Proof. rewrite !val_total_len, batch_values_app. apply len_app. Qed.

(** Flushing the whole batch and emptying it. *)
Lemma commit_step_flush s E l vals :
  shard_ok s E l vals ->
  exists s' E' l' vals',
    (_ ← shard_flush (s_buf s); upd (fun s => s <| s_buf := [] |>)) (s, E) = (Ok tt, (s', E')) /\
    commit_step (s_buf s) s E l vals s' E' l' vals'.
Proof.
  intros [Hf Hm [Hr Hfit Has]]. unfold pending in *. apply Forall_app in Hr as [Hrb Hrc].
  rewrite val_total_app in Hfit. pose proof (len_nonneg (batch_values (s_reqCh s))) as Hpos. rewrite <-val_total_len in Hpos.
  destruct (flush_works s E l vals (s_buf s)) as (s1 & E1 & l1 & v1 & Hrun & Hspec); [done|done|done| |lia|].
  { intros r Hin. apply Has, elem_of_app. by left. }
  destruct Hspec as [Ff Fm Fd Fv Fl Flo Fu Fq Ffat Fn Fo Fr]. destruct Fq as (Qb & Qr & Qc & Qs & Qd & Qx & Qn).
  exists (s1 <| s_buf := [] |>), E1, l1, v1. split; [by run Hrun|]. split; try done.
  - split; [by destruct Ff; split|by destruct Fm; split|].
    assert (pending (s1 <| s_buf := [] |>) = s_reqCh s) as Hp' by exact Qr.
    split; rewrite ?Hp'; [done|lia|].
    intros r Hin Hn. apply Flo, Has; [apply elem_of_app; by right|done].
  - unfold pending. simpl. by rewrite Qr.
Qed.

Lemma flushBuffered_works s E l vals :
  shard_ok s E l vals ->
  exists s' E' l' vals', flushBuffered (s, E) = (Ok tt, (s', E')) /\
    commit_step (s_buf s) s E l vals s' E' l' vals' /\ s_buf s' = [] /\ s_reqCh s' = s_reqCh s.
Proof.
  intros Hok. unfold flushBuffered. erewrite bind_run by reflexivity. destruct (0 <? len (s_buf s)) eqn:Eb.
  - destruct (commit_step_flush s E l vals Hok) as (s' & E' & l' & vals' & Hrun & Hcs).
    assert (s_buf s' = []) as Hb.
    { unfold mbind, M_bind in Hrun. destruct (shard_flush (s_buf s) (s, E)) as [[[]|] [s1 E1]]; [|done].
      by injection Hrun as <- _. }
    exists s', E', l', vals'. split; [done|]. split; [done|]. split; [done|].
    pose proof (cs_pending _ _ _ _ _ _ _ _ _ Hcs) as Hp. unfold pending in Hp. rewrite Hb in Hp.
    by apply app_inv_head in Hp.
  - assert (s_buf s = []) as Hb.
    { to_prop. destruct (s_buf s); [done|]. rewrite len_cons in Eb. pose proof (len_nonneg l0). lia. }
    exists s, E, l, vals. split; [done|]. rewrite Hb. split; [|done]. split; try done.
Qed.

(** Receiving one request. *)
Lemma recv_req_works s E l vals r rest :
  shard_ok s E l vals -> s_reqCh s = r :: rest ->
  exists now s' E' l' vals', recv_req r rest (s, E) = (Ok tt, (s', E')) /\
    commit_step now s E l vals s' E' l' vals' /\ s_reqCh s' = rest.
Proof.
  intros Hok Hr. unfold recv_req, appendToBatch.
  pose proof (commit_step_move (s_buf s ++ [r]) rest s E l vals Hok) as Hmove.
  unfold pending in Hmove. rewrite Hr, <-app_assoc in Hmove. specialize (Hmove eq_refl).
  do 3 (erewrite bind_run by reflexivity). cbn beta iota.
  set (s1 := s <| s_buf := s_buf s ++ [r] |> <| s_reqCh := rest |>) in *.
  change (s <| s_reqCh := rest |> <| s_buf ::= _ |>) with s1.
  change (s_buf s1) with (s_buf s ++ [r]). destruct (syncBatchSize <=? len (s_buf s ++ [r])).
  - destruct (commit_step_flush s1 E l vals (cs_ok _ _ _ _ _ _ _ _ _ Hmove)) as (s' & E' & l' & vals' & Hrun & Hcs).
    exists (s_buf s1), s', E', l', vals'. split; [done|].
    pose proof (commit_step_trans _ _ _ _ _ _ _ _ _ _ _ _ _ _ Hmove Hcs) as Hcs'. split; [done|].
    assert (s_buf s' = []) as Hb.
    { unfold mbind, M_bind in Hrun. destruct (shard_flush (s_buf s1) (s1, E)) as [[[]|] [s2 E2]]; [|done].
      by injection Hrun as <- _. }
    pose proof (cs_pending _ _ _ _ _ _ _ _ _ Hcs) as Hp. unfold pending in Hp. rewrite Hb in Hp.
    by apply app_inv_head in Hp.
  - exists [], s1, E, l, vals. done.
Qed.

(** Draining takes everything. *)
Lemma drain_works reqs s E l vals :
  shard_ok s E l vals -> s_reqCh s = reqs ->
  exists s' E' l' vals', drain reqs (s, E) = (Ok tt, (s', E')) /\
    commit_step (pending s) s E l vals s' E' l' vals' /\ pending s' = [].
Proof.
  revert s E l vals. induction reqs as [|r rest IH]; intros s E l vals Hok Hr; cbn [drain].
  - destruct (flushBuffered_works s E l vals Hok) as (s' & E' & l' & vals' & Hrun & Hcs & Hb & Hq).
    exists s', E', l', vals'. split; [done|]. unfold pending. rewrite Hb, Hq, Hr, app_nil_r. done.
  - destruct (recv_req_works s E l vals r rest Hok Hr) as (now & s1 & E1 & l1 & v1 & Hrun & Hcs & Hq).
    run Hrun. destruct (IH s1 E1 l1 v1 (cs_ok _ _ _ _ _ _ _ _ _ Hcs) Hq) as (s' & E' & l' & vals' & Hd & Hcs' & Hp).
    exists s', E', l', vals'. split; [done|]. split; [|done].
    rewrite (cs_pending _ _ _ _ _ _ _ _ _ Hcs). by eapply commit_step_trans.
Qed.

Lemma drainReqCh_works s E l vals :
  shard_ok s E l vals ->
  exists s' E' l' vals', drainReqCh (s, E) = (Ok tt, (s', E')) /\
    commit_step (pending s) s E l vals s' E' l' vals' /\ pending s' = [].
Proof. intros Hok. unfold drainReqCh. erewrite bind_run by reflexivity. by apply drain_works. Qed.

(** ** Reading *)

(** No value has to be read from offset 0 of the value file. *)
Definition no_zero (s : shard) : Prop :=
  forall k ve, s_data s !! k = Some ve -> payload ve = None -> ve_size ve <> 0 -> 0 < ve_offset ve.

(** What reading needs: files and memory, not the requests on their way. *)
Definition shard_core (s : shard) (E : Env) (l : list indexEntry) (vals : bytes) : Prop :=
  shard_files s E l vals /\ shard_mem s l.

Lemma so_core s E l vals : shard_ok s E l vals -> shard_core s E l vals.
Proof. by intros []. Qed.

(** Reading changes the loaded values and the offset of the value file only. *)
Record read_step (s : shard) (E : Env) (l : list indexEntry) (vals : bytes) (s' : shard) : Prop := {
  rd_core : shard_core s' E l vals;
  rd_zero : no_zero s';
  rd_view : shard_view s' vals = shard_view s vals;
  rd_dom k : is_Some (s_data s' !! k) <-> is_Some (s_data s !! k);
  rd_loaded k : loaded s k -> loaded s' k;
  rd_frame : pending s' = pending s /\ s_resps s' = s_resps s /\ s_compactCh s' = s_compactCh s /\
    s_stopped s' = s_stopped s /\ s_done s' = s_done s /\ s_cancelled s' = s_cancelled s /\ s_next s' = s_next s /\
    s_buf s' = s_buf s /\ indexFilename (s_wal s') = indexFilename (s_wal s) /\
    valueFilename (s_wal s') = valueFilename (s_wal s) /\ valueOffset s' = valueOffset s
}.

Lemma read_step_refl s E l vals : shard_core s E l vals -> no_zero s -> read_step s E l vals s.
Proof. intros. by split. Qed.

Lemma read_step_trans s1 s2 s3 E l vals :
  read_step s1 E l vals s2 -> read_step s2 E l vals s3 -> read_step s1 E l vals s3.
Proof.
  intros [_ _ V1 D1 L1 F1] [O2 Z2 V2 D2 L2 F2]. split; try done.
  - congruence.
  - intros k. rewrite D2. apply D1.
  - intros k Hk. by apply L2, L1.
  - destruct_and!. split_and!; congruence.
Qed.

Lemma read_step_ok s E l vals s' : shard_ok s E l vals -> read_step s E l vals s' -> shard_ok s' E l vals.
Proof.
  intros [_ _ Hp] [[Hf Hm] _ _ _ Hl Hfr]. split; [done|done|]. apply (pending_ok_eq s); [apply Hfr|done|done].
Qed.

Definition seek_value (p : Z) (s : shard) : shard :=
  s <| s_wal ::= fun w => w <| valueFile ::= fun f => f <| fl_pos := p |> |> |>.

Lemma engineWAL_readValue_works w W vals off sz :
  faults W = [] -> fl_open (valueFile w) = true -> content (fl_name (valueFile w)) W = vals ->
  0 < off -> 0 < sz -> off + sz <= len vals ->
  engineWAL_readValue off sz (w, W) =
    (Ok (inr (value_at vals (sz, off))), (w <| valueFile ::= fun f => f <| fl_pos := off + sz |> |>, W)).
Proof.
  intros Hf Hvo Hv Ho Hs Hb.
  unfold engineWAL_readValue. rewrite (proj2 (Z.ltb_ge _ _)), (proj2 (Z.leb_gt _ _)) by lia. cbn [orb].
  unfold readValue_seek, readValue_read. rewrite (proj2 (Z.ltb_lt _ _)) by lia. unfold on_value.
  erewrite bind_run by (by erewrite zoom_run by by apply file_Seek_works). cbn [on_ok].
  destruct (split_at vals off) as (a & b & -> & Ha & Hbl); [lia|].
  destruct (split_at b sz) as (c & d & -> & Hc & Hd); [rewrite len_app in *; lia|].
  replace (value_at (a ++ c ++ d) (sz, off)) with c by (unfold value_at; simpl; symmetry; apply slice_field; lia).
  rewrite <-Hc.
  erewrite bind_run; [|erewrite zoom_run; [reflexivity|by apply (ReadFull_exact _ Hf _ a c d)]].
  rewrite <-Ha. by destruct w as [? ? ? []].
Qed.

Lemma readValue_works s E l vals off sz :
  shard_files s E l vals -> 0 < off -> 0 < sz -> off + sz <= len vals ->
  on_wal (engineWAL_readValue off sz) (s, E) = (Ok (inr (value_at vals (sz, off))), (seek_value (off + sz) s, E)).
Proof.
  intros [Hf Hio Hvo Hin Hvn Hne Hx Hv Hl Hoff] Ho Hs Hb. unfold on_wal.
  erewrite zoom_run by (apply engineWAL_readValue_works; [done|done|by rewrite Hvn|done..]). by destruct s, E.
Qed.

(** Entering a loaded value of an entry. *)
Lemma keep_ok s E l vals k ve v :
  shard_core s E l vals -> no_zero s -> s_data s !! k = Some ve -> payload ve = None ->
  v = value_at vals (ve_size ve, ve_offset ve) -> len v = ve_size ve ->
  read_step s E l vals (s <| s_data ::= <[ k := ve <| payload := Some v |> ]> |>).
Proof.
  intros [Hf Hm] Hz Hk Hn Hv Hlen. pose proof Hm as [He Hd Hb Hc].
  assert (forall k', loaded s k' -> loaded (s <| s_data ::= <[ k := ve <| payload := Some v |> ]> |>) k') as Hld.
  { intros k' (ve' & x & H & Hx). unfold loaded. simpl. destruct (decide (k = k')) as [<-|Hne].
    - rewrite lookup_insert_eq. by do 2 eexists.
    - rewrite lookup_insert_ne by done. by do 2 eexists. }
  split.
  - split; [by destruct Hf; split|]. split; simpl.
    + intros k' ve'. rewrite lookup_insert_Some. intros [[<- <-]|[_ H]]; [done|by apply He].
    + intros k' H. apply lookup_insert_is_Some. destruct (decide (k = k')); [by left|right; split; [done|by apply Hd]].
    + by rewrite (key_bytes_insert_old _ _ _ _ Hk).
    + by rewrite map_size_insert_Some by (by eexists).
  - intros k' ve'. simpl. rewrite lookup_insert_Some. intros [[<- <-]|[_ H]]; [done|exact (Hz _ _ H)].
  - unfold shard_view. simpl. rewrite fmap_insert. apply insert_id. rewrite lookup_fmap, Hk. simpl.
    unfold ve_value. by rewrite Hn, <-Hv.
  - intros k'. simpl. rewrite lookup_insert_is_Some. destruct (decide (k = k')) as [<-|Hne].
    + split; [by rewrite Hk|by left].
    + split; [by intros [?|[_ ?]]|by right].
  - exact Hld.
  - done.
Qed.

Lemma seek_ok s E l vals p : shard_core s E l vals -> no_zero s -> read_step s E l vals (seek_value p s).
Proof.
  intros [Hf Hm] Hz. split; try done. split; [by destruct Hf; split|by destruct Hm; split].
Qed.

Lemma value_at_len vals sz off : 0 <= off -> 0 <= sz -> off + sz <= len vals -> len (value_at vals (sz, off)) = sz.
Proof. intros. unfold value_at. simpl. rewrite len_slice; lia. Qed.

(** The place of an entry that is not loaded. *)
Lemma unloaded_in s E l vals k ve :
  shard_core s E l vals -> s_data s !! k = Some ve -> payload ve = None ->
  0 <= ve_offset ve /\ 0 <= ve_size ve /\ ve_offset ve + ve_size ve <= len vals.
Proof.
  intros [Hf Hm] Hk Hn. pose proof (sm_entry _ _ Hm k ve Hk) as He. rewrite Hn in He.
  apply index_map_in in He as (ie & Hin & _ & [= -> ->]). pose proof (sf_entries _ _ _ _ Hf) as Hl.
  rewrite Forall_forall in Hl. destruct (Hl ie Hin) as [(_ & ? & ?) ?]. lia.
Qed.

Lemma getValue_works s E l vals k ve :
  shard_core s E l vals -> no_zero s -> s_data s !! k = Some ve ->
  exists s', shard_getValue k ve (s, E) = (Ok (inr (ve_value vals ve)), (s', E)) /\
    read_step s E l vals s' /\ loaded s' k /\
    (forall k', k' <> k -> s_data s' !! k' = s_data s !! k').
Proof.
  intros Hok Hz Hk. unfold shard_getValue, ve_value. destruct (payload ve) as [v|] eqn:Ep.
  { exists s. split; [done|]. split; [by apply read_step_refl|]. split; [by exists ve, v|done]. }
  destruct (unloaded_in _ _ _ _ _ _ Hok Hk Ep) as (H1 & H2 & H3).
  assert (forall s1, s_data s1 = s_data s -> forall v,
    loaded (s1 <| s_data ::= <[ k := ve <| payload := Some v |> ]> |>) k /\
    forall k', k' <> k -> s_data (s1 <| s_data ::= <[ k := ve <| payload := Some v |> ]> |>) !! k' = s_data s !! k') as Hld.
  { intros s1 Hs1 v. unfold loaded. simpl. rewrite lookup_insert_eq. split; [by do 2 eexists|].
    intros k' Hne. by rewrite lookup_insert_ne, Hs1 by done. }
  destruct (ve_size ve =? 0) eqn:Es; to_prop.
  - assert ([] = value_at vals (ve_size ve, ve_offset ve)) as Hv
      by (unfold value_at; simpl; rewrite slice_empty; [done|lia]).
    rewrite <-Hv. eexists. split; [reflexivity|]. split; [by apply keep_ok|]. by apply Hld.
  - rewrite (bind_run _ _ _ _ _ (readValue_works s E l vals (ve_offset ve) (ve_size ve) (proj1 Hok) (Hz _ _ Hk Ep Es) ltac:(lia) H3)).
    cbn [on_ok]. erewrite bind_run by reflexivity. eexists. split; [reflexivity|].
    pose proof (seek_ok s E l vals (ve_offset ve + ve_size ve) Hok Hz) as Hsk. split; [|by apply Hld].
    eapply read_step_trans; [exact Hsk|]. destruct Hsk. apply keep_ok; try done. by apply value_at_len.
Qed.

Lemma get_works s E l vals k :
  shard_core s E l vals -> no_zero s ->
  exists s', shard_get k (s, E) = (Ok (inr (shard_view s vals !! k)), (s', E)) /\ read_step s E l vals s'.
Proof.
  intros Hok Hz. unfold shard_get, shard_view. erewrite bind_run by reflexivity. rewrite lookup_fmap.
  destruct (s_data s !! k) as [ve|] eqn:Ek.
  - destruct (getValue_works s E l vals k ve Hok Hz Ek) as (s' & Hg & Hr & _). run Hg. cbn [on_ok]. by exists s'.
  - exists s. split; [done|]. by apply read_step_refl.
Qed.

(** ** Clients *)

(** Requests in flight have channels of their own. *)
Definition channels (reqs : list writeRequest) : list nat := omap wr_respCh reqs.

Lemma ack_resps_lookup batch m ch :
  ack_resps batch m !! ch = if decide (ch ∈ channels batch) then Some (inr tt) else m !! ch.
Proof.
  unfold ack_resps, channels. revert m. induction batch as [|r batch IH]; intros m; [done|].
  cbn [foldl omap list_omap]. rewrite IH. destruct (wr_respCh r) as [c|]; [|done].
  destruct (decide (ch ∈ omap wr_respCh batch)) as [Hin|Hin].
  - rewrite decide_True; [done|by right].
  - destruct (decide (c = ch)) as [<-|Hne].
    + rewrite decide_True by left. by rewrite lookup_insert_eq.
    + rewrite lookup_insert_ne, decide_False; [done| |done]. intros [->|?]%elem_of_cons; done.
Qed.

(** A request put on the channel. *)
Definition enqueue (r : writeRequest) (s : shard) : shard := s <| s_reqCh ::= fun l => l ++ [r] |>.

Lemma putAsync_run pick k value s E :
  s_stopped s = false ->
  shard_putAsync pick k value (s, E) =
    (Ok tt, (enqueue (mkWriteRequest k (default [] value) None) (shard_putInternal k (default [] value) s), E)).
Proof.
  intros Hs. unfold shard_putAsync, send_req. erewrite bind_run by reflexivity.
  erewrite bind_run; [reflexivity|]. erewrite bind_run by reflexivity. cbn beta iota.
  destruct (putInternal_frame k (default [] value) s) as (_ & _ & _ & _ & _ & -> & _). by rewrite Hs.
Qed.

(** What a put does, if it is accepted. *)
Lemma put_inv pick k value s E ch s' E' :
  shard_put pick k value (s, E) = (Ok (inr ch), (s', E')) ->
  E' = E /\ ch = s_next s /\ s' = enqueue (mkWriteRequest k (default [] value) (Some ch)) (s <| s_next := S ch |>).
Proof.
  unfold shard_put, put_check, put_send, on_ok, make_respCh, send_req, return_err, get_s, gets, upd, modify, mbind, M_bind, mret, M_ret.
  destruct (s_cancelled s); [done|]. cbn beta iota.
  destruct (_ && negb _); [done|]. by intros [= <- <- <-].
Qed.

Lemma enqueue_pending r s : pending (enqueue r s) = pending s ++ [r].
Proof. unfold pending. simpl. apply app_assoc. Qed.

Lemma enqueue_ok r s E l vals :
  shard_ok s E l vals -> req_ok r -> (wr_respCh r = None -> loaded s (wr_key r)) ->
  len vals + val_total (pending s ++ [r]) < 2 ^ 63 -> shard_ok (enqueue r s) E l vals.
Proof.
  intros [Hf Hm [Hr Hfit Has]] Hrk Hl Hfit'. split; [by destruct Hf; split|by destruct Hm; split|].
  split; rewrite enqueue_pending; [by apply Forall_app; split; [|constructor]|done|].
  intros r' [Hin|Hin]%elem_of_app Hn; [by apply Has|]. apply list_elem_of_singleton in Hin as ->. by apply Hl.
Qed.

Lemma putInternal_ok k v s E l vals : shard_ok s E l vals -> shard_ok (shard_putInternal k v s) E l vals.
Proof.
  intros [Hf Hm Hp]. pose proof (putInternal_frame k v s) as Hfr. split.
  - by eapply frame_files.
  - by apply putInternal_mem.
  - apply (pending_ok_eq s); [by apply frame_pending|intros; by apply putInternal_loaded|done].
Qed.

Lemma putInternal_zero k v s : no_zero s -> no_zero (shard_putInternal k v s).
Proof.
  intros Hz k' ve. rewrite putInternal_data, lookup_insert_Some. intros [[<- <-]|[_ H]]; [done|exact (Hz _ _ H)].
Qed.

Lemma commit_zero now s E l vals s' E' l' vals' :
  commit_step now s E l vals s' E' l' vals' -> no_zero s -> no_zero s'.
Proof. intros Hc Hz k ve Hk Hn. exact (Hz k ve (cs_unloaded _ _ _ _ _ _ _ _ _ Hc k ve Hk Hn) Hn). Qed.
