(* ===== verification/EngineCleanup.v ===== *)
(** * EngineCleanup: rewriting both files

    After the pending writes are drained, [doCleanup] leaves files that hold exactly
    the live pairs, and a shard that stands for the same map. *)

From S2P Require Export EngineRun.
From Stdlib Require Import String.
Local Open Scope Z_scope.

(** ** Other files do not matter *)

Lemma shard_ok_env s E E' l vals :
  shard_ok s E l vals -> faults (env_world E') = [] ->
  content (indexFilename (s_wal s)) (env_world E') = content (indexFilename (s_wal s)) (env_world E) ->
  content (valueFilename (s_wal s)) (env_world E') = content (valueFilename (s_wal s)) (env_world E) ->
  shard_ok s E' l vals.
Proof. intros [[] Hm Hp] Hf Hi Hv. split; [split; congruence|done|done]. Qed.

(** ** The entries cleanup writes *)

Definition live (vals : bytes) (kvs : list (bytes * valueEntry)) : list writeRequest :=
  (fun kv => mkWriteRequest kv.1 (ve_value vals kv.2) None) <$> kvs.

Lemma live_snoc vals kvs k ve :
  live vals (kvs ++ [(k, ve)]) = live vals kvs ++ [mkWriteRequest k (ve_value vals ve) None].
Proof. unfold live. by rewrite fmap_app. Qed.

Lemma batch_entries_snoc off batch r :
  batch_entries off (batch ++ [r]) =
  batch_entries off batch ++ [mkIndexEntry (wr_key r) (len (wr_value r)) (off + val_total batch)].
Proof.
  revert off. induction batch as [|r' batch IH]; intros off; cbn [batch_entries app]; [by rewrite Z.add_0_r|].
  rewrite IH. cbn [val_total foldr]. fold (val_total batch). by rewrite Z.add_assoc.
Qed.

Lemma apply_reqs_list_to_map {V : Type} (kvs : list (bytes * V)) (m : gmap bytes V) :
  NoDup kvs.*1 -> foldl (fun m kv => <[ kv.1 := kv.2 ]> m) m kvs = list_to_map kvs ∪ m.
Proof.
  revert m. induction kvs as [|[k v] kvs IH]; intros m Hnd; simpl; [by rewrite map_empty_union|].
  apply NoDup_cons in Hnd as [Hk Hnd]. rewrite IH by done.
  rewrite <-insert_union_r, insert_union_l by (by apply not_elem_of_list_to_map_1). done.
Qed.

(** Writing all live pairs to empty files stands for the shard's map. *)
Lemma live_view {MO : MapOrder} s vals :
  apply_reqs (live vals (range_order (s_data s))) ∅ = shard_view s vals.
Proof.
  transitivity (foldl (fun m kv => <[ kv.1 := kv.2 ]> m) ∅
    ((fun kv => (kv.1, ve_value vals kv.2)) <$> range_order (s_data s)) : gmap bytes bytes).
  { unfold live. generalize (∅ : gmap bytes bytes). induction (range_order (s_data s)) as [|kv kvs IH]; intros m; [done|].
    simpl. by rewrite IH. }
  assert (NoDup (range_order (s_data s)).*1) as Hnd
    by (rewrite range_order_perm; apply NoDup_fst_map_to_list).
  rewrite apply_reqs_list_to_map, map_union_empty by (by rewrite <-list_fmap_compose).
  rewrite (list_to_map_proper _ ((fun kv => (kv.1, ve_value vals kv.2)) <$> map_to_list (s_data s)));
    [|by rewrite <-list_fmap_compose|by rewrite range_order_perm].
  unfold shard_view. rewrite <-(list_to_map_to_list (s_data s)) at 2. rewrite <-list_to_map_fmap.
  done.
Qed.

(** ** The loop *)

Section loop.
Context (iname vname : string).

(** The temporary files and the buffers hold [idx] and [vdata]. *)
Record temps (E : Env) (c : cleanup) (idx vdata : bytes) : Prop := {
  te_faults : faults (env_world E) = [];
  te_iopen : fl_open (cl_index c) = true;
  te_vopen : fl_open (cl_value c) = true;
  te_iname : fl_name (cl_index c) = iname;
  te_vname : fl_name (cl_value c) = vname;
  te_ifile : is_Some (files (env_world E) !! iname);
  te_vfile : is_Some (files (env_world E) !! vname);
  te_index : content iname (env_world E) ++ cl_indexBuf c = idx;
  te_value : content vname (env_world E) ++ cl_valueBuf c = vdata
}.

Hypothesis names : iname <> vname.

(** Only the temporary files change. *)
Definition temp_only (E E' : Env) : Prop :=
  FatalErr E' = FatalErr E /\
  forall n, n <> iname -> n <> vname -> files (env_world E') !! n = files (env_world E) !! n.

Lemma temp_only_refl E : temp_only E E.
Proof using. done. Qed.

Lemma temp_only_trans E1 E2 E3 : temp_only E1 E2 -> temp_only E2 E3 -> temp_only E1 E3.
Proof using. intros [H1 H2] [H3 H4]. split; [congruence|]. intros. rewrite H4; auto. Qed.

Lemma write_value_works s E c idx vdata :
  temps E c idx vdata ->
  exists c' E', cleanup_writeValue c (s, E) = (Ok (inr c'), (s, E')) /\ temps E' c' idx vdata /\ temp_only E E' /\
    cl_indexBuf c' = cl_indexBuf c /\ cl_newOffsets c' = cl_newOffsets c /\ cl_newValueOffset c' = cl_newValueOffset c /\
    cl_valueBuf c' = [].
Proof using names.
  intros [Hf Hio Hvo Hin Hvn Hif Hvf Hi Hv]. unfold cleanup_writeValue, on_env_dir, with_file.
  do 2 eexists. split.
  { erewrite bind_run; [|erewrite zoom_run; [reflexivity|]; cbn beta iota; by rewrite file_Write_works].
    cbn beta iota. erewrite bind_run by reflexivity. reflexivity. }
  split; [|split; [|done]].
  - unfold appended. rewrite Hvn. split; simpl; rewrite ?content_insert, ?content_insert_ne, ?app_nil_r by done; try done.
    + by rewrite lookup_insert_ne.
    + rewrite lookup_insert_eq. by eexists.
  - split; [done|]. intros n H1 H2. unfold appended. rewrite Hvn. simpl. by rewrite lookup_insert_ne.
Qed.

Lemma write_index_works s E c idx vdata :
  temps E c idx vdata ->
  exists c' E', cleanup_writeIndex c (s, E) = (Ok (inr c'), (s, E')) /\ temps E' c' idx vdata /\ temp_only E E' /\
    cl_valueBuf c' = cl_valueBuf c /\ cl_newOffsets c' = cl_newOffsets c /\ cl_newValueOffset c' = cl_newValueOffset c /\
    cl_indexBuf c' = [].
Proof using names.
  intros [Hf Hio Hvo Hin Hvn Hif Hvf Hi Hv]. unfold cleanup_writeIndex, on_env_dir, with_file.
  do 2 eexists. split.
  { erewrite bind_run; [|erewrite zoom_run; [reflexivity|]; cbn beta iota; by rewrite file_Write_works].
    cbn beta iota. erewrite bind_run by reflexivity. reflexivity. }
  split; [|split; [|done]].
  - unfold appended. rewrite Hin. split; simpl; rewrite ?content_insert, ?content_insert_ne, ?app_nil_r by done; try done.
    + rewrite lookup_insert_eq. by eexists.
    + by rewrite lookup_insert_ne.
  - split; [done|]. intros n H1 H2. unfold appended. rewrite Hin. simpl. by rewrite lookup_insert_ne.
Qed.

Lemma add_value_works v s E c idx vdata :
  temps E c idx vdata ->
  exists c' E', add_value v c (s, E) = (Ok (inr c'), (s, E')) /\ temps E' c' idx (vdata ++ v) /\ temp_only E E' /\
    cl_indexBuf c' = cl_indexBuf c /\ cl_newOffsets c' = cl_newOffsets c /\ cl_newValueOffset c' = cl_newValueOffset c.
Proof using names.
  intros Ht. unfold add_value. destruct (0 <? len v) eqn:Ev; to_prop.
  - assert (temps E (c <| cl_valueBuf ::= fun b => b ++ v |>) idx (vdata ++ v)) as Ht'
      by (destruct Ht as [? ? ? ? ? ? ? ? <-]; split; try done; simpl; by rewrite app_assoc).
    cbn zeta. destruct (cleanupFlushThreshold <=? _); [|by do 2 eexists].
    destruct (write_value_works s E _ _ _ Ht') as (c' & E' & ? & ? & ? & ? & ? & ? & _). by do 2 eexists.
  - destruct v; [|rewrite len_cons in Ev; pose proof (len_nonneg v); lia]. rewrite app_nil_r. by do 2 eexists.
Qed.

Lemma make_room_works n s E c idx vdata :
  temps E c idx vdata -> n <= cleanupIndexBufferSize ->
  exists c' E', make_room n c (s, E) = (Ok (inr c'), (s, E')) /\ temps E' c' idx vdata /\ temp_only E E' /\
    cl_newOffsets c' = cl_newOffsets c /\ cl_newValueOffset c' = cl_newValueOffset c /\
    len (cl_indexBuf c') + n <= cleanupIndexBufferSize.
Proof using names.
  intros Ht Hn. unfold make_room. destruct (_ <? n) eqn:En; to_prop.
  - destruct (write_index_works s E c _ _ Ht) as (c' & E' & ? & ? & ? & ? & ? & ? & Hb). do 2 eexists.
    split; [done|]. rewrite Hb, len_nil. split_and!; done || lia.
  - do 2 eexists. split; [done|]. split_and!; done || lia.
Qed.

End loop.

(** ** One pair *)

Section pairs.
Context {MO : MapOrder} (iname vname : string) (vals : bytes) (l : list indexEntry).
Hypothesis names : iname <> vname.

(** The loop has handled [pre] and the pairs [post] are as they were. *)
Record cleaning (pre post : list (bytes * valueEntry)) (s : shard) (E : Env) (c : cleanup) : Prop := {
  cg_ok : shard_ok s E l vals;
  cg_zero : no_zero s;
  cg_temps : temps iname vname E c (index_bytes (batch_entries 0 (live vals pre))) (batch_values (live vals pre));
  cg_offset : cl_newValueOffset c = val_total (live vals pre);
  cg_offsets : cl_newOffsets c = snd <$> index_map (batch_entries 0 (live vals pre));
  cg_post k ve : (k, ve) ∈ post -> s_data s !! k = Some ve;
  cg_pre k ve : (k, ve) ∈ pre -> loaded s k
}.

Lemma temp_only_ok s E E' :
  shard_ok s E l vals -> temp_only iname vname E E' -> faults (env_world E') = [] ->
  indexFilename (s_wal s) <> iname -> indexFilename (s_wal s) <> vname ->
  valueFilename (s_wal s) <> iname -> valueFilename (s_wal s) <> vname -> shard_ok s E' l vals.
Proof using.
  intros Hok [_ Ht] Hf H1 H2 H3 H4. eapply shard_ok_env; [exact Hok|done|..]; unfold content; by rewrite Ht.
Qed.

Lemma cleanup_entry_works pre k ve post s E c :
  cleaning pre ((k, ve) :: post) s E c -> NoDup (k :: post.*1) ->
  walIndexLen (len k) <= cleanupIndexBufferSize -> val_total (live vals (pre ++ [(k, ve)])) < 2 ^ 63 ->
  indexFilename (s_wal s) <> iname -> indexFilename (s_wal s) <> vname ->
  valueFilename (s_wal s) <> iname -> valueFilename (s_wal s) <> vname ->
  exists s' E' c', cleanup_entry (k, ve) c (s, E) = (Ok (inr c'), (s', E')) /\
    cleaning (pre ++ [(k, ve)]) post s' E' c' /\ read_step s E l vals s' /\ temp_only iname vname E E'.
Proof using names.
  intros [Hok Hz Ht Ho Hos Hpost Hpre] Hnd Hroom Hfit N1 N2 N3 N4. apply NoDup_cons in Hnd as [Hk Hnd].
  destruct (getValue_works s E l vals k ve (so_core _ _ _ _ Hok) Hz (Hpost k ve ltac:(left))) as (s1 & Hg & Hrd & Hld & Hoth).
  unfold cleanup_entry. run Hg. cbn [on_ok].
  destruct (add_value_works iname vname names (ve_value vals ve) s1 E c _ _ Ht)
    as (c1 & E1 & Ha & Ht1 & To1 & Hb1 & Hos1 & Ho1). run Ha. cbn [on_ok].
  set (c1' := c1 <| cl_newOffsets ::= <[ k := cl_newValueOffset c1 ]> |>).
  assert (temps iname vname E1 c1' (index_bytes (batch_entries 0 (live vals pre)))
            (batch_values (live vals pre) ++ ve_value vals ve)) as Ht1' by (by destruct Ht1; split).
  destruct (make_room_works iname vname names (walIndexLen (len k)) s1 E1 c1' _ _ Ht1' Hroom)
    as (c2 & E2 & Hm & Ht2 & To2 & Hos2 & Ho2 & Hr2). run Hm. cbn [on_ok].
  rewrite (proj2 (Z.ltb_ge _ _)) by done. unfold lift_res.
  assert (0 <= walIndexLen (len k)) as Hpos by (unfold walIndexLen, walIndexHeaderBytes; pose proof (len_nonneg k); lia).
  rewrite encodeInto_spec by (unfold len at 2; rewrite length_replicate; lia).
  erewrite bind_run by reflexivity. cbn beta iota. do 3 eexists. split; [reflexivity|].
  assert (temp_only iname vname E E2) as To by (by eapply temp_only_trans).
  split; [|done]. rewrite live_snoc in Hfit.
  assert (cl_newValueOffset c2 = val_total (live vals pre)) as Hoff by (by rewrite Ho2; unfold c1'; simpl; rewrite Ho1).
  split.
  - pose proof (rd_frame _ _ _ _ _ Hrd) as (_ & _ & _ & _ & _ & _ & _ & _ & Hi & Hv & _).
    apply (temp_only_ok s1 E E2); rewrite ?Hi, ?Hv; try done; [by eapply read_step_ok|by destruct Ht2].
  - by destruct Hrd.
  - destruct Ht2 as [T1 T2 T3 T4 T5 T6 T7 T8 T9]. split; try done; simpl.
    + rewrite app_assoc, T8, live_snoc, batch_entries_snoc, index_bytes_app, Hoff. f_equal. unfold index_bytes. simpl.
      f_equal. unfold slice_from. rewrite drop_ge; [done|]. rewrite length_replicate. lia.
    + rewrite T9, live_snoc, batch_values_app. f_equal. symmetry. apply app_nil_r.
  - simpl. rewrite live_snoc, val_total_app, Hoff in *. simpl in *. rewrite int64_id; [lia|].
    rewrite val_total_len in *. pose proof (len_nonneg (batch_values (live vals pre))).
    pose proof (len_nonneg (ve_value vals ve)). lia.
  - simpl. rewrite Hos2. unfold c1'. simpl.
    by rewrite Hos1, Hos, Ho1, Ho, live_snoc, batch_entries_snoc, index_map_snoc, fmap_insert.
  - intros k' ve' Hin. rewrite Hoth; [by apply Hpost; right|]. intros ->. apply Hk, list_elem_of_fmap. by exists (k, ve').
  - intros k' ve' [Hin|Hin]%elem_of_app; [by eapply rd_loaded, Hpre|].
    apply list_elem_of_singleton in Hin as [= -> ->]. done.
Qed.

(** Writing out what is left in the buffers. *)
Lemma rest_value_works s E c idx vdata :
  temps iname vname E c idx vdata ->
  exists c' E', (if 0 <? len (cl_valueBuf c) then cleanup_writeValue c else mret (inr c)) (s, E) = (Ok (inr c'), (s, E')) /\
    temps iname vname E' c' idx vdata /\ temp_only iname vname E E' /\
    cl_newOffsets c' = cl_newOffsets c /\ cl_newValueOffset c' = cl_newValueOffset c /\ cl_valueBuf c' = [].
Proof using names.
  intros Ht. destruct (0 <? len (cl_valueBuf c)) eqn:Ev; to_prop.
  - destruct (write_value_works iname vname names s E c _ _ Ht) as (c' & E' & ? & ? & ? & ? & ? & ? & ?). by exists c', E'.
  - exists c, E. split_and!; try done. destruct (cl_valueBuf c) as [|b bs]; [done|].
    rewrite len_cons in Ev. pose proof (len_nonneg bs). lia.
Qed.

Lemma rest_index_works s E c idx vdata :
  temps iname vname E c idx vdata ->
  exists c' E', (if 0 <? len (cl_indexBuf c) then cleanup_writeIndex c else mret (inr c)) (s, E) = (Ok (inr c'), (s, E')) /\
    temps iname vname E' c' idx vdata /\ temp_only iname vname E E' /\ cl_newOffsets c' = cl_newOffsets c /\
    cl_newValueOffset c' = cl_newValueOffset c /\ cl_valueBuf c' = cl_valueBuf c /\ cl_indexBuf c' = [].
Proof using names.
  intros Ht. destruct (0 <? len (cl_indexBuf c)) eqn:Ev; to_prop.
  - destruct (write_index_works iname vname names s E c _ _ Ht) as (c' & E' & ? & ? & ? & ? & ? & ? & ?). by exists c', E'.
  - exists c, E. split_and!; try done. destruct (cl_indexBuf c) as [|b bs]; [done|].
    rewrite len_cons in Ev. pose proof (len_nonneg bs). lia.
Qed.

(** Shards that differ in the loaded values and the read offset only. *)
Definition read_only (s s' : shard) : Prop :=
  shard_view s' vals = shard_view s vals /\ (forall k, is_Some (s_data s' !! k) <-> is_Some (s_data s !! k)) /\
  s_buf s' = s_buf s /\ pending s' = pending s /\ s_resps s' = s_resps s /\ s_compactCh s' = s_compactCh s /\
  s_stopped s' = s_stopped s /\ s_done s' = s_done s /\ s_cancelled s' = s_cancelled s /\ s_next s' = s_next s /\
  indexFilename (s_wal s') = indexFilename (s_wal s) /\ valueFilename (s_wal s') = valueFilename (s_wal s).

Lemma read_step_only s E s' : read_step s E l vals s' -> read_only s s'.
Proof using. intros [_ _ Hv Hd _ Hf]. destruct_and!. by split_and!. Qed.

Lemma read_only_trans s1 s2 s3 : read_only s1 s2 -> read_only s2 s3 -> read_only s1 s3.
Proof using.
  intros (V1 & D1 & F1) (V2 & D2 & F2). split; [congruence|]. split; [intros k; by rewrite D2|].
  destruct_and!. split_and!; congruence.
Qed.

Definition fits (kvs : list (bytes * valueEntry)) : Prop :=
  Forall (fun kv => walIndexLen (len kv.1) <= cleanupIndexBufferSize /\ len (ve_value vals kv.2) < 2 ^ 32) kvs /\
  val_total (live vals kvs) < 2 ^ 63.

Definition apart (s : shard) : Prop :=
  indexFilename (s_wal s) <> iname /\ indexFilename (s_wal s) <> vname /\
  valueFilename (s_wal s) <> iname /\ valueFilename (s_wal s) <> vname.

Lemma val_total_nonneg batch : 0 <= val_total batch.
Proof using. rewrite val_total_len. apply len_nonneg. Qed.

Lemma cleanup_loop_works post pre s E c :
  cleaning pre post s E c -> NoDup post.*1 -> fits (pre ++ post) -> apart s ->
  exists s' E' c', for_fold post c cleanup_entry (s, E) = (Ok (inr c'), (s', E')) /\
    cleaning (pre ++ post) [] s' E' c' /\ read_only s s' /\ temp_only iname vname E E'.
Proof using names.
  revert pre s E c. induction post as [|[k ve] post IH]; intros pre s E c Hc Hnd [Hk Hfit] Hap; cbn [for_fold].
  { rewrite app_nil_r. do 3 eexists. split; [done|]. split_and!; done. }
  assert ((pre ++ (k, ve) :: post)%list = ((pre ++ [(k, ve)]) ++ post)%list) as Happ by (by rewrite <-app_assoc).
  rewrite Happ in *. pose proof (proj1 (Forall_app _ _ _) Hk) as [Hk1 _]. apply Forall_app in Hk1 as [_ Hk1].
  apply Forall_cons in Hk1 as [[Hk1 _] _].
  assert (val_total (live vals (pre ++ [(k, ve)])) < 2 ^ 63) as Hf1.
  { unfold live in Hfit. rewrite fmap_app, val_total_app in Hfit. fold (live vals post) in Hfit.
    pose proof (val_total_nonneg (live vals post)). unfold live at 1. lia. }
  destruct Hap as (N1 & N2 & N3 & N4).
  destruct (cleanup_entry_works pre k ve post s E c Hc Hnd Hk1 Hf1 N1 N2 N3 N4) as (s1 & E1 & c1 & Hrun & Hc1 & Hrd & Hto).
  run Hrun. apply NoDup_cons in Hnd as [_ Hnd]. pose proof (read_step_only _ _ _ Hrd) as Hro.
  destruct (IH (pre ++ [(k, ve)]) s1 E1 c1 Hc1 Hnd) as (s' & E' & c' & Hrun' & Hc' & Hro' & Hto'); [done| |].
  { pose proof Hro as (_ & _ & _ & _ & _ & _ & _ & _ & _ & _ & Hi & Hv). unfold apart. by rewrite Hi, Hv. }
  do 3 eexists. split; [done|]. split; [done|]. split; [by eapply read_only_trans|by eapply temp_only_trans].
Qed.

(** All pairs are written and nothing is left in the buffers. *)
Lemma writeCleanupData_works s E indexF valueF :
  let c0 := mkCleanup indexF valueF [] [] ∅ 0 in
  shard_ok s E l vals -> no_zero s -> temps iname vname E c0 [] [] -> fits (range_order (s_data s)) -> apart s ->
  let new := live vals (range_order (s_data s)) in
  exists s' E' c', writeCleanupData indexF valueF (s, E) = (Ok (inr c'), (s', E')) /\
    shard_ok s' E' l vals /\ (forall k, is_Some (s_data s' !! k) -> loaded s' k) /\ read_only s s' /\
    temp_only iname vname E E' /\ temps iname vname E' c' (index_bytes (batch_entries 0 new)) (batch_values new) /\
    cl_indexBuf c' = [] /\ cl_valueBuf c' = [] /\ cl_newValueOffset c' = val_total new /\
    cl_newOffsets c' = snd <$> index_map (batch_entries 0 new).
Proof using names.
  intros c0 Hok Hz Ht Hfit Hap new. unfold writeCleanupData. erewrite bind_run by reflexivity. cbn beta.
  assert (NoDup (range_order (s_data s)).*1) as Hnd by (rewrite range_order_perm; apply NoDup_fst_map_to_list).
  destruct (cleanup_loop_works (range_order (s_data s)) [] s E c0) as (s1 & E1 & c1 & Hrun & Hc & Hro & Hto); [|done..|].
  { split; try done; [|by intros k ve ?%elem_of_nil].
    intros k ve Hin. rewrite range_order_perm in Hin. by apply elem_of_map_to_list. }
  run Hrun. cbn [on_ok]. rewrite app_nil_l in Hc. fold new in Hc. destruct Hc as [Hok1 Hz1 Ht1 Ho1 Hos1 _ Hld]. fold new in Ht1, Ho1, Hos1.
  assert (forall k, is_Some (s_data s1 !! k) -> loaded s1 k) as Hld1.
  { intros k Hk. destruct Hro as (_ & Hd & _). apply Hd in Hk as [ve Hve]. apply (Hld k ve).
    rewrite range_order_perm. by apply elem_of_map_to_list. }
  destruct (rest_value_works s1 E1 c1 _ _ Ht1) as (c2 & E2 & R2 & Ht2 & To2 & Hos2 & Ho2 & Hvb2). run R2. cbn [on_ok].
  destruct (rest_index_works s1 E2 c2 _ _ Ht2) as (c3 & E3 & R3 & Ht3 & To3 & Hos3 & Ho3 & Hvb3 & Hib3).
  exists s1, E3, c3. split; [done|].
  assert (temp_only iname vname E1 E3) as To13 by (by eapply temp_only_trans).
  split_and!; try done; try congruence.
  - pose proof Hro as (_ & _ & _ & _ & _ & _ & _ & _ & _ & _ & Hi & Hv). destruct Hap as (N1 & N2 & N3 & N4).
    apply (temp_only_ok s1 E1 E3); rewrite ?Hi, ?Hv; try done. by destruct Ht3.
  - by eapply temp_only_trans.
Qed.

End pairs.

(** ** Swapping the files *)

Lemma env_id E : E <| env_world := env_world E |> = E.
Proof. by destruct E. Qed.

Lemma with_file_run {A : Type} (m : M (file * World) A) f a f' s E :
  m (f, env_world E) = (Ok a, (f', env_world E)) -> on_env_dir (with_file m f) (s, E) = (Ok (a, f'), (s, E)).
Proof.
  intros H. unfold on_env_dir. erewrite zoom_run; [|unfold with_file; rewrite H; reflexivity]. by rewrite env_id.
Qed.

Definition close_wal (w : engineWAL) : engineWAL :=
  w <| indexFile ::= fun f => f <| fl_open := false |> |> <| valueFile ::= fun f => f <| fl_open := false |> |>.

Lemma engineWAL_close_works w W :
  faults W = [] -> fl_open (indexFile w) = true -> fl_open (valueFile w) = true ->
  engineWAL_close (w, W) = (Ok (inr tt), (close_wal w, W)).
Proof.
  intros Hf Hi Hv. unfold engineWAL_close, on_index, on_value.
  do 2 (erewrite bind_run by (by erewrite zoom_run by by apply file_Close_works)). done.
Qed.

Lemma rename_file_works from to_ data W :
  faults W = [] -> files W !! from = Some data ->
  rename_file from to_ W = (Ok (inr tt), W <| files ::= fun fs => <[ to_ := data ]> (delete from fs) |>).
Proof. intros Hf Hd. unfold rename_file, renameFile. by rewrite io_call_works, Hd by done. Qed.

(** Whether or not the live file is removed first. *)
Lemma remove_file_works name W :
  faults W = [] -> exists r W', remove_file name W = (Ok r, W') /\ faults W' = [] /\
    forall n, n <> name -> files W' !! n = files W !! n.
Proof.
  intros Hf. unfold remove_file. rewrite io_call_works by done. destruct (files W !! name).
  - do 2 eexists. split; [done|]. split; [done|]. intros n Hn. simpl. by rewrite lookup_delete_ne.
  - by do 2 eexists.
Qed.

Lemma replaceWALFiles_works win i v ti tv idx vd W :
  faults W = [] -> files W !! ti = Some idx -> files W !! tv = Some vd ->
  i <> v -> i <> ti -> i <> tv -> v <> ti -> v <> tv -> ti <> tv ->
  exists W', replaceWALFiles win i v ti tv W = (Ok (inr tt), W') /\ faults W' = [] /\
    files W' !! i = Some idx /\ files W' !! v = Some vd.
Proof.
  intros Hf Hi Hv N1 N2 N3 N4 N5 N6. unfold replaceWALFiles. destruct win; cbn [negb].
  - destruct (remove_file_works i W Hf) as (r1 & W1 & R1 & F1 & O1). run R1.
    rewrite (bind_run _ _ _ _ _ (rename_file_works ti i idx W1 F1 ltac:(by rewrite O1))). cbn [on_ok].
    set (W2 := W1 <| files ::= fun fs => <[ i := idx ]> (delete ti fs) |>).
    destruct (remove_file_works v W2 F1) as (r3 & W3 & R3 & F3 & O3). run R3.
    erewrite rename_file_works; [|done|]; [|rewrite O3 by done; unfold W2; simpl;
      rewrite lookup_insert_ne, lookup_delete_ne, O1 by done; exact Hv].
    eexists. split; [done|]. split; [done|]. simpl. split; [|by rewrite lookup_insert_eq].
    rewrite lookup_insert_ne, lookup_delete_ne, O3 by done. unfold W2. simpl. by rewrite lookup_insert_eq.
  - rewrite (bind_run _ _ _ _ _ (rename_file_works ti i idx W Hf Hi)). cbn [on_ok].
    erewrite rename_file_works; [|done|]; [|simpl; rewrite lookup_insert_ne, lookup_delete_ne by done; exact Hv].
    eexists. split; [done|]. split; [done|]. simpl. split; [|by rewrite lookup_insert_eq].
    rewrite lookup_insert_ne, lookup_delete_ne, lookup_insert_eq by done. done.
Qed.

Section swap.
Context (IsWindows : bool).

Lemma swapCleanupFiles_works s E l vals c idx vdata :
  let ti := (indexFilename (s_wal s) ++ tempFileSuffix)%string in
  let tv := (valueFilename (s_wal s) ++ tempFileSuffix)%string in
  shard_files s E l vals -> temps ti tv E c idx vdata -> cl_indexBuf c = [] -> cl_valueBuf c = [] ->
  ti <> tv -> apart ti tv s ->
  exists E', swapCleanupFiles IsWindows c (s, E) = (Ok (inr tt), (s <| s_wal ::= close_wal |>, E')) /\
    faults (env_world E') = [] /\ FatalErr E' = FatalErr E /\
    content (indexFilename (s_wal s)) (env_world E') = idx /\ content (valueFilename (s_wal s)) (env_world E') = vdata.
Proof.
  intros ti tv [Hf Hio Hvo Hin Hvn Hne Hx Hv Hl Hoff] Ht Hib Hvb Hn (N1 & N2 & N3 & N4).
  pose proof Ht as [T1 T2 T3 T4 T5 [xi T6] [xv T7] T8 T9]. unfold swapCleanupFiles.
  erewrite bind_run by (apply with_file_run; by apply file_call_works). cbn beta iota. erewrite bind_run by reflexivity. cbn [on_ok].
  erewrite bind_run by (apply with_file_run; by apply file_call_works). cbn beta iota. erewrite bind_run by reflexivity. cbn [on_ok].
  erewrite bind_run by (apply with_file_run; by apply file_Close_works). cbn beta iota.
  erewrite bind_run by (apply with_file_run; by apply file_Close_works). cbn beta iota.
  unfold on_wal. erewrite bind_run by (by erewrite zoom_run by by apply engineWAL_close_works). cbn [on_ok].
  erewrite bind_run by reflexivity. cbn beta iota. rewrite env_id.
  assert (files (env_world E) !! ti = Some idx) as Hi by (unfold content in T8; by rewrite T6, Hib, app_nil_r in T8; simpl in T8; subst).
  assert (files (env_world E) !! tv = Some vdata) as Hvd by (unfold content in T9; by rewrite T7, Hvb, app_nil_r in T9; simpl in T9; subst).
  destruct (replaceWALFiles_works IsWindows _ _ ti tv idx vdata (env_world E) T1 Hi Hvd Hne N1 N2 N3 N4 Hn)
    as (W' & R & F' & I' & V').
  exists (E <| env_world := W' |>). unfold on_env_dir.
  split; [erewrite bind_run by (erewrite zoom_run by exact R; reflexivity); done|].
  split; [done|]. split; [done|]. unfold content. simpl. by rewrite I', V'.
Qed.

End swap.

(** ** The whole cleanup *)

(** Every key is where the index says. *)
Definition accurate (s : shard) (l : list indexEntry) : Prop :=
  forall k ve, s_data s !! k = Some ve -> index_map l !! k = Some (ve_size ve, ve_offset ve).

Lemma key_bytes_dom (m1 m2 : gmap bytes valueEntry) : dom m1 = dom m2 -> key_bytes m1 = key_bytes m2.
Proof.
  revert m2. induction m1 as [|k ve m1 Hk IH] using map_ind; intros m2 Hd.
  - rewrite dom_empty_L in Hd. symmetry in Hd. by apply dom_empty_inv_L in Hd as ->.
  - assert (k ∈ dom m2) as [ve2 H2]%elem_of_dom by (rewrite <-Hd, dom_insert_L; set_solver).
    rewrite <-(insert_delete_id m2 k ve2 H2), !key_bytes_insert_new by (done || apply lookup_delete_eq).
    f_equal. apply IH. rewrite dom_insert_L in Hd. rewrite dom_delete_L, <-Hd.
    apply not_elem_of_dom in Hk. set_solver.
Qed.

Lemma set_offsets_lookup offsets data k :
  set_offsets offsets data !! k =
  (fun ve => match offsets !! k with Some o => ve <| ve_offset := o |> | None => ve end) <$> data !! k.
Proof. unfold set_offsets. rewrite map_lookup_imap. by destruct (data !! k). Qed.

Lemma set_offsets_dom offsets data : dom (set_offsets offsets data) = dom data.
Proof. apply set_eq. intros k. by rewrite !elem_of_dom, set_offsets_lookup, fmap_is_Some. Qed.

Section cleanup.
Context (IsWindows : bool) {MO : MapOrder}.

(** The new index and values of a shard whose values are all loaded. *)
Lemma cleaned_mem s l vals offsets l' vals' :
  shard_mem s l -> (forall k, is_Some (s_data s !! k) -> loaded s k) ->
  disk_view l' vals' = shard_view s vals -> Forall (entry_in vals') l' -> offsets = snd <$> index_map l' ->
  let s' := s <| s_data ::= set_offsets offsets |> in
  shard_mem s' l' /\ accurate s' l' /\ shard_view s' vals' = shard_view s vals /\ (forall k, is_Some (s_data s' !! k) -> loaded s' k).
Proof.
  intros [He Hd Hb Hn] Hld Hview Hin -> s'.
  assert (forall k ve, s_data s !! k = Some ve -> exists v off, payload ve = Some v /\ ve_size ve = len v /\
    index_map l' !! k = Some (len v, off)) as Hk.
  { intros k ve Hk. destruct (Hld k ltac:(by rewrite Hk)) as (ve' & v & Hk' & Hp). rewrite Hk in Hk'. injection Hk' as <-.
    pose proof (He k ve Hk) as Hs. rewrite Hp in Hs. assert (disk_view l' vals' !! k = Some v) as Hv.
    { rewrite Hview. unfold shard_view. rewrite lookup_fmap, Hk. simpl. unfold ve_value. by rewrite Hp. }
    unfold disk_view in Hv. rewrite lookup_fmap in Hv. destruct (index_map l' !! k) as [[sz off]|] eqn:Ei; [|done].
    injection Hv as Hv. exists v, off. split; [done|]. split; [done|]. do 2 f_equal. rewrite <-Hv.
    apply index_map_in in Ei as (ie & Hie & _ & [= -> ->]). rewrite Forall_forall in Hin.
    destruct (Hin ie Hie) as [(_ & ? & ?) ?]. symmetry. apply value_at_len; lia. }
  assert (forall k, s_data s' !! k = (fun ve => match (snd <$> index_map l') !! k with Some o => ve <| ve_offset := o |> | None => ve end) <$> s_data s !! k) as Hs'
    by (intros k; apply set_offsets_lookup).
  split; [split|split; [|split]].
  - intros k ve'. rewrite Hs'. destruct (s_data s !! k) as [ve|] eqn:Ek; [|done]. intros [= <-].
    destruct (Hk k ve Ek) as (v & off & Hp & Hsz & Hi). rewrite lookup_fmap, Hi. simpl. by rewrite Hp.
  - intros k Hi. rewrite Hs', fmap_is_Some. assert (is_Some (disk_view l' vals' !! k)) as H
      by (unfold disk_view; by rewrite lookup_fmap, fmap_is_Some).
    rewrite Hview in H. unfold shard_view in H. by rewrite lookup_fmap, fmap_is_Some in H.
  - simpl. rewrite Hb. f_equal. apply key_bytes_dom. by rewrite set_offsets_dom.
  - simpl. by rewrite Hn, <-!size_dom, set_offsets_dom.
  - intros k ve'. rewrite Hs'. destruct (s_data s !! k) as [ve|] eqn:Ek; [|done]. intros [= <-].
    destruct (Hk k ve Ek) as (v & off & Hp & Hsz & Hi). rewrite lookup_fmap, Hi. simpl. by rewrite Hsz.
  - unfold shard_view. apply map_eq. intros k. rewrite !lookup_fmap, Hs'. destruct (s_data s !! k) as [ve|] eqn:Ek; [|done].
    destruct (Hk k ve Ek) as (v & off & Hp & _). simpl. f_equal. unfold ve_value.
    rewrite lookup_fmap. destruct (index_map l' !! k); simpl; by rewrite Hp.
  - intros k. rewrite Hs', fmap_is_Some. intros [ve Ek]. destruct (Hk k ve Ek) as (v & off & Hp & _).
    unfold loaded. rewrite Hs', Ek. do 2 eexists. split; [reflexivity|].
    rewrite lookup_fmap. by destruct (index_map l' !! k).
Qed.

(** The temporary files are created empty. *)
Lemma create_temps_works s E l vals :
  let ti := (indexFilename (s_wal s) ++ tempFileSuffix)%string in
  let tv := (valueFilename (s_wal s) ++ tempFileSuffix)%string in
  shard_ok s E l vals -> content ti (env_world E) = [] -> content tv (env_world E) = [] -> ti <> tv -> apart ti tv s ->
  exists fi fv E', on_env_dir (createCleanupTempFiles (s_wal s)) (s, E) = (Ok (inr (fi, fv)), (s, E')) /\
    shard_ok s E' l vals /\ temps ti tv E' (mkCleanup fi fv [] [] ∅ 0) [] [] /\ FatalErr E' = FatalErr E.
Proof.
  intros ti tv Hok Hi Hv Hn (N1 & N2 & N3 & N4). pose proof (sf_faults _ _ _ _ (so_files _ _ _ _ Hok)) as Hf.
  unfold createCleanupTempFiles, on_env_dir. do 3 eexists. split.
  { erewrite zoom_run; [reflexivity|]. cbn beta iota.
    do 2 (erewrite bind_run by (by apply open_file_works); cbn [on_ok]). reflexivity. }
  fold ti tv. rewrite Hi, content_insert_ne, Hv by congruence. split; [|split; [|done]].
  - eapply shard_ok_env; [exact Hok|done|..]; simpl; by rewrite !content_insert_ne by done.
  - split; simpl; rewrite ?content_insert, ?content_insert_ne, ?content_insert by done; try done.
    + rewrite lookup_insert_ne, lookup_insert_eq by done. by eexists.
    + rewrite lookup_insert_eq. by eexists.
Qed.

(** Opening the new files. *)
Lemma update_works s E c l' vals' :
  faults (env_world E) = [] -> indexFilename (s_wal s) <> valueFilename (s_wal s) ->
  content (indexFilename (s_wal s)) (env_world E) = index_bytes l' ->
  content (valueFilename (s_wal s)) (env_world E) = vals' -> Forall (entry_in vals') l' ->
  cl_newValueOffset c = len vals' ->
  exists s' E', updateShardAfterCleanup c (s, E) = (Ok (inr tt), (s', E')) /\ shard_files s' E' l' vals' /\
    FatalErr E' = FatalErr E /\
    exists w, s' = s <| s_wal := w |> <| s_data ::= set_offsets (cl_newOffsets c) |> <| valueOffset := cl_newValueOffset c |>.
Proof.
  intros Hf Hne Hi Hv Hin Hoff. unfold updateShardAfterCleanup. erewrite bind_run by reflexivity. cbn beta iota.
  do 2 eexists. split.
  { unfold on_env_dir. erewrite bind_run; [|erewrite zoom_run; [reflexivity|]; unfold newEngineWAL;
      do 2 (erewrite bind_run by (by apply open_file_works); cbn [on_ok]); reflexivity].
    cbn [on_ok]. erewrite bind_run by reflexivity. reflexivity. }
  split; [|split; [done|by eexists]]. split; simpl; try done.
  - by rewrite content_insert_ne, content_insert by done.
  - by rewrite content_insert, content_insert_ne by congruence.
Qed.

Lemma live_reqs_ok vals kvs : fits vals kvs -> Forall req_ok (live vals kvs).
Proof.
  intros [H _]. unfold live. apply Forall_fmap. eapply Forall_impl; [exact H|]. intros [k ve] [Hk Hv].
  unfold walIndexLen, walIndexHeaderBytes, cleanupIndexBufferSize in Hk. split; simpl in *; lia.
Qed.

Lemma doCleanup_works s E l vals :
  let ti := (indexFilename (s_wal s) ++ tempFileSuffix)%string in
  let tv := (valueFilename (s_wal s) ++ tempFileSuffix)%string in
  shard_ok s E l vals -> pending s = [] -> no_zero s -> fits vals (range_order (s_data s)) ->
  content ti (env_world E) = [] -> content tv (env_world E) = [] -> ti <> tv -> apart ti tv s ->
  exists s' E' l' vals', doCleanup IsWindows (s, E) = (Ok (inr tt), (s', E')) /\ shard_ok s' E' l' vals' /\
    (forall k, is_Some (s_data s' !! k) -> loaded s' k) /\ accurate s' l' /\
    shard_view s' vals' = shard_view s vals /\ disk_view l' vals' = shard_view s vals /\
    len vals' = val_total (live vals (range_order (s_data s))) /\ List.length l' = size (s_data s) /\
    pending s' = [] /\ s_resps s' = s_resps s /\ s_compactCh s' = s_compactCh s /\ s_stopped s' = s_stopped s /\
    s_done s' = s_done s /\ s_cancelled s' = s_cancelled s /\ s_next s' = s_next s /\
    FatalErr E' = FatalErr E.
Proof.
  intros ti tv Hok Hpend Hz Hfit Hi Hv Hn Hap. unfold doCleanup. erewrite bind_run by reflexivity. cbn beta.
  destruct (create_temps_works s E l vals Hok Hi Hv Hn Hap) as (fi & fv & E1 & R1 & Hok1 & Ht1 & F1).
  run R1. cbn [on_ok].
  destruct (writeCleanupData_works ti tv vals l Hn s E1 fi fv Hok1 Hz Ht1 Hfit Hap)
    as (s2 & E2 & c & R2 & Hok2 & Hld & Hro & Hto & Ht & Hib & Hvb & Ho & Hos). run R2. cbn [on_ok].
  destruct Hro as (Hview & Hdom & Hbuf & Hpend2 & Hr & Hc & Hs & Hd & Hx & Hnx & Hni & Hnv).
  set (new := live vals (range_order (s_data s))) in *.
  destruct (swapCleanupFiles_works IsWindows s2 E2 l vals c (index_bytes (batch_entries 0 new)) (batch_values new))
    as (E3 & R3 & F3 & G3 & I3 & V3); rewrite ?Hni, ?Hnv; try done; [by destruct Hok2|by unfold apart; rewrite Hni, Hnv|].
  run R3. cbn [on_ok].
  assert (Forall (entry_in (batch_values new)) (batch_entries 0 new)) as Hin
    by (apply (batch_entries_in new []); [done|by apply live_reqs_ok|apply Hfit]).
  destruct (update_works (s2 <| s_wal ::= close_wal |>) E3 c (batch_entries 0 new) (batch_values new))
    as (s4 & E4 & R4 & Hf4 & G4 & w & ->); try done; [by destruct Hok2 as [[] _ _]|by rewrite Ho, val_total_len|].
  assert (disk_view (batch_entries 0 new) (batch_values new) = shard_view s2 vals) as Hdisk.
  { rewrite Hview, <-live_view. apply (disk_view_batch new [] []); [done|constructor|by apply live_reqs_ok|apply Hfit]. }
  destruct (cleaned_mem s2 l vals (cl_newOffsets c) _ _ (so_mem _ _ _ _ Hok2) Hld Hdisk Hin Hos) as (Hm & Hac & Hv4 & Hl4).
  do 2 eexists. exists (batch_entries 0 new), (batch_values new). split; [exact R4|]. split.
  { split; [done|by destruct Hm; split|].
    assert (pending (s2 <| s_wal ::= close_wal |> <| s_wal := w |> <| s_data ::= set_offsets (cl_newOffsets c) |>
      <| valueOffset := cl_newValueOffset c |>) = []) as Hp4 by (etransitivity; [exact Hpend2|exact Hpend]).
    split; rewrite Hp4; [constructor| |by intros r ?%elem_of_nil]. simpl. rewrite Z.add_0_r, <-val_total_len. apply Hfit. }
  rewrite <-Hview. split_and!; try done; try (etransitivity; [|eassumption]; done); try congruence.
  - by rewrite val_total_len.
  - assert (List.length new = size (s_data s)) as <-
      by (unfold new, live; by rewrite length_fmap, range_order_perm, length_map_to_list).
    clear. generalize 0. induction new as [|r new IH]; intros off; simpl; [done|by rewrite IH].
  - destruct Hto as [? _]. congruence.
Qed.

End cleanup.
