(* ===== verification/EngineHistory.v ===== *)
(** * EngineHistory: opening a shard, and its runs

    Opening the files of a shard gives a shard that stands for their contents.  If
    the last write to the index was cut short, the first attempt reports the
    corruption and repairs the file, and the next one succeeds.  [shard_run] is any
    interleaving of clients and committer on a working disk, with the requests handed
    over so far as its index; [history_ok] is what holds at every moment of it. *)

From S2P Require Export EngineCleanup.
From stdpp Require Import pretty.
From Stdlib Require Import Ascii String.
Local Open Scope Z_scope.

(** ** File names *)

Lemma string_app_cancel_r a b t : (a ++ t)%string = (b ++ t)%string -> a = b.
Proof.
  revert b. induction a as [|c a IH]; intros [|d b] H; [done|..].
  - apply (f_equal String.length) in H. rewrite !string_length_app in H. simpl in H. lia.
  - apply (f_equal String.length) in H. rewrite !string_length_app in H. simpl in H. lia.
  - change (String c (a ++ t) = String d (b ++ t)) in H. injection H as -> H. by rewrite (IH b H).
Qed.

Lemma string_app_cancel_l a b t : (t ++ a)%string = (t ++ b)%string -> a = b.
Proof. induction t as [|c t IH]; intros H; [done|]. change (String c (t ++ a) = String c (t ++ b)) in H. injection H as H. by apply IH. Qed.

Lemma indexName_inj i j : indexName i = indexName j -> i = j.
Proof. unfold indexName. intros ?%string_app_cancel_l%string_app_cancel_r. by apply (inj pretty). Qed.

Lemma valueName_inj i j : valueName i = valueName j -> i = j.
Proof. unfold valueName. intros ?%string_app_cancel_l%string_app_cancel_r. by apply (inj pretty). Qed.

(** The last character tells index, value and temporary files apart. *)
Fixpoint last_char (s : string) : option Ascii.ascii :=
  match s with
  | EmptyString => None
  | String c EmptyString => Some c
  | String _ s => last_char s
  end.

Lemma last_char_app a b : b <> EmptyString -> last_char (a ++ b) = last_char b.
Proof.
  intros Hb. induction a as [|c a IH]; [done|]. change (String c a ++ b)%string with (String c (a ++ b)).
  rewrite <-IH. cbn [last_char]. destruct (a ++ b)%string eqn:E; [|done].
  apply (f_equal String.length) in E. rewrite string_length_app in E. destruct b; [done|]. simpl in E. lia.
Qed.

Lemma string_app_nonempty a b : b <> EmptyString -> (a ++ b)%string <> EmptyString.
Proof. intros Hb H. apply (f_equal String.length) in H. rewrite string_length_app in H. destruct b; [done|]. simpl in H. lia. Qed.

Lemma index_char i : last_char (indexName i) = Some "x"%char.
Proof. unfold indexName. by rewrite !last_char_app by (done || by apply string_app_nonempty). Qed.
Lemma value_char i : last_char (valueName i) = Some "e"%char.
Proof. unfold valueName. by rewrite !last_char_app by (done || by apply string_app_nonempty). Qed.
Lemma temp_char s : last_char (s ++ tempFileSuffix) = Some "p"%char.
Proof. by rewrite last_char_app. Qed.

Lemma index_value_ne i j : indexName i <> valueName j.
Proof. intros H. pose proof (index_char i) as H1. rewrite H, value_char in H1. done. Qed.

(** The names of shard [i] and of its temporary files are four different names. *)
Lemma shard_names i :
  (indexName i ++ tempFileSuffix)%string <> (valueName i ++ tempFileSuffix)%string /\
  indexName i <> (indexName i ++ tempFileSuffix)%string /\ indexName i <> (valueName i ++ tempFileSuffix)%string /\
  valueName i <> (indexName i ++ tempFileSuffix)%string /\ valueName i <> (valueName i ++ tempFileSuffix)%string.
Proof.
  split; [intros ?%string_app_cancel_r; by eapply index_value_ne|].
  split_and!; intros H; apply (f_equal last_char) in H; by rewrite temp_char, ?index_char, ?value_char in H.
Qed.

(** ** Opening *)

(** One shard of [NewDBWithOptions]: [newShard], then [replay]. *)
Definition open_shard (i : nat) (W : World) : res (Result shard) * Env :=
  match newShard i W with
  | (Ok (inr s), W) =>
      match shard_replay (s, mkEnv W false) with
      | (Ok (inr _), (s, E)) => (Ok (inr s), E)
      | (Ok (inl e), (_, E)) => (Ok (inl e), E)
      | (Panic why, (_, E)) => (Panic why, E)
      end
  | (Ok (inl e), W) => (Ok (inl e), mkEnv W false)
  | (Panic why, W) => (Panic why, mkEnv W false)
  end.

(** The files as [open] leaves them: they exist. *)
Definition opened (i : nat) (W : World) : World :=
  W <| files ::= <[ indexName i := content (indexName i) W ]> |> <| files ::= <[ valueName i := content (valueName i) W ]> |>.

Definition new_shard (i : nat) (size : Z) : shard :=
  mkShard ∅ false (mkEngineWAL (indexName i) (valueName i) (mkFile (indexName i) 0 true) (mkFile (valueName i) 0 true))
    [] [] [] [] [] false false (mkCompactWorker None defaultCompactionPolicy) 0 0 0 size ∅ 0.

Lemma newShard_works i W :
  faults W = [] -> newShard i W = (Ok (inr (new_shard i (len (content (valueName i) W)))), opened i W).
Proof.
  intros Hf. unfold newShard, newEngineWAL.
  erewrite bind_run; [|do 2 (erewrite bind_run by (by apply open_file_works); cbn [on_ok]); reflexivity]. cbn [on_ok].
  assert (newCompactionWorker defaultCompactionPolicy = inr (mkCompactWorker None defaultCompactionPolicy)) as ->
    by (vm_compute; reflexivity).
  erewrite bind_run by (by erewrite zoom_run by by apply file_Size_works). cbn [on_ok].
  cbn [valueFile fl_name]. rewrite content_insert. rewrite content_insert_ne by (intros H; symmetry in H; by apply index_value_ne in H).
  done.
Qed.

Definition replayed (l : list indexEntry) : gmap bytes valueEntry :=
  foldl (fun data ie => (replay_entry ie data).1) ∅ l.

Lemma replayed_index_map l : replayed l = (fun p => mkValueEntry None p.1 p.2) <$> index_map l.
Proof.
  unfold replayed, index_map. induction l as [|ie l IH] using rev_ind; [done|].
  by rewrite !foldl_snoc, IH, fmap_insert.
Qed.

(** The shard after the index was read. *)
Definition loaded_index (i : nat) (vals : bytes) (l : list indexEntry) : shard :=
  (new_shard i (len vals)) <| s_wal ::= at_pos (len (index_bytes l)) |> <| s_data := replayed l |>
    <| keyBytesInRAM := key_bytes (replayed l) |> <| numKeys := Z.of_nat (size (replayed l)) |>.

Lemma opened_content i W n : content n (opened i W) = content n W.
Proof.
  unfold opened, content. simpl. destruct (decide (n = valueName i)) as [->|H1]; [by rewrite lookup_insert_eq|].
  rewrite lookup_insert_ne by done. destruct (decide (n = indexName i)) as [->|H2]; [by rewrite lookup_insert_eq|].
  by rewrite lookup_insert_ne.
Qed.

Lemma new_index_at i W data n :
  faults W = [] -> content (indexName i) W = data -> index_at (s_wal (new_shard i n)) W [] data.
Proof. intros Hf Hc. by split. Qed.

(** Reading the index into a new shard. *)
Lemma shard_replay_works i vals E l :
  faults (env_world E) = [] -> content (indexName i) (env_world E) = index_bytes l -> Forall entry_ok l ->
  len (index_bytes l) < 2 ^ 63 ->
  shard_replay (new_shard i (len vals), E) = (Ok (inr tt), (loaded_index i vals l, E)).
Proof.
  intros Hf Hx Hl Hb.
  assert (engineWAL_readIndex replay_entry ∅ (s_wal (new_shard i (len vals)), env_world E) =
    (Ok (replayed l, inr tt), (at_pos (len (index_bytes l)) (s_wal (new_shard i (len vals))), env_world E))) as HR.
  { rewrite (readIndex_whole replay_entry (fun ie a => (replay_entry ie a).1) ltac:(done) l); done. }
  unfold shard_replay. erewrite bind_run by reflexivity. cbn beta.
  change (s_data (new_shard i (len vals))) with (∅ : gmap bytes valueEntry).
  unfold on_wal. erewrite bind_run; [|erewrite zoom_run; [reflexivity|exact HR]]. cbn beta iota.
  do 2 (erewrite bind_run by reflexivity; cbn [on_ok]). erewrite bind_run by reflexivity. by destruct E.
Qed.

Lemma replay_works i W l :
  faults W = [] -> content (indexName i) W = index_bytes l -> Forall entry_ok l -> len (index_bytes l) < 2 ^ 63 ->
  let vals := content (valueName i) W in
  open_shard i W = (Ok (inr (loaded_index i vals l)), mkEnv (opened i W) false).
Proof.
  intros Hf Hx Hl Hb vals. unfold open_shard. rewrite newShard_works by done. fold vals.
  rewrite (shard_replay_works i vals (mkEnv (opened i W) false) l); [done|done| |done|done].
  cbn [env_world]. by rewrite opened_content.
Qed.

(** The keys in memory take less room than the index. *)
Lemma replayed_bound l :
  key_bytes (replayed l) + walIndexHeaderBytes * Z.of_nat (size (replayed l)) <= len (index_bytes l).
Proof.
  unfold walIndexHeaderBytes. induction l as [|ie l IH] using rev_ind; [vm_compute; discriminate|].
  rewrite index_bytes_app, len_app. change (index_bytes [ie]) with (entry_bytes ie ++ [])%list.
  rewrite app_nil_r, len_entry_bytes. unfold walIndexLen, walIndexHeaderBytes.
  unfold replayed. rewrite foldl_snoc. fold (replayed l). cbn [replay_entry fst].
  pose proof (len_nonneg (ie_Key ie)). destruct (replayed l !! ie_Key ie) eqn:E.
  - rewrite (key_bytes_insert_old _ _ _ _ E), map_size_insert_Some by (by eexists). lia.
  - rewrite key_bytes_insert_new, map_size_insert_None by done. lia.
Qed.

Lemma key_bytes_nonneg data : 0 <= key_bytes data.
Proof. unfold key_bytes. induction (map_to_list data) as [|[k ?] kvs IH]; simpl; [done|]. pose proof (len_nonneg k). lia. Qed.

Lemma loaded_index_ok i E vals l :
  faults (env_world E) = [] -> content (indexName i) (env_world E) = index_bytes l ->
  content (valueName i) (env_world E) = vals ->
  Forall (entry_in vals) l -> len (index_bytes l) < 2 ^ 63 -> len vals < 2 ^ 63 ->
  shard_ok (loaded_index i vals l) E l vals /\
  shard_view (loaded_index i vals l) vals = disk_view l vals /\ accurate (loaded_index i vals l) l.
Proof.
  intros Hf Hx Hv Hl Hb Hvb. pose proof (replayed_bound l) as Hrb. unfold walIndexHeaderBytes in Hrb.
  pose proof (key_bytes_nonneg (replayed l)). split; [split|split].
  - split; try done; simpl; apply index_value_ne.
  - split; simpl.
    + intros k ve. rewrite replayed_index_map, lookup_fmap. destruct (index_map l !! k) as [[sz off]|]; [|done].
      by intros [= <-].
    + intros k Hk'. by rewrite replayed_index_map, lookup_fmap, fmap_is_Some.
    + symmetry. apply int64_id. lia.
    + symmetry. apply int64_id. lia.
  - split; [constructor|simpl; lia|by intros r ?%elem_of_nil].
  - unfold shard_view, disk_view. simpl. rewrite replayed_index_map, <-map_fmap_compose. apply map_fmap_ext.
    by intros k [sz off] _.
  - intros k ve. simpl. rewrite replayed_index_map, lookup_fmap. destruct (index_map l !! k) as [[sz off]|]; [|done].
    by intros [= <-].
Qed.

(** A torn entry at the end of the index: the open fails and cuts it off. *)
Lemma replay_torn i W l ie n :
  faults W = [] -> content (indexName i) W = index_bytes l ++ take n (entry_bytes ie) ->
  Forall entry_ok l -> entry_ok ie -> (0 < n < List.length (entry_bytes ie))%nat -> len (index_bytes l) < 2 ^ 63 ->
  exists E, open_shard i W = (Ok (inl ErrCorruption), E) /\ faults (env_world E) = [] /\
    content (indexName i) (env_world E) = index_bytes l /\
    content (valueName i) (env_world E) = content (valueName i) W.
Proof.
  intros Hf Hx Hl Hie Hn Hb. unfold open_shard. rewrite newShard_works by done.
  set (s0 := new_shard i (len (content (valueName i) W))).
  destruct (readIndex_whole_torn replay_entry (fun ie a => (replay_entry ie a).1) ltac:(done) l ie n ∅ (s_wal s0) (opened i W)
    (new_index_at i (opened i W) _ _ Hf (eq_trans (opened_content i W _) Hx)) Hl Hie Hn Hb) as [p HR].
  unfold shard_replay. erewrite bind_run by reflexivity. cbn beta.
  change (s_data s0) with (∅ : gmap bytes valueEntry).
  unfold on_wal. erewrite bind_run; [|erewrite zoom_run; [reflexivity|exact HR]]. cbn beta iota.
  do 2 (erewrite bind_run by reflexivity; cbn [on_ok]). eexists. split; [reflexivity|]. split; [done|].
  change (fl_name (indexFile (s_wal s0))) with (indexName i). cbn [env_world].
  change (env_world (?E <| env_world := ?W |>)) with W.
  rewrite content_insert, content_insert_ne, opened_content; [done|]. intros H. symmetry in H. by apply index_value_ne in H.
Qed.

(** ** Runs *)

Section runs.
Context (IsWindows : bool) {MO : MapOrder}.

(** Turns that write: a request arrives, or the ticker fires. *)
Definition writes (ev : commit_event) : Prop := ev = OnReq \/ ev = OnCommitTick.

(** There is room for a request in the value file. *)
Definition admits (s : shard) (E : Env) (r : writeRequest) : Prop :=
  req_ok r /\ len (content (valueFilename (s_wal s)) (env_world E)) + val_total (pending s ++ [r]) < 2 ^ 63.

(** One step of a client or of the committer, with the request it hands over. *)
Inductive shard_step (s : shard) (E : Env) : list writeRequest -> shard -> Env -> Prop :=
| step_put pick key value ch s' E' :
    admits s E (mkWriteRequest key (default [] value) (Some ch)) ->
    shard_put pick key value (s, E) = (Ok (inr ch), (s', E')) ->
    shard_step s E [mkWriteRequest key (default [] value) (Some ch)] s' E'
| step_putAsync pick key value s' E' :
    admits s E (mkWriteRequest key (default [] value) None) -> s_stopped s = false ->
    shard_putAsync pick key value (s, E) = (Ok tt, (s', E')) ->
    shard_step s E [mkWriteRequest key (default [] value) None] s' E'
| step_get key r s' E' : shard_get key (s, E) = (Ok r, (s', E')) -> shard_step s E [] s' E'
| step_commit ev s' E' :
    writes ev -> commit_enabled ev s = true -> commit_turn IsWindows ev (s, E) = (Ok tt, (s', E')) ->
    shard_step s E [] s' E'.

Inductive shard_run (s0 : shard) (E0 : Env) : list writeRequest -> shard -> Env -> Prop :=
| run_start : shard_run s0 E0 [] s0 E0
| run_step h s E o s' E' : shard_run s0 E0 h s E -> shard_step s E o s' E' -> shard_run s0 E0 (h ++ o) s' E'.

(** ** The invariant of a run *)

Record history_ok (view0 disk0 : gmap bytes bytes) (h flushed : list writeRequest)
  (s : shard) (E : Env) (l : list indexEntry) (vals : bytes) : Prop := {
  hi_ok : shard_ok s E l vals;
  hi_zero : no_zero s;
  hi_split : h = flushed ++ pending s;
  hi_disk : disk_view l vals = apply_reqs flushed disk0;
  hi_async : Forall (fun r => is_sync r = false) h -> shard_view s vals = apply_reqs h view0;
  hi_sync : Forall (fun r => is_sync r = true) h -> shard_view s vals = apply_reqs flushed view0;
  hi_fresh ch : (s_next s <= ch)%nat -> s_resps s !! ch = None;
  hi_chans : NoDup (channels (pending s)) /\
    forall ch, ch ∈ channels (pending s) -> (ch < s_next s)%nat /\ s_resps s !! ch = None;
  hi_acked ch : ch ∈ channels flushed -> s_resps s !! ch = Some (inr tt)
}.

Lemma channels_app l k : channels (l ++ k) = channels l ++ channels k.
Proof using. unfold channels. apply omap_app. Qed.

Lemma filter_none now : Forall (fun r => is_sync r = false) now -> List.filter is_sync now = [].
Proof using. induction 1 as [|r now Hr _ IH]; [done|]. simpl. by rewrite Hr. Qed.

Lemma filter_all now : Forall (fun r => is_sync r = true) now -> List.filter is_sync now = now.
Proof using. induction 1 as [|r now Hr _ IH]; [done|]. simpl. by rewrite Hr, IH. Qed.

Lemma history_commit view0 disk0 h flushed s E l vals now s' E' l' vals' :
  history_ok view0 disk0 h flushed s E l vals -> commit_step now s E l vals s' E' l' vals' ->
  history_ok view0 disk0 h (flushed ++ now) s' E' l' vals'.
Proof using.
  intros [Hok Hz Hh Hd Ha Hs Hf [Hnd Hc] Hk] Hcs. pose proof Hcs as [Ok' Hp Dk Vw Rs _ _ _ _ (_ & _ & _ & _ & Nx & _)].
  rewrite Hp, channels_app in Hnd, Hc. apply NoDup_app in Hnd as (Hnd1 & Hdis & Hnd2). rewrite Hp, app_assoc in Hh. split.
  - done.
  - by eapply commit_zero.
  - done.
  - by rewrite Dk, Hd, foldl_app.
  - intros H. rewrite Vw, (Ha H), filter_none; [done|]. rewrite Hh in H. apply Forall_app in H as [H _]. by apply Forall_app in H as [_ ?].
  - intros H. rewrite Vw, (Hs H), filter_all; [by rewrite foldl_app|].
    rewrite Hh in H. apply Forall_app in H as [H _]. by apply Forall_app in H as [_ ?].
  - intros ch Hch. rewrite Nx in Hch. rewrite Rs, ack_resps_lookup, decide_False; [by apply Hf|].
    intros Hin. destruct (Hc ch) as [? _]; [apply elem_of_app; by left|lia].
  - split; [done|]. intros ch Hin. rewrite Nx, Rs, ack_resps_lookup, decide_False by (intros ?; by eapply Hdis).
    apply Hc, elem_of_app. by right.
  - intros ch. rewrite channels_app, Rs, ack_resps_lookup. intros [Hin|Hin]%elem_of_app.
    + case_decide; [done|by apply Hk].
    + by rewrite decide_True.
Qed.

Lemma history_read view0 disk0 h flushed s E l vals s' :
  history_ok view0 disk0 h flushed s E l vals -> read_step s E l vals s' ->
  history_ok view0 disk0 h flushed s' E l vals.
Proof using.
  intros [Hok Hz Hh Hd Ha Hs Hf Hc Hk] Hrd. pose proof (read_step_ok _ _ _ _ _ Hok Hrd) as Hok'.
  destruct Hrd as [_ Hz' Hv _ _ (Hp & Hr & _ & _ & _ & _ & Hn & _)].
  split; rewrite ?Hv, ?Hp, ?Hr, ?Hn; done.
Qed.

Lemma history_putAsync view0 disk0 h flushed s E l vals k v :
  let r := mkWriteRequest k v None in
  history_ok view0 disk0 h flushed s E l vals -> admits s E r ->
  history_ok view0 disk0 (h ++ [r]) flushed (enqueue r (shard_putInternal k v s)) E l vals.
Proof using.
  intros r [Hok Hz Hh Hd Ha Hs Hf Hc Hk] [Hr Hfit]. pose proof (putInternal_frame k v s) as Hfr.
  pose proof (frame_pending _ _ Hfr) as Hp. pose proof (sf_value _ _ _ _ (so_files _ _ _ _ Hok)) as Hv.
  assert (s_next (enqueue r (shard_putInternal k v s)) = s_next s /\ s_resps (enqueue r (shard_putInternal k v s)) = s_resps s)
    as [Hn Hrs] by (unfold shard_putInternal; by destruct (s_data s !! k)).
  assert (pending (enqueue r (shard_putInternal k v s)) = pending s ++ [r]) as Hpe by (by rewrite enqueue_pending, Hp).
  split; rewrite ?Hpe, ?channels_app, ?app_nil_r.
  - apply enqueue_ok; [by apply putInternal_ok|done| |by rewrite Hp, <-Hv].
    intros _. unfold loaded. rewrite putInternal_data. simpl. rewrite lookup_insert_eq. by do 2 eexists.
  - exact (putInternal_zero k v s Hz).
  - by rewrite Hh, app_assoc.
  - done.
  - intros [H _]%Forall_app. rewrite foldl_app. simpl. rewrite <-(Ha H). exact (putInternal_view k v s vals).
  - intros [_ H]%Forall_app. by apply Forall_cons in H as [? _].
  - intros ch. rewrite Hn, Hrs. apply Hf.
  - rewrite Hn, Hrs. exact Hc.
  - intros ch. rewrite Hrs. apply Hk.
Qed.

Lemma history_put view0 disk0 h flushed s E l vals k v :
  let r := mkWriteRequest k v (Some (s_next s)) in
  history_ok view0 disk0 h flushed s E l vals -> admits s E r ->
  history_ok view0 disk0 (h ++ [r]) flushed (enqueue r (s <| s_next := S (s_next s) |>)) E l vals.
Proof using.
  intros r [Hok Hz Hh Hd Ha Hs Hf [Hnd Hc] Hk] [Hr Hfit]. pose proof (sf_value _ _ _ _ (so_files _ _ _ _ Hok)) as Hv.
  assert (pending (enqueue r (s <| s_next := S (s_next s) |>)) = pending s ++ [r]) as Hpe
    by exact (enqueue_pending r (s <| s_next := S (s_next s) |>)).
  split; rewrite ?Hpe, ?channels_app.
  - apply enqueue_ok; [|done|done|by rewrite <-Hv]. destruct Hok as [[] [] []]. by split; split.
  - done.
  - by rewrite Hh, app_assoc.
  - done.
  - intros [_ H]%Forall_app. by apply Forall_cons in H as [? _].
  - intros [H _]%Forall_app. exact (Hs H).
  - intros ch Hch. simpl in *. apply Hf. lia.
  - split.
    + apply NoDup_app. split; [done|]. split; [|apply NoDup_singleton].
      intros ch Hin ->%list_elem_of_singleton. destruct (Hc _ Hin). lia.
    + intros ch [Hin| ->%list_elem_of_singleton]%elem_of_app; simpl.
      * destruct (Hc ch Hin). split; [lia|done].
      * split; [lia|]. by apply Hf.
  - done.
Qed.

Lemma commit_turn_step ev s E l vals :
  shard_ok s E l vals -> writes ev -> commit_enabled ev s = true ->
  exists now s' E' l' vals', commit_turn IsWindows ev (s, E) = (Ok tt, (s', E')) /\ commit_step now s E l vals s' E' l' vals'.
Proof using.
  intros Hok [->| ->] Hen; unfold commit_turn; cbn [commit_case].
  - unfold commit_enabled in Hen. to_prop. destruct (s_reqCh s) as [|r rest] eqn:Er; [done|].
    destruct (recv_req_works s E l vals r rest Hok Er) as (now & s' & E' & l' & vals' & Hrun & Hcs & _).
    erewrite bind_run by reflexivity. cbn beta. rewrite Er, Hrun. by exists now, s', E', l', vals'.
  - destruct (flushBuffered_works s E l vals Hok) as (s' & E' & l' & vals' & Hrun & Hcs & _).
    rewrite Hrun. by exists (s_buf s), s', E', l', vals'.
Qed.

(** The invariant is kept by every step, which touches the shard's own files only. *)
Lemma history_step view0 disk0 h flushed s E l vals o s' E' :
  history_ok view0 disk0 h flushed s E l vals -> shard_step s E o s' E' ->
  (exists flushed' l' vals', history_ok view0 disk0 (h ++ o) flushed' s' E' l' vals') /\
  indexFilename (s_wal s') = indexFilename (s_wal s) /\ valueFilename (s_wal s') = valueFilename (s_wal s) /\
  s_stopped s' = s_stopped s /\
  forall n, n <> indexFilename (s_wal s) -> n <> valueFilename (s_wal s) ->
    files (env_world E') !! n = files (env_world E) !! n.
Proof using.
  intros Hi Hst. destruct Hst as [pick key value ch s' E' Had Hput|pick key value s' E' Had Hns Hput
    |key r s' E' Hget|ev s' E' Hw Hen Hturn].
  - apply put_inv in Hput as (-> & -> & ->). split; [|done]. exists flushed, l, vals. by apply history_put.
  - rewrite putAsync_run in Hput by done. injection Hput as <- <-. pose proof (putInternal_frame key (default [] value) s) as Hfr.
    split; [exists flushed, l, vals; by apply history_putAsync|]. destruct Hfr as (_ & Hw & _ & _ & _ & Hs & _).
    split; [exact (f_equal indexFilename Hw)|]. split; [exact (f_equal valueFilename Hw)|]. by split.
  - destruct (get_works s E l vals key (so_core _ _ _ _ (hi_ok _ _ _ _ _ _ _ _ Hi)) (hi_zero _ _ _ _ _ _ _ _ Hi)) as (s1 & Hg & Hrd).
    rewrite Hg in Hget. injection Hget as _ <- <-. rewrite app_nil_r.
    split; [exists flushed, l, vals; by eapply history_read|]. by destruct Hrd as [_ _ _ _ _ (_ & _ & _ & ? & _ & _ & _ & _ & ? & ? & _)].
  - destruct (commit_turn_step ev s E l vals (hi_ok _ _ _ _ _ _ _ _ Hi) Hw Hen) as (now & s1 & E1 & l1 & v1 & Ht & Hcs).
    rewrite Ht in Hturn. injection Hturn as <- <-. rewrite app_nil_r.
    split; [exists (flushed ++ now), l1, v1; by eapply history_commit|]. by destruct Hcs as [_ _ _ _ _ _ _ [? ?] ? (_ & ? & _)].
Qed.

Lemma history_start s E l vals :
  shard_ok s E l vals -> pending s = [] -> no_zero s -> (forall ch, (s_next s <= ch)%nat -> s_resps s !! ch = None) ->
  history_ok (shard_view s vals) (disk_view l vals) [] [] s E l vals.
Proof using.
  intros Hok Hp Hz Hf. split; rewrite ?Hp; try done; [|by intros ch ?%elem_of_nil].
  split; [constructor|by intros ch ?%elem_of_nil].
Qed.

(** The invariant holds throughout a run. *)
Lemma history_run s0 E0 l0 vals0 h s E :
  shard_ok s0 E0 l0 vals0 -> pending s0 = [] -> no_zero s0 -> (forall ch, (s_next s0 <= ch)%nat -> s_resps s0 !! ch = None) ->
  shard_run s0 E0 h s E ->
  exists flushed l vals, history_ok (shard_view s0 vals0) (disk_view l0 vals0) h flushed s E l vals.
Proof using.
  intros Hok Hp Hz Hf. induction 1 as [|h s E o s' E' _ (fl & l & vals & IH) Hst].
  - exists [], l0, vals0. by apply history_start.
  - by eapply history_step.
Qed.

End runs.
