(* ===== verification/Engine.v ===== *)
(** * Engine: the sharded database ([engine/db.go], [main.go])

    A [DB] is 256 shards over one directory; a key belongs to the shard its hash
    selects.  [NewDBWithOptions], [replay], [Clear] and [Close] start one goroutine
    per shard and wait for all of them; the goroutines work on different shards and
    different files, so their order only shows in how errors are joined. *)

From S2P Require Export EngineMaint.
From Stdlib Require Import String.
Local Open Scope Z_scope.

Definition numShards : Z := 256.

(** [fnv.New32a]: FNV-1a with 32 bits. *)
Definition hash (s : bytes) : Z :=
  foldl (fun h b => wrap32 (Z.lxor h (coqutil.Byte.byte.unsigned b) * 16777619)) 2166136261 s.

Record DB : Type := mkDB {
  db_shards : list shard;
  db_env : Env;
  db_cancelled : bool;
  db_closed : bool;
  db_closeErr : Result unit
}.

#[export] Instance eta_DB : Eta DB := fun d =>
  mkDB (db_shards d) (db_env d) (db_cancelled d) (db_closed d) (db_closeErr d).

(** A call on shard [i]. *)
Definition on_shard {A : Type} (i : nat) (m : Shard A) : M DB A := fun d =>
  match db_shards d !! i with
  | None => (Panic "index out of range", d)
  | Some s =>
      let '(r, (s, E)) := m (s, db_env d) in
      (r, d <| db_shards ::= <[ i := s ]> |> <| db_env := E |>)
  end.

Definition getShard (key : bytes) : nat := Z.to_nat (hash key mod numShards).

(** The goroutines of all shards; the errors are joined. *)
Fixpoint all_shards (idxs : list nat) (m : Shard (Result unit)) : M DB (Result unit) :=
  match idxs with
  | [] => no_error
  | i :: idxs =>
      r1 ← on_shard i m;
      r2 ← all_shards idxs m;
      mret (errors_Join r1 r2)
  end.

Definition every_shard (m : Shard (Result unit)) : M DB (Result unit) :=
  idxs ← gets (fun d => seq 0 (List.length (db_shards d))); all_shards idxs m.

Fixpoint newShards (n : nat) (i : nat) : M World (Result (list shard)) :=
  match n with
  | O => mret (inr [])
  | S n =>
      s ←? newShard i;
      rest ←? newShards n (S i);
      mret (inr (s :: rest))
  end.

Definition DB_replay : M DB (Result unit) := every_shard shard_replay.

(** The directory after the call is part of the result also when opening fails; the
    shards opened so far, whose files Go then leaves open, are not. *)
Definition NewDBWithOptions (W : World) : res (Result DB) * World :=
  match newShards (Z.to_nat numShards) 0 W with
  | (Panic why, W) => (Panic why, W)
  | (Ok (inl e), W) => (Ok (inl e), W)
  | (Ok (inr shards), W) =>
      match DB_replay (mkDB shards (mkEnv W false) false false (inr tt)) with
      | (Panic why, d) => (Panic why, env_world (db_env d))
      | (Ok (inl e), d) => (Ok (inl e), env_world (db_env d))
      | (Ok (inr _), d) => (Ok (inr d), env_world (db_env d))
      end
  end.

Section db.
Context (IsWindows : bool) {MO : MapOrder}.

(** [Put] until it waits for the answer. *)
Definition DB_Put (pick : bool) (key : bytes) (value : option bytes) : M DB (Result nat) :=
  on_shard (getShard key) (shard_put pick key value).

Definition DB_PutAsync (pick : bool) (key : bytes) (value : option bytes) : M DB unit :=
  on_shard (getShard key) (shard_putAsync pick key value).

(** An error is logged and reported like a missing key. *)
Definition DB_Get (key : bytes) : M DB (option bytes) :=
  r ← on_shard (getShard key) (shard_get key);
  mret (match r with inr v => v | inl _ => None end).

Definition DB_Clear : M DB (Result unit) := every_shard shard_clear.

(** [Close] once the committers have drained their channels: a committer that is
    still running takes its stop case. *)
Definition close_shard : Shard (Result unit) :=
  _ ← upd (fun s => s <| s_cancelled := true |>);
  _ ← shard_stop;
  is_done ← get_s s_done;
  _ ← (if (is_done : bool) then mret tt else commit_turn IsWindows OnStop);
  shard_stopped.

Definition DB_Close : M DB (Result unit) :=
  closed ← gets db_closed;
  if (closed : bool) then gets db_closeErr
  else
    _ ← modify (fun d => d <| db_closed := true |> <| db_cancelled := true |>);
    r ← every_shard close_shard;
    _ ← modify (fun d => d <| db_closeErr := r |>);
    mret r.

(** [Range]: the shards in order, each in the order the runtime walks its map. *)
Fixpoint DB_Range_from {A : Type} (fn : bytes -> bytes -> A -> A * bool) (idxs : list nat) (a : A)
  : M DB (A * Result unit) :=
  match idxs with
  | [] => mret (a, inr tt)
  | i :: idxs =>
      '(a, r) ← on_shard i (data ← get_s s_data; shard_forEach fn (range_order data) a);
      match r with
      | inl e => mret (a, inl e)
      | inr _ => DB_Range_from fn idxs a
      end
  end.

Definition DB_Range {A : Type} (fn : bytes -> bytes -> A -> A * bool) (a : A) : M DB (A * Result unit) :=
  idxs ← gets (fun d => seq 0 (List.length (db_shards d))); DB_Range_from fn idxs a.

(** [s.clean()]: the request, the committer's turns up to it, and the answer; [None]
    if no answer comes because the committer has exited. *)
Definition shard_clean : Shard (option (Result unit)) :=
  ch ← shard_maintain DoCleanup;
  match ch with
  | None => mret (Some (inl ErrClosed))
  | Some ch =>
      '(waiting, is_done) ← get_s (fun s => (s_compactCh s, s_done s));
      if (is_done : bool) then mret None
      else
        _ ← for_each waiting (fun _ => commit_turn IsWindows OnCompact);
        get_s (fun s => s_resps s !! ch)
  end.

Fixpoint DB_Clean_from (idxs : list nat) : M DB (option (Result unit)) :=
  match idxs with
  | [] => mret (Some (inr tt))
  | i :: idxs =>
      cancelled ← gets db_cancelled;
      if (cancelled : bool) then mret (Some (inl ErrClosed))
      else
        r ← on_shard i shard_clean;
        match r with
        | Some (inr _) => DB_Clean_from idxs
        | r => mret r
        end
  end.

Definition DB_Clean : M DB (option (Result unit)) :=
  idxs ← gets (fun d => seq 0 (List.length (db_shards d))); DB_Clean_from idxs.

End db.

(** ** The example program ([main.go]) *)

(** What it prints last. *)
Inductive example_line : Type :=
| ExampleFailed (e : error)
| Found (v : bytes)
| NotFound.

Definition example_key : bytes := String.list_byte_of_string "user:100".

(** The value is a nil slice.  [committers] is what the committers do until [Put] returns,
    whose error is not looked at. *)
Definition example_main (pick : bool) (committers : DB -> DB) (W : World) : res example_line :=
  match NewDBWithOptions W with
  | (Panic why, _) => Panic why
  | (Ok (inl e), _) => Ok (ExampleFailed e)
  | (Ok (inr db), _) =>
      match DB_Put pick example_key None db with
      | (Panic why, _) => Panic why
      | (Ok _, db) =>
          match DB_Get example_key (committers db) with
          | (Panic why, _) => Panic why
          | (Ok (Some v), _) => Ok (Found v)
          | (Ok None, _) => Ok NotFound
          end
      end
  end.
