(* ===== verification/EngineStop.v ===== *)
(** * EngineStop: shutting down, and failing writes

    Closing a shard drains what was accepted; a write that fails is never
    acknowledged and stops the committer. *)

From S2P Require Export EngineHistory Engine.
From Stdlib Require Import String.
Local Open Scope Z_scope.

(** ** Answers *)

Definition answer (xs : list nat) (r : Result unit) (m : gmap nat (Result unit)) : gmap nat (Result unit) :=
  foldl (fun m ch => <[ ch := r ]> m) m xs.

Lemma answer_lookup xs r m ch : answer xs r m !! ch = if decide (ch ∈ xs) then Some r else m !! ch.
Proof.
  unfold answer. revert m. induction xs as [|x xs IH]; intros m; [done|]. simpl. rewrite IH.
  destruct (decide (ch ∈ xs)) as [Hin|Hin]; [rewrite decide_True by (by right); done|].
  destruct (decide (x = ch)) as [<-|Hne].
  - by rewrite decide_True, lookup_insert_eq by left.
  - rewrite lookup_insert_ne, decide_False; [done| |done]. intros [->|?]%elem_of_cons; done.
Qed.

(** Telling the clients of some requests an error. *)
Lemma refuse_reqs reqs e s E :
  for_each reqs (fun r => match wr_respCh r with Some ch => respond ch (inl e) | None => mret tt end) (s, E) =
    (Ok tt, (s <| s_resps ::= answer (channels reqs) (inl e) |>, E)).
Proof.
  revert s. induction reqs as [|r reqs IH]; intros s; [by destruct s|]. cbn [for_each].
  unfold channels. cbn [omap list_omap]. destruct (wr_respCh r) as [ch|].
  - erewrite bind_run by reflexivity. cbn beta iota. rewrite IH. done.
  - erewrite bind_run by reflexivity. cbn beta. apply IH.
Qed.

Lemma refuse_compacts crs e s E :
  for_each crs (fun cr => respond (cr_err cr) (inl e)) (s, E) =
    (Ok tt, (s <| s_resps ::= answer (cr_err <$> crs) (inl e) |>, E)).
Proof.
  revert s. induction crs as [|cr crs IH]; intros s; [by destruct s|]. cbn [for_each].
  erewrite bind_run by reflexivity. cbn beta iota. by rewrite IH.
Qed.

(** ** Closing a shard *)

Section closing.
Context (IsWindows : bool) {MO : MapOrder}.

(** What [close(stopCh)] leaves. *)
Definition stopped (s : shard) : shard :=
  s <| s_resps := answer (cr_err <$> s_compactCh s) (inl ErrClosed)
         (answer (channels (slice_from (s_reqCh s) (syncBatchSize * 2))) (inl ErrClosed) (s_resps s)) |>
    <| s_stopped := true |> <| s_reqCh ::= fun l => slice_to l (syncBatchSize * 2) |> <| s_compactCh := [] |>.

Lemma shard_stop_run s E : shard_stop (s, E) = (Ok tt, (stopped s, E)).
Proof using.
  unfold shard_stop. do 2 (erewrite bind_run by reflexivity; cbn beta).
  rewrite (bind_run _ _ _ _ _ (refuse_reqs _ _ _ _)). rewrite (bind_run _ _ _ _ _ (refuse_compacts _ _ _ _)).
  by destruct s.
Qed.

Lemma stopped_ok s E l vals : shard_ok s E l vals -> shard_ok (stopped s) E l vals.
Proof using.
  intros [Hf Hm [Hr Hfit Has]]. unfold pending in *.
  assert (pending (stopped s) = s_buf s ++ slice_to (s_reqCh s) (syncBatchSize * 2)) as Hp by done.
  rewrite <-(slice_to_from (s_reqCh s) (syncBatchSize * 2)), app_assoc, <-Hp in Hr, Hfit. apply Forall_app in Hr as [Hr _].
  rewrite val_total_app in Hfit. pose proof (val_total_nonneg (slice_from (s_reqCh s) (syncBatchSize * 2))).
  split; [by destruct Hf; split|by destruct Hm; split|]. split; [done|lia|].
  intros r Hin. apply Has. rewrite <-(slice_to_from (s_reqCh s) (syncBatchSize * 2)), app_assoc, <-Hp.
  apply elem_of_app. by left.
Qed.

Lemma close_works s E l vals :
  shard_ok s E l vals -> s_done s = false ->
  exists s' E' l' vals', close_shard IsWindows (s, E) = (Ok (inr tt), (s', E')) /\
    content (indexFilename (s_wal s)) (env_world E') = index_bytes l' /\
    content (valueFilename (s_wal s)) (env_world E') = vals' /\ Forall (entry_in vals') l' /\
    disk_view l' vals' = apply_reqs (pending (stopped s)) (disk_view l vals) /\
    s_done s' = true /\ pending s' = [] /\ FatalErr E' = FatalErr E /\
    s_resps s' = ack_resps (pending (stopped s)) (s_resps (stopped s)) /\
    fl_open (indexFile (s_wal s')) = false /\ fl_open (valueFile (s_wal s')) = false.
Proof using.
  intros Hok Hd. unfold close_shard. erewrite bind_run by reflexivity. cbn beta.
  rewrite (bind_run _ _ _ _ _ (shard_stop_run _ _)).
  set (s1 := stopped (s <| s_cancelled := true |>)).
  assert (shard_ok s1 E l vals) as Hok1.
  { apply stopped_ok. destruct Hok as [[] [] []]. by split; split. }
  erewrite bind_run by reflexivity. cbn beta. change (s_done s1) with (s_done s). rewrite Hd. cbn beta iota.
  destruct (drainReqCh_works s1 E l vals Hok1) as (s2 & E2 & l2 & v2 & R2 & Hcs & Hp2).
  assert (drainAllForShutdown (s1, E) = (Ok tt, (s2, E2))) as Rd.
  { unfold drainAllForShutdown. erewrite bind_run by reflexivity. cbn beta.
    change (s_compactCh s1) with (@nil compactRequest). do 2 (erewrite bind_run by reflexivity; cbn beta).
    replace (s1 <| s_compactCh := [] |>) with s1 by (by destruct s). exact R2. }
  assert (commit_turn IsWindows OnStop (s1, E) = (Ok tt, (s2 <| s_done := true |>, E2))) as R3.
  { unfold commit_turn. cbn [commit_case]. by rewrite (bind_run _ _ _ _ _ Rd). }
  run R3. pose proof (cs_ok _ _ _ _ _ _ _ _ _ Hcs) as [[Hf Hio Hvo Hin Hvn Hne Hx Hv Hl Hoff] _ _].
  destruct (cs_names _ _ _ _ _ _ _ _ _ Hcs) as [Ni Nv]. unfold shard_stopped, on_wal.
  erewrite zoom_run; [|by apply engineWAL_close_works]. do 2 eexists. exists l2, v2. split; [reflexivity|].
  assert (pending s1 = pending (stopped s)) as Hps by done.
  assert (s_resps s1 = s_resps (stopped s)) as Hrs by done.
  split_and!; simpl; try done.
  - rewrite <-Hx, Ni. done.
  - rewrite <-Hv, Nv. done.
  - by rewrite (cs_disk _ _ _ _ _ _ _ _ _ Hcs).
  - by apply (cs_frame _ _ _ _ _ _ _ _ _ Hcs).
  - by rewrite (cs_resps _ _ _ _ _ _ _ _ _ Hcs).
Qed.

End closing.

(** ** Writes that fail *)

(** Writing and syncing, whatever the disk does: success means that the bytes are
    in the file. *)
Lemma write_outcome data f W :
  exists r f' W', (_ ←? file_Write data; file_Sync) (f, W) = (Ok r, (f', W')) /\ fl_name f' = fl_name f /\
    (r = inr tt -> content (fl_name f) W' = content (fl_name f) W ++ data) /\
    forall n, n <> fl_name f -> files W' !! n = files W !! n.
Proof.
  unfold mbind, M_bind, file_Sync, file_call, file_Write, io_call, io.
  assert (forall W1 x, files W1 = files W -> content (fl_name f) (appended x (f, W1)).2 = content (fl_name f) W ++ x /\
    forall n, n <> fl_name f -> files (appended x (f, W1)).2 !! n = files W !! n) as Hap.
  { intros W1 x HW. unfold appended. cbn [snd]. rewrite content_insert. unfold content. simpl. rewrite HW.
    split; [done|]. intros n Hn. by rewrite lookup_insert_ne. }
  destruct (fl_open f) eqn:Eo; [|by exists (inl IOErr), f, W].
  destruct (faults W) as [|[|n] fs] eqn:Ef; cbn [on_ok].
  - cbn. rewrite Eo, Ef. do 3 eexists. split; [reflexivity|]. split; [done|]. by destruct (Hap W data eq_refl).
  - cbn. rewrite Eo. pose proof (Hap (W <| faults := fs |>) data eq_refl) as [Hc Ho].
    destruct fs as [|[|n] fs']; do 3 eexists; (split; [reflexivity|]); by split.
  - do 3 eexists. split; [reflexivity|]. split; [done|]. by destruct (Hap (W <| faults := fs |>) (take n data) eq_refl).
Qed.

Lemma zoom_bind {S T A B : Type} (get : S -> T) put (m : M T (Result A)) (k : M T (Result B)) s :
  (forall s t, get (put t s) = t) -> (forall s t t', put t (put t' s) = put t s) ->
  (_ ←? zoom get put m; zoom get put k) s = zoom get put (_ ←? m; k) s.
Proof.
  intros Hg Hp. unfold zoom, mbind, M_bind, on_ok. destruct (m (get s)) as [[[e|a]|why] t]; [done| |done].
  rewrite Hg. destruct (k t) as [r t']. by rewrite Hp.
Qed.

Lemma writeValue_outcome data w W :
  exists r w' W', engineWAL_writeValue data (w, W) = (Ok r, (w', W')) /\ indexFile w' = indexFile w /\
    indexFilename w' = indexFilename w /\ valueFilename w' = valueFilename w /\ fl_name (valueFile w') = fl_name (valueFile w) /\
    (r = inr tt -> content (fl_name (valueFile w)) W' = content (fl_name (valueFile w)) W ++ data) /\
    forall n, n <> fl_name (valueFile w) -> files W' !! n = files W !! n.
Proof.
  destruct (write_outcome data (valueFile w) W) as (r & f' & W' & R & Hn & Hc & Ho).
  exists r, (w <| valueFile := f' |>), W'. split; [|done].
  unfold engineWAL_writeValue, on_value. rewrite zoom_bind; [|by intros [? ?] [? ?]|by intros [? ?] [? ?] [? ?]]. by erewrite zoom_run by exact R.
Qed.

Lemma writeIndex_outcome data w W :
  exists r w' W', engineWAL_writeIndex data (w, W) = (Ok r, (w', W')) /\ valueFile w' = valueFile w /\
    indexFilename w' = indexFilename w /\ valueFilename w' = valueFilename w /\ fl_name (indexFile w') = fl_name (indexFile w) /\
    (r = inr tt -> content (fl_name (indexFile w)) W' = content (fl_name (indexFile w)) W ++ data) /\
    forall n, n <> fl_name (indexFile w) -> files W' !! n = files W !! n.
Proof.
  destruct (write_outcome data (indexFile w) W) as (r & f' & W' & R & Hn & Hc & Ho).
  exists r, (w <| indexFile := f' |>), W'. split; [|done].
  unfold engineWAL_writeIndex, on_index. rewrite zoom_bind; [|by intros [? ?] [? ?]|by intros [? ?] [? ?] [? ?]]. by erewrite zoom_run by exact R.
Qed.

(** The outcome of a flush, whatever the disk does: everything is acknowledged and is
    in the files, or nothing is acknowledged and memory is untouched. *)
Record flush_ok (batch : list writeRequest) (s : shard) (E : Env) (s' : shard) (E' : Env) : Prop := {
  fo_resps : s_resps s' = ack_resps batch (s_resps s);
  fo_value : content (fl_name (valueFile (s_wal s))) (env_world E') =
    content (fl_name (valueFile (s_wal s))) (env_world E) ++ batch_values batch;
  fo_index : content (fl_name (indexFile (s_wal s))) (env_world E') =
    content (fl_name (indexFile (s_wal s))) (env_world E) ++ index_bytes (batch_entries (valueOffset s) batch);
  fo_done : s_done s' = s_done s
}.

Lemma flush_outcome s E batch :
  0 <= valueOffset s -> valueOffset s + val_total batch < 2 ^ 63 ->
  fl_name (indexFile (s_wal s)) <> fl_name (valueFile (s_wal s)) ->
  exists s' E', FatalErr E' = FatalErr E /\
    ((shard_flush batch (s, E) = (Ok tt, (s', E')) /\ flush_ok batch s E s' E') \/
     exists why e, shard_flush batch (s, E) = (Panic why, (s', E')) /\ s_data s' = s_data s /\
       s_resps s' = answer (channels batch) (inl e) (s_resps s)).
Proof.
  intros H0 Hfit Hne. unfold shard_flush. erewrite bind_run by reflexivity. unfold id. rewrite flush_buffers by done.
  unfold lift_res. do 2 (erewrite bind_run by reflexivity; cbn beta iota). unfold on_wal.
  destruct (writeValue_outcome (batch_values batch) (s_wal s) (env_world E)) as (r & w & W & R1 & Wi & _ & _ & Wn & Wc & Wo).
  erewrite bind_run by (erewrite zoom_run; [reflexivity|exact R1]). cbn beta iota. destruct r as [e|[]].
  { do 2 eexists. split; [|right; do 2 eexists; split;
      [unfold flush_failed; rewrite (bind_run _ _ _ _ _ (refuse_reqs _ _ _ _)); reflexivity|done]]. done. }
  destruct (writeIndex_outcome (index_bytes (batch_entries (valueOffset s) batch)) w W) as (r & w2 & W2 & R2 & _ & _ & _ & Xn & Xc & Xo).
  erewrite bind_run by (erewrite zoom_run; [reflexivity|exact R2]). cbn beta iota. destruct r as [e|[]].
  { do 2 eexists. split; [|right; do 2 eexists; split;
      [unfold flush_failed; rewrite (bind_run _ _ _ _ _ (refuse_reqs _ _ _ _)); reflexivity|done]]. done. }
  erewrite bind_run by reflexivity. rewrite flush_ack_run. do 2 eexists. split; [|left; split; [reflexivity|]]; [done|].
  rewrite Wi in Xc, Xo. specialize (Wc eq_refl). specialize (Xc eq_refl). split.
  - by rewrite acks_resps.
  - rewrite <-Wc. cbn. unfold content. rewrite Xo by done. done.
  - etransitivity; [exact Xc|]. unfold content. by rewrite Wo.
  - match goal with |- s_done (foldl ack ?s1 batch) = _ => destruct (acks_frame batch s1) as (_ & _ & _ & _ & _ & _ & H & _) end.
    exact H.
Qed.

(** The ticker case of the committer. *)
Lemma tick_outcome win `{!MapOrder} s E :
  0 <= valueOffset s -> valueOffset s + val_total (s_buf s) < 2 ^ 63 ->
  fl_name (indexFile (s_wal s)) <> fl_name (valueFile (s_wal s)) ->
  exists s' E', commit_turn win OnCommitTick (s, E) = (Ok tt, (s', E')) /\
    ((FatalErr E' = FatalErr E /\ s_buf s' = [] /\ flush_ok (s_buf s) s E s' E') \/
     (FatalErr E' = true /\ s_done s' = true /\ s_data s' = s_data s /\
      exists e, s_resps s' = answer (channels (s_buf s)) (inl e) (s_resps s))).
Proof.
  intros H0 Hfit Hne. unfold commit_turn. cbn [commit_case]. unfold flushBuffered. erewrite bind_run by reflexivity.
  destruct (0 <? len (s_buf s)) eqn:Eb.
  - destruct (flush_outcome s E (s_buf s) H0 Hfit Hne) as (s' & E' & Hf & [[R Hfo]|(why & e & R & Hd & Hr)]).
    + run R. do 2 eexists. split; [reflexivity|]. left. split; [done|]. split; [done|]. by destruct Hfo; split.
    + rewrite (bind_run_panic _ _ _ _ _ R). do 2 eexists. split; [reflexivity|]. right. split_and!; try done. by exists e.
  - to_prop. destruct (s_buf s) as [|r buf] eqn:Er; [|rewrite len_cons in Eb; pose proof (len_nonneg buf); lia].
    exists s, E. split; [done|]. left. split; [done|]. split; [done|]. split; try done; by rewrite app_nil_r.
Qed.
