(* ===== verification/EngineCompact.v ===== *)
(** * EngineCompact: rewriting the index

    When every offset in memory is the one on disk ([accurate]: after opening or
    cleaning, before the next put), [doCompact] leaves an index with one entry per
    key that stands for the same map. *)

From S2P Require Export EngineStop EngineCleanup.
From Stdlib Require Import String.
Local Open Scope Z_scope.

(** ** The snapshot *)

Definition entry_of (kv : bytes * valueEntry) : indexEntry := mkIndexEntry kv.1 (ve_size kv.2) (ve_offset kv.2).

Definition index_total (order : list (bytes * valueEntry)) : Z :=
  foldr (fun '(k, _) n => walIndexLen (len k) + n) 0 order.

Lemma index_total_len order : index_total order = len (index_bytes (entry_of <$> order)).
Proof.
  induction order as [|[k ve] order IH]; [done|]. cbn [fmap list_fmap]. rewrite index_bytes_cons, len_app, len_entry_bytes.
  cbn [index_total foldr ie_Key entry_of fst]. fold (index_total order). by rewrite IH.
Qed.

Lemma encode_index_spec order pre dst :
  len dst = index_total order ->
  encode_index order (pre ++ dst) (len pre) =
    Ok (pre ++ index_bytes (entry_of <$> order), len pre + index_total order).
Proof.
  revert pre dst. induction order as [|[k ve] order IH]; intros pre dst Hd.
  { simpl in *. destruct dst; [|by rewrite len_cons in Hd; pose proof (len_nonneg dst); lia]. by rewrite Z.add_0_r. }
  cbn [encode_index index_total foldr] in *. fold (index_total order) in *.
  pose proof (len_nonneg k). pose proof (len_nonneg (index_bytes (entry_of <$> order))) as Hi. rewrite <-index_total_len in Hi.
  assert (0 <= walIndexLen (len k)) by (unfold walIndexLen, walIndexHeaderBytes; lia).
  rewrite slice_from_app, encodeInto_spec, slice_to_app_len by lia. cbn [mbind res_bind].
  destruct (split_at dst (walIndexLen (len k))) as (d1 & d2 & -> & H1 & H2); [lia|].
  rewrite slice_from_app, app_assoc by done.
  replace (len pre + walIndexLen (len k)) with (len (pre ++ entry_bytes (mkIndexEntry k (ve_size ve) (ve_offset ve))))
    by (by rewrite len_app, len_entry_bytes).
  rewrite IH by (rewrite len_app in *; lia). cbn [fmap list_fmap]. rewrite index_bytes_cons, len_app, len_entry_bytes, <-app_assoc.
  do 2 f_equal. simpl. lia.
Qed.

Lemma snapshot_spec {MO : MapOrder} s : shard_snapshot s = Ok (index_bytes (entry_of <$> range_order (s_data s))).
Proof.
  unfold shard_snapshot. fold (index_total (range_order (s_data s))).
  pose proof (len_nonneg (index_bytes (entry_of <$> range_order (s_data s)))) as Hp. rewrite <-index_total_len in Hp.
  rewrite <-(app_nil_l (replicate _ _)). change 0 with (len (@nil Byte.byte)) at 1.
  rewrite encode_index_spec by (unfold len; rewrite length_replicate; lia). cbn [mbind res_bind]. f_equal. simpl.
  rewrite len_nil, Z.add_0_l, index_total_len. rewrite <-(app_nil_r (index_bytes _)) at 1. by apply slice_to_app_len.
Qed.

Lemma snapshot_map {MO : MapOrder} (data : gmap bytes valueEntry) :
  index_map (entry_of <$> range_order data) = (fun ve => (ve_size ve, ve_offset ve)) <$> data.
Proof.
  assert (NoDup (range_order data).*1) as Hnd by (rewrite range_order_perm; apply NoDup_fst_map_to_list).
  transitivity (foldl (fun m kv => <[ kv.1 := kv.2 ]> m) ∅
    ((fun kv => (kv.1, (ve_size kv.2, ve_offset kv.2))) <$> range_order data) : gmap bytes (Z * Z)).
  { unfold index_map. generalize (∅ : gmap bytes (Z * Z)). induction (range_order data) as [|kv kvs IH]; intros m; [done|].
    simpl. apply IH. by apply NoDup_cons in Hnd as [_ ?]. }
  rewrite apply_reqs_list_to_map, map_union_empty by (by rewrite <-list_fmap_compose).
  rewrite (list_to_map_proper _ ((fun kv => (kv.1, (ve_size kv.2, ve_offset kv.2))) <$> map_to_list data));
    [|by rewrite <-list_fmap_compose|by rewrite range_order_perm].
  rewrite <-(list_to_map_to_list data) at 2. by rewrite <-list_to_map_fmap.
Qed.

(** An accurate shard's snapshot holds a part of the index that stands for all of it. *)
Lemma snapshot_accurate {MO : MapOrder} s l vals :
  shard_mem s l -> accurate s l -> Forall (entry_in vals) l ->
  let l' := entry_of <$> range_order (s_data s) in
  index_map l' = index_map l /\ Forall (entry_in vals) l' /\ List.length l' = size (s_data s).
Proof.
  intros [He Hd _ _] Ha Hin l'. split; [|split].
  - unfold l'. rewrite snapshot_map. apply map_eq. intros k. rewrite lookup_fmap.
    destruct (s_data s !! k) as [ve|] eqn:Ek; simpl; [by rewrite (Ha k ve Ek)|].
    destruct (index_map l !! k) eqn:Ei; [|done]. destruct (Hd k ltac:(by rewrite Ei)) as [? ?]. congruence.
  - unfold l'. apply Forall_fmap, Forall_forall. intros [k ve] Hk. rewrite range_order_perm in Hk.
    apply elem_of_map_to_list in Hk. apply Ha in Hk. apply index_map_in in Hk as (ie & Hie & <- & [= Hs Ho]).
    rewrite Forall_forall in Hin. destruct ie; simpl in *; subst. exact (Hin _ Hie).
  - unfold l'. by rewrite length_fmap, range_order_perm, length_map_to_list.
Qed.

(** ** Writing the snapshot and swapping the index *)

Lemma writeSnapshot_works path data W :
  faults W = [] ->
  exists W', writeSnapshot path data W = (Ok (inr tt), W') /\ faults W' = [] /\ files W' !! path = Some data /\
    forall n, n <> path -> files W' !! n = files W !! n.
Proof.
  intros Hf. unfold writeSnapshot.
  assert (create_file path W = (Ok (inr (mkFile path 0 true)), W <| files ::= <[ path := [] ]> |>)) as R1
    by (unfold create_file; by rewrite io_call_works).
  run R1. cbn [on_ok]. set (W1 := W <| files ::= <[ path := [] ]> |>).
  destruct (appended data (mkFile path 0 true, W1)) as [f W2] eqn:E2.
  assert (with_file (_ ←? file_Write data; file_Sync) (mkFile path 0 true) W1 = (Ok (inr tt, f), W2) /\
    fl_open f = true /\ faults W2 = [] /\ files W2 = <[ path := data ]> (files W1)) as (R2 & Ho & F2 & C2).
  { assert (content path W1 = []) as Hc by apply content_insert. unfold with_file.
    erewrite bind_run by (by apply file_Write_works). cbn [on_ok]. rewrite E2. unfold appended in E2. cbn [fl_name] in E2.
    rewrite Hc in E2. injection E2 as <- <-. unfold file_Sync. by rewrite file_call_works. }
  run R2. assert (with_file file_Close f W2 = (Ok (inr tt, f <| fl_open := false |>), W2)) as R3
    by (unfold with_file; by rewrite file_Close_works).
  run R3. exists W2. split; [done|]. split; [done|]. rewrite C2. split; [by rewrite lookup_insert_eq|].
  intros n Hn. unfold W1. simpl. by rewrite !lookup_insert_ne.
Qed.

Lemma replaceWALFile_works win live new data W :
  faults W = [] -> files W !! new = Some data -> live <> new ->
  exists W', replaceWALFile win live new W = (Ok (inr tt), W') /\ faults W' = [] /\ files W' !! live = Some data /\
    forall n, n <> live -> n <> new -> files W' !! n = files W !! n.
Proof.
  intros Hf Hn Hne. unfold replaceWALFile. destruct win; cbn [negb].
  - destruct (remove_file_works live W Hf) as (r & W1 & R1 & F1 & O1). run R1.
    rewrite (rename_file_works new live data W1 F1) by (by rewrite O1). eexists. split; [done|]. split; [done|]. simpl.
    rewrite lookup_insert_eq. split; [done|]. intros n H1 H2. by rewrite lookup_insert_ne, lookup_delete_ne, O1.
  - rewrite (rename_file_works new live data W Hf Hn). eexists. split; [done|]. split; [done|]. simpl.
    rewrite lookup_insert_eq. split; [done|]. intros n H1 H2. by rewrite lookup_insert_ne, lookup_delete_ne.
Qed.

Definition reopened_index (s : shard) (n : Z) : shard :=
  s <| s_wal ::= fun w => w <| indexFile := mkFile (indexFilename w) 0 true |> |> <| indexBytesOnDisk := n |>.

Lemma reopenIndexFile_works s E :
  faults (env_world E) = [] ->
  reopenIndexFile (s, E) =
    (Ok (inr tt), (reopened_index s (len (content (indexFilename (s_wal s)) (env_world E))),
       E <| env_world ::= fun W => W <| files ::= <[ indexFilename (s_wal s) := content (indexFilename (s_wal s)) W ]> |> |>)).
Proof.
  intros Hf. unfold reopenIndexFile. erewrite bind_run by reflexivity. cbn beta. unfold on_env_dir, on_wal, on_index.
  erewrite bind_run by (by erewrite zoom_run by by apply open_file_works). cbn [on_ok].
  erewrite bind_run by reflexivity. cbn beta iota.
  erewrite bind_run by (erewrite zoom_run; [reflexivity|]; erewrite zoom_run; [reflexivity|]; by apply file_Size_works).
  cbn beta iota. erewrite bind_run by reflexivity. cbn beta iota. simpl. rewrite content_insert. by destruct s as [? ? []], E.
Qed.

Section compact.
Context (IsWindows : bool) {MO : MapOrder}.

(** An empty shard is left alone. *)
Lemma doCompact_empty s E : s_data s = ∅ -> doCompact IsWindows (s, E) = (Ok (inr tt), (s, E)).
Proof.
  intros Hd. unfold doCompact. erewrite bind_run by reflexivity. unfold id. rewrite snapshot_spec, Hd.
  assert (range_order ∅ = []) as -> by (apply Permutation_nil; rewrite range_order_perm, map_to_list_empty; done).
  done.
Qed.

Lemma doCompact_works s E l vals :
  let tc := (indexFilename (s_wal s) ++ compactingFileSuffix)%string in
  shard_ok s E l vals -> accurate s l -> indexFilename (s_wal s) <> tc -> valueFilename (s_wal s) <> tc ->
  exists s' E' l', doCompact IsWindows (s, E) = (Ok (inr tt), (s', E')) /\ shard_ok s' E' l' vals /\ accurate s' l' /\
    s_data s' = s_data s /\ disk_view l' vals = disk_view l vals /\
    (s_data s <> ∅ -> List.length l' = size (s_data s) /\ indexBytesOnDisk s' = len (index_bytes l')) /\
    pending s' = pending s /\ s_resps s' = s_resps s /\ s_done s' = s_done s /\ FatalErr E' = FatalErr E.
Proof.
  intros tc Hok Ha N1 N2. destruct (decide (s_data s = ∅)) as [Hd|Hd].
  { exists s, E, l. split; [by apply doCompact_empty|]. by split_and!. }
  pose proof Hok as [[Hf Hio Hvo Hin Hvn Hne Hx Hv Hl Hoff] Hm Hp].
  destruct (snapshot_accurate s l vals Hm Ha Hl) as (Hmap & Hin' & Hlen). set (l' := entry_of <$> range_order (s_data s)) in *.
  unfold doCompact. erewrite bind_run by reflexivity. unfold id. rewrite snapshot_spec. fold l'.
  unfold lift_res. erewrite bind_run by reflexivity. cbn beta.
  assert (len (index_bytes l') =? 0 = false) as ->.
  { apply Z.eqb_neq. destruct l' as [|ie l'']; [|rewrite index_bytes_cons, len_app, len_entry_bytes;
      pose proof (len_nonneg (ie_Key ie)); pose proof (len_nonneg (index_bytes l'')); unfold walIndexLen, walIndexHeaderBytes; lia].
    simpl in Hlen. symmetry in Hlen. by apply map_size_empty_inv in Hlen. }
  fold tc. destruct (writeSnapshot_works tc (index_bytes l') (env_world E) Hf) as (W1 & R1 & F1 & C1 & O1).
  unfold on_env_dir, on_wal, on_index. erewrite bind_run by (erewrite zoom_run by exact R1; reflexivity). cbn [on_ok].
  erewrite bind_run by (erewrite zoom_run; [reflexivity|]; erewrite zoom_run; [reflexivity|]; by apply file_Close_works).
  cbn [on_ok].
  destruct (replaceWALFile_works IsWindows (indexFilename (s_wal s)) tc (index_bytes l') W1 F1 C1 N1) as (W2 & R2 & F2 & C2 & O2).
  erewrite bind_run by (erewrite zoom_run by exact R2; reflexivity). cbn beta iota.
  rewrite reopenIndexFile_works by done. do 2 eexists. exists l'. split; [reflexivity|]. simpl.
  assert (content (indexFilename (s_wal s)) W2 = index_bytes l') as HC by (unfold content; by rewrite C2).
  assert (content (valueFilename (s_wal s)) W2 = vals) as HV by (rewrite <-Hv; unfold content; rewrite O2, O1; done).
  split; [split|].
  - split; simpl; try done; [by rewrite content_insert|]. by rewrite content_insert_ne by done.
  - destruct Hm. split; simpl; rewrite ?Hmap; done.
  - destruct Hp. by split.
  - split; [intros k ve; simpl; rewrite Hmap; apply Ha|]. split; [done|]. split; [unfold disk_view; by rewrite Hmap|].
    rewrite HC. by split_and!.
Qed.

End compact.
