(* ===== verification/EngineDB.v ===== *)
(** * EngineDB: the whole database

    The shards of a [DB] work on files of their own, so what holds of one shard holds
    of each: opening a directory gives the shards its files stand for, and in any
    run of clients and committers each shard satisfies the invariant of its own
    history ([db_run], [db_history]). *)

From S2P Require Export EngineCompact.
From Stdlib Require Import String.
Local Open Scope Z_scope.

Lemma getShard_lt k : (getShard k < Z.to_nat numShards)%nat.
Proof. unfold getShard, numShards. pose proof (Z.mod_pos_bound (hash k) 256 eq_refl). lia. Qed.

(** ** A call on one shard *)

Lemma on_shard_run {A : Type} i (m : Shard A) d s a s' E' :
  db_shards d !! i = Some s -> m (s, db_env d) = (Ok a, (s', E')) ->
  on_shard i m d = (Ok a, d <| db_shards ::= <[ i := s' ]> |> <| db_env := E' |>).
Proof. intros Hs Hm. unfold on_shard. by rewrite Hs, Hm. Qed.

Lemma on_shard_inv {A : Type} i (m : Shard A) d a d' :
  on_shard i m d = (Ok a, d') ->
  exists s s' E', db_shards d !! i = Some s /\ m (s, db_env d) = (Ok a, (s', E')) /\
    d' = d <| db_shards ::= <[ i := s' ]> |> <| db_env := E' |>.
Proof.
  unfold on_shard. destruct (db_shards d !! i) as [s|]; [|done].
  destruct (m (s, db_env d)) as [r [s' E']] eqn:Em. intros [= -> <-]. by exists s, s', E'.
Qed.

(** The same call on several shards, none of which changes the directory. *)
Lemma all_shards_works idxs m d (f : nat -> shard) :
  NoDup idxs ->
  (forall i, i ∈ idxs -> exists s, db_shards d !! i = Some s /\ m (s, db_env d) = (Ok (inr tt), (f i, db_env d))) ->
  exists d', all_shards idxs m d = (Ok (inr tt), d') /\ db_env d' = db_env d /\
    db_cancelled d' = db_cancelled d /\ db_closed d' = db_closed d /\
    List.length (db_shards d') = List.length (db_shards d) /\
    (forall i, i ∈ idxs -> db_shards d' !! i = Some (f i)) /\
    (forall i, i ∉ idxs -> db_shards d' !! i = db_shards d !! i).
Proof.
  intros Hnd. revert d. induction Hnd as [|i idxs Hi Hnd IH]; intros d Hm; cbn [all_shards].
  { exists d. split; [done|]. split_and!; try done. by intros i ?%elem_of_nil. }
  destruct (Hm i ltac:(left)) as (s & Hs & Hr). rewrite (bind_run _ _ _ _ _ (on_shard_run i m d s _ _ _ Hs Hr)).
  destruct (IH (d <| db_shards ::= <[ i := f i ]> |> <| db_env := db_env d |>)) as (d' & R & He & Hc & Hcl & Hl & Hin & Hout).
  { intros j Hj. destruct (Hm j ltac:(by right)) as (sj & Hsj & Hrj). exists sj. split; [|done]. simpl.
    rewrite list_lookup_insert_ne by (intros ->; done). done. }
  run R. exists d'. split; [done|]. split_and!; try done; simpl in *.
  - by rewrite Hl, length_insert.
  - intros j [->|Hj]%elem_of_cons; [|by apply Hin]. rewrite Hout by done. apply list_lookup_insert_eq.
    by apply lookup_lt_is_Some; exists s.
  - intros j Hj. apply not_elem_of_cons in Hj as [Hne Hj]. rewrite Hout by done. by apply list_lookup_insert_ne.
Qed.

(** ** Opening a directory *)

(** What the files of a directory hold, shard by shard. *)
Record dir_ok (W : World) (L : nat -> list indexEntry) (V : nat -> bytes) : Prop := {
  dir_faults : faults W = [];
  dir_index i : (i < Z.to_nat numShards)%nat -> content (indexName i) W = index_bytes (L i);
  dir_value i : (i < Z.to_nat numShards)%nat -> content (valueName i) W = V i;
  dir_entries i : (i < Z.to_nat numShards)%nat -> Forall (entry_in (V i)) (L i);
  dir_fit i : (i < Z.to_nat numShards)%nat -> len (index_bytes (L i)) < 2 ^ 63 /\ len (V i) < 2 ^ 63
}.

Lemma newShards_works n i W :
  faults W = [] ->
  exists W', newShards n i W = (Ok (inr ((fun j => new_shard j (len (content (valueName j) W))) <$> seq i n)), W') /\
    faults W' = [] /\ forall name, content name W' = content name W.
Proof.
  revert i W. induction n as [|n IH]; intros i W Hf; cbn [newShards]; [by exists W|].
  rewrite (bind_run _ _ _ _ _ (newShard_works i W Hf)). cbn [on_ok].
  destruct (IH (S i) (opened i W) Hf) as (W' & R & F' & C'). run R. cbn [on_ok]. exists W'. split; [|split; [done|]].
  - unfold mret, M_ret. do 3 f_equal. cbn [seq fmap list_fmap]. f_equal. apply list_fmap_ext. intros j x _. by rewrite opened_content.
  - intros name. by rewrite C', opened_content.
Qed.

Lemma NewDB_works W L V :
  dir_ok W L V ->
  exists d, NewDBWithOptions W = (Ok (inr d), env_world (db_env d)) /\ dir_ok (env_world (db_env d)) L V /\
    FatalErr (db_env d) = false /\ db_closed d = false /\
    List.length (db_shards d) = Z.to_nat numShards /\
    (forall i, (i < Z.to_nat numShards)%nat -> db_shards d !! i = Some (loaded_index i (V i) (L i))).
Proof.
  intros [Hf Hx Hv Hl Hb]. unfold NewDBWithOptions.
  destruct (newShards_works (Z.to_nat numShards) 0 W Hf) as (W' & -> & F' & C').
  set (shards := _ <$> seq 0 _). set (d0 := mkDB shards (mkEnv W' false) false false (inr tt)).
  assert (List.length shards = Z.to_nat numShards) as Hlen by (unfold shards; by rewrite length_fmap, length_seq).
  unfold DB_replay, every_shard. erewrite bind_run by reflexivity. cbn beta.
  change (db_shards d0) with shards. rewrite Hlen.
  destruct (all_shards_works (seq 0 (Z.to_nat numShards)) shard_replay d0 (fun i => loaded_index i (V i) (L i)))
    as (d & -> & He & _ & Hcl & Hl' & Hin & _); [apply NoDup_seq| |].
  - intros i Hi%elem_of_seq. exists (new_shard i (len (V i))). split.
    + simpl. unfold shards. rewrite list_lookup_fmap, lookup_seq_lt by lia. simpl. by rewrite Hv by lia.
    + apply shard_replay_works; [done|by rewrite C', Hx by lia| |by apply Hb; lia].
      eapply Forall_impl; [apply Hl; lia|]. by intros ie [? _].
  - exists d. split; [done|]. rewrite He. split; [split; simpl; intros; rewrite ?C'; auto|]. split; [done|]. split; [exact Hcl|]. split.
    + exact (eq_trans Hl' Hlen).
    + intros i Hi. apply Hin, elem_of_seq. lia.
Qed.

(** ** Runs of the database *)

Section runs.
Context (IsWindows : bool) {MO : MapOrder}.

Definition db_admits (d : DB) (r : writeRequest) : Prop :=
  exists s, db_shards d !! getShard (wr_key r) = Some s /\ admits s (db_env d) r /\ s_stopped s = false.

Inductive db_step (d : DB) : list writeRequest -> DB -> Prop :=
| db_step_Put pick key value ch d' :
    db_admits d (mkWriteRequest key (default [] value) (Some ch)) -> DB_Put pick key value d = (Ok (inr ch), d') ->
    db_step d [mkWriteRequest key (default [] value) (Some ch)] d'
| db_step_PutAsync pick key value d' :
    db_admits d (mkWriteRequest key (default [] value) None) -> DB_PutAsync pick key value d = (Ok tt, d') ->
    db_step d [mkWriteRequest key (default [] value) None] d'
| db_step_Get key r d' : DB_Get key d = (Ok r, d') -> db_step d [] d'
| db_step_commit i ev s d' :
    db_shards d !! i = Some s -> writes ev -> commit_enabled ev s = true ->
    on_shard i (commit_turn IsWindows ev) d = (Ok tt, d') -> db_step d [] d'.

Inductive db_run (d0 : DB) : list writeRequest -> DB -> Prop :=
| db_run_start : db_run d0 [] d0
| db_run_step h d o d' : db_run d0 h d -> db_step d o d' -> db_run d0 (h ++ o) d'.

(** The writes to one shard. *)
Definition shard_part (i : nat) (h : list writeRequest) : list writeRequest :=
  filter (fun r => getShard (wr_key r) = i) h.

(** A step of the database is a step of one shard. *)
Lemma db_step_shard d o d' :
  db_step d o d' ->
  exists i s s' E', db_shards d !! i = Some s /\ shard_step IsWindows s (db_env d) o s' E' /\
    d' = d <| db_shards ::= <[ i := s' ]> |> <| db_env := E' |> /\ shard_part i o = o /\
    forall j, j <> i -> shard_part j o = [].
Proof using.
  assert (forall r, shard_part (getShard (wr_key r)) [r] = [r] /\
    forall j, j <> getShard (wr_key r) -> shard_part j [r] = []) as Hpart.
  { intros r. unfold shard_part. split.
    - by rewrite filter_cons_True.
    - intros j Hj. rewrite filter_cons_False by congruence. done. }
  destruct 1 as [pick key value ch d' (s & Hs & Had & Hst) H|pick key value d' (s & Hs & Had & Hst) H
    |key r d' H|i ev s d' Hs Hw Hen H].
  - apply on_shard_inv in H as (s1 & s' & E' & Hs1 & H & ->). simpl in Hs. rewrite Hs in Hs1. injection Hs1 as <-.
    exists (getShard key), s, s', E'. split; [done|]. split; [by eapply step_put|]. split; [done|]. apply (Hpart (mkWriteRequest key _ _)).
  - apply on_shard_inv in H as (s1 & s' & E' & Hs1 & H & ->). simpl in Hs. rewrite Hs in Hs1. injection Hs1 as <-.
    exists (getShard key), s, s', E'. split; [done|]. split; [by eapply step_putAsync|]. split; [done|]. apply (Hpart (mkWriteRequest key _ _)).
  - unfold DB_Get in H. destruct (on_shard (getShard key) (shard_get key) d) as [[r1|why] d1] eqn:E1;
      unfold mbind, M_bind in H; rewrite E1 in H; [|done].
    injection H as _ <-. apply on_shard_inv in E1 as (s1 & s' & E' & Hs1 & H & ->).
    exists (getShard key), s1, s', E'. split; [done|]. split; [by eapply step_get|done].
  - apply on_shard_inv in H as (s1 & s' & E' & Hs1 & H & ->). rewrite Hs in Hs1. injection Hs1 as <-.
    exists i, s, s', E'. split; [done|]. split; [by eapply step_commit|done].
Qed.

(** Where a run starts: nothing is on its way. *)
Record db_start (d : DB) (L : nat -> list indexEntry) (V : nat -> bytes) : Prop := {
  ds_len : List.length (db_shards d) = Z.to_nat numShards;
  ds_shard i s : db_shards d !! i = Some s ->
    indexFilename (s_wal s) = indexName i /\ valueFilename (s_wal s) = valueName i /\
    shard_ok s (db_env d) (L i) (V i) /\ pending s = [] /\ no_zero s /\
    (forall ch, (s_next s <= ch)%nat -> s_resps s !! ch = None)
}.

(** The invariant of each shard at any moment of a run. *)
Record db_history (d0 : DB) (L : nat -> list indexEntry) (V : nat -> bytes) (h : list writeRequest) (d : DB) : Prop := {
  dh_len : List.length (db_shards d) = Z.to_nat numShards;
  dh_shard i s : db_shards d !! i = Some s ->
    indexFilename (s_wal s) = indexName i /\ valueFilename (s_wal s) = valueName i /\
    exists s0 flushed l vals, db_shards d0 !! i = Some s0 /\
      history_ok (shard_view s0 (V i)) (disk_view (L i) (V i)) (shard_part i h) flushed s (db_env d) l vals
}.

Lemma history_env view0 disk0 h flushed s E l vals E' :
  history_ok view0 disk0 h flushed s E l vals -> faults (env_world E') = [] ->
  files (env_world E') !! indexFilename (s_wal s) = files (env_world E) !! indexFilename (s_wal s) ->
  files (env_world E') !! valueFilename (s_wal s) = files (env_world E) !! valueFilename (s_wal s) ->
  history_ok view0 disk0 h flushed s E' l vals.
Proof using.
  intros [] Hf Hi Hv. split; try done. eapply shard_ok_env; [eassumption|done|..]; unfold content; by rewrite ?Hi, ?Hv.
Qed.

Lemma db_history_step d0 L V h d o d' :
  db_history d0 L V h d -> db_step d o d' -> db_history d0 L V (h ++ o) d'.
Proof using.
  intros [Hlen Hsh] Hst. apply db_step_shard in Hst as (i & s & s' & E' & Hs & Hst & -> & Hpi & Hpj).
  destruct (Hsh i s Hs) as (Ni & Nv & s0 & fl & l & vals & Hs0 & Hh).
  destruct (history_step _ _ _ _ _ _ _ _ _ _ _ _ Hh Hst) as ((fl' & l' & v' & Hh') & Ni' & Nv' & _ & Hoth).
  split; simpl; [by rewrite length_insert|]. intros j sj Hj. unfold shard_part. rewrite filter_app.
  fold (shard_part j h) (shard_part j o). destruct (decide (i = j)) as [<-|Hne].
  - rewrite list_lookup_insert_eq in Hj by (apply lookup_lt_is_Some; by exists s). injection Hj as <-.
    rewrite Ni', Nv', Hpi. split; [done|]. split; [done|]. by exists s0, fl', l', v'.
  - rewrite list_lookup_insert_ne in Hj by done. rewrite (Hpj j) by done. rewrite app_nil_r.
    destruct (Hsh j sj Hj) as (Mi & Mv & t0 & flj & lj & vj & Ht0 & Hhj). split; [done|]. split; [done|].
    exists t0, flj, lj, vj. split; [done|]. eapply history_env; [exact Hhj|by destruct Hh' as [[[] _ _]]|..];
      rewrite ?Mi, ?Mv; apply Hoth; rewrite ?Ni, ?Nv; intros E; symmetry in E;
      first [by apply Hne, indexName_inj|by apply Hne, valueName_inj|by apply index_value_ne in E|by symmetry in E; apply index_value_ne in E].
Qed.

Lemma db_history_run d0 L V h d : db_start d0 L V -> db_run d0 h d -> db_history d0 L V h d.
Proof using.
  intros [Hlen Hs] Hrun. induction Hrun as [|h d o d' _ IH Hst]; [|by eapply db_history_step].
  split; [done|]. intros i s Hi. destruct (Hs i s Hi) as (Ni & Nv & Hok & Hp & Hz & Hf). split; [done|]. split; [done|].
  exists s, [], (L i), (V i). split; [done|]. by apply history_start.
Qed.

(** An empty directory is a start. *)
Lemma db_start_empty W :
  faults W = [] -> (forall name, content name W = []) ->
  exists d, NewDBWithOptions W = (Ok (inr d), env_world (db_env d)) /\ db_start d (fun _ => []) (fun _ => []) /\
    forall i, (i < Z.to_nat numShards)%nat -> db_shards d !! i = Some (loaded_index i [] []).
Proof using.
  intros Hf He. destruct (NewDB_works W (fun _ => []) (fun _ => [])) as (d & Hd & Hdir & Hfe & Hcl & Hlen & Hsh).
  { split; try done; intros; by rewrite ?He. }
  exists d. split; [done|]. split; [|done]. split; [done|]. intros i s Hi. pose proof (lookup_lt_Some _ _ _ Hi) as Hlt. rewrite Hlen in Hlt.
  rewrite (Hsh i Hlt) in Hi. injection Hi as <-. split; [done|]. split; [done|].
  destruct Hdir as [F X Y Z B]. split; [|split; [done|split; [|done]]].
  - by apply (loaded_index_ok i (db_env d) [] []); [..|vm_compute|vm_compute]; auto.
  - intros k ve. done.
Qed.

End runs.
