(* ===== verification/Segments.v ===== *)
(** * Segments: names of log segments, and the order they sort in

    [readAll] replays the segments in the order [sort.Strings] puts their names.
    For up to 10^8 segments this is the order they were written in. *)

From S2P Require Export Wal.
From Stdlib Require Import String Ascii.
Local Open Scope Z_scope.

Definition digit (d : Z) : ascii := ascii_of_nat (48 + Z.to_nat d).

Lemma digit_code d : 0 <= d < 10 -> nat_of_ascii (digit d) = (48 + Z.to_nat d)%nat.
Proof. intros H. unfold digit. apply nat_ascii_embedding. lia. Qed.

Lemma digit_compare a b :
  0 <= a < 10 -> 0 <= b < 10 -> Ascii.compare (digit a) (digit b) = (a ?= b).
Proof.
  intros Ha Hb. unfold Ascii.compare, digit.
  rewrite <- (N2Nat.id (N_of_ascii (ascii_of_nat (48 + Z.to_nat a)))).
  rewrite <- (N2Nat.id (N_of_ascii (ascii_of_nat (48 + Z.to_nat b)))), <- Nat2N.inj_compare.
  fold (nat_of_ascii (ascii_of_nat (48 + Z.to_nat a))) (nat_of_ascii (ascii_of_nat (48 + Z.to_nat b))).
  rewrite !nat_ascii_embedding by lia.
  destruct (Z.compare_spec a b); [subst; apply Nat.compare_refl|apply Nat.compare_lt_iff; lia|].
  apply Nat.compare_gt_iff. lia.
Qed.

Lemma string_app_assoc (a b c : string) : ((a ++ b) ++ c = a ++ (b ++ c))%string.
Proof. induction a as [|x a IH]; [done|]. exact (f_equal (String x) IH). Qed.

Lemma decimal_length k n : String.length (decimal k n) = k.
Proof.
  revert n. induction k as [|k IH]; intros n; [done|]. cbn [decimal]. rewrite string_length_app, IH. simpl. lia.
Qed.

Lemma compare_app p q x y :
  String.length p = String.length q ->
  String.compare (p ++ x) (q ++ y) =
  match String.compare p q with Eq => String.compare x y | c => c end.
Proof.
  revert q. induction p as [|c p IH]; intros [|d q] H; try done.
  change (String.compare (String c (p ++ x)) (String d (q ++ y)) =
    match String.compare (String c p) (String d q) with Eq => String.compare x y | c => c end).
  simpl in *. destruct (Ascii.compare c d); [|done..]. apply IH. lia.
Qed.

Lemma compare_refl s : String.compare s s = Eq.
Proof.
  pose proof (String.compare_antisym s s) as H. by destruct (String.compare s s).
Qed.

(** Numbers of [k] digits compare like their decimal notations. *)
Lemma decimal_compare k a b :
  0 <= a < 10 ^ Z.of_nat k -> 0 <= b < 10 ^ Z.of_nat k ->
  String.compare (decimal k a) (decimal k b) = (a ?= b).
Proof.
  revert a b. induction k as [|k IH]; intros a b Ha Hb.
  { simpl in *. assert (a = 0) as -> by lia. assert (b = 0) as -> by lia. done. }
  cbn [decimal]. rewrite compare_app by (by rewrite !decimal_length).
  rewrite Nat2Z.inj_succ, Z.pow_succ_r in * by lia.
  assert (Hda : 0 <= a / 10 < 10 ^ Z.of_nat k) by (Z.to_euclidean_division_equations; lia).
  assert (Hdb : 0 <= b / 10 < 10 ^ Z.of_nat k) by (Z.to_euclidean_division_equations; lia).
  rewrite IH by done. fold (digit (a mod 10)) (digit (b mod 10)).
  pose proof (Z.mod_pos_bound a 10). pose proof (Z.mod_pos_bound b 10).
  destruct (Z.compare_spec (a / 10) (b / 10)) as [E|E|E].
  - cbn [String.compare]. rewrite digit_compare by lia.
    assert ((a ?= b) = (a mod 10 ?= b mod 10)) as ->.
    { destruct (Z.compare_spec (a mod 10) (b mod 10)); [apply Z.compare_eq_iff|apply Z.compare_lt_iff|apply Z.compare_gt_iff];
        Z.to_euclidean_division_equations; lia. }
    by destruct (_ ?= _).
  - symmetry. apply Z.compare_lt_iff. Z.to_euclidean_division_equations; lia.
  - symmetry. apply Z.compare_gt_iff. Z.to_euclidean_division_equations; lia.
Qed.

Lemma segmentName_small n : n < 10 ^ 8 -> segmentName n = (segmentPrefix ++ decimal 8 n ++ segmentSuffix)%string.
Proof. intros H. unfold segmentName. by rewrite (proj2 (Z.ltb_lt _ _) H). Qed.

Lemma segmentName_compare a b :
  0 <= a < 10 ^ 8 -> 0 <= b < 10 ^ 8 ->
  String.compare (segmentName a) (segmentName b) = (a ?= b).
Proof.
  intros Ha Hb. rewrite !segmentName_small by lia.
  rewrite compare_app, compare_refl by done. rewrite compare_app by (by rewrite !decimal_length).
  rewrite decimal_compare by done. rewrite compare_refl. by destruct (a ?= b).
Qed.

Lemma segmentName_inj a b :
  0 <= a < 10 ^ 8 -> 0 <= b < 10 ^ 8 -> segmentName a = segmentName b -> a = b.
Proof.
  intros Ha Hb E. apply Z.compare_eq_iff. rewrite <- (segmentName_compare a b), E by done. apply compare_refl.
Qed.

(** ** Reading a number back *)

Lemma digit_is_digit d : 0 <= d < 10 -> is_digit (digit d) = true.
Proof.
  intros H. unfold is_digit. rewrite digit_code by done.
  apply andb_true_iff. split; apply Nat.leb_le; lia.
Qed.

Lemma scan_digits_decimal k w n rest acc :
  0 <= n < 10 ^ Z.of_nat k -> (k <= w)%nat ->
  scan_digits w (decimal k n ++ rest) acc =
  scan_digits (w - k) rest (acc * 10 ^ Z.of_nat k + n).
Proof.
  revert w n rest. induction k as [|k IH]; intros w n rest Hn Hw.
  { simpl in *. rewrite Nat.sub_0_r. f_equal. lia. }
  cbn [decimal]. rewrite string_app_assoc.
  rewrite Nat2Z.inj_succ, Z.pow_succ_r in * by lia.
  rewrite IH by (try lia; Z.to_euclidean_division_equations; lia).
  destruct (w - k)%nat as [|w'] eqn:Ew; [lia|]. change (String ?c EmptyString ++ ?r)%string with (String c r). cbn [scan_digits].
  fold (digit (n mod 10)). pose proof (Z.mod_pos_bound n 10).
  rewrite digit_is_digit by lia. rewrite digit_code by lia.
  replace (w - S k)%nat with w' by lia. f_equal.
  pose proof (Z.div_mod n 10). lia.
Qed.

Lemma digit_not_blank d : 0 <= d < 10 -> Ascii.eqb (digit d) " " = false.
Proof.
  intros H. destruct (Ascii.eqb_spec (digit d) " ") as [E|]; [|done].
  pose proof (digit_code d H) as Hc. rewrite E in Hc. vm_compute in Hc. lia.
Qed.

(** A decimal of at least one digit starts with a digit. *)
Lemma decimal_head k n rest :
  (0 < k)%nat -> exists d s, 0 <= d < 10 /\ (decimal k n ++ rest)%string = String (digit d) s.
Proof.
  revert n rest. induction k as [|k IH]; intros n rest Hk; [lia|].
  cbn [decimal]. rewrite string_app_assoc. destruct k as [|k].
  - exists (n mod 10), rest. split; [apply Z.mod_pos_bound; lia|done].
  - apply IH. lia.
Qed.

Lemma scan_seq_decimal n rest : 0 <= n < 10 ^ 8 -> scan_seq (decimal 8 n ++ rest) = Some n.
Proof.
  intros Hn. unfold scan_seq.
  destruct (decimal_head 8 n rest) as (d & s & Hd & E); [lia|].
  assert (Hs : scan_digits 8 (decimal 8 n ++ rest) 0 = n).
  { rewrite scan_digits_decimal by (done || lia). destruct rest; simpl; lia. }
  rewrite E in *. cbn [skip_space]. rewrite digit_not_blank, digit_is_digit by done. by rewrite Hs.
Qed.

Lemma substring_app p m q :
  String.substring (String.length p) (String.length m) (p ++ (m ++ q)) = m.
Proof.
  induction p as [|c p IH].
  - induction m as [|c m IH]; [by destruct q|]. exact (f_equal (String c) IH).
  - exact IH.
Qed.

Lemma prefix_app p q : String.prefix p (p ++ q) = true.
Proof.
  induction p as [|c p IH]; [by destruct q|].
  change (String.prefix (String c p) (String c (p ++ q)) = true).
  cbn [String.prefix]. by destruct (Ascii.ascii_dec c c).
Qed.

(** The sequence number is read back from the name. *)
Lemma parse_segmentName n : 0 <= n < 10 ^ 8 -> parseSegmentSeq (segmentName n) = Some n.
Proof.
  intros Hn. rewrite segmentName_small by lia. unfold parseSegmentSeq.
  rewrite !string_length_app, decimal_length, prefix_app.
  change (String.length segmentPrefix + (8 + String.length segmentSuffix))%nat with 16%nat.
  cbn [andb Nat.leb Nat.sub].
  pose proof (substring_app (segmentPrefix ++ decimal 8 n) segmentSuffix "") as Hs.
  rewrite !string_app_assoc, string_length_app, decimal_length in Hs.
  change (segmentSuffix ++ "")%string with segmentSuffix in Hs.
  change (String.length segmentPrefix + 8)%nat with 12%nat in Hs.
  change (String.length segmentSuffix) with 4%nat in Hs. rewrite Hs, String.eqb_refl. cbn [andb].
  pose proof (substring_app segmentPrefix (decimal 8 n) segmentSuffix) as Hm.
  rewrite decimal_length in Hm. change (String.length segmentPrefix) with 4%nat in Hm.
  rewrite Hm. exact (scan_seq_decimal n "" Hn).
Qed.

(** ** Sorting *)

Lemma string_compare_lt_trans a b c :
  String.compare a b = Lt -> String.compare b c = Lt -> String.compare a c = Lt.
Proof.
  revert b c. induction a as [|x a IH]; intros [|y b] [|z c]; try done. simpl.
  unfold Ascii.compare.
  destruct (N.compare_spec (N_of_ascii x) (N_of_ascii y)) as [E1|E1|E1]; [|intros _|done];
  destruct (N.compare_spec (N_of_ascii y) (N_of_ascii z)) as [E2|E2|E2]; try done; intros;
  destruct (N.compare_spec (N_of_ascii x) (N_of_ascii z)); try done; try lia.
  by eapply IH.
Qed.

Lemma string_le_iff a b : string_le a b <-> a = b \/ String.compare a b = Lt.
Proof.
  unfold string_le, String.leb. destruct (String.compare a b) eqn:E.
  - apply String.compare_eq_iff in E. naive_solver.
  - naive_solver.
  - split; [done|]. intros [->|?]; [|done]. by rewrite compare_refl in E.
Qed.

#[export] Instance string_le_trans : Transitive string_le.
Proof.
  intros a b c. rewrite !string_le_iff. intros [->|H1] [->|H2]; try tauto.
  right. by eapply string_compare_lt_trans.
Qed.

#[export] Instance string_le_antisym : AntiSymm (=) string_le.
Proof. intros a b. apply String.leb_antisym. Qed.

#[export] Instance string_le_total : Total string_le.
Proof. intros a b. apply String.leb_total. Qed.

(** The names of the first [n] segments. *)
Definition segNames (n : nat) : list string := (fun i => segmentName (Z.of_nat i)) <$> List.seq 0 n.

Lemma segNames_app n : segNames (S n) = segNames n ++ [segmentName (Z.of_nat n)].
Proof. unfold segNames. by rewrite seq_S, fmap_app. Qed.

Lemma segNames_elem n name :
  name ∈ segNames n <-> exists i, 0 <= i < Z.of_nat n /\ name = segmentName i.
Proof.
  unfold segNames. rewrite list_elem_of_fmap. setoid_rewrite elem_of_seq. split.
  - intros (i & -> & ?). exists (Z.of_nat i). split; [lia|done].
  - intros (i & ? & ->). exists (Z.to_nat i). rewrite Z2Nat.id by lia. split; [done|lia].
Qed.

Lemma segNames_NoDup n : Z.of_nat n <= 10 ^ 8 -> NoDup (segNames n).
Proof.
  induction n as [|n IH]; intros Hn; [constructor|]. rewrite segNames_app.
  apply NoDup_app. split; [apply IH; lia|]. split; [|apply NoDup_singleton].
  intros x (i & Hi & ->)%segNames_elem Hx%list_elem_of_singleton.
  apply segmentName_inj in Hx; lia.
Qed.

Lemma segNames_sorted n : Z.of_nat n <= 10 ^ 8 -> StronglySorted string_le (segNames n).
Proof.
  induction n as [|n IH]; intros Hn; [constructor|]. rewrite segNames_app.
  apply StronglySorted_app_2; [|apply IH; lia|by repeat constructor].
  intros x y (i & Hi & ->)%segNames_elem ->%list_elem_of_singleton.
  apply string_le_iff. right. rewrite segmentName_compare by lia. apply Z.compare_lt_iff. lia.
Qed.

(** A directory that holds exactly the first [n] segments lists them in order. *)
Lemma listSegments_names n W :
  faults W = [] -> Z.of_nat n <= 10 ^ 8 ->
  (forall name, is_Some (files W !! name) -> is_Some (parseSegmentSeq name) -> name ∈ segNames n) ->
  (forall name, name ∈ segNames n -> is_Some (files W !! name)) ->
  listSegments W = (inr (segNames n), W).
Proof.
  intros HF Hn H1 H2. unfold listSegments, io_call, io. rewrite HF. f_equal. f_equal.
  apply (Sorted_unique string_le); [apply Sorted_merge_sort, _|by apply StronglySorted_Sorted, segNames_sorted|].
  rewrite merge_sort_Permutation. apply NoDup_Permutation.
  - apply NoDup_ListNoDup, List.NoDup_filter, NoDup_ListNoDup, NoDup_elements.
  - by apply segNames_NoDup.
  - intros name. rewrite list_elem_of_In, filter_In, <- list_elem_of_In, elem_of_elements, elem_of_dom.
    split.
    + intros [Hf Hp]. apply H1; [done|]. by destruct (parseSegmentSeq name).
    + intros Hin. split; [by apply H2|]. apply segNames_elem in Hin as (i & Hi & ->).
      by rewrite parse_segmentName by lia.
Qed.
