(* ===== verification/DurableStorage.v ===== *)
(** * DurableStorage: the on-disk [Storage] of [raft/storage.go]

    [DurableStorage] keeps the log in memory and appends every [Save] as one
    frame to a segmented write-ahead log; the snapshot boundary is kept in a file
    of its own.  The state carries the [World] it writes to. *)

From S2P Require Export Storage Wal.
From stdpp Require Import strings.
Local Open Scope Z_scope.

Record DurableStorage : Type := mkDurable {
  d_rw : segmentedWAL;
  d_sw : wal;
  d_hd : HardState;
  d_entries : list Entry;
  d_snap : SnapshotMeta;
  d_segLastIdx : gmap string Z;
  d_compactThreshold : Z;
  d_world : World
}.

#[export] Instance eta_DurableStorage : Eta DurableStorage := fun d =>
  mkDurable (d_rw d) (d_sw d) (d_hd d) (d_entries d) (d_snap d) (d_segLastIdx d)
    (d_compactThreshold d) (d_world d).

Definition snapFilename : string := "snapshot.log".
Definition DefaultCompactThreshold : Z := 10000.

Definition d_boundary (s : DurableStorage) : Z := LastIncludedIndex (d_snap s).

Definition firstIndexWithoutLock (s : DurableStorage) : Z :=
  match head (d_entries s) with
  | Some e => e_Index e
  | None => if d_boundary s =? 0 then 0 else d_boundary s +u 1
  end.

Definition lastIndexWithoutLock (s : DurableStorage) : Z :=
  match last (d_entries s) with
  | Some e => e_Index e
  | None => if d_boundary s =? 0 then 0 else d_boundary s
  end.

Definition DurableStorage_FirstIndex : DurableStorage -> Z := firstIndexWithoutLock.
Definition DurableStorage_LastIndex : DurableStorage -> Z := lastIndexWithoutLock.
Definition DurableStorage_InitialState (s : DurableStorage) : Result HardState := inr (d_hd s).
Definition DurableStorage_Snapshot (s : DurableStorage) : Result SnapshotMeta := inr (d_snap s).

Definition DurableStorage_Entries (lo hi : Z) (s : DurableStorage) : res (Result (list Entry)) :=
  if hi <? lo then Ok (inl (Errorf "invalid range"))
  else if (0 <? d_boundary s) && (lo <=? d_boundary s) then Ok (inl ErrCompacted)
  else
    let firstIndex := firstIndexWithoutLock s in
    let lastIndex := lastIndexWithoutLock s in
    let availableLo := firstIndex in
    let availableHi := if 0 <? len (d_entries s) then lastIndex +u 1 else firstIndex in
    if (lo <? availableLo) || (availableHi <? hi) then Ok (inl (Errorf "range not available"))
    else if lo =? hi then Ok (inr [])
    else
      let start := int64 (lo -u firstIndex) in
      let end_ := int64 (hi -u firstIndex) in
      if (end_ <? start) || (start <? 0) || (len (d_entries s) <? end_)
      then Panic "slice bounds out of range"
      else Ok (inr (slice (d_entries s) start end_)).

Definition termWithoutLock (index_ : Z) (s : DurableStorage) : res (Result Z) :=
  if (0 <? d_boundary s) && (index_ =? d_boundary s)
  then Ok (inr (LastIncludedTerm (d_snap s)))
  else
    let firstIndex := firstIndexWithoutLock s in
    let lastIndex := lastIndexWithoutLock s in
    if (len (d_entries s) =? 0) || (index_ <? firstIndex) || (lastIndex <? index_)
    then Ok (inl (Errorf "requested index is not available"))
    else match index (d_entries s) (index_ -u firstIndex) with
         | Some e => Ok (inr (e_Term e))
         | None => Panic "index out of range"
         end.

Definition DurableStorage_Term (i : Z) (s : DurableStorage) : res (Result Z) :=
  if i <? d_boundary s then Ok (inl ErrCompacted)
  else if lastIndexWithoutLock s <? i then Ok (inl ErrUnavailable)
  else if i =? d_boundary s then Ok (inr (LastIncludedTerm (d_snap s)))
  else match index (d_entries s) (i -u firstIndexWithoutLock s) with
       | Some e => Ok (inr (e_Term e))
       | None => Panic "index out of range"
       end.

Definition DurableStorage_truncateAndAppend (entries : list Entry) (s : DurableStorage)
  : res (DurableStorage * option error) :=
  match entries with
  | [] => Ok (s, None)
  | e0 :: _ =>
      if len (d_entries s) =? 0 then
        let expected := if 0 <? d_boundary s then d_boundary s +u 1 else 1 in
        if negb (e_Index e0 =? expected) then Ok (s, Some ErrNonContiguous)
        else Ok (s <| d_entries := entries |>, None)
      else
        let first := e_Index e0 in
        let last := lastIndexWithoutLock s in
        if first =? last +u 1 then Ok (s <| d_entries ::= fun l => l ++ entries |>, None)
        else if last +u 1 <? first then Ok (s, Some ErrNonContiguous)
        else if first <=? firstIndexWithoutLock s then Ok (s <| d_entries := entries |>, None)
        else
          let keep := first -u firstIndexWithoutLock s in
          if len (d_entries s) <? keep then Panic "slice bounds out of range"
          else Ok (s <| d_entries ::= fun l => slice_to l keep ++ entries |>, None)
  end.

(** [Save]: one frame, synced, before the memory changes. *)
Definition DurableStorage_Save (entries : list Entry) (hard : option HardState) (s : DurableStorage)
  : res (DurableStorage * option error) :=
  if (len entries =? 0) && IsEmptyHardState hard then Ok (s, None)
  else
    let effectiveHard := match hard with
                         | Some h => if IsEmptyHardState hard then d_hd s else h
                         | None => d_hd s
                         end in
    let buf := encodeSaveBatch effectiveHard entries in
    let '(we, rw, W) := segmentedWAL_write buf (d_rw s) (d_world s) in
    let '(se, W) := match we with None => segmentedWAL_sync rw W | Some _ => (None, W) end in
    let s := s <| d_rw := rw |> <| d_world := W |> in
    match we, se with
    | Some e, _ => Ok (s, Some e)
    | None, Some e => Ok (s, Some e)
    | None, None =>
        let s := match last entries with
                 | Some e => s <| d_segLastIdx ::= <[ segmentedWAL_currentSegment rw := e_Index e ]> |>
                 | None => s
                 end in
        let '(e, rw, W) := segmentedWAL_maybeCut (d_rw s) (d_world s) in
        let s := s <| d_rw := rw |> <| d_world := W |> in
        match e with
        | Some e => Ok (s, Some e)
        | None => DurableStorage_truncateAndAppend entries (s <| d_hd := effectiveHard |>)
        end
    end.

(** The file is emptied, then the new boundary is written and synced. *)
Definition persistSnapshotMeta (snap : SnapshotMeta) (s : DurableStorage)
  : DurableStorage * option error :=
  let buf := encodeSnapshotMeta snap in
  let '(e, sw, W) := wal_truncate 0 (d_sw s) (d_world s) in
  match e with
  | Some e => (s <| d_sw := sw |> <| d_world := W |>, Some e)
  | None =>
      let '(we, sw, W) := wal_write buf sw W in
      let '(se, W) := match we with None => wal_sync sw W | Some _ => (None, W) end in
      let s := s <| d_sw := sw |> <| d_world := W |> in
      (s, match we with Some e => Some e | None => se end)
  end.

Definition DurableStorage_ApplySnapshot (snap : option SnapshotMeta) (s : DurableStorage)
  : res (DurableStorage * option error) :=
  match snap with
  | None => Panic "nil pointer dereference"
  | Some snap =>
      if (0 <? d_boundary s) && (LastIncludedIndex snap <=? d_boundary s)
      then Ok (s, Some ErrSnapOutOfDate)
      else
        let '(s, e) := persistSnapshotMeta snap s in
        match e with
        | Some e => Ok (s, Some e)
        | None =>
            Ok (s <| d_snap := snap |>
                  <| d_entries ::= fun l => filterRetainedEntries l (LastIncludedIndex snap) |>, None)
        end
  end.

(** The sealed segments [deleteOldSegments] marks: the leading ones without an
    entry above [boundary]. *)
Fixpoint canDelete (cur : string) (boundary : Z) (segLastIdx : gmap string Z) (names : list string)
  : list string :=
  match names with
  | [] => []
  | name :: rest =>
      if String.eqb name cur then []
      else match segLastIdx !! name with
           | None => name :: canDelete cur boundary segLastIdx rest
           | Some lastIdx =>
               if boundary <? lastIdx then []
               else name :: canDelete cur boundary segLastIdx rest
           end
  end.

Definition deleteOldSegments (s : DurableStorage) : DurableStorage * option error :=
  let doomed := canDelete (segmentedWAL_currentSegment (d_rw s)) (d_boundary s) (d_segLastIdx s)
                  (segments (d_rw s)) in
  match doomed with
  | [] => (s, None)
  | _ =>
      let s := s <| d_segLastIdx ::= fun m => foldr delete m doomed |> in
      let '(e, rw, W) :=
        segmentedWAL_deleteSegments (fun name => bool_decide (name ∈ doomed)) (d_rw s) (d_world s) in
      (s <| d_rw := rw |> <| d_world := W |>, e)
  end.

Definition compactLocked (index_ : Z) (s : DurableStorage) : res (DurableStorage * option error) :=
  if (0 <? d_boundary s) && (index_ <=? d_boundary s) then Ok (s, Some ErrCompacted)
  else if len (d_entries s) =? 0 then Ok (s, Some (Errorf "compact index is out of range"))
  else if lastIndexWithoutLock s <? index_ then Ok (s, Some (Errorf "compact index is out of range"))
  else
    t ← termWithoutLock index_ s;
    match t with
    | inl e => Ok (s, Some e)
    | inr term =>
        let snap := mkSnap index_ term in
        let '(s, e) := persistSnapshotMeta snap s in
        match e with
        | Some e => Ok (s, Some e)
        | None =>
            let s := s <| d_entries ::= skip_upto index_ |> <| d_snap := snap |> in
            Ok (deleteOldSegments s)
        end
    end.

Definition DurableStorage_MaybeCompact (appliedIndex : Z) (s : DurableStorage)
  : res (DurableStorage * option error) :=
  if appliedIndex <=? d_boundary s then Ok (s, None)
  else if appliedIndex -u d_boundary s <? d_compactThreshold s then Ok (s, None)
  else compactLocked appliedIndex s.

(** ** Opening and replay *)

Fixpoint replaySnapshotMeta_loop (fuel : nat) (position : Z) (snap : SnapshotMeta) (sw : wal) (W : World)
  : option error * Z * SnapshotMeta * wal * World :=
  match fuel with
  | O => (Some (Errorf "out of fuel"), position, snap, sw, W)
  | S fuel =>
      let '(r, sw, W) := wal_read sw W in
      match r with
      | inl ErrEOF => (None, position, snap, sw, W)
      | inl e => (Some e, position, snap, sw, W)
      | inr batch =>
          match DecodeSnapshotMeta batch with
          | inl _ => (Some ErrCorruption, position, snap, sw, W)
          | inr snap =>
              replaySnapshotMeta_loop fuel (position + (frameHeaderSize + len batch)) snap sw W
          end
      end
  end.

Definition replaySnapshotMeta (s : DurableStorage) : DurableStorage * option error :=
  let '(e, position, snap, sw, W) :=
    replaySnapshotMeta_loop (frames_fuel (w_filename (d_sw s)) (d_world s)) 0 (mkSnap 0 0)
      (d_sw s) (d_world s) in
  let s := s <| d_snap := snap |> in
  match e with
  | Some ErrTailCorruption =>
      let '(e, sw, W) := wal_truncate position sw W in
      (s <| d_sw := sw |> <| d_world := W |>,
       match e with Some _ => Some ErrTailCorruption | None => None end)
  | _ => (s <| d_sw := sw |> <| d_world := W |>, e)
  end.

(** The callback of [replayLog]. *)
Definition replay_batch (seg : string) (batch : bytes) (s : DurableStorage)
  : res (DurableStorage * option error) :=
  match decodeSaveBatch batch with
  | inl e => Ok (s, Some e)
  | inr (hd, ents) =>
      let s := match last ents with
               | Some e => s <| d_segLastIdx ::= <[ seg := e_Index e ]> |>
               | None => s
               end in
      let ents := filterRetainedEntries ents (d_boundary s) in
      DurableStorage_truncateAndAppend ents (s <| d_hd := hd |>)
  end.

Definition replayLog (s : DurableStorage) : res (DurableStorage * option error) :=
  let s := s <| d_entries := [] |> in
  '(e, rw, s, W) ← segmentedWAL_readAll replay_batch (d_rw s) s (d_world s);
  Ok (s <| d_rw := rw |> <| d_world := W |>, e).

Definition replay (s : DurableStorage) : res (DurableStorage * option error) :=
  let '(s, e) := replaySnapshotMeta s in
  match e with
  | Some e => Ok (s, Some e)
  | None => replayLog s
  end.

Definition DurableStorage_Close (s : DurableStorage) : DurableStorage * option error :=
  let '(e1, rw, W) := segmentedWAL_close (d_rw s) (d_world s) in
  let '(e2, sw, W) := wal_close (d_sw s) W in
  (s <| d_rw := rw |> <| d_sw := sw |> <| d_world := W |>,
   match e1 with Some e => Some e | None => e2 end).

Definition NewDurableStorageWithOptions (segLimit compactThreshold : Z) (W : World)
  : res (Result DurableStorage * World) :=
  let threshold := if compactThreshold =? 0 then DefaultCompactThreshold else compactThreshold in
  match newSegmentedWAL segLimit W with
  | (inl e, W) => Ok (inl e, W)
  | (inr rw, W) =>
      match newWAL snapFilename W with
      | (inl e, W) =>
          let '(_, _, W) := segmentedWAL_close rw W in Ok (inl e, W)
      | (inr sw, W) =>
          let d := mkDurable rw sw (mkHard 0 0 0) [] (mkSnap 0 0) ∅ threshold W in
          '(d, e) ← replay d;
          match e with
          | Some e => let '(d, _) := DurableStorage_Close d in Ok (inl e, d_world d)
          | None => Ok (inr d, d_world d)
          end
      end
  end.

Definition NewDurableStorage (W : World) : res (Result DurableStorage * World) :=
  NewDurableStorageWithOptions 0 0 W.

#[export] Instance Durable_Storage : Storage DurableStorage := {
  InitialState := DurableStorage_InitialState;
  Save := DurableStorage_Save;
  Entries := DurableStorage_Entries;
  FirstIndex := DurableStorage_FirstIndex;
  LastIndex := DurableStorage_LastIndex;
  Snapshot := DurableStorage_Snapshot;
  ApplySnapshot := DurableStorage_ApplySnapshot;
  Term := DurableStorage_Term
}.
