(* ===== verification/DurableSpec.v ===== *)
(** * DurableSpec: [DurableStorage] keeps the [Storage] contract *)

From S2P Require Export DurableStorage.
From stdpp Require Import strings.
Local Open Scope Z_scope.

(** The in-memory log starts right above the snapshot boundary and has no gap. *)
Definition durable_ok (s : DurableStorage) : Prop :=
  contig (d_boundary s + 1) (d_entries s) /\
  0 <= d_boundary s /\ d_boundary s + len (d_entries s) < MaxIndex.

(** What the disk operations leave alone. *)
Definition same_memory (s s' : DurableStorage) : Prop :=
  d_entries s' = d_entries s /\ d_snap s' = d_snap s.

Lemma durable_ok_same s s' : same_memory s s' -> durable_ok s -> durable_ok s'.
Proof. unfold durable_ok, d_boundary. by intros [-> ->]. Qed.

Lemma durable_ok_set_hd s h : durable_ok s -> durable_ok (s <| d_hd := h |>).
Proof. done. Qed.

Lemma durable_first s :
  durable_ok s ->
  firstIndexWithoutLock s =
    if (d_boundary s =? 0) && (len (d_entries s) =? 0) then 0 else d_boundary s + 1.
Proof.
  intros (Hc & Hb & Hl). unfold firstIndexWithoutLock. destruct (d_entries s) as [|e l]; simpl.
  - rewrite len_nil, andb_true_r in *. split_ifs; [done|]. apply wrap64_succ_id. lia.
  - apply contig_cons in Hc as [-> _]. by rewrite andb_false_r.
Qed.

Lemma durable_last s :
  durable_ok s -> lastIndexWithoutLock s = d_boundary s + len (d_entries s).
Proof.
  intros (Hc & Hb & Hl). unfold lastIndexWithoutLock. destruct (last (d_entries s)) eqn:E.
  - rewrite (contig_last _ _ _ Hc E). lia.
  - apply last_None in E. rewrite E. change (len []) with 0. split_ifs; lia.
Qed.

(** [truncateAndAppend] replaces the suffix from the first new index on. *)
Lemma durable_truncateAndAppend s ents :
  durable_ok s -> ents <> [] -> contig (first_of ents) ents ->
  d_boundary s < first_of ents -> first_of ents <= d_boundary s + len (d_entries s) + 1 ->
  DurableStorage_truncateAndAppend ents s =
    Ok (s <| d_entries := slice_to (d_entries s) (first_of ents - d_boundary s - 1) ++ ents |>, None).
Proof.
  intros Hok Hne Hc Hlo Hhi. pose proof (durable_first _ Hok) as Hf. pose proof (durable_last _ Hok) as Hl.
  destruct Hok as (_ & Hb & Hm). pose proof (len_nonneg (d_entries s)).
  destruct ents as [|e0 ents]; [done|]. unfold DurableStorage_truncateAndAppend.
  change (first_of (e0 :: ents)) with (e_Index e0) in *.
  destruct (len (d_entries s) =? 0) eqn:E; to_prop.
  - assert (d_entries s = []) as Hnil by (apply nil_length_inv; unfold len in *; lia).
    assert ((if 0 <? d_boundary s then d_boundary s +u 1 else 1) = e_Index e0) as ->.
    { split_ifs; to_prop; rewrite ?wrap64_succ_id; lia. }
    rewrite Z.eqb_refl. rewrite Hnil. unfold slice_to. by rewrite take_nil.
  - rewrite Hl, Hf, andb_false_r, !wrap64_succ_id by lia. unfold set_field.
    destruct (e_Index e0 =? _) eqn:E1; to_prop.
    { rewrite slice_to_all by lia. done. }
    rewrite (proj2 (Z.ltb_ge _ _)) by lia.
    destruct (e_Index e0 <=? _) eqn:E2; to_prop.
    { rewrite slice_to_neg by lia. done. }
    rewrite wrap64_sub_id by lia. rewrite (proj2 (Z.ltb_ge _ _)) by lia.
    by rewrite Z.sub_add_distr.
Qed.

Lemma durable_Entries s lo hi :
  durable_ok s -> d_boundary s < lo -> lo < hi -> hi <= d_boundary s + len (d_entries s) + 1 ->
  DurableStorage_Entries lo hi s =
    Ok (inr (slice (d_entries s) (lo - d_boundary s - 1) (hi - d_boundary s - 1))).
Proof.
  intros Hok Hlo Hlt Hhi. pose proof (durable_first _ Hok) as Hf. pose proof (durable_last _ Hok) as Hl.
  destruct Hok as (_ & Hb & Hm). unfold DurableStorage_Entries.
  rewrite (proj2 (Z.ltb_ge hi lo)) by lia. rewrite (proj2 (Z.leb_gt lo _)), andb_false_r by lia.
  rewrite Hf, Hl, (proj2 (Z.ltb_lt 0 (len _))), (proj2 (Z.eqb_neq (len _) 0)), andb_false_r by lia.
  rewrite wrap64_succ_id, (proj2 (Z.ltb_ge lo _)), (proj2 (Z.ltb_ge _ hi)) by lia. simpl.
  rewrite (proj2 (Z.eqb_neq lo hi)), !wrap64_sub_id, !int64_id by lia.
  rewrite (proj2 (Z.ltb_ge _ (lo - _))), (proj2 (Z.ltb_ge (lo - _) 0)), (proj2 (Z.ltb_ge (len _) _)) by lia.
  by rewrite !Z.sub_add_distr.
Qed.

(** Whatever the range, [Entries] answers or returns an error. *)
Lemma durable_Entries_total s lo hi :
  durable_ok s -> exists x, DurableStorage_Entries lo hi s = Ok x.
Proof.
  intros Hok. destruct (decide (d_boundary s < lo /\ lo < hi /\ hi <= d_boundary s + len (d_entries s) + 1)) as [(?&?&?)|Hn].
  { rewrite durable_Entries by done. by eauto. }
  pose proof (durable_first _ Hok) as Hf. pose proof (durable_last _ Hok) as Hl.
  destruct Hok as (_ & Hb & Hm). unfold DurableStorage_Entries.
  destruct (hi <? lo) eqn:E1; to_prop; [by eauto|].
  destruct ((0 <? d_boundary s) && (lo <=? d_boundary s)) eqn:E2; [by eauto|].
  destruct (_ || _) eqn:E3; [by eauto|]. to_prop. destruct (lo =? hi) eqn:E4; to_prop; [by eauto|].
  exfalso. apply Hn. rewrite Hf, Hl in *. pose proof (len_nonneg (d_entries s)).
  destruct (0 <? len (d_entries s)) eqn:E5; to_prop.
  - rewrite (proj2 (Z.eqb_neq (len _) 0)), andb_false_r, wrap64_succ_id in * by lia. lia.
  - destruct (_ && _); lia.
Qed.

Lemma durable_Term s i :
  durable_ok s ->
  DurableStorage_Term i s = Ok (
    if i <? d_boundary s then inl ErrCompacted
    else if d_boundary s + len (d_entries s) <? i then inl ErrUnavailable
    else if i =? d_boundary s then inr (LastIncludedTerm (d_snap s))
    else inr (default 0 (e_Term <$> index (d_entries s) (i - d_boundary s - 1)))).
Proof.
  intros Hok. pose proof (durable_first _ Hok) as Hf. pose proof (durable_last _ Hok) as Hl.
  destruct Hok as (_ & Hb & Hm). unfold DurableStorage_Term. rewrite Hl.
  destruct (i <? _) eqn:E1; [done|]. destruct (_ <? i) eqn:E2; [done|].
  destruct (i =? _) eqn:E3; [done|]. to_prop.
  rewrite Hf, (proj2 (Z.eqb_neq (len _) 0)), andb_false_r, wrap64_sub_id by lia.
  replace (i - (d_boundary s + 1)) with (i - d_boundary s - 1) by lia.
  destruct (index_is_Some (d_entries s) (i - d_boundary s - 1)) as [e ->]; [lia|done].
Qed.

Lemma persistSnapshotMeta_memory snap s :
  same_memory s (persistSnapshotMeta snap s).1.
Proof.
  unfold persistSnapshotMeta. destruct (wal_truncate _ _ _) as [[[e|] sw] W]; [done|].
  destruct (wal_write _ _ _) as [[we sw'] W']. by destruct we; [|destruct (wal_sync _ _)].
Qed.

(** A save that succeeds has gone through [truncateAndAppend] on the memory it
    started from. *)
Lemma durable_Save_Ok s ents hard s' :
  ents <> [] -> DurableStorage_Save ents hard s = Ok (s', None) ->
  exists s1, same_memory s s1 /\ DurableStorage_truncateAndAppend ents s1 = Ok (s', None).
Proof.
  intros Hne. unfold DurableStorage_Save.
  destruct (len ents =? 0) eqn:E; to_prop.
  { by destruct ents; [|rewrite len_cons in E; pose proof (len_nonneg ents); lia]. }
  simpl. destruct (segmentedWAL_write _ _ _) as [[[we|] rw] W]; [done|].
  destruct (segmentedWAL_sync _ _) as [[se|] W1]; [done|].
  destruct (segmentedWAL_maybeCut _ _) as [[[e|] rw2] W2]; [done|].
  intros H. eexists. split; [|exact H]. by destruct (last ents).
Qed.

Lemma durable_Save s ents hard s' :
  durable_ok s -> DurableStorage_Save ents hard s = Ok (s', None) -> ents <> [] ->
  contig (first_of ents) ents ->
  d_boundary s < first_of ents -> first_of ents <= d_boundary s + len (d_entries s) + 1 ->
  first_of ents + len ents <= MaxIndex ->
  durable_ok s' /\ d_snap s' = d_snap s /\
  d_entries s' = slice_to (d_entries s) (first_of ents - d_boundary s - 1) ++ ents.
Proof.
  intros Hok HS Hne Hc Hlo Hhi Hmax. apply durable_Save_Ok in HS as (s1 & Hsame & HS); [|done].
  pose proof (durable_ok_same _ _ Hsame Hok) as Hok1.
  destruct Hsame as [He Hs]. assert (d_boundary s1 = d_boundary s) as Hb1 by (unfold d_boundary; by rewrite Hs).
  rewrite durable_truncateAndAppend in HS; rewrite ?He, ?Hb1; try done. injection HS as <-.
  simpl. rewrite He, Hb1. split; [|done]. destruct Hok as (Hctg & Hb & Hm).
  unfold durable_ok. unfold d_boundary in *. simpl. rewrite Hs. split; [|split; [done|]].
  - apply contig_app. split; [by apply contig_take|]. rewrite len_slice_to by lia.
    by replace (_ + 1 + _) with (first_of ents) by lia.
  - rewrite len_app, len_slice_to; lia.
Qed.

Lemma durable_ApplySnapshot s snap s' e :
  durable_ok s -> 0 < LastIncludedIndex snap -> LastIncludedIndex snap < MaxIndex ->
  DurableStorage_ApplySnapshot (Some snap) s = Ok (s', e) ->
  durable_ok s' /\
  match e with
  | None => d_snap s' = snap /\ d_entries s' = skip_upto (LastIncludedIndex snap) (d_entries s)
            /\ d_boundary s <= LastIncludedIndex snap
  | Some _ => d_snap s' = d_snap s /\ d_entries s' = d_entries s
  end.
Proof.
  intros Hok Hpos Hmax. unfold DurableStorage_ApplySnapshot.
  destruct (_ && _) eqn:E; [by intros [= <- <-]|].
  pose proof (persistSnapshotMeta_memory snap s) as Hsame.
  destruct (persistSnapshotMeta snap s) as [s1 [e1|]]; simpl in Hsame; intros [= <- <-].
  - split; [by eapply durable_ok_same|]. by destruct Hsame.
  - destruct Hsame as [He Hs]. simpl. rewrite He. unfold filterRetainedEntries.
    rewrite (proj2 (Z.eqb_neq _ _)) by lia. destruct Hok as (Hc & Hb & Hm).
    assert (d_boundary s <= LastIncludedIndex snap).
    { apply andb_false_iff in E as [E|E]; to_prop; lia. }
    split; [|done]. unfold durable_ok, d_boundary in *. simpl. rewrite He.
    rewrite (skip_upto_contig _ _ _ Hc).
    unfold len in *. rewrite length_drop. split; [|lia].
    destruct (decide (Z.to_nat (LastIncludedIndex snap - (LastIncludedIndex (d_snap s) + 1) + 1) <= length (d_entries s))%nat).
    + pose proof (contig_drop _ _ _ l Hc) as Hd.
      by replace (LastIncludedIndex snap + 1) with
        (LastIncludedIndex (d_snap s) + 1 + Z.of_nat (Z.to_nat (LastIncludedIndex snap - (LastIncludedIndex (d_snap s) + 1) + 1))) by lia.
    + rewrite drop_ge by lia. apply contig_nil.
Qed.

#[export] Program Instance Durable_StorageSpec : StorageSpec DurableStorage := {
  st_ok := durable_ok;
  st_snap := d_snap;
  st_log := d_entries
}.
Next Obligation. intros s (? & ? & ?). done. Qed.
Next Obligation. intros s (? & ? & ?). done. Qed.
Next Obligation. intros s ?. by apply durable_first. Qed.
Next Obligation. intros s ?. by apply durable_last. Qed.
Next Obligation. done. Qed.
Next Obligation. intros s i ?. by apply durable_Term. Qed.
Next Obligation. intros s lo hi ????. by apply durable_Entries. Qed.
Next Obligation. intros s lo hi ?. by apply durable_Entries_total. Qed.
Next Obligation. intros s ents hard s' ???????. by eapply durable_Save. Qed.
Next Obligation. intros s snap s' e ????. by apply durable_ApplySnapshot. Qed.

(** ** Compaction *)

(** The entry at a log index. *)
Definition entry_of (s : DurableStorage) (j : Z) : option Entry :=
  index (d_entries s) (j - d_boundary s - 1).

(** [s'] is [s] with the entries up to a new boundary forgotten. *)
Definition compacted (s s' : DurableStorage) : Prop :=
  durable_ok s' /\ d_boundary s <= d_boundary s' /\ lastIndexWithoutLock s' = lastIndexWithoutLock s /\
  d_hd s' = d_hd s /\
  (forall j, d_boundary s' < j -> entry_of s' j = entry_of s j) /\
  (d_boundary s < d_boundary s' ->
   LastIncludedTerm (d_snap s') = default 0 (e_Term <$> entry_of s (d_boundary s'))).

Lemma compacted_refl s : durable_ok s -> compacted s s.
Proof. intros H. split_and!; try done. lia. Qed.

Lemma compacted_same s s' :
  same_memory s s' -> d_hd s' = d_hd s -> durable_ok s -> compacted s s'.
Proof.
  intros Hsame Hh Hok. pose proof (durable_ok_same _ _ Hsame Hok) as Hok'. destruct Hsame as [He Hs].
  assert (d_boundary s' = d_boundary s) as Hb by (unfold d_boundary; by rewrite Hs).
  split_and!; try done; [lia| | |lia].
  - by rewrite !durable_last, He, Hb.
  - intros j Hj. unfold entry_of. by rewrite He, Hb.
Qed.

Lemma persistSnapshotMeta_hard snap s : d_hd (persistSnapshotMeta snap s).1 = d_hd s.
Proof.
  unfold persistSnapshotMeta. destruct (wal_truncate _ _ _) as [[[e|] sw] W]; [done|].
  destruct (wal_write _ _ _) as [[we sw'] W']. by destruct we; [|destruct (wal_sync _ _)].
Qed.

Lemma deleteOldSegments_memory s :
  same_memory s (deleteOldSegments s).1 /\ d_hd (deleteOldSegments s).1 = d_hd s.
Proof.
  unfold deleteOldSegments. destruct (canDelete _ _ _ _); [done|].
  by destruct (segmentedWAL_deleteSegments _ _ _) as [[e rw] W].
Qed.

Lemma termWithoutLock_inside s i :
  durable_ok s -> d_boundary s < i <= lastIndexWithoutLock s ->
  termWithoutLock i s = Ok (inr (default 0 (e_Term <$> entry_of s i))).
Proof.
  intros Hok Hi. pose proof (durable_first _ Hok) as Hf. rewrite (durable_last _ Hok) in Hi.
  pose proof Hok as (_ & Hb & Hm). unfold termWithoutLock.
  rewrite (durable_last _ Hok), (proj2 (Z.eqb_neq i _)), andb_false_r by lia.
  rewrite Hf, (proj2 (Z.eqb_neq (len _) 0)), andb_false_r by lia.
  rewrite (proj2 (Z.ltb_ge i _)), (proj2 (Z.ltb_ge _ i)) by lia. cbn [orb].
  rewrite wrap64_sub_id by lia. replace (i - (d_boundary s + 1)) with (i - d_boundary s - 1) by lia.
  unfold entry_of. destruct (index_is_Some (d_entries s) (i - d_boundary s - 1)) as [e ->]; [lia|done].
Qed.

Lemma index_drop {A : Type} (l : list A) (k : nat) i :
  0 <= i -> index (drop k l) i = index l (i + Z.of_nat k).
Proof.
  intros Hi. unfold index. rewrite !decide_True by lia. rewrite lookup_drop. f_equal. lia.
Qed.

(** Moving the boundary to [i] drops the entries up to [i]. *)
Lemma compact_to s s' i :
  durable_ok s -> d_boundary s < i <= lastIndexWithoutLock s ->
  d_entries s' = skip_upto i (d_entries s) ->
  d_snap s' = mkSnap i (default 0 (e_Term <$> entry_of s i)) -> d_hd s' = d_hd s -> compacted s s'.
Proof.
  intros Hok Hi He Hs Hh. rewrite (durable_last _ Hok) in Hi. pose proof Hok as (Hc & Hb & Hm).
  rewrite (skip_upto_contig _ _ _ Hc) in He. replace (i - (d_boundary s + 1) + 1) with (i - d_boundary s) in He by lia.
  assert (d_boundary s' = i) as Hb' by (unfold d_boundary; by rewrite Hs).
  assert (Hlen : len (d_entries s') = len (d_entries s) - (i - d_boundary s)).
  { rewrite He. unfold len in *. rewrite length_drop. lia. }
  assert (durable_ok s') as Hok'.
  { split; [|lia]. rewrite Hb', He. unfold len in *.
    eapply (contig_drop _ _ (Z.to_nat (i - d_boundary s))) in Hc; [|lia].
    by replace (d_boundary s + 1 + Z.of_nat (Z.to_nat (i - d_boundary s))) with (i + 1) in Hc by lia. }
  split_and!; try done; [lia| | |].
  - rewrite !durable_last by done. lia.
  - intros j Hj. unfold entry_of. rewrite He, index_drop by lia. f_equal. lia.
  - intros _. by rewrite Hs, Hb'.
Qed.

Lemma durable_MaybeCompact s i s' e :
  durable_ok s -> 0 <= i < MaxIndex -> DurableStorage_MaybeCompact i s = Ok (s', e) -> compacted s s'.
Proof.
  intros Hok Hi H. unfold DurableStorage_MaybeCompact in H.
  destruct (i <=? d_boundary s) eqn:E1; to_prop; [injection H as <- _; by apply compacted_refl|].
  destruct (_ <? d_compactThreshold s); [injection H as <- _; by apply compacted_refl|]. unfold compactLocked in H.
  rewrite (proj2 (Z.leb_gt i _)), andb_false_r in H by lia.
  destruct (len (d_entries s) =? 0); [injection H as <- _; by apply compacted_refl|].
  destruct (lastIndexWithoutLock s <? i) eqn:E2; to_prop; [injection H as <- _; by apply compacted_refl|].
  rewrite termWithoutLock_inside in H by (done || lia). cbn [mbind res_bind] in H. simpl in H.
  set (snap := mkSnap i _) in H. pose proof (persistSnapshotMeta_memory snap s) as Hsame.
  pose proof (persistSnapshotMeta_hard snap s) as Hh.
  destruct (persistSnapshotMeta snap s) as [s1 [e1|]]; simpl in Hsame, Hh.
  { injection H as <- _. by apply compacted_same. }
  set (s2 := s1 <| d_entries ::= _ |> <| d_snap := snap |>) in H.
  assert (compacted s s2) as Hc2.
  { eapply (compact_to _ _ i); try done. simpl. by destruct Hsame as [-> _]. }
  destruct (deleteOldSegments_memory s2) as [Hm2 Hh2]. destruct (deleteOldSegments s2) as [s3 e3].
  injection H as <- _. simpl in Hm2, Hh2. destruct Hc2 as (Hok2 & Hb2 & Hl2 & Hhd2 & He2 & Ht2).
  destruct (compacted_same _ _ Hm2 Hh2 Hok2) as (Hok3 & Hb3 & Hl3 & _ & He3 & _).
  destruct Hm2 as [_ Hs3]. assert (d_boundary s3 = d_boundary s2) as Hb by (unfold d_boundary; by rewrite Hs3).
  split_and!; try done; [lia|congruence|congruence| |].
  - intros j Hj. rewrite He3, He2 by (rewrite <-?Hb; lia). done.
  - rewrite Hb, Hs3. exact Ht2.
Qed.
