(* ===== verification/Recovery.v ===== *)
(** * Recovery: reopening a [DurableStorage] after saves, and after a torn write

    The reading loops of wal.go and segment.go are shown to deliver exactly the
    frames that were written, to stop at a torn frame, and to cut it off.  From
    this follows that a storage reopened on its own directory has the memory it
    had before. *)

From S2P Require Export Segments DurableSpec.
From stdpp Require Import strings.
Local Open Scope Z_scope.

(** ** Frames *)

Definition frames (bs : list bytes) : bytes := mjoin (frame <$> bs).

#[global] Arguments frames bs : simpl never.
#[global] Arguments frame batch : simpl never.
#[global] Arguments newWAL name W : simpl never.

(** What a crash leaves of a frame: a proper, non-empty prefix. *)
Definition torn (t : bytes) : Prop :=
  exists b n, len b < 2 ^ 32 /\ t = take n (frame b) /\ (0 < n < length (frame b))%nat.

Definition small (b : bytes) : Prop := len b < 2 ^ 32.

Lemma len_frame b : len (frame b) = frameHeaderSize + len b.
Proof. unfold frame. by rewrite len_app, len_PutUint32. Qed.

Lemma frames_cons b bs : frames (b :: bs) = frame b ++ frames bs.
Proof. done. Qed.

Lemma frames_app bs cs : frames (bs ++ cs) = frames bs ++ frames cs.
Proof. unfold frames. by rewrite fmap_app, join_app. Qed.

Lemma frames_length bs : (length bs <= length (frames bs))%nat.
Proof.
  induction bs as [|b bs IH]; [done|]. rewrite frames_cons, length_app. simpl.
  pose proof (len_frame b). pose proof (len_nonneg b). unfold len, frameHeaderSize in *. lia.
Qed.

(** The three outcomes of [read] on a file that works: the next frame, a torn
    one, the end. *)
Section read.
Context (w : wal) (W : World) (pre rest : bytes).
Hypothesis HF : faults W = [].
Hypothesis Hopen : w_open w = true.
Hypothesis Hfile : files W !! w_filename w = Some (pre ++ rest).
Hypothesis Hpos : w_pos w = len pre.
Hypothesis Hsize : w_size w = len (pre ++ rest).

Lemma read_content : content (w_filename w) W = pre ++ rest.
Proof using Hfile. unfold content. by rewrite Hfile. Qed.

Lemma readFull_works n w1 :
  0 <= n -> w_filename w1 = w_filename w -> 0 <= w_pos w1 ->
  let buf := slice_to (slice_from (pre ++ rest) (w_pos w1)) n in
  wal_readFull n w1 W = (inr buf, w1 <| w_pos ::= Z.add (len buf) |>, W).
Proof using HF Hfile.
  intros Hn Hw Hp. unfold wal_readFull, io. rewrite HF, Hw, read_content. destruct (Z.eqb_spec n 0) as [-> |Hne]; [|done].
  unfold slice_to. change (take (Z.to_nat 0) _) with (@nil Byte.byte). by destruct w1.
Qed.

Lemma wal_read_eof : rest = [] -> wal_read w W = (inl ErrEOF, w, W).
Proof using HF Hopen Hfile Hpos.
  clear Hsize. intros Hr. pose proof (len_nonneg pre). unfold wal_read. rewrite Hopen, readFull_works by (unfold frameHeaderSize; done || lia).
  rewrite Hpos, slice_from_app, Hr by done. unfold slice_to. rewrite take_nil. simpl. rewrite len_nil. by destruct w.
Qed.

Lemma wal_read_frame b tl :
  rest = frame b ++ tl -> small b ->
  wal_read w W = (inr b, w <| w_pos := len pre + frameHeaderSize + len b |>, W).
Proof using HF Hopen Hfile Hpos Hsize.
  intros Hr Hb. pose proof (len_nonneg pre). pose proof (len_nonneg b). pose proof (len_nonneg tl).
  unfold wal_read. rewrite Hopen, readFull_works by (unfold frameHeaderSize; done || lia). cbn [negb].
  assert (slice_to (slice_from (pre ++ rest) (w_pos w)) frameHeaderSize = PutUint32 (len b)) as ->.
  { rewrite Hpos, slice_from_app, Hr by done. unfold frame. rewrite <-app_assoc, slice_to_app_len; [done|apply len_PutUint32]. }
  rewrite len_PutUint32. change (4 =? 0) with false. change (4 <? frameHeaderSize) with false. cbv iota.
  assert (Uint32 (PutUint32 (len b)) = len b) as ->
    by (rewrite <-(app_nil_r (PutUint32 _)); apply Uint32_Put; unfold is_u32, small in *; lia).
  unfold io_call, io. rewrite HF. simpl w_size. simpl w_pos. rewrite Hsize, Hr, !len_app, len_frame, Hpos. unfold frameHeaderSize.
  rewrite (proj2 (Z.ltb_ge _ _)) by lia. rewrite readFull_works by (simpl; done || lia).
  assert (slice_to (slice_from (pre ++ rest) (w_pos (w <| w_pos ::= Z.add 4 |>))) (len b) = b) as ->.
  { simpl. rewrite Hr, Hpos. unfold frame. rewrite <-app_assoc, app_assoc, slice_from_app by (rewrite len_app, len_PutUint32; lia).
    by apply slice_to_app_len. }
  rewrite Z.ltb_irrefl. do 2 f_equal. destruct w as [fn size pos op]. simpl in Hpos.
  change (mkWal fn size (len b + (4 + pos)) op = mkWal fn size (len pre + 4 + len b) op). f_equal. lia.
Qed.

Lemma wal_read_torn :
  torn rest -> exists p, wal_read w W = (inl ErrTailCorruption, w <| w_pos := p |>, W).
Proof using HF Hopen Hfile Hpos Hsize.
  intros (b & n & Hb & Hrest & Hn). pose proof (len_nonneg pre). pose proof (len_nonneg b).
  assert (forall d, exists p, w <| w_pos ::= Z.add d |> = w <| w_pos := p |>) as Hp by (intros d; by eexists).
  unfold wal_read. rewrite Hopen, readFull_works by (unfold frameHeaderSize; done || lia). cbn [negb].
  rewrite Hpos, slice_from_app by done.
  assert (Hl : len rest = Z.of_nat n).
  { rewrite Hrest. unfold len. rewrite length_take. lia. }
  assert (len (slice_to rest frameHeaderSize) = Z.min frameHeaderSize (Z.of_nat n)) as Hh
    by (unfold len, slice_to, frameHeaderSize in *; rewrite length_take; lia).
  rewrite Hh. unfold frameHeaderSize in *. rewrite (proj2 (Z.eqb_neq _ _)) by lia.
  destruct (Z.min 4 (Z.of_nat n) <? 4) eqn:E; to_prop.
  { destruct (Hp (Z.min 4 (Z.of_nat n))) as [p ->]. by exists p. }
  assert (Hhdr : slice_to rest 4 = PutUint32 (len b)).
  { rewrite Hrest. unfold slice_to, frame in *. rewrite take_take, Nat.min_l by lia.
    rewrite take_app_le by (rewrite length_PutUint32; lia). apply take_ge. rewrite length_PutUint32. lia. }
  rewrite Hhdr, <-(app_nil_r (PutUint32 _)), Uint32_Put by (unfold is_u32; lia). unfold io_call, io. rewrite HF. cbv iota beta.
  simpl w_size. simpl w_pos. rewrite Hsize, len_app, Hl, Hpos.
  pose proof (len_frame b) as Hf. unfold len in Hf at 1. unfold frameHeaderSize in *.
  rewrite (proj2 (Z.ltb_lt _ _)) by lia. destruct (Hp (Z.min 4 (Z.of_nat n))) as [p ->]. by exists p.
Qed.

End read.

(** ** The reading loops *)

Section loops.
Context {A : Type} (fn : string -> bytes -> A -> res (A * option error)).

(** The callback on a list of batches, each with the name of its segment. *)
Fixpoint feed (l : list (string * bytes)) (a : A) : res (A * option error) :=
  match l with
  | [] => Ok (a, None)
  | (name, b) :: l =>
      '(a, e) ← fn name b a;
      match e with Some e => Ok (a, Some e) | None => feed l a end
  end.

Lemma feed_app l k a a' : feed l a = Ok (a', None) -> feed (l ++ k) a = feed k a'.
Proof.
  revert a. induction l as [|[name b] l IH]; intros a; simpl; [by intros [= ->]|].
  destruct (fn name b a) as [[a1 [e|]]|]; [done|apply IH|done].
Qed.

Lemma feed_app_inv l k a a' :
  feed (l ++ k) a = Ok (a', None) -> exists a1, feed l a = Ok (a1, None) /\ feed k a1 = Ok (a', None).
Proof.
  revert a. induction l as [|[name b] l IH]; intros a; simpl; [by eauto|].
  destruct (fn name b a) as [[a1 [e|]]|]; [done|apply IH|done].
Qed.

Definition tail_end (good : Z) (tail : bytes) : frames_end :=
  match tail with [] => FramesDone | _ => FramesTail good end.

(** [readSegmentFrames] feeds the frames of the file to the callback and reports
    what it finds after them. *)
Lemma readSegmentFrames_spec bs tail fuel name good w W pre a a' :
  faults W = [] -> w_open w = true ->
  files W !! w_filename w = Some (pre ++ frames bs ++ tail) ->
  w_pos w = len pre -> w_size w = len (pre ++ frames bs ++ tail) ->
  Forall small bs -> tail = [] \/ torn tail -> (length bs < fuel)%nat ->
  feed ((name,.) <$> bs) a = Ok (a', None) ->
  exists p, readSegmentFrames fn fuel name good w a W =
    Ok (tail_end (good + len (frames bs)) tail, w <| w_pos := p |>, a', W).
Proof.
  intros HF. revert fuel good w pre a. induction bs as [|b bs IH]; intros fuel good w pre a Ho Hf Hp Hs Hb Ht Hfu Hfeed;
    (destruct fuel as [|fuel]; [simpl in Hfu; lia|]); cbn [readSegmentFrames].
  - injection Hfeed as <-. change (frames [] ++ tail) with tail in *. change (len (frames [])) with 0.
    rewrite Z.add_0_r. destruct Ht as [->|Ht].
    + exists (w_pos w). rewrite (wal_read_eof w W pre []) by done. by destruct w.
    + destruct (wal_read_torn w W pre tail) as [p ->]; [done..|]. exists p.
      destruct Ht as (b & n & _ & -> & Hn). destruct (take n (frame b)) eqn:E; [|done].
      apply (f_equal length) in E. rewrite length_take in E. simpl in E. lia.
  - apply Forall_cons in Hb as [Hb Hbs]. rewrite frames_cons, <-app_assoc in *.
    rewrite (wal_read_frame w W pre (frame b ++ frames bs ++ tail) HF Ho Hf Hp Hs b (frames bs ++ tail) eq_refl Hb).
    assert (good + len (frame b ++ frames bs) = good + (frameHeaderSize + len b) + len (frames bs)) as ->
      by (rewrite len_app, len_frame; lia).
    cbn [fmap list_fmap feed] in Hfeed. destruct (fn name b a) as [[a1 [e|]]|]; [done| |done]. simpl in Hfeed |- *.
    pose proof (len_frame b) as Hlf.
    destruct (IH fuel (good + (frameHeaderSize + len b)) (w <| w_pos := len pre + frameHeaderSize + len b |>) (pre ++ frame b) a1)
      as [p Hr]; [done|by rewrite <-app_assoc|simpl; rewrite len_app; lia|by rewrite <-app_assoc|done|done|simpl in Hfu; lia|done|].
    exists p. by rewrite Hr.
Qed.

(** The sealed segments. *)
Lemma readSealed_spec h a a' W :
  faults W = [] ->
  Forall (fun p : string * list bytes => files W !! p.1 = Some (frames p.2) /\ Forall small p.2) h ->
  feed (h ≫= fun p => (p.1,.) <$> p.2) a = Ok (a', None) ->
  readSealed fn h.*1 a W = Ok (None, a', W).
Proof.
  intros HF. revert a. induction h as [|[name bs] h IH]; intros a Hh Hfeed; [by injection Hfeed as <-|].
  apply Forall_cons in Hh as [[Hf Hs] Hh]. simpl in Hf, Hs. cbn [fmap list_fmap fst readSealed].
  unfold openWALReadOnly, fileSize, io_call, io. rewrite HF, Hf, HF. unfold content. rewrite Hf. simpl.
  rewrite bind_cons in Hfeed. simpl in Hfeed. apply feed_app_inv in Hfeed as (a1 & H1 & H2).
  destruct (readSegmentFrames_spec bs [] (frames_fuel name W) name 0 (mkWal name (len (frames bs)) 0 true) W [] a a1)
    as [p Hr]; rewrite ?app_nil_r; try done; [by left| |].
  { unfold frames_fuel, content. rewrite Hf. simpl. pose proof (frames_length bs). lia. }
  unfold frames_fuel, content in Hr |- *. rewrite Hf in Hr |- *. simpl in Hr |- *. rewrite Hr. simpl. unfold wal_close, io_call, io. simpl. rewrite HF. by apply IH.
Qed.

(** The last segment, through the open handle; a torn tail is cut off the file. *)
Lemma readLast_spec bs tail sw a a' W :
  faults W = [] -> w_open (current sw) = true ->
  files W !! w_filename (current sw) = Some (frames bs ++ tail) ->
  w_size (current sw) = len (frames bs ++ tail) ->
  Forall small bs -> tail = [] \/ torn tail ->
  feed ((w_filename (current sw),.) <$> bs) a = Ok (a', None) ->
  exists p, readLast fn (w_filename (current sw)) sw a W =
    Ok (None, sw <| current := mkWal (w_filename (current sw)) (len (frames bs)) p true |>, a',
        W <| files ::= <[ w_filename (current sw) := frames bs ]> |>).
Proof.
  intros HF Ho Hf Hs Hb Ht Hfeed. unfold readLast. rewrite Ho. unfold io_call, io. rewrite HF.
  destruct (readSegmentFrames_spec bs tail (frames_fuel (w_filename (current sw)) W) (w_filename (current sw)) 0
              ((current sw) <| w_pos := 0 |>) W [] a a') as [p Hr]; try done.
  { unfold frames_fuel, content. rewrite Hf. simpl. rewrite length_app. pose proof (frames_length bs). lia. }
  simpl w_filename. rewrite Hr. simpl. destruct tail as [|c tail].
  - rewrite app_nil_r in *. exists p. simpl. destruct sw as [l s [fn' sz ps o]]. simpl in *. subst.
    unfold set_field. rewrite insert_id by done. by destruct W as [F Q].
  - exists 0. unfold wal_truncate, wal_close. simpl. rewrite Ho. simpl. unfold openFile, io_call, io. simpl.
    rewrite !HF. simpl. rewrite ?HF. simpl. rewrite ?HF. simpl. unfold content. simpl.
    rewrite lookup_insert_eq, Hf. simpl. unfold set_field. simpl. rewrite insert_insert_eq.
    change (0 + len (frames bs)) with (len (frames bs)). unfold truncate_to, len. rewrite Nat2Z.id, <-app_assoc, take_app_length. done.
Qed.

End loops.

(** ** A directory and the history it holds *)

(** The sealed segments with their batches, oldest first, the batches of the
    current segment, and what a crash left after them. *)
Record disk (sealed : list (string * list bytes)) (bs : list bytes) (tail : bytes) (W : World) : Prop := mkDisk {
  disk_faults : faults W = [];
  disk_names : sealed.*1 = segNames (length sealed);
  disk_count : Z.of_nat (length sealed) < 10 ^ 8;
  disk_sealed : Forall (fun p => files W !! p.1 = Some (frames p.2) /\ Forall small p.2) sealed;
  disk_current : files W !! segmentName (Z.of_nat (length sealed)) = Some (frames bs ++ tail);
  disk_small : Forall small bs;
  disk_tail : tail = [] \/ torn tail;
  disk_only name : is_Some (files W !! name) -> is_Some (parseSegmentSeq name) ->
    name ∈ segNames (S (length sealed));
  disk_snap : files W !! snapFilename = Some []
}.

Definition batches (sealed : list (string * list bytes)) (bs : list bytes) : list (string * bytes) :=
  (sealed ≫= fun p => (p.1,.) <$> p.2) ++ ((segmentName (Z.of_nat (length sealed)),.) <$> bs).

Lemma disk_listSegments sealed bs tail W :
  disk sealed bs tail W -> listSegments W = (inr (segNames (S (length sealed))), W).
Proof.
  intros D. apply listSegments_names; [apply D|pose proof (disk_count _ _ _ _ D); lia|apply D|].
  intros name. rewrite segNames_app, elem_of_app, list_elem_of_singleton. intros [Hin| ->].
  - rewrite <-(disk_names _ _ _ _ D) in Hin. apply list_elem_of_fmap in Hin as (p & -> & Hp).
    pose proof (disk_sealed _ _ _ _ D) as HS. rewrite Forall_forall in HS. apply HS in Hp as [-> _]. by eauto.
  - rewrite (disk_current _ _ _ _ D). by eauto.
Qed.

Lemma newWAL_existing name data W :
  faults W = [] -> files W !! name = Some data -> newWAL name W = (inr (mkWal name (len data) 0 true), W).
Proof.
  destruct W as [F Q]. simpl. intros -> Hn. unfold newWAL, openFile, fileSize, io_call, io, content. simpl.
  rewrite Hn. simpl. unfold set_field. simpl. rewrite insert_id by done. by rewrite Hn.
Qed.

Lemma newWAL_fresh name W :
  faults W = [] -> files W !! name = None ->
  newWAL name W = (inr (mkWal name 0 0 true), W <| files ::= <[ name := [] ]> |>).
Proof.
  destruct W as [F Q]. simpl. intros -> Hn. unfold newWAL, openFile, fileSize, io_call, io, content. simpl.
  rewrite Hn, lookup_insert_eq. done.
Qed.

Definition limit_or_default (limit : Z) : Z := if limit <=? 0 then defaultSegmentLimit else limit.

Lemma disk_newSegmentedWAL sealed bs tail W limit :
  disk sealed bs tail W ->
  newSegmentedWAL limit W =
    (inr (mkSegWal (limit_or_default limit) (segNames (S (length sealed)))
            (mkWal (segmentName (Z.of_nat (length sealed))) (len (frames bs ++ tail)) 0 true)), W).
Proof.
  intros D. unfold newSegmentedWAL, io_call, io. rewrite (disk_faults _ _ _ _ D).
  rewrite (disk_listSegments _ _ _ _ D).
  assert ((match segNames (S (length sealed)) with [] => [segmentName 0] | _ => segNames (S (length sealed)) end)
    = segNames (S (length sealed))) as -> by done.
  rewrite segNames_app, last_snoc. simpl.
  rewrite (newWAL_existing _ (frames bs ++ tail)) by apply D. done.
Qed.

(** The part of the memory that is replayed. *)
Definition same_state (s t : DurableStorage) : Prop :=
  d_hd s = d_hd t /\ d_entries s = d_entries t /\ d_snap s = d_snap t /\ d_segLastIdx s = d_segLastIdx t.

(** ... and the part that is not touched by it. *)
Definition same_rest (s t : DurableStorage) : Prop :=
  d_rw s = d_rw t /\ d_sw s = d_sw t /\ d_world s = d_world t /\ d_compactThreshold s = d_compactThreshold t.

Lemma truncateAndAppend_state ents s t s' e :
  same_state s t -> DurableStorage_truncateAndAppend ents s = Ok (s', e) ->
  exists t', DurableStorage_truncateAndAppend ents t = Ok (t', e) /\ same_state s' t' /\ same_rest t' t.
Proof.
  intros (Hh & He & Hs & Hi). unfold DurableStorage_truncateAndAppend, lastIndexWithoutLock, firstIndexWithoutLock, d_boundary.
  rewrite He, Hs. destruct ents as [|e0 ents]; [by intros [= <- <-]; eexists|].
  repeat match goal with |- (if ?b then _ else _) = _ -> _ => destruct b end; try done; intros [= <- <-]; eexists;
    (split; [done|]); (split; [|done]); unfold same_state; unfold set_field; simpl; by rewrite ?He.
Qed.

Lemma replay_batch_state seg b s t s' e :
  same_state s t -> replay_batch seg b s = Ok (s', e) ->
  exists t', replay_batch seg b t = Ok (t', e) /\ same_state s' t' /\ same_rest t' t.
Proof.
  intros Hst. unfold replay_batch. destruct (decodeSaveBatch b) as [err|[hd ents]].
  { intros [= <- <-]. by eexists. }
  assert (same_state
    (match last ents with Some e => s <| d_segLastIdx ::= <[ seg := e_Index e ]> |> | None => s end <| d_hd := hd |>)
    (match last ents with Some e => t <| d_segLastIdx ::= <[ seg := e_Index e ]> |> | None => t end <| d_hd := hd |>)) as Hst'.
  { destruct Hst as (Hh & He & Hs & Hi). destruct (last ents); unfold same_state, set_field; simpl; by rewrite ?Hi. }
  assert (d_boundary (match last ents with Some e => t <| d_segLastIdx ::= <[ seg := e_Index e ]> |> | None => t end)
    = d_boundary (match last ents with Some e => s <| d_segLastIdx ::= <[ seg := e_Index e ]> |> | None => s end)) as ->.
  { destruct Hst as (_ & _ & Hs & _). unfold d_boundary. destruct (last ents); simpl; by rewrite Hs. }
  intros (t' & Ht & Hs & Hr)%(truncateAndAppend_state _ _ _ _ _ Hst'). exists t'. split; [done|]. split; [done|].
  by destruct (last ents).
Qed.

Lemma feed_state l s t s' :
  same_state s t -> feed replay_batch l s = Ok (s', None) ->
  exists t', feed replay_batch l t = Ok (t', None) /\ same_state s' t' /\ same_rest t' t.
Proof.
  revert s t. induction l as [|[seg b] l IH]; intros s t Hst; cbn [feed].
  { intros [= <-]. by exists t. }
  destruct (replay_batch seg b s) as [[s1 [e|]]|] eqn:E; [done| |done]. simpl. intros Hf.
  destruct (replay_batch_state _ _ _ _ _ _ Hst E) as (t1 & -> & Hst1 & Hr1). simpl.
  destruct (IH _ _ Hst1 Hf) as (t' & Ht & Hst' & Hr'). exists t'. split; [done|]. split; [done|].
  unfold same_rest in *. intuition congruence.
Qed.

(** The memory a storage is opened with. *)
Definition blank : DurableStorage :=
  mkDurable (mkSegWal 0 [] (mkWal "" 0 0 false)) (mkWal "" 0 0 false)
    (mkHard 0 0 0) [] (mkSnap 0 0) ∅ 0 (mkWorld ∅ []).

Lemma replaySnapshotMeta_empty s :
  faults (d_world s) = [] -> w_open (d_sw s) = true -> files (d_world s) !! w_filename (d_sw s) = Some [] ->
  w_pos (d_sw s) = 0 -> d_snap s = mkSnap 0 0 -> replaySnapshotMeta s = (s, None).
Proof.
  intros HF Ho Hf Hp Hs. unfold replaySnapshotMeta, frames_fuel. cbn [replaySnapshotMeta_loop].
  rewrite (wal_read_eof _ _ [] []) by done. destruct s. simpl in *. by subst.
Qed.

(** Replacing the content of the current segment. *)
Lemma disk_set_current sealed bs tail bs' tail' W :
  disk sealed bs tail W -> Forall small bs' -> tail' = [] \/ torn tail' ->
  disk sealed bs' tail' (W <| files ::= <[ segmentName (Z.of_nat (length sealed)) := frames bs' ++ tail' ]> |>).
Proof.
  intros D Hbs' Ht'. pose proof (disk_count _ _ _ _ D) as Hc. destruct D as [HF Hn _ HS HC Hsm _ Ho Hsn].
  split; simpl; try done.
  - rewrite Forall_forall in HS |- *. intros p Hp. destruct (HS p Hp) as [Hf Hb]. split; [|done].
    rewrite lookup_insert_ne; [done|]. intros Heq.
    assert (p.1 ∈ segNames (length sealed)) as Hin by (rewrite <-Hn; apply list_elem_of_fmap; by eauto).
    apply segNames_elem in Hin as (i & Hi & Hname). rewrite Hname in Heq. apply segmentName_inj in Heq; lia.
  - by rewrite lookup_insert_eq.
  - intros name [x Hx] Hp. apply Ho; [|done].
    destruct (decide (name = segmentName (Z.of_nat (length sealed)))) as [->|Hne]; [by eauto|].
    rewrite lookup_insert_ne in Hx by done. by eauto.
  - rewrite lookup_insert_ne; [done|]. intros Heq.
    assert (parseSegmentSeq snapFilename = None) as Hpn by done. rewrite <-Heq, parse_segmentName in Hpn by lia. done.
Qed.

(** Sealing the current segment and starting an empty one. *)
Lemma disk_seal sealed bs W :
  let cur := segmentName (Z.of_nat (length sealed)) in
  let next := segmentName (Z.of_nat (S (length sealed))) in
  disk sealed bs [] W -> Z.of_nat (S (length sealed)) < 10 ^ 8 ->
  files W !! next = None /\ disk (sealed ++ [(cur, bs)]) [] [] (W <| files ::= <[ next := [] ]> |>).
Proof.
  intros cur next D Hmax. destruct D as [HF Hn _ HS HC Hsm _ Ho Hsn]. rewrite app_nil_r in HC.
  assert (Hnew : files W !! next = None).
  { apply eq_None_not_Some. intros Hx. apply Ho in Hx; [|unfold next; rewrite parse_segmentName by lia; by eauto].
    apply segNames_elem in Hx as (i & Hi & Hname). apply segmentName_inj in Hname; lia. }
  split; [done|].
  assert (Hlen : length (sealed ++ [(cur, bs)]) = S (length sealed)) by (rewrite length_app; simpl; lia).
  split; rewrite ?Hlen; simpl; try done.
  - rewrite fmap_app, segNames_app, Hn. done.
  - apply Forall_app. split.
    + rewrite Forall_forall in HS |- *. intros p Hp. destruct (HS p Hp) as [Hf Hb]. split; [|done].
      rewrite lookup_insert_ne; [done|]. intros Heq. by rewrite <-Heq, Hnew in Hf.
    + apply Forall_singleton. split; [|done]. simpl. rewrite lookup_insert_ne; [done|].
      intros Heq. unfold cur in Heq. rewrite Heq in Hnew. congruence.
  - by rewrite lookup_insert_eq.
  - by left.
  - intros name [x Hx] Hp. rewrite segNames_app, elem_of_app, list_elem_of_singleton.
    destruct (decide (name = next)) as [->|Hne]; [by right|].
    rewrite lookup_insert_ne in Hx by done. left. apply Ho; by eauto.
  - rewrite lookup_insert_ne; [done|]. intros Heq. rewrite Heq in Hnew. congruence.
Qed.

Lemma disk_readAll sealed bs tail W limit p0 s s1 :
  disk sealed bs tail W -> feed replay_batch (batches sealed bs) s = Ok (s1, None) ->
  exists p, segmentedWAL_readAll replay_batch
    (mkSegWal limit (segNames (S (length sealed)))
       (mkWal (segmentName (Z.of_nat (length sealed))) (len (frames bs ++ tail)) p0 true)) s W =
    Ok (None, mkSegWal limit (segNames (S (length sealed)))
          (mkWal (segmentName (Z.of_nat (length sealed))) (len (frames bs)) p true), s1,
        W <| files ::= <[ segmentName (Z.of_nat (length sealed)) := frames bs ]> |>).
Proof.
  intros D Hfeed. apply feed_app_inv in Hfeed as (sm & H1 & H2).
  unfold segmentedWAL_readAll. cbn [segments].
  rewrite segNames_app, last_snoc, removelast_last.
  pose proof (readSealed_spec replay_batch sealed s sm W (disk_faults _ _ _ _ D) (disk_sealed _ _ _ _ D) H1) as HR.
  rewrite (disk_names _ _ _ _ D) in HR. rewrite HR. simpl.
  set (sw := mkSegWal _ _ _).
  destruct (readLast_spec replay_batch bs tail sw sm s1 W) as [p Hp]; try done; try apply D.
  exists p. exact Hp.
Qed.

(** The writer's view of the directory. *)
Definition writer (sealed : list (string * list bytes)) (bs : list bytes) (rw : segmentedWAL) (W : World) : Prop :=
  disk sealed bs [] W /\ segments rw = segNames (S (length sealed)) /\
  exists p, current rw = mkWal (segmentName (Z.of_nat (length sealed))) (len (frames bs)) p true.

Lemma disk_replay sealed bs tail W limit threshold s1 :
  disk sealed bs tail W -> feed replay_batch (batches sealed bs) blank = Ok (s1, None) ->
  exists s, replay (mkDurable
      (mkSegWal limit (segNames (S (length sealed)))
         (mkWal (segmentName (Z.of_nat (length sealed))) (len (frames bs ++ tail)) 0 true))
      (mkWal snapFilename 0 0 true) (mkHard 0 0 0) [] (mkSnap 0 0) ∅ threshold W) = Ok (s, None) /\
    same_state s1 s /\ writer sealed bs (d_rw s) (d_world s).
Proof.
  intros D Hfeed. set (rw := mkSegWal _ _ _). set (s0 := mkDurable rw _ _ _ _ _ _ W).
  destruct (feed_state _ blank s0 _ ltac:(done) Hfeed) as (t & Ht & Hst & Hrest).
  unfold replay. rewrite replaySnapshotMeta_empty by (done || apply D). unfold replayLog.
  destruct (disk_readAll sealed bs tail W limit 0 s0 t D Ht) as [p Hr].
  fold rw in Hr. change (d_rw (s0 <| d_entries := [] |>)) with rw. change (d_world (s0 <| d_entries := [] |>)) with W.
  change (s0 <| d_entries := [] |>) with s0. rewrite Hr. simpl.
  eexists. split; [reflexivity|]. split; [exact Hst|]. split; [|split; [done|by exists p]].
  rewrite <-(app_nil_r (frames bs)). eapply disk_set_current; [done|apply D|by left].
Qed.

(** Opening a directory replays its batches on a storage with empty memory, and
    removes the torn tail. *)
Lemma disk_reopen sealed bs tail W limit threshold s1 :
  disk sealed bs tail W -> feed replay_batch (batches sealed bs) blank = Ok (s1, None) ->
  exists s, NewDurableStorageWithOptions limit threshold W = Ok (inr s, d_world s) /\
    same_state s1 s /\ writer sealed bs (d_rw s) (d_world s).
Proof.
  intros D Hfeed. unfold NewDurableStorageWithOptions.
  rewrite (disk_newSegmentedWAL _ _ _ _ _ D), (newWAL_existing _ []) by apply D. change (len []) with 0.
  edestruct (disk_replay sealed bs tail W) as (s & -> & Hs & Hw); [done..|]. by exists s.
Qed.

Lemma batches_seal sealed bs :
  batches (sealed ++ [(segmentName (Z.of_nat (length sealed)), bs)]) [] = batches sealed bs.
Proof. unfold batches. rewrite bind_app. simpl. by rewrite !app_nil_r. Qed.

Lemma batches_snoc sealed bs b :
  batches sealed (bs ++ [b]) = batches sealed bs ++ [(segmentName (Z.of_nat (length sealed)), b)].
Proof. unfold batches. by rewrite fmap_app, app_assoc. Qed.

Lemma writer_maybeCut sealed bs rw W :
  writer sealed bs rw W -> Z.of_nat (S (length sealed)) < 10 ^ 8 ->
  exists rw' W' sealed' bs', segmentedWAL_maybeCut rw W = (None, rw', W') /\
    writer sealed' bs' rw' W' /\ batches sealed' bs' = batches sealed bs /\
    (length sealed' <= S (length sealed))%nat.
Proof.
  intros (D & Hs & p & Hc) Hmax. unfold segmentedWAL_maybeCut. destruct (_ <=? _).
  2: { exists rw, W, sealed, bs. split; [done|]. split; [|split; [done|lia]]. split; [done|]. split; [done|by exists p]. }
  destruct (disk_seal sealed bs W D Hmax) as [Hnew D'].
  unfold segmentedWAL_cut, wal_sync, wal_close. rewrite Hc. cbn [w_open negb].
  rewrite !io_call_works by apply D. cbn [segments set_field]. simpl segments. rewrite Hs, segNames_app, last_snoc. simpl default.
  rewrite parse_segmentName by (pose proof (disk_count _ _ _ _ D); lia). simpl default.
  replace (wrap32 _) with (Z.of_nat (S (length sealed))) by (unfold wrap32; rewrite Z.mod_small; lia).
  rewrite newWAL_fresh by (done || apply D).
  do 2 eexists. exists (sealed ++ [(segmentName (Z.of_nat (length sealed)), bs)]), [].
  split; [reflexivity|]. split; [|split; [apply batches_seal|rewrite length_app; simpl; lia]].
  split; [exact D'|]. rewrite length_app, Nat.add_comm. split; [|by exists 0].
  simpl. rewrite Hs. by rewrite (segNames_app (S _)).
Qed.

Lemma writer_write sealed bs rw W b :
  writer sealed bs rw W -> small b ->
  exists rw' W', segmentedWAL_write b rw W = (None, rw', W') /\ writer sealed (bs ++ [b]) rw' W' /\
    segmentedWAL_sync rw' W' = (None, W') /\
    segmentedWAL_currentSegment rw' = segmentName (Z.of_nat (length sealed)).
Proof.
  intros (D & Hs & p & Hc) Hb. unfold segmentedWAL_write, wal_write, io. rewrite Hc. cbn [w_open negb w_filename].
  rewrite (disk_faults _ _ _ _ D). unfold content. rewrite (disk_current _ _ _ _ D), app_nil_r. simpl default.
  do 2 eexists. split; [reflexivity|].
  assert (frames bs ++ frame b = frames (bs ++ [b]) ++ []) as ->.
  { rewrite frames_app, frames_cons. by rewrite !app_nil_r. }
  split; [split; [|split; [done|]]|split; [|done]].
  - eapply disk_set_current; [done|apply Forall_app; split; [apply D|by apply Forall_singleton]|by left].
  - eexists. cbv beta iota zeta delta [set_field]. simpl. f_equal.
    rewrite frames_app, len_app, frames_cons, app_nil_r. lia.
  - unfold segmentedWAL_sync, wal_sync. simpl. apply io_call_works, D.
Qed.

(** A write that a crash interrupts leaves the batches and a torn frame. *)
Lemma writer_torn sealed bs rw W b n :
  writer sealed bs rw W -> small b -> (n < length (frame b))%nat ->
  exists e rw' W', segmentedWAL_write b rw (W <| faults := [Fails n] |>) = (Some e, rw', W') /\
    exists tail, disk sealed bs tail W'.
Proof.
  intros (D & Hs & p & Hc) Hb Hn. unfold segmentedWAL_write, wal_write, io. rewrite Hc. cbn [w_open negb w_filename].
  simpl faults. cbv iota. unfold content. simpl files. rewrite (disk_current _ _ _ _ D), app_nil_r. simpl default.
  do 3 eexists. split; [reflexivity|]. exists (take n (frame b)).
  pose proof (disk_faults _ _ _ _ D) as HF. destruct W as [F Q]. simpl in HF. subst Q.
  apply (disk_set_current _ _ _ _ _ _ D); [apply D|].
  destruct n as [|n]; [by left|]. right. exists b, (S n). split; [done|]. split; [done|lia].
Qed.

(** ** A storage in use *)

Record running (sealed : list (string * list bytes)) (bs : list bytes) (s : DurableStorage) : Prop := mkRunning {
  run_writer : writer sealed bs (d_rw s) (d_world s);
  run_hard : hard_wf (d_hd s);
  run_snap : d_snap s = mkSnap 0 0;
  run_state : exists t, feed replay_batch (batches sealed bs) blank = Ok (t, None) /\ same_state t s
}.

(** Arguments of [Save] that fit the 32-bit lengths of the encoding. *)
Definition save_fits (ents : list Entry) (hard : option HardState) : Prop :=
  Forall entry_wf ents /\ HardStateBytes + frameHeaderSize + computeTotalSize ents < 2 ^ 32 /\
  forall h, hard = Some h -> hard_wf h.

(** What [Save] stores for its [hard] argument. *)
Definition effective_hard (hard : option HardState) (s : DurableStorage) : HardState :=
  match hard with
  | Some h => if IsEmptyHardState hard then d_hd s else h
  | None => d_hd s
  end.

Lemma effective_hard_wf ents hard s : save_fits ents hard -> hard_wf (d_hd s) -> hard_wf (effective_hard hard s).
Proof. intros (_ & _ & Hh) Hd. destruct hard as [h|]; [|done]. unfold effective_hard. destruct (IsEmptyHardState (Some h)); [done|by apply Hh]. Qed.

Lemma small_batch ents hard h : save_fits ents hard -> small (encodeSaveBatch h ents).
Proof.
  intros (_ & Hs & _). unfold small, encodeSaveBatch.
  rewrite !len_app, len_encodeHardState, len_PutUint32, len_encodeEntries. unfold frameHeaderSize in Hs. lia.
Qed.

Definition note_segment (seg : string) (ents : list Entry) (s : DurableStorage) : DurableStorage :=
  match last ents with
  | Some e => s <| d_segLastIdx ::= <[ seg := e_Index e ]> |>
  | None => s
  end.

(** Replaying a batch repeats what [Save] did to the memory. *)
Lemma replay_batch_encode seg h ents s :
  hard_wf h -> Forall entry_wf ents -> computeTotalSize ents < 2 ^ 32 -> d_snap s = mkSnap 0 0 ->
  replay_batch seg (encodeSaveBatch h ents) s =
  DurableStorage_truncateAndAppend ents ((note_segment seg ents s) <| d_hd := h |>).
Proof.
  intros Hh He Hs Hsn. unfold replay_batch. rewrite decodeSaveBatch_encode by done. fold (note_segment seg ents s).
  assert (d_boundary (note_segment seg ents s) = 0) as -> by (unfold d_boundary, note_segment; destruct (last ents); simpl; by rewrite Hsn).
  done.
Qed.

Lemma truncateAndAppend_rest ents s s' e :
  DurableStorage_truncateAndAppend ents s = Ok (s', e) ->
  same_rest s' s /\ d_hd s' = d_hd s /\ d_snap s' = d_snap s /\ d_segLastIdx s' = d_segLastIdx s.
Proof.
  unfold DurableStorage_truncateAndAppend. destruct ents as [|e0 ents]; [by intros [= <- <-]|].
  repeat match goal with |- (if ?b then _ else _) = _ -> _ => destruct b end; try done; by intros [= <- <-].
Qed.

Lemma running_Save sealed bs s ents hard s' :
  running sealed bs s -> Z.of_nat (S (length sealed)) < 10 ^ 8 -> save_fits ents hard ->
  DurableStorage_Save ents hard s = Ok (s', None) ->
  exists sealed' bs', running sealed' bs' s' /\ (length sealed' <= S (length sealed))%nat.
Proof.
  intros [Hw Hh Hsn (t & Ht & Hst)] Hmax Hfit. unfold DurableStorage_Save. fold (effective_hard hard s).
  destruct (_ && _); [intros [= <-]; exists sealed, bs; split; [split; by eauto|lia]|].
  pose proof (effective_hard_wf _ _ _ Hfit Hh) as Heff. set (eff := effective_hard hard s) in *.
  destruct (writer_write _ _ _ _ _ Hw (small_batch ents hard eff Hfit)) as (rw1 & W1 & -> & Hw1 & -> & Hcur).
  rewrite Hcur. set (seg := segmentName _) in *.
  destruct (writer_maybeCut _ _ _ _ Hw1 Hmax) as (rw2 & W2 & sealed' & bs' & Hcut & Hw2 & Hb & Hle).
  set (s1 := s <| d_rw := rw1 |> <| d_world := W1 |>). fold (note_segment seg ents s1).
  assert (d_rw (note_segment seg ents s1) = rw1 /\ d_world (note_segment seg ents s1) = W1) as [-> ->]
    by (unfold note_segment; by destruct (last ents)).
  rewrite Hcut. intros Happ. exists sealed', bs'. split; [|done].
  pose proof (truncateAndAppend_rest _ _ _ _ Happ) as ((Hrw & _ & HW & _) & Hhd & Hsnap & _).
  destruct Hfit as (Hwf & Hsz & _). assert (computeTotalSize ents < 2 ^ 32) by (unfold frameHeaderSize, HardStateBytes in *; lia).
  assert (d_snap t = mkSnap 0 0) as Htsn by (destruct Hst as (_ & _ & -> & _); done).
  assert (Hst2 : same_state ((note_segment seg ents s1) <| d_rw := rw2 |> <| d_world := W2 |> <| d_hd := eff |>)
                            ((note_segment seg ents t) <| d_hd := eff |>)).
  { destruct Hst as (_ & He & Hs & Hi). unfold note_segment, s1. destruct (last ents); unfold same_state, set_field; simpl; by rewrite ?Hi. }
  destruct (truncateAndAppend_state _ _ _ _ _ Hst2 Happ) as (t' & Ht' & Hst' & _).
  split.
  - rewrite Hrw, HW. exact Hw2.
  - rewrite Hhd. exact Heff.
  - rewrite Hsnap. unfold note_segment. destruct (last ents); exact Hsn.
  - exists t'. split; [|by unfold same_state in *; intuition congruence].
    rewrite Hb, batches_snoc, (feed_app _ _ _ _ _ Ht). cbn [feed].
    rewrite replay_batch_encode by done. fold seg. by rewrite Ht'.
Qed.

(** ** Lifetimes *)

Lemma newSegmentedWAL_empty limit :
  newSegmentedWAL limit (mkWorld ∅ []) =
    (inr (mkSegWal (limit_or_default limit) [segmentName 0] (mkWal (segmentName 0) 0 0 true)),
     mkWorld {[ segmentName 0 := [] ]} []).
Proof. reflexivity. Qed.

Lemma disk_empty : disk [] [] [] (mkWorld (<[ snapFilename := [] ]> {[ segmentName 0 := [] ]}) []).
Proof.
  split; try done; [by left|]. intros name [x Hx] Hp. apply segNames_elem. exists 0. split; [simpl; lia|].
  simpl in Hx. apply lookup_insert_Some in Hx as [[<- _]|[_ Hx]]; [by destruct Hp|].
  by apply lookup_singleton_Some in Hx as [<- _].
Qed.

Lemma open_empty limit threshold :
  exists s, NewDurableStorageWithOptions limit threshold (mkWorld ∅ []) = Ok (inr s, d_world s) /\ running [] [] s.
Proof.
  unfold NewDurableStorageWithOptions. rewrite newSegmentedWAL_empty, newWAL_fresh by done.
  edestruct (disk_replay [] [] [] _ (limit_or_default limit) (if threshold =? 0 then DefaultCompactThreshold else threshold) blank disk_empty)
    as (s & Hr & Hs & Hw); [done|].
  exists s. split; [|split; [exact Hw|by destruct Hs as (<- & _)|by destruct Hs as (_ & _ & <- & _)|by exists blank]].
  match type of Hr with ?x = _ => match goal with |- context [replay ?y] => change (replay y) with x end end. by rewrite Hr.
Qed.

(** The states a storage goes through when it is only saved to, reopened, and
    interrupted in the middle of a write; [k] counts the saves. *)
Inductive lifetime : nat -> DurableStorage -> Prop :=
| life_new limit threshold s W :
    NewDurableStorageWithOptions limit threshold (mkWorld ∅ []) = Ok (inr s, W) -> lifetime 0 s
| life_save k s ents hard s' :
    lifetime k s -> save_fits ents hard -> DurableStorage_Save ents hard s = Ok (s', None) ->
    lifetime (S k) s'
| life_reopen k s limit threshold s' W :
    lifetime k s -> NewDurableStorageWithOptions limit threshold (d_world s) = Ok (inr s', W) ->
    lifetime k s'
| life_crash k s ents hard n s1 e limit threshold s' W :
    lifetime k s -> save_fits ents hard ->
    (n < length (frame (encodeSaveBatch (effective_hard hard s) ents)))%nat ->
    DurableStorage_Save ents hard (s <| d_world ::= fun W => W <| faults := [Fails n] |> |>) = Ok (s1, Some e) ->
    NewDurableStorageWithOptions limit threshold (d_world s1) = Ok (inr s', W) ->
    lifetime k s'.

Lemma running_reopen sealed bs s limit threshold :
  running sealed bs s ->
  exists s', NewDurableStorageWithOptions limit threshold (d_world s) = Ok (inr s', d_world s') /\
    same_state s s' /\ running sealed bs s'.
Proof.
  intros [(D & _) Hh Hsn (t & Ht & Hst)].
  destruct (disk_reopen _ _ _ _ limit threshold _ D Ht) as (s' & Hr & Hs & Hw).
  exists s'. split; [done|]. unfold same_state in *. split; [intuition congruence|].
  split; [done| | |exists t; split; [done|exact Hs]]; intuition congruence.
Qed.

(** An interrupted save fails, and the directory still opens to the memory
    before it. *)
Lemma running_crash sealed bs s ents hard n limit threshold :
  running sealed bs s -> save_fits ents hard -> negb ((len ents =? 0) && IsEmptyHardState hard) = true ->
  (n < length (frame (encodeSaveBatch (effective_hard hard s) ents)))%nat ->
  exists s1 e s', DurableStorage_Save ents hard (s <| d_world ::= fun W => W <| faults := [Fails n] |> |>) = Ok (s1, Some e) /\
    NewDurableStorageWithOptions limit threshold (d_world s1) = Ok (inr s', d_world s') /\
    same_state s s' /\ running sealed bs s'.
Proof.
  intros [Hw Hh Hsn (t & Ht & Hst)] Hfit Hne Hn. apply negb_true_iff in Hne.
  unfold DurableStorage_Save. rewrite Hne. change (d_hd (s <| d_world ::= ?f |>)) with (d_hd s). fold (effective_hard hard s).
  change (d_rw (s <| d_world ::= ?f |>)) with (d_rw s).
  change (d_world (s <| d_world ::= fun W => W <| faults := [Fails n] |> |>)) with ((d_world s) <| faults := [Fails n] |>).
  destruct (writer_torn _ _ _ _ _ n Hw (small_batch ents hard (effective_hard hard s) Hfit) Hn)
    as (e & rw' & W' & -> & tail & D).
  destruct (disk_reopen _ _ _ _ limit threshold _ D Ht) as (s' & Hr & Hs & Hw').
  do 2 eexists. exists s'. split; [reflexivity|]. split; [exact Hr|]. unfold same_state in *. split; [intuition congruence|].
  split; [done| | |exists t; split; [done|exact Hs]]; intuition congruence.
Qed.

Lemma lifetime_running k s :
  lifetime k s -> Z.of_nat k < 10 ^ 8 - 1 -> exists sealed bs, running sealed bs s /\ (length sealed <= k)%nat.
Proof.
  induction 1 as [limit th s W Hn|k s ents hard s' _ IH Hfit HS|k s limit th s' W _ IH Hn|k s ents hard n s1 e limit th s' W _ IH Hfit Hl HS Hn]; intros Hk.
  - destruct (open_empty limit th) as (s0 & Hn0 & Hr). rewrite Hn in Hn0. injection Hn0 as <- _. by exists [], [].
  - destruct IH as (sealed & bs & Hr & Hle); [lia|].
    destruct (running_Save _ _ _ ents hard s' Hr ltac:(lia) Hfit HS) as (sealed' & bs' & ? & ?).
    exists sealed', bs'. split; [done|lia].
  - destruct IH as (sealed & bs & Hr & Hle); [lia|].
    destruct (running_reopen _ _ _ limit th Hr) as (s0 & Hn0 & _ & Hr'). rewrite Hn in Hn0. injection Hn0 as <- _. by exists sealed, bs.
  - destruct IH as (sealed & bs & Hr & Hle); [lia|].
    destruct ((len ents =? 0) && IsEmptyHardState hard) eqn:E; [unfold DurableStorage_Save in HS; by rewrite E in HS|].
    destruct (running_crash _ _ _ ents hard n limit th Hr Hfit) as (s2 & e2 & s3 & HS2 & Hn2 & _ & Hr'); [by rewrite E|done|].
    rewrite HS in HS2. injection HS2 as <- _. rewrite Hn in Hn2. injection Hn2 as <- _. by exists sealed, bs.
Qed.
