(* ===== verification/RaftLog.v ===== *)
(** * RaftLog: the two-layer log ([raft/log.go], [raft/log_unstable.go])

    [unstable] holds the entries not yet persisted, [raftLog] puts it on top of a
    [Storage].  Reslicing [u.entries[:k]] beyond the length is a panic here (Go
    panics beyond the capacity and otherwise uncovers stale memory): the
    theorems show that the log never gets there.  Slices are values here; in Go
    [Raft.Ready] shares the array of [u.entries], and [truncateAndAppend] may write
    into it while the host stores it ([append_overwrites_ready] in Findings). *)

From S2P Require Export Storage.

Record unstable : Type := mkUnstable {
  u_entries : list Entry;
  u_offset : Z
}.

#[export] Instance eta_unstable : Eta unstable := fun u =>
  mkUnstable (u_entries u) (u_offset u).

Definition unstable_stableTo (i term : Z) (u : unstable) : res unstable :=
  if i <? u_offset u then Ok u
  else
    let k := i -u u_offset u in
    if len (u_entries u) <=? int64 k then Ok u
    else
      match index (u_entries u) k with
      | None => Panic "index out of range"
      | Some e =>
          if negb (e_Term e =? term) then Ok u
          else Ok (mkUnstable (slice_from (u_entries u) (k + 1)) (i +u 1))
      end.

Definition unstable_truncateAndAppend (entries : list Entry) (u : unstable) : res unstable :=
  match head entries with
  | None => Panic "index out of range"
  | Some e0 =>
      let first := e_Index e0 in
      if first <=? u_offset u then Ok (mkUnstable entries first)
      else if first =? u_offset u +u len (u_entries u) then
        Ok (u <| u_entries ::= fun l => l ++ entries |>)
      else if len (u_entries u) <? first -u u_offset u then
        Panic "slice bounds out of range"
      else
        Ok (u <| u_entries := slice_to (u_entries u) (first -u u_offset u) ++ entries |>)
  end.

Definition unstable_maybeLastIndex (u : unstable) : option Z :=
  e_Index <$> last (u_entries u).

(** The range check makes the index [u.entries[index-u.offset]] valid. *)
Definition unstable_maybeTerm (i : Z) (u : unstable) : option Z :=
  if (i <? u_offset u) || (u_offset u +u len (u_entries u) <=? i) then None
  else e_Term <$> index (u_entries u) (i -u u_offset u).

Record raftLog (St : Type) : Type := mkRaftLog {
  l_storage : St;
  l_unstable : unstable;
  l_committed : Z;
  l_applied : Z
}.
Arguments mkRaftLog {St} _ _ _ _.
Arguments l_storage {St} _.
Arguments l_unstable {St} _.
Arguments l_committed {St} _.
Arguments l_applied {St} _.

#[export] Instance eta_raftLog St : Eta (raftLog St) := fun l =>
  mkRaftLog (l_storage l) (l_unstable l) (l_committed l) (l_applied l).

Section raftlog.
Context {St : Type} `{!Storage St}.
Implicit Types l : raftLog St.

Definition newRaftLog (s : St) : raftLog St :=
  let firstIndex := FirstIndex s in
  let lastIndex := LastIndex s in
  let start := if 0 <? firstIndex then firstIndex -u 1 else 0 in
  mkRaftLog s (mkUnstable [] (lastIndex +u 1)) start start.

Definition raftLog_term (i : Z) (l : raftLog St) : res (Result Z) :=
  if i =? 0 then Ok (inr 0)
  else match unstable_maybeTerm i (l_unstable l) with
       | Some t => Ok (inr t)
       | None => Term i (l_storage l)
       end.

Definition raftLog_matchTerm (i term : Z) (l : raftLog St) : res bool :=
  t ← raftLog_term i l;
  Ok (match t with inl _ => false | inr t => t =? term end).

Definition raftLog_nextUnstableEnts (l : raftLog St) : list Entry :=
  u_entries (l_unstable l).

Definition raftLog_lastIndex (l : raftLog St) : Z :=
  match unstable_maybeLastIndex (l_unstable l) with
  | Some i => i
  | None => LastIndex (l_storage l)
  end.

(** The entries [lo, hi): first what storage holds below the unstable offset,
    then the unstable ones. *)
Definition raftLog_slice (lo hi : Z) (l : raftLog St) : res (list Entry) :=
  let offset := u_offset (l_unstable l) in
  let uents := u_entries (l_unstable l) in
  if hi <=? lo then Ok []
  else
    stored ← (if lo <? offset then Entries lo (Z.min hi offset) (l_storage l)
              else Ok (inr []));
    match stored with
    | inl _ => Ok []
    | inr ents =>
        if offset <? hi then
          let unstableLo := Z.max lo offset -u offset in
          let unstableHi := Z.min (hi -u offset) (len uents) in
          if unstableHi <? unstableLo then Panic "slice bounds out of range"
          else Ok (ents ++ slice uents unstableLo unstableHi)
        else Ok ents
    end.

Definition raftLog_nextCommittedEnts (l : raftLog St) : res (list Entry) :=
  if l_committed l <=? l_applied l then Ok []
  else raftLog_slice (l_applied l +u 1) (l_committed l +u 1) l.

Definition raftLog_stableTo (i term : Z) (l : raftLog St) : res (raftLog St) :=
  u ← unstable_stableTo i term (l_unstable l);
  Ok (l <| l_unstable := u |>).

Definition raftLog_appliedTo (i : Z) (l : raftLog St) : raftLog St :=
  l <| l_applied := i |>.

Definition raftLog_commitTo (i : Z) (l : raftLog St) : res (raftLog St) :=
  if i <=? l_committed l then Ok l
  else if raftLog_lastIndex l <? i then Panic "commitTo: index is out of range"
  else Ok (l <| l_committed := i |>).

(** The Go function also returns [l.lastIndex()], which no caller uses. *)
Definition raftLog_appendEntries (ents : list Entry) (l : raftLog St) : res (raftLog St) :=
  match head ents with
  | None => Ok l
  | Some e0 =>
      if e_Index e0 -u 1 <? l_committed l then
        Panic "appendEntries: after is before committed"
      else
        u ← unstable_truncateAndAppend ents (l_unstable l);
        Ok (l <| l_unstable := u |>)
  end.

Definition raftLog_hasNextUnstableEnts (l : raftLog St) : bool :=
  0 <? len (u_entries (l_unstable l)).

Definition raftLog_hasNextCommittedEnts (l : raftLog St) : bool :=
  l_applied l <? l_committed l.

Definition raftLog_lastEntryID (l : raftLog St) : res (Z * Z) :=
  let i := raftLog_lastIndex l in
  if i =? 0 then Ok (0, 0)
  else
    t ← raftLog_term i l;
    match t with
    | inl _ => Panic "unexpected error getting term for last entry"
    | inr t => Ok (i, t)
    end.

Definition raftLog_isUpToDate (i term : Z) (l : raftLog St) : res bool :=
  '(lastIndex, lastTerm) ← raftLog_lastEntryID l;
  Ok ((lastTerm <? term) || ((term =? lastTerm) && (lastIndex <=? i))).

Definition raftLog_restore (snapIndex : Z) (l : raftLog St) : raftLog St :=
  mkRaftLog (l_storage l) (mkUnstable [] (snapIndex +u 1))
    (if l_committed l <? snapIndex then snapIndex else l_committed l)
    (if l_applied l <? snapIndex then snapIndex else l_applied l).

End raftlog.
