(* ===== verification/RaftLogSpec.v ===== *)
(** * RaftLogSpec: the two-layer log refines one list of entries

    [log_view] is the abstract log: what storage holds below the unstable offset
    followed by the unstable entries.  Against any storage that meets
    [StorageSpec], the operations of [raftLog] are shown to be the expected list
    operations on that view, and persisting ([Save] then [stableTo]) to leave it
    unchanged. *)

From S2P Require Export RaftLog.

Section spec.
Context {St : Type} `{!Storage St} `{!StorageSpec St}.
Implicit Types l : raftLog St.

(** The snapshot boundary of the log: its index and term. *)
Definition log_snap (l : raftLog St) : SnapshotMeta := st_snap (l_storage l).
Definition log_base (l : raftLog St) : Z := LastIncludedIndex (log_snap l).

Definition log_view (l : raftLog St) : list Entry :=
  slice_to (st_log (l_storage l)) (u_offset (l_unstable l) - log_base l - 1)
  ++ u_entries (l_unstable l).

(** The abstract last index. *)
Definition log_last (l : raftLog St) : Z := log_base l + len (log_view l).

(** The two layers fit together: the unstable entries are contiguous from the
    offset, and the offset is at most one past what storage holds. *)
Definition raftLog_wf (l : raftLog St) : Prop :=
  st_ok (l_storage l) /\
  contig (u_offset (l_unstable l)) (u_entries (l_unstable l)) /\
  log_base l < u_offset (l_unstable l) <= st_last (l_storage l) + 1 /\
  (u_entries (l_unstable l) = [] -> u_offset (l_unstable l) = st_last (l_storage l) + 1) /\
  u_offset (l_unstable l) + len (u_entries (l_unstable l)) <= MaxIndex.

(** The cursors are ordered: applied, committed, last. *)
Definition raftLog_ok (l : raftLog St) : Prop :=
  raftLog_wf l /\
  0 <= l_applied l <= l_committed l /\ l_committed l <= log_last l /\
  log_base l <= l_committed l.

(** The term of the abstract log at an index. *)
Definition view_term (i : Z) (l : raftLog St) : option Z :=
  if i =? 0 then Some 0
  else if i =? log_base l then Some (LastIncludedTerm (log_snap l))
  else e_Term <$> index (log_view l) (i - log_base l - 1).

(** ** The view *)

Lemma st_last_bounds s : st_ok s -> LastIncludedIndex (st_snap s) <= st_last s < MaxIndex.
Proof.
  intros Hs. destruct (st_bounds s Hs). unfold st_last.
  pose proof (len_nonneg (st_log s)). lia.
Qed.

Lemma log_base_nonneg l : raftLog_wf l -> 0 <= log_base l.
Proof. intros (Hs & _). apply (st_bounds _ Hs). Qed.

Lemma stable_part_len l :
  raftLog_wf l ->
  len (slice_to (st_log (l_storage l)) (u_offset (l_unstable l) - log_base l - 1))
  = u_offset (l_unstable l) - log_base l - 1.
Proof.
  intros (Hs & _ & Ho & _). unfold slice_to, len. rewrite length_take.
  unfold st_last, log_base, log_snap, len in *. lia.
Qed.

Lemma log_view_len l :
  raftLog_wf l ->
  len (log_view l) =
  u_offset (l_unstable l) - log_base l - 1 + len (u_entries (l_unstable l)).
Proof. intros H. unfold log_view. by rewrite len_app, stable_part_len. Qed.

Lemma log_last_eq l :
  raftLog_wf l ->
  log_last l = u_offset (l_unstable l) + len (u_entries (l_unstable l)) - 1.
Proof. intros H. unfold log_last. rewrite log_view_len by done. lia. Qed.

Lemma log_view_contig l : raftLog_wf l -> contig (log_base l + 1) (log_view l).
Proof.
  intros H. unfold log_view. apply contig_app. rewrite stable_part_len by done.
  destruct H as (Hs & Hc & _). split.
  - apply contig_take. apply (st_contig _ Hs).
  - by replace (log_base l + 1 + (u_offset (l_unstable l) - log_base l - 1))
      with (u_offset (l_unstable l)) by lia.
Qed.

(** With nothing unstable, the view is the stored log. *)
Lemma log_view_stable l :
  raftLog_wf l -> u_entries (l_unstable l) = [] -> log_view l = st_log (l_storage l).
Proof.
  intros H He. unfold log_view. rewrite He, app_nil_r.
  destruct H as (_ & _ & _ & Hx & _). rewrite (Hx He).
  unfold slice_to. apply take_ge. unfold st_last, log_base, log_snap, len. lia.
Qed.

Lemma raftLog_lastIndex_view l : raftLog_wf l -> raftLog_lastIndex l = log_last l.
Proof.
  intros H. unfold raftLog_lastIndex, unstable_maybeLastIndex.
  destruct (last (u_entries (l_unstable l))) as [e|] eqn:E; simpl.
  - rewrite (log_last_eq l H). destruct H as (_ & Hc & _).
    rewrite (contig_last _ _ _ Hc E). lia.
  - apply last_None in E. rewrite (log_last_eq l H), E, len_nil.
    destruct H as (Hs & _ & _ & Hx & _). rewrite (st_LastIndex _ Hs), (Hx E).
    unfold st_last. lia.
Qed.

Lemma log_last_bounds l : raftLog_wf l -> log_base l <= log_last l < MaxIndex.
Proof.
  intros H. pose proof (log_last_eq l H). destruct H as (_ & _ & ? & _ & ?).
  pose proof (len_nonneg (u_entries (l_unstable l))). lia.
Qed.

(** Looking an index up in the view goes to the layer that holds it. *)
Lemma index_view_stable l i :
  raftLog_wf l -> log_base l < i < u_offset (l_unstable l) ->
  index (log_view l) (i - log_base l - 1) = index (st_log (l_storage l)) (i - log_base l - 1).
Proof.
  intros H Hi. pose proof (stable_part_len l H) as Hlen.
  unfold index, log_view, slice_to, len in *. rewrite !decide_True by lia.
  rewrite lookup_app_l by lia. apply lookup_take_lt. lia.
Qed.

Lemma index_view_unstable l i :
  raftLog_wf l -> u_offset (l_unstable l) <= i ->
  index (log_view l) (i - log_base l - 1) =
  index (u_entries (l_unstable l)) (i - u_offset (l_unstable l)).
Proof.
  intros H Hi. pose proof (stable_part_len l H) as Hlen.
  destruct H as (_ & _ & ? & _).
  unfold index, log_view, len in *. rewrite !decide_True by lia.
  rewrite lookup_app_r by lia. f_equal. lia.
Qed.

Lemma maybeTerm_in i l :
  raftLog_wf l -> u_offset (l_unstable l) <= i <= log_last l ->
  unstable_maybeTerm i (l_unstable l) =
  e_Term <$> index (u_entries (l_unstable l)) (i - u_offset (l_unstable l)).
Proof.
  intros H Hi. pose proof (log_last_eq l H). pose proof (log_base_nonneg l H).
  destruct H as (_ & _ & ? & _ & ?). unfold unstable_maybeTerm in *.
  rewrite !wrap64_id by (unfold is_u64; lia).
  by replace ((i <? _) || (_ <=? i)) with false by lia.
Qed.

Lemma maybeTerm_out i l :
  raftLog_wf l -> i < u_offset (l_unstable l) \/ log_last l < i ->
  unstable_maybeTerm i (l_unstable l) = None.
Proof.
  intros H Hi. pose proof (log_last_eq l H). pose proof (log_base_nonneg l H).
  destruct H as (_ & _ & ? & _ & ?). unfold unstable_maybeTerm in *.
  pose proof (len_nonneg (u_entries (l_unstable l))).
  rewrite (wrap64_id (_ + len _)) by (unfold is_u64; lia).
  by replace ((i <? _) || (_ <=? i)) with true by lia.
Qed.

(** Inside the log, [term] reads the view. *)
Lemma raftLog_term_view i l :
  raftLog_wf l -> log_base l <= i <= log_last l ->
  exists t, view_term i l = Some t /\ raftLog_term i l = Ok (inr t).
Proof.
  intros H Hi. pose proof (log_base_nonneg l H). pose proof (log_view_len l H) as Hl.
  unfold raftLog_term, view_term. destruct (i =? 0) eqn:E0; to_prop; [by eauto|].
  destruct (Z_lt_le_dec i (u_offset (l_unstable l))) as [Hlt|Hge].
  - rewrite maybeTerm_out by auto.
    assert (Hs : st_ok (l_storage l)) by apply H. rewrite (st_Term _ i Hs). simpl.
    fold (log_snap l). fold (log_base l).
    assert (log_base l + len (st_log (l_storage l)) = st_last (l_storage l)) as -> by done.
    pose proof H as (_ & _ & ? & _). assert ((i <? log_base l) = false) as -> by lia.
    assert ((st_last (l_storage l) <? i) = false) as -> by lia.
    destruct (i =? log_base l) eqn:Eb; to_prop; [by eauto|].
    rewrite index_view_stable by (done || lia).
    destruct (index_is_Some (st_log (l_storage l)) (i - log_base l - 1)) as [e He].
    { unfold st_last, log_base, log_snap in *. lia. }
    rewrite He. by eauto.
  - rewrite maybeTerm_in by (done || lia).
    assert ((i =? log_base l) = false) as ->.
    { destruct H as (_ & _ & ? & _). lia. }
    rewrite (index_view_unstable l i H Hge).
    destruct (index_is_Some (u_entries (l_unstable l)) (i - u_offset (l_unstable l))) as [e He].
    { pose proof (log_last_eq l H). lia. }
    rewrite He. by eauto.
Qed.

Lemma raftLog_term_total i l :
  raftLog_wf l -> exists t, raftLog_term i l = Ok t.
Proof.
  intros H. unfold raftLog_term. destruct (i =? 0); [by eauto|].
  destruct (unstable_maybeTerm i (l_unstable l)); [by eauto|].
  destruct H as (Hs & _). rewrite (st_Term _ i Hs). by eauto.
Qed.

Lemma raftLog_term_compacted i l :
  raftLog_wf l -> 0 < i < log_base l -> raftLog_term i l = Ok (inl ErrCompacted).
Proof.
  intros H Hi. unfold raftLog_term. assert ((i =? 0) = false) as -> by lia.
  rewrite maybeTerm_out; [|done|destruct H as (_ & _ & ? & _); lia].
  destruct H as (Hs & _). rewrite (st_Term _ i Hs). simpl.
  fold (log_snap l). fold (log_base l). by assert ((i <? log_base l) = true) as -> by lia.
Qed.

Lemma raftLog_matchTerm_total i t l :
  raftLog_wf l -> exists b, raftLog_matchTerm i t l = Ok b.
Proof.
  intros H. unfold raftLog_matchTerm.
  destruct (raftLog_term_total i l H) as [x ->]. simpl. by eauto.
Qed.

Lemma raftLog_matchTerm_view i t l :
  raftLog_wf l -> log_base l <= i <= log_last l ->
  raftLog_matchTerm i t l = Ok (bool_decide (view_term i l = Some t)).
Proof.
  intros H Hi. unfold raftLog_matchTerm.
  destruct (raftLog_term_view i l H Hi) as (x & Hv & ->). simpl. rewrite Hv.
  f_equal. destruct (x =? t) eqn:E; to_prop; symmetry.
  - apply bool_decide_eq_true. by f_equal.
  - apply bool_decide_eq_false. congruence.
Qed.

(** ** Reading a range *)

Lemma raftLog_slice_view lo hi l :
  raftLog_wf l -> log_base l < lo -> lo <= hi -> hi <= log_last l + 1 ->
  raftLog_slice lo hi l = Ok (slice (log_view l) (lo - log_base l - 1) (hi - log_base l - 1)).
Proof.
  intros H Hlo Hle Hhi. unfold raftLog_slice.
  destruct (hi <=? lo) eqn:E; to_prop; [by rewrite slice_empty by lia|].
  pose proof (stable_part_len l H) as Hst. pose proof (log_last_eq l H) as Hlast.
  pose proof (log_base_nonneg l H) as Hb. pose proof H as (Hs & Hc & Ho & _ & Hmax).
  unfold log_view. rewrite slice_app by lia. rewrite slice_slice_to, Hst by lia.
  destruct (lo <? u_offset (l_unstable l)) eqn:Elo; to_prop.
  - rewrite (st_Entries _ _ _ Hs); [|unfold log_base, log_snap, st_last in *; lia..].
    fold (log_snap l). fold (log_base l). simpl.
    destruct (u_offset (l_unstable l) <? hi) eqn:Ehi; to_prop.
    + rewrite !wrap64_id by (unfold is_u64; lia).
      replace (_ <? _) with false by lia. f_equal. f_equal.
      * unfold slice. f_equal. lia.
      * replace (Z.max lo _ - _) with 0 by lia.
        replace (Z.max (lo - log_base l - 1) _ - _) with 0 by lia.
        rewrite slice_clip by lia. f_equal. lia.
    + rewrite (slice_empty (u_entries _)) by lia. rewrite app_nil_r. f_equal.
      unfold slice. f_equal. lia.
  - simpl. replace (_ <? hi) with true by lia.
    rewrite !wrap64_id by (unfold is_u64; lia).
    replace (_ <? _) with false by lia.
    rewrite (slice_empty (st_log _)) by lia. simpl. f_equal.
    rewrite slice_clip by lia. f_equal; lia.
Qed.

(** The entries handed to the state machine are those between the applied and
    the committed cursor. *)
Lemma raftLog_nextCommittedEnts_view l :
  raftLog_ok l -> log_base l <= l_applied l ->
  raftLog_nextCommittedEnts l =
  Ok (slice (log_view l) (l_applied l - log_base l) (l_committed l - log_base l)).
Proof.
  intros (H & Ha & Hc & Hb) Hap. unfold raftLog_nextCommittedEnts.
  pose proof (log_last_bounds l H). pose proof (log_base_nonneg l H).
  destruct (l_committed l <=? l_applied l) eqn:E; to_prop; [by rewrite slice_empty by lia|].
  rewrite !wrap64_id by (unfold is_u64; lia).
  rewrite raftLog_slice_view by (done || lia). do 2 f_equal; lia.
Qed.

(** ** Appending *)

(** A batch [ents] that [appendEntries] accepts: contiguous, starting inside the
    log or right after it. *)
Definition appendable (ents : list Entry) (l : raftLog St) : Prop :=
  ents <> [] /\ contig (first_of ents) ents /\
  l_committed l < first_of ents <= log_last l + 1 /\
  first_of ents + len ents <= MaxIndex.

Lemma truncateAndAppend_view ents l :
  raftLog_wf l -> ents <> [] -> contig (first_of ents) ents ->
  log_base l < first_of ents <= log_last l + 1 ->
  first_of ents + len ents <= MaxIndex ->
  exists u', unstable_truncateAndAppend ents (l_unstable l) = Ok u' /\
    let l' := l <| l_unstable := u' |> in
    raftLog_wf l' /\ u_entries u' <> [] /\
    log_view l' = slice_to (log_view l) (first_of ents - log_base l - 1) ++ ents.
Proof.
  intros H Hne Hce Hf Hm. pose proof (log_last_eq l H) as Hlast.
  pose proof (log_base_nonneg l H) as Hb. pose proof (stable_part_len l H) as Hst.
  pose proof H as (Hs & Hc & Ho & Hx & Hmax). unfold unstable_truncateAndAppend.
  pose proof (len_nonneg (u_entries (l_unstable l))) as Hn0.
  assert (Hlenp : 0 < len ents) by (destruct ents; [done|]; rewrite len_cons; pose proof (len_nonneg ents); lia).
  assert (exists e0, head ents = Some e0 /\ e_Index e0 = first_of ents) as (e0 & -> & He0).
  { destruct ents as [|e0 ents]; [done|]. by exists e0. }
  rewrite He0.
  unfold raftLog_wf, log_view, log_base, log_snap in *; simpl in *.
  destruct (first_of ents <=? u_offset (l_unstable l)) eqn:E1; to_prop.
  { eexists. split; [done|]. simpl. split_and!; try done; try lia; try by intros ?.
        rewrite slice_to_app, slice_to_slice_to.
    rewrite (slice_to_neg (u_entries _)) by lia. rewrite app_nil_r. do 2 f_equal. lia. }
  rewrite (wrap64_id (_ + len _)) by (unfold is_u64; lia).
  destruct (first_of ents =? _) eqn:E2; to_prop.
  { eexists. split; [done|]. simpl. split_and!; try done; try lia; try by intros ?.
    - apply contig_app. split; [done|]. by rewrite <-E2.
    - by intros []%app_eq_nil.
    - rewrite len_app. lia.
    - by intros []%app_eq_nil.
    - rewrite app_assoc. f_equal. rewrite (slice_to_all (_ ++ _)); [done|].
      rewrite len_app. lia. }
  rewrite (wrap64_id (first_of ents - _)) by (unfold is_u64; lia).
  replace (len (u_entries (l_unstable l)) <? _) with false by lia.
  eexists. split; [done|]. simpl.
  assert (Hl : len (slice_to (u_entries (l_unstable l)) (first_of ents - u_offset (l_unstable l)))
    = first_of ents - u_offset (l_unstable l)) by (apply len_slice_to; lia).
  split_and!; try done; try lia; try by intros ?.
  - apply contig_app. split; [by apply contig_take|]. rewrite Hl.
    by replace (u_offset (l_unstable l) + (first_of ents - u_offset (l_unstable l))) with (first_of ents) by lia.
  - by intros []%app_eq_nil.
  - rewrite len_app. lia.
  - by intros []%app_eq_nil.
  - rewrite slice_to_app, slice_to_slice_to, app_assoc, Hst. do 2 f_equal; f_equal; lia.
Qed.

Lemma raftLog_appendEntries_view ents l :
  raftLog_ok l -> appendable ents l ->
  exists l', raftLog_appendEntries ents l = Ok l' /\ raftLog_ok l' /\
    l_storage l' = l_storage l /\ l_committed l' = l_committed l /\ l_applied l' = l_applied l /\
    log_view l' = slice_to (log_view l) (first_of ents - log_base l - 1) ++ ents.
Proof.
  intros (H & Ha & Hc & Hb) (Hne & Hce & Hf & Hm).
  pose proof (log_base_nonneg l H).
  destruct (truncateAndAppend_view ents l) as (u' & Hu & Hwf & _ & Hv); [done..|lia|done|].
  unfold raftLog_appendEntries.
  assert (exists e0, head ents = Some e0 /\ e_Index e0 = first_of ents) as (e0 & -> & He0).
  { destruct ents as [|e0 ents]; [done|]. by exists e0. }
  rewrite He0. rewrite wrap64_id by (unfold is_u64 in *; pose proof (len_nonneg ents); lia).
  replace (_ <? l_committed l) with false by lia. rewrite Hu. simpl.
  eexists. split; [done|]. split; [|done]. split; [done|]. simpl.
  split; [done|]. split; [|done].
  unfold log_last. rewrite Hv, len_app, len_slice_to.
  - change (log_base (l <| l_unstable := u' |>)) with (log_base l).
    pose proof (len_nonneg ents). lia.
  - unfold log_last in *. lia.
Qed.

(** Nothing at or below the committed cursor changes. *)
Lemma slice_to_committed_prefix ents l l' :
  raftLog_ok l -> appendable ents l ->
  log_view l' = slice_to (log_view l) (first_of ents - log_base l - 1) ++ ents ->
  slice_to (log_view l') (l_committed l - log_base l) =
  slice_to (log_view l) (l_committed l - log_base l).
Proof.
  intros (H & Ha & Hc & Hb) (Hne & Hce & Hf & Hm) Hv. rewrite Hv, slice_to_app, slice_to_slice_to.
  unfold log_last in *. rewrite len_slice_to by lia.
  rewrite (slice_to_neg ents) by lia. rewrite app_nil_r. f_equal. lia.
Qed.

(** ** Committing *)

Lemma raftLog_commitTo_spec i l :
  raftLog_ok l ->
  raftLog_commitTo i l =
  if i <=? l_committed l then Ok l
  else if log_last l <? i then Panic "commitTo: index is out of range"
  else Ok (l <| l_committed := i |>).
Proof.
  intros (H & _). unfold raftLog_commitTo. by rewrite raftLog_lastIndex_view.
Qed.

Lemma raftLog_commitTo_ok i l l' :
  raftLog_ok l -> raftLog_commitTo i l = Ok l' ->
  raftLog_ok l' /\ l_committed l' = Z.max (l_committed l) i /\
  l_storage l' = l_storage l /\ l_unstable l' = l_unstable l /\ l_applied l' = l_applied l.
Proof.
  intros Hok. rewrite raftLog_commitTo_spec by done. destruct Hok as (H & Ha & Hc & Hb).
  split_ifs; intros; inv_res; to_prop; simpl; unfold raftLog_ok.
  - split_and!; try done; lia.
  - simpl. unfold raftLog_wf, log_last, log_view, log_base, log_snap in *; simpl in *.
    split_and!; try done; try lia; naive_solver lia.
Qed.

(** ** Persisting *)

(** Once storage agrees with the first [k] unstable entries, marking them stable
    moves them below the offset without changing the view. *)
Lemma stableTo_view l (k : nat) e :
  raftLog_wf l ->
  u_entries (l_unstable l) !! k = Some e ->
  st_log (l_storage l) =
    slice_to (st_log (l_storage l)) (u_offset (l_unstable l) - log_base l - 1)
    ++ take (S k) (u_entries (l_unstable l)) ->
  exists l', raftLog_stableTo (e_Index e) (e_Term e) l = Ok l' /\
    raftLog_wf l' /\ log_view l' = log_view l /\
    u_entries (l_unstable l') = drop (S k) (u_entries (l_unstable l)) /\
    l_storage l' = l_storage l /\ l_committed l' = l_committed l /\ l_applied l' = l_applied l.
Proof.
  intros H Hk Hst. pose proof (stable_part_len l H) as Hlen.
  pose proof H as (Hs & Hc & Ho & Hx & Hmax). pose proof (log_base_nonneg l H) as Hb.
  pose proof (Hc _ _ Hk) as Hi. pose proof (lookup_lt_Some _ _ _ Hk) as Hkl.
  assert (Hstl : len (st_log (l_storage l)) = u_offset (l_unstable l) - log_base l - 1 + Z.of_nat (S k)).
  { rewrite Hst, len_app, Hlen. unfold len. rewrite length_take. lia. }
  assert (Hun : 0 <= Z.of_nat k < len (u_entries (l_unstable l))) by (unfold len; lia).
  unfold raftLog_stableTo, unstable_stableTo. rewrite Hi.
  replace (_ <? _) with false by lia.
  rewrite !(wrap64_id (_ - _)) by (unfold is_u64; lia).
  rewrite int64_id by lia. replace (len (u_entries _) <=? _) with false by lia.
  unfold index. rewrite decide_True by lia.
  replace (Z.to_nat (u_offset (l_unstable l) + Z.of_nat k - u_offset (l_unstable l))) with k by lia.
  rewrite Hk, Z.eqb_refl. simpl. eexists. split; [done|]. simpl.
  unfold slice_from, raftLog_wf, log_view, log_base, log_snap in *; simpl in *.
  rewrite !wrap64_id by (unfold is_u64; lia).
  replace (Z.to_nat (u_offset (l_unstable l) + Z.of_nat k - u_offset (l_unstable l) + 1)) with (S k) by lia.
  assert (Hd : contig (u_offset (l_unstable l) + Z.of_nat (S k)) (drop (S k) (u_entries (l_unstable l)))).
  { apply contig_drop; [lia|done]. }
  assert (Hdl : len (drop (S k) (u_entries (l_unstable l))) = len (u_entries (l_unstable l)) - Z.of_nat (S k)).
  { unfold len. rewrite length_drop. lia. }
  unfold st_last in *.
  split_and!; try done; try lia.
  - by replace (u_offset (l_unstable l) + Z.of_nat k + 1) with (u_offset (l_unstable l) + Z.of_nat (S k)) by lia.
  - rewrite slice_to_all by lia. rewrite Hst at 1. rewrite <-app_assoc. by rewrite take_drop.
Qed.

(** A batch taken from [nextUnstableEnts] fits on top of storage. *)
Lemma unstable_batch l :
  raftLog_wf l -> u_entries (l_unstable l) <> [] ->
  first_of (u_entries (l_unstable l)) = u_offset (l_unstable l) /\
  contig (first_of (u_entries (l_unstable l))) (u_entries (l_unstable l)).
Proof.
  intros (_ & Hc & _) Hne. pose proof (contig_first _ _ Hc Hne) as Hf. by rewrite Hf.
Qed.

(** Saving the unstable entries brings storage in line with the view; appends
    made meanwhile ([late]) stay on top. *)
Lemma save_unstable l st' hard late :
  raftLog_wf l -> u_entries (l_unstable l) <> [] ->
  Save (u_entries (l_unstable l)) hard (l_storage l) = Ok (st', None) ->
  contig (u_offset (l_unstable l) + len (u_entries (l_unstable l))) late ->
  u_offset (l_unstable l) + len (u_entries (l_unstable l)) + len late <= MaxIndex ->
  let l1 := mkRaftLog st' (mkUnstable (u_entries (l_unstable l) ++ late) (u_offset (l_unstable l)))
              (l_committed l) (l_applied l) in
  raftLog_wf l1 /\ log_view l1 = log_view l ++ late /\ log_snap l1 = log_snap l /\
  st_log st' = slice_to (st_log st') (u_offset (l_unstable l) - log_base l - 1)
               ++ u_entries (l_unstable l).
Proof.
  intros H Hne HS Hcl Hmax l1. pose proof (stable_part_len l H) as Hlen.
  destruct (unstable_batch l H Hne) as [Hf Hcu]. pose proof (log_base_nonneg l H) as Hb.
  pose proof H as (Hs & Hc & Ho & Hx & Hm). unfold st_last, log_base, log_snap in *.
  pose proof (len_nonneg late). pose proof (len_nonneg (u_entries (l_unstable l))).
  apply (st_Save _ _ _ _ Hs) in HS as (Hs' & Hsn & Hlog); [|done..|lia|lia|lia].
  rewrite Hf in Hlog.
  assert (slice_to (st_log st') (u_offset (l_unstable l) - LastIncludedIndex (st_snap (l_storage l)) - 1)
          = slice_to (st_log (l_storage l)) (u_offset (l_unstable l) - LastIncludedIndex (st_snap (l_storage l)) - 1)) as Hpre.
  { rewrite Hlog, slice_to_app, slice_to_slice_to, Hlen, (slice_to_neg (u_entries _)) by lia.
    rewrite app_nil_r. f_equal. lia. }
  assert (len (st_log st') = u_offset (l_unstable l) - LastIncludedIndex (st_snap (l_storage l)) - 1
            + len (u_entries (l_unstable l))) as Hlen' by (rewrite Hlog, len_app; lia).
  unfold l1, raftLog_wf, log_view, log_base, log_snap, st_last. simpl. rewrite !Hsn.
  split; [|split; [|split; [done|by rewrite Hpre]]].
  - split_and!; try done; try lia.
    + apply contig_app. done.
    + intros E. exfalso. apply Hne. by apply app_eq_nil in E as [? _].
    + rewrite len_app. lia.
  - by rewrite Hpre, app_assoc.
Qed.

(** ... and [stableTo] then drops exactly the saved entries. *)
Lemma persist_unstable l st' hard late e :
  raftLog_wf l -> last (u_entries (l_unstable l)) = Some e ->
  Save (u_entries (l_unstable l)) hard (l_storage l) = Ok (st', None) ->
  contig (u_offset (l_unstable l) + len (u_entries (l_unstable l))) late ->
  u_offset (l_unstable l) + len (u_entries (l_unstable l)) + len late <= MaxIndex ->
  exists l', raftLog_stableTo (e_Index e) (e_Term e)
      (mkRaftLog st' (mkUnstable (u_entries (l_unstable l) ++ late) (u_offset (l_unstable l)))
         (l_committed l) (l_applied l)) = Ok l' /\
    raftLog_wf l' /\ log_view l' = log_view l ++ late /\ u_entries (l_unstable l') = late /\
    l_committed l' = l_committed l /\ l_applied l' = l_applied l.
Proof.
  intros H He HS Hcl Hmax. assert (u_entries (l_unstable l) <> []) as Hne by (intros E; by rewrite E in He).
  destruct (save_unstable l st' hard late H Hne HS Hcl Hmax) as (Hwf & Hv & Hsn & Hlog).
  set (l1 := mkRaftLog _ _ _ _) in *. rewrite last_lookup in He.
  destruct (stableTo_view l1 (pred (length (u_entries (l_unstable l)))) e Hwf) as (l' & H1 & H2 & H3 & H4 & H5 & H6 & H7).
  - simpl. rewrite lookup_app_l; [done|]. by apply lookup_lt_Some in He.
  - assert (length (u_entries (l_unstable l)) <> 0%nat) as Hl0 by (intros E; by apply nil_length_inv in E).
    replace (S (pred (length (u_entries (l_unstable l))))) with (length (u_entries (l_unstable l))) by lia.
    unfold l1. simpl. rewrite take_app_length. unfold log_base. fold l1. rewrite Hsn. exact Hlog.
  - exists l'. split; [exact H1|]. split; [exact H2|]. split; [by rewrite H3|]. split; [|by rewrite H6, H7].
    rewrite H4. simpl.
    assert (length (u_entries (l_unstable l)) <> 0%nat) as Hl0 by (intros E; by apply nil_length_inv in E).
    replace (S (pred (length (u_entries (l_unstable l))))) with (length (u_entries (l_unstable l))) by lia.
    apply drop_app_length.
Qed.

(** ** The last entry, and who is up to date *)

Lemma raftLog_lastEntryID_view l :
  raftLog_wf l -> exists t, view_term (log_last l) l = Some t /\
    raftLog_lastEntryID l = Ok (log_last l, t).
Proof.
  intros H. unfold raftLog_lastEntryID. rewrite raftLog_lastIndex_view by done.
  pose proof (log_last_bounds l H).
  destruct (raftLog_term_view (log_last l) l H) as (t & Hv & Ht); [lia|].
  exists t. split; [done|]. destruct (log_last l =? 0) eqn:E; to_prop.
  - unfold view_term in Hv. rewrite E in Hv. simpl in Hv. injection Hv as <-. by rewrite E.
  - by rewrite Ht.
Qed.

End spec.
