(* ===== verification/ReadOnly.v ===== *)
(** * ReadOnly: pending linearizable reads ([raft/read_only.go])

    A read waits, keyed by its request context, until a quorum has confirmed the
    leader; reads are released in the order they were queued. *)

From S2P Require Export Pb Quorum.

Record ReadState : Type := mkReadState {
  rst_Index : Z;
  rst_RequestCtx : bytes
}.

Record readIndexStatus : Type := mkReadStatus {
  rs_req : Message;
  rs_index : Z;
  rs_acks : gmap Z bool
}.

#[export] Instance eta_readIndexStatus : Eta readIndexStatus := fun s =>
  mkReadStatus (rs_req s) (rs_index s) (rs_acks s).

Record readOnly : Type := mkReadOnly {
  pendingReadIndex : gmap bytes readIndexStatus;
  readIndexQueue : list bytes
}.

#[export] Instance eta_readOnly : Eta readOnly := fun r =>
  mkReadOnly (pendingReadIndex r) (readIndexQueue r).

Definition newReadOnly : readOnly := mkReadOnly ∅ [].

Definition readOnly_addRequest (i : Z) (m : Message) (r : readOnly) : readOnly :=
  let s := m_Context m in
  match pendingReadIndex r !! s with
  | Some _ => r
  | None =>
      r <| pendingReadIndex ::= <[ s := mkReadStatus m i ∅ ]> |>
        <| readIndexQueue ::= fun q => q ++ [s] |>
  end.

(** Returns the acknowledgements recorded so far (Go returns a nil map for an
    unknown context, which reads as empty). *)
Definition readOnly_recvAck (id : Z) (ctx : bytes) (r : readOnly) : gmap Z bool * readOnly :=
  match pendingReadIndex r !! ctx with
  | None => (∅, r)
  | Some rs =>
      let rs := rs <| rs_acks ::= <[ id := true ]> |> in
      (rs_acks rs, r <| pendingReadIndex ::= <[ ctx := rs ]> |>)
  end.

(** The loop of [advance]: the statuses up to and including [ctx], whether [ctx]
    was found, and the rest of the queue. *)
Fixpoint advance_scan (pending : gmap bytes readIndexStatus) (ctx : bytes) (queue : list bytes)
  : res (list readIndexStatus * bool * list bytes) :=
  match queue with
  | [] => Ok ([], false, [])
  | okctx :: rest =>
      match pending !! okctx with
      | None => Panic "cannot find corresponding read state from pending map"
      | Some rs =>
          if decide (okctx = ctx) then Ok ([rs], true, rest)
          else
            '(rss, found, rest') ← advance_scan pending ctx rest;
            Ok (rs :: rss, found, rest')
      end
  end.

Definition readOnly_advance (m : Message) (r : readOnly) : res (list readIndexStatus * readOnly) :=
  '(rss, found, rest) ← advance_scan (pendingReadIndex r) (m_Context m) (readIndexQueue r);
  if found : bool then
    Ok (rss, mkReadOnly
               (foldl (fun p rs => delete (m_Context (rs_req rs)) p) (pendingReadIndex r) rss)
               rest)
  else Ok ([], r).

(** The queue lists the pending contexts once each, and every status is stored
    under the context of its request. *)
Definition readOnly_ok (r : readOnly) : Prop :=
  NoDup (readIndexQueue r) /\
  (forall ctx, ctx ∈ readIndexQueue r <-> is_Some (pendingReadIndex r !! ctx)) /\
  (forall ctx rs, pendingReadIndex r !! ctx = Some rs -> m_Context (rs_req rs) = ctx).

(** ** Lemmas *)

Lemma readOnly_ok_new : readOnly_ok newReadOnly.
Proof.
  split; [constructor|]. split.
  - intros ctx. simpl. rewrite lookup_empty. split; [by inversion 1|by intros [? ?]].
  - intros ctx rs H. simpl in H. by rewrite lookup_empty in H.
Qed.

Lemma readOnly_ok_addRequest i m r : readOnly_ok r -> readOnly_ok (readOnly_addRequest i m r).
Proof.
  intros (Hnd & Hq & Hc). unfold readOnly_addRequest.
  destruct (pendingReadIndex r !! m_Context m) eqn:E; [done|]. split; [|split]; simpl.
  - apply NoDup_app. split; [done|]. split; [|apply NoDup_singleton].
    intros x Hx ->%list_elem_of_singleton. apply Hq in Hx as [? Hx]. congruence.
  - intros ctx. rewrite elem_of_app, list_elem_of_singleton, Hq.
    destruct (decide (ctx = m_Context m)) as [->|Hne].
    + rewrite lookup_insert_eq. split; [intros _; by eexists|by right].
    + rewrite lookup_insert_ne by done. tauto.
  - intros ctx rs [[<- <-]|[_ H]]%lookup_insert_Some; [done|by apply Hc].
Qed.

Lemma readOnly_ok_recvAck id ctx r : readOnly_ok r -> readOnly_ok (readOnly_recvAck id ctx r).2.
Proof.
  intros (Hnd & Hq & Hc). unfold readOnly_recvAck.
  destruct (pendingReadIndex r !! ctx) as [rs|] eqn:E; [|done]. split; [done|]. split; simpl.
  - intros c. rewrite Hq. destruct (decide (c = ctx)) as [->|Hne].
    + rewrite lookup_insert_eq, E. split; by eauto.
    + by rewrite lookup_insert_ne.
  - intros c rs' [[<- <-]|[_ H]]%lookup_insert_Some; [exact (Hc _ _ E)|exact (Hc _ _ H)].
Qed.

(** [recvAck] records the acknowledgement and nothing else. *)
Lemma recvAck_acks id ctx r rs :
  pendingReadIndex r !! ctx = Some rs ->
  (readOnly_recvAck id ctx r).1 = <[ id := true ]> (rs_acks rs).
Proof. intros H. unfold readOnly_recvAck. by rewrite H. Qed.

(** The scan stops at the first occurrence of [ctx] and collects, in queue order,
    the statuses up to it. *)
Lemma advance_scan_found pending before ctx rest (rss : list readIndexStatus) rs :
  ctx ∉ before ->
  Forall2 (fun c s => pending !! c = Some s) before rss -> pending !! ctx = Some rs ->
  advance_scan pending ctx (before ++ ctx :: rest) = Ok (rss ++ [rs], true, rest).
Proof.
  intros Hn Hf Hctx. induction Hf as [|c s before rss Hc _ IH]; simpl.
  - rewrite Hctx. by rewrite decide_True.
  - rewrite Hc. rewrite decide_False by set_solver. rewrite IH by set_solver. done.
Qed.

Lemma advance_scan_missing pending ctx queue (rss : list readIndexStatus) :
  ctx ∉ queue -> Forall2 (fun c s => pending !! c = Some s) queue rss ->
  advance_scan pending ctx queue = Ok (rss, false, []).
Proof.
  intros Hn Hf. induction Hf as [|c s queue rss Hc _ IH]; simpl; [done|].
  rewrite Hc. rewrite decide_False by set_solver. by rewrite IH by set_solver.
Qed.

(** Every queued context has its status. *)
Lemma readOnly_statuses r (q : list bytes) :
  readOnly_ok r -> (forall c, c ∈ q -> c ∈ readIndexQueue r) ->
  exists rss, Forall2 (fun c s => pendingReadIndex r !! c = Some s) q rss.
Proof.
  intros (_ & Hq & _). induction q as [|c q IH]; intros Hsub; [by exists []|].
  destruct (IH ltac:(set_solver)) as [rss Hrss]. destruct (proj1 (Hq c) (Hsub c ltac:(set_solver))) as [s Hs].
  exists (s :: rss). by constructor.
Qed.

Lemma foldl_delete_lookup (rss : list readIndexStatus) (p : gmap bytes readIndexStatus) c :
  foldl (fun p rs => delete (m_Context (rs_req rs)) p) p rss !! c =
  if decide (c ∈ (fun rs => m_Context (rs_req rs)) <$> rss) then None else p !! c.
Proof.
  revert p. induction rss as [|rs rss IH]; intros p; simpl; [done|]. rewrite IH.
  destruct (decide (c ∈ m_Context (rs_req rs) :: _)) as [Hin|Hn].
  - case_decide; [done|]. apply elem_of_cons in Hin as [->|?]; [apply lookup_delete_eq|done].
  - rewrite decide_False by set_solver. rewrite lookup_delete_ne; [done|]. set_solver.
Qed.

Lemma statuses_contexts r q rss :
  readOnly_ok r -> Forall2 (fun c s => pendingReadIndex r !! c = Some s) q rss ->
  (fun rs => m_Context (rs_req rs)) <$> rss = q.
Proof.
  intros (_ & _ & Hc) Hf. induction Hf as [|c s q rss H _ IH]; [done|]. by rewrite fmap_cons, IH, (Hc _ _ H).
Qed.

(** [advance] releases the requests up to [ctx], oldest first, and keeps the
    rest. *)
Lemma readOnly_advance_found m r before rest :
  readOnly_ok r -> readIndexQueue r = before ++ m_Context m :: rest ->
  exists rss r', readOnly_advance m r = Ok (rss, r') /\
    Forall2 (fun c s => pendingReadIndex r !! c = Some s) (before ++ [m_Context m]) rss /\
    readIndexQueue r' = rest /\ readOnly_ok r' /\
    (forall c, c ∈ rest -> pendingReadIndex r' !! c = pendingReadIndex r !! c).
Proof.
  intros Hok Hqe. destruct (readOnly_statuses r (before ++ [m_Context m]) Hok) as [rss Hrss].
  { rewrite Hqe. set_solver. }
  pose proof (statuses_contexts _ _ _ Hok Hrss) as Hctx. pose proof Hok as (Hnd & Hq & Hc).
  pose proof Hrss as (rb & rl & Hb & Hl & ->)%Forall2_app_inv_l.
  inversion Hl as [|? s ? ? Hs Hn]; subst. inversion Hn; subst.
  rewrite Hqe in Hnd. apply NoDup_app in Hnd as (Hnb & Hdis & Hnr). apply NoDup_cons in Hnr as [Hnm Hnr].
  unfold readOnly_advance. rewrite Hqe, (advance_scan_found _ _ _ _ rb s); [|intros ?; by eapply Hdis; [|left]|done..].
  simpl. eexists _, _. split; [done|]. split; [done|]. split; [done|].
  assert (forall c, foldl (fun p rs => delete (m_Context (rs_req rs)) p) (pendingReadIndex r) (rb ++ [s]) !! c
    = if decide (c ∈ before ++ [m_Context m]) then None else pendingReadIndex r !! c) as Hlk.
  { intros c. by rewrite foldl_delete_lookup, Hctx. }
  split; [split; [done|split]|]; simpl.
  - intros c. rewrite Hlk. case_decide as Hd.
    + split; [|by intros [? ?]]. intros Hr. exfalso. apply elem_of_app in Hd as [Hd|Hd%list_elem_of_singleton].
      * by eapply Hdis; [|right].
      * congruence.
    + rewrite <- Hq, Hqe. set_solver.
  - intros c rs H. rewrite Hlk in H. case_decide; [done|]. by apply Hc.
  - intros c Hr. rewrite Hlk, decide_False; [done|]. intros [Hd|Hd%list_elem_of_singleton]%elem_of_app.
    + by eapply Hdis; [|right].
    + congruence.
Qed.

Lemma readOnly_advance_missing m r :
  readOnly_ok r -> m_Context m ∉ readIndexQueue r -> readOnly_advance m r = Ok ([], r).
Proof.
  intros Hok Hn. destruct (readOnly_statuses r (readIndexQueue r) Hok) as [rss Hrss]; [done|].
  unfold readOnly_advance. by rewrite (advance_scan_missing _ _ _ _ Hn Hrss).
Qed.

Lemma readOnly_ok_advance m r rss r' :
  readOnly_ok r -> readOnly_advance m r = Ok (rss, r') -> readOnly_ok r'.
Proof.
  intros Hok H. destruct (decide (m_Context m ∈ readIndexQueue r)) as [Hin|Hn].
  - apply list_elem_of_split in Hin as (before & rest & Hq).
    destruct (readOnly_advance_found m r before rest Hok Hq) as (? & ? & Heq & _ & _ & Hok' & _).
    rewrite Heq in H. by inv_res.
  - rewrite readOnly_advance_missing in H by done. by inv_res.
Qed.

#[export] Hint Resolve readOnly_ok_new readOnly_ok_addRequest readOnly_ok_recvAck : kvgo.
