(* ===== verification/Raft.v ===== *)
(** * Raft: the protocol state machine ([raft/raft.go])

    One definition per method of [Raft], in the order the methods call each
    other.  [Raft] is the Go struct as a value: a method takes it and returns the
    new one, in [res] when it may panic.  The function fields [tick] and [step]
    are the enumerations [tickFn] and [stepFn]; [r_choices] counts the draws made
    from the [Runtime] (random timeouts and map orders).  Logging is left out. *)

From S2P Require Export Tracker RaftLog ReadOnly.

Definition NoneID : Z := 0.

Inductive State : Type := Follower | PreCandidate | Candidate | Leader.
#[export] Instance State_eq_dec : EqDecision State.
Proof. solve_decision. Defined.

Inductive CampaignType : Type := CampaignPreElection | CampaignElection | CampaignTransfer.
Inductive tickFn : Type := TickElection | TickHeartbeat.
Inductive stepFn : Type := StepFollower | StepCandidate | StepLeader.

(** [node.go]: what a node is started with. *)
Record Config (St : Type) : Type := mkConfig {
  c_ID : Z;
  c_Peers : list Z;
  c_Storage : option St;
  c_Applied : Z;
  c_ElectionTick : Z;
  c_HeartbeatTick : Z
}.
Arguments mkConfig {St} _ _ _ _ _ _.
Arguments c_ID {St} _.
Arguments c_Peers {St} _.
Arguments c_Storage {St} _.
Arguments c_Applied {St} _.
Arguments c_ElectionTick {St} _.
Arguments c_HeartbeatTick {St} _.

Record Ready : Type := mkReady {
  rd_Lead : Z;
  rd_Entries : list Entry;
  rd_CommittedEntries : list Entry;
  rd_Messages : list Message;
  rd_HardState : option HardState;
  rd_ReadStates : list ReadState
}.

#[export] Instance eta_Ready : Eta Ready := fun r =>
  mkReady (rd_Lead r) (rd_Entries r) (rd_CommittedEntries r) (rd_Messages r)
    (rd_HardState r) (rd_ReadStates r).

Record Raft (St : Type) : Type := mkRaft {
  r_id : Z;
  r_term : Z;
  r_state : State;
  r_raftLog : raftLog St;
  r_messages : list Message;
  r_msgsAfterAppend : list Message;
  r_trk : ProgressTracker;
  r_peers : list Z;
  r_votedFor : Z;
  r_readStates : list ReadState;
  r_readOnly : readOnly;
  r_pendingReadIndexRequests : list Message;
  r_lead : Z;
  r_heartbeatTimeout : Z;
  r_electionTimeout : Z;
  r_electionElapsed : Z;
  r_heartbeatElapsed : Z;
  r_randomizedElectionTimeout : Z;
  r_leadTransferee : Z;
  r_tick : tickFn;
  r_step : stepFn;
  r_choices : nat
}.
Arguments mkRaft {St}.
Arguments r_id {St} _.
Arguments r_term {St} _.
Arguments r_state {St} _.
Arguments r_raftLog {St} _.
Arguments r_messages {St} _.
Arguments r_msgsAfterAppend {St} _.
Arguments r_trk {St} _.
Arguments r_peers {St} _.
Arguments r_votedFor {St} _.
Arguments r_readStates {St} _.
Arguments r_readOnly {St} _.
Arguments r_pendingReadIndexRequests {St} _.
Arguments r_lead {St} _.
Arguments r_heartbeatTimeout {St} _.
Arguments r_electionTimeout {St} _.
Arguments r_electionElapsed {St} _.
Arguments r_heartbeatElapsed {St} _.
Arguments r_randomizedElectionTimeout {St} _.
Arguments r_leadTransferee {St} _.
Arguments r_tick {St} _.
Arguments r_step {St} _.
Arguments r_choices {St} _.

#[export] Instance eta_Raft St : Eta (Raft St) := fun r =>
  mkRaft (r_id r) (r_term r) (r_state r) (r_raftLog r) (r_messages r) (r_msgsAfterAppend r)
    (r_trk r) (r_peers r) (r_votedFor r) (r_readStates r) (r_readOnly r)
    (r_pendingReadIndexRequests r) (r_lead r) (r_heartbeatTimeout r) (r_electionTimeout r)
    (r_electionElapsed r) (r_heartbeatElapsed r) (r_randomizedElectionTimeout r)
    (r_leadTransferee r) (r_tick r) (r_step r) (r_choices r).

(** [min] of Go on [uint64]. *)
Abbreviation umin := Z.min.

Section raft.
Context {RT : Runtime} {St : Type} {SS : Storage St}.
Implicit Types r : Raft St.
Implicit Types m : Message.

(** ** Messages *)

Definition is_vote_msg (t : MessageType) : bool :=
  match t with MsgPreVote | MsgPreVoteResp | MsgVote | MsgVoteResp => true | _ => false end.

(** The responses that must wait for the log to be persisted. *)
Definition waits_for_append (t : MessageType) : bool :=
  match t with MsgAppResp | MsgVoteResp | MsgPreVoteResp => true | _ => false end.

Definition Raft_send (m : Message) (r : Raft St) : res (Raft St) :=
  let m := if m_From m =? NoneID then m <| m_From := r_id r |> else m in
  m ← (if is_vote_msg (m_Type m) then
         if m_Term m =? 0 then Panic "term should be set when sending vote message" else Ok m
       else match m_Type m with
            | MsgProp => Ok m
            | _ => Ok (m <| m_Term := r_term r |>)
            end);
  if waits_for_append (m_Type m)
  then Ok (r <| r_msgsAfterAppend ::= fun l => l ++ [m] |>)
  else Ok (r <| r_messages ::= fun l => l ++ [m] |>).

Definition Raft_HardState (r : Raft St) : HardState :=
  mkHard (r_term r) (r_votedFor r) (l_committed (r_raftLog r)).

(** The order in which Go ranges over the progress map this time. *)
Definition Raft_visit (r : Raft St) : list (Z * Progress) * Raft St :=
  (visit_order (r_choices r) (progress (r_trk r)), r <| r_choices ::= S |>).

(** ** State transitions *)

Definition Raft_intN (n : Z) (r : Raft St) : Z * Raft St :=
  (choose_int (r_choices r) n, r <| r_choices ::= S |>).

Definition Raft_resetRandomizedElectionTimeout (r : Raft St) : Raft St :=
  let '(v, r) := Raft_intN (r_electionTimeout r) r in
  r <| r_randomizedElectionTimeout := int64 (r_electionTimeout r + v) |>.

Definition Raft_abortLeaderTransfer (r : Raft St) : Raft St :=
  r <| r_leadTransferee := NoneID |>.

(** The visitor of [reset]. *)
Definition reset_progress (self lastIndex : Z) (id : Z) (pr : Progress) : Progress :=
  mkProgress (if id =? self then lastIndex else 0) (lastIndex +u 1) false.

Definition Raft_reset (term : Z) (r : Raft St) : Raft St :=
  let r := if negb (r_term r =? term)
           then r <| r_term := term |> <| r_votedFor := NoneID |> else r in
  let r := r <| r_lead := NoneID |> <| r_electionElapsed := 0 |> <| r_heartbeatElapsed := 0 |> in
  let r := Raft_resetRandomizedElectionTimeout r in
  let r := Raft_abortLeaderTransfer r in
  let r := r <| r_trk ::= ProgressTracker_ResetVotes |> in
  let lastIndex := raftLog_lastIndex (r_raftLog r) in
  let r := r <| r_trk ::= ProgressTracker_Visit (reset_progress (r_id r) lastIndex) |> in
  r <| r_pendingReadIndexRequests := [] |> <| r_readOnly := newReadOnly |>.

Definition Raft_becomeFollower (term lead : Z) (r : Raft St) : Raft St :=
  let r := r <| r_state := Follower |> in
  let r := Raft_reset term r in
  r <| r_lead := lead |> <| r_step := StepFollower |> <| r_tick := TickElection |>.

Definition Raft_becomeCandidate (r : Raft St) : Raft St :=
  let r := r <| r_state := Candidate |> <| r_step := StepCandidate |> <| r_tick := TickElection |> in
  let r := Raft_reset (r_term r +u 1) r in
  r <| r_votedFor := r_id r |>.

Definition Raft_becomePreCandidate (r : Raft St) : Raft St :=
  r <| r_state := PreCandidate |> <| r_step := StepCandidate |> <| r_tick := TickElection |>
    <| r_lead := NoneID |>.

(** ** Replication *)

Definition Raft_sendSnapshot (to_ : Z) (snap : SnapshotMeta) (r : Raft St) : res (Raft St) :=
  Raft_send ((mkmsg MsgSnap) <| m_To := to_ |> <| m_Snapshot := Some snap |>) r.

Definition Raft_sendAppend (to_ : Z) (r : Raft St) : res (Raft St) :=
  match ProgressTracker_Progress to_ (r_trk r) with
  | None => Ok r
  | Some p =>
      let prevIndex := NextIndex p -u 1 in
      t ← raftLog_term prevIndex (r_raftLog r);
      match t with
      | inl _ =>
          match Snapshot (l_storage (r_raftLog r)) with
          | inl _ => Ok r
          | inr snap => Raft_sendSnapshot to_ snap r
          end
      | inr prevTerm =>
          let lastIndex := raftLog_lastIndex (r_raftLog r) in
          ents ← raftLog_slice (NextIndex p) (lastIndex +u 1) (r_raftLog r);
          Raft_send ((mkmsg MsgApp) <| m_To := to_ |> <| m_Index := prevIndex |>
            <| m_LogTerm := prevTerm |> <| m_Commit := l_committed (r_raftLog r) |>
            <| m_Entries := ents |>) r
      end
  end.

Definition Raft_bcastAppend (r : Raft St) : res (Raft St) :=
  let '(order, r) := Raft_visit r in
  foldM (fun '(id, _) r => if id =? r_id r then Ok r else Raft_sendAppend id r) order r.

Definition Raft_appendEntry (data : bytes) (r : Raft St) : res (Raft St) :=
  let lastIndex := raftLog_lastIndex (r_raftLog r) in
  let e := mkEntry (lastIndex +u 1) (r_term r) data in
  l ← raftLog_appendEntries [e] (r_raftLog r);
  let r := r <| r_raftLog := l |> in
  Raft_send ((mkmsg MsgAppResp) <| m_To := r_id r |>
    <| m_Index := raftLog_lastIndex (r_raftLog r) |>) r.

(** [becomeLeader] up to [r.lead = r.id]. *)
Definition leader_init (r : Raft St) : Raft St :=
  let r := r <| r_state := Leader |> <| r_step := StepLeader |> <| r_tick := TickHeartbeat |> in
  let r := Raft_reset (r_term r) r in
  r <| r_lead := r_id r |>.

(** [r.trk.Progress(id).RecentActive = true] *)
Definition mark_active (id : Z) (r : Raft St) : Raft St :=
  r <| r_trk ::= update_progress id (fun pr => pr <| RecentActive := true |>) |>.

Definition Raft_becomeLeader (r : Raft St) : res (Raft St) :=
  let r := leader_init r in
  match ProgressTracker_Progress (r_id r) (r_trk r) with
  | None => Panic "nil pointer dereference"
  | Some _ =>
      r ← Raft_appendEntry [] (mark_active (r_id r) r);
      Raft_bcastAppend r
  end.

Definition Raft_bcastHeartbeat (ctx : bytes) (r : Raft St) : res (Raft St) :=
  let '(order, r) := Raft_visit r in
  foldM (fun '(id, pr) r =>
    if id =? r_id r then Ok r
    else Raft_send ((mkmsg MsgHeartbeat) <| m_To := id |>
           <| m_Commit := umin (MatchIndex pr) (l_committed (r_raftLog r)) |>
           <| m_Context := ctx |>) r) order r.

Definition Raft_maybeCommit (i : Z) (r : Raft St) : res (Raft St * bool) :=
  if l_committed (r_raftLog r) <? i then
    b ← raftLog_matchTerm i (r_term r) (r_raftLog r);
    if b : bool then
      l ← raftLog_commitTo i (r_raftLog r);
      Ok (r <| r_raftLog := l |>, true)
    else Ok (r, false)
  else Ok (r, false).

Definition Raft_committedEntryInCurrentTerm (r : Raft St) : res bool :=
  raftLog_matchTerm (l_committed (r_raftLog r)) (r_term r) (r_raftLog r).

(** ** Reads *)

Definition Raft_respondReadIndexReq (m : Message) (readIndex : Z) (r : Raft St) : res (Raft St) :=
  if (m_From m =? NoneID) || (m_From m =? r_id r)
  then Ok (r <| r_readStates ::= fun l => l ++ [mkReadState readIndex (m_Context m)] |>)
  else Raft_send ((mkmsg MsgReadIndexResp) <| m_To := m_From m |>
         <| m_Context := m_Context m |> <| m_Index := readIndex |>) r.

Definition Raft_drainPendingReadIndexRequests (r : Raft St) : res (Raft St) :=
  let reqs := r_pendingReadIndexRequests r in
  let r := r <| r_pendingReadIndexRequests := [] |> in
  foldM (fun req r => Raft_respondReadIndexReq req (l_committed (r_raftLog r)) r) reqs r.

(** ** Elections *)

Definition Raft_canVoteFor (m : Message) (r : Raft St) : bool :=
  if m_Term m <? r_term r then false
  else if (m_Term m =? r_term r) && negb (r_votedFor r =? 0) && negb (r_votedFor r =? m_From m)
  then false
  else true.

Definition Raft_isCandidateUpToDate (m : Message) (r : Raft St) : res bool :=
  raftLog_isUpToDate (m_Index m) (m_LogTerm m) (r_raftLog r).

(** [r.canVoteFor(m) && r.isCandidateUpToDate(m)], the second operand evaluated
    only when the first holds. *)
Definition Raft_grants (m : Message) (r : Raft St) : res bool :=
  if Raft_canVoteFor m r then Raft_isCandidateUpToDate m r else Ok false.

Definition Raft_bcastVote (msgType : MessageType) (term : Z) (r : Raft St) : res (Raft St) :=
  '(lastIndex, lastTerm) ← raftLog_lastEntryID (r_raftLog r);
  foldM (fun pid r =>
    Raft_send ((mkmsg msgType) <| m_To := pid |> <| m_Term := term |>
      <| m_Index := lastIndex |> <| m_LogTerm := lastTerm |>) r) (r_peers r) r.

Definition Raft_respondVote (to_ : Z) (granted : bool) (respType : MessageType) (term : Z)
  (r : Raft St) : res (Raft St) :=
  Raft_send ((mkmsg respType) <| m_To := to_ |> <| m_Term := term |>
    <| m_Reject := negb granted |>) r.

(** [hup] for a real election; the campaign type only matters for pre-votes. *)
Definition Raft_hup_election (r : Raft St) : res (Raft St) :=
  if decide (r_state r = Leader) then Ok r
  else
    let r := Raft_becomeCandidate r in
    let term := r_term r in
    let r := r <| r_trk ::= ProgressTracker_RecordVote (r_id r) true |> in
    match ProgressTracker_TallyVotes (r_trk r) with
    | VoteWon => Raft_becomeLeader r
    | _ => Raft_bcastVote MsgVote term r
    end.

(** [hup]: the pre-election calls the real one when its own vote is a quorum. *)
Definition Raft_hup (t : CampaignType) (r : Raft St) : res (Raft St) :=
  match t with
  | CampaignPreElection =>
      if decide (r_state r = Leader) then Ok r
      else
        let r := Raft_becomePreCandidate r in
        let term := r_term r +u 1 in
        let r := r <| r_trk ::= ProgressTracker_RecordVote (r_id r) true |> in
        match ProgressTracker_TallyVotes (r_trk r) with
        | VoteWon => Raft_hup_election r
        | _ => Raft_bcastVote MsgPreVote term r
        end
  | CampaignElection | CampaignTransfer => Raft_hup_election r
  end.

(** ** Handlers *)

Definition Raft_handleAppendEntries (m : Message) (r : Raft St) : res (Raft St) :=
  let resp := (mkmsg MsgAppResp) <| m_To := m_From m |> in
  matched ← raftLog_matchTerm (m_Index m) (m_LogTerm m) (r_raftLog r);
  if matched : bool then
    '(l, resp) ← match last (m_Entries m) with
                 | Some e =>
                     l ← raftLog_appendEntries (m_Entries m) (r_raftLog r);
                     Ok (l, resp <| m_Index := e_Index e |> <| m_LogTerm := e_Term e |>)
                 | None => Ok (r_raftLog r, resp)
                 end;
    l ← (if l_committed l <? m_Commit m
         then raftLog_commitTo (umin (m_Commit m) (raftLog_lastIndex l)) l
         else Ok l);
    Raft_send resp (r <| r_raftLog := l |>)
  else
    let resp := resp <| m_Reject := true |> <| m_Index := m_Index m |> in
    let resp := match Snapshot (l_storage (r_raftLog r)) with
                | inr snap => resp <| m_RejectHint := LastIncludedIndex snap |>
                | inl _ => resp
                end in
    Raft_send resp r.

Definition Raft_handleHeartbeat (m : Message) (r : Raft St) : res (Raft St) :=
  l ← raftLog_commitTo (m_Commit m) (r_raftLog r);
  let r := r <| r_raftLog := l |> in
  Raft_send ((mkmsg MsgHeartbeatResp) <| m_To := m_From m |> <| m_Context := m_Context m |>) r.

Definition Raft_handleSnapshot (m : Message) (r : Raft St) : res (Raft St) :=
  '(st, e) ← ApplySnapshot (m_Snapshot m) (l_storage (r_raftLog r));
  let r := r <| r_raftLog ::= fun l => l <| l_storage := st |> |> in
  match e, m_Snapshot m with
  | Some _, _ => Ok r
  | None, None => Panic "nil pointer dereference"
  | None, Some snap => Ok (r <| r_raftLog ::= raftLog_restore (LastIncludedIndex snap) |>)
  end.

Definition Raft_sendTimeoutNow (to_ : Z) (r : Raft St) : res (Raft St) :=
  Raft_send ((mkmsg MsgTimeoutNow) <| m_To := to_ |>) r.

(** ** stepLeader, one definition per case of its switch *)

Definition stepLeader_AppResp (m : Message) (r : Raft St) : res (Raft St * option error) :=
  match ProgressTracker_Progress (m_From m) (r_trk r) with
  | None => Ok (r, Some (Errorf "TODO: will be replace with real coordination code later"))
  | Some _ =>
      let upd f r := r <| r_trk ::= update_progress (m_From m) f |> in
      let r := if m_Term m =? r_term r then mark_active (m_From m) r else r in
      r ← (if m_Reject m then
             let firstIndex := FirstIndex (l_storage (r_raftLog r)) in
             r ← (if (0 <? firstIndex) && (m_RejectHint m <? firstIndex -u 1)
                  then match Snapshot (l_storage (r_raftLog r)) with
                       | inr snap => Raft_sendSnapshot (m_From m) snap r
                       | inl _ => Ok r
                       end
                  else Ok r);
             Ok (upd (fun pr => pr <| NextIndex ::= fun n => n -u 1 |>) r)
           else
             Ok (upd (fun pr => pr <| MatchIndex := m_Index m |>
                                   <| NextIndex := m_Index m +u 1 |>) r));
      let mtch := default 0 (MatchIndex <$> ProgressTracker_Progress (m_From m) (r_trk r)) in
      r ← (if (m_From m =? r_leadTransferee r) && (mtch =? raftLog_lastIndex (r_raftLog r))
           then Raft_sendTimeoutNow (m_From m) r else Ok r);
      '(r, advanced) ← Raft_maybeCommit (ProgressTracker_Committed (r_trk r)) r;
      r ← (if advanced : bool then Raft_drainPendingReadIndexRequests r else Ok r);
      Ok (r, None)
  end.

Definition stepLeader_Prop (m : Message) (r : Raft St) : res (Raft St * option error) :=
  if negb (r_leadTransferee r =? NoneID) then Ok (r, Some ErrProposalDropped)
  else match m_Entries m with
       | [] => Panic "stepped empty MsgProp"
       | e :: _ =>
           r ← Raft_appendEntry (e_Data e) r;
           r ← Raft_bcastAppend r;
           Ok (r, None)
       end.

Definition stepLeader_HeartbeatResp (m : Message) (r : Raft St) : res (Raft St * option error) :=
  match ProgressTracker_Progress (m_From m) (r_trk r) with
  | None => Ok (r, None)
  | Some prs =>
      let r := if m_Term m =? r_term r then mark_active (m_From m) r else r in
      r ← (if MatchIndex prs <? raftLog_lastIndex (r_raftLog r)
           then Raft_sendAppend (m_From m) r else Ok r);
      r ← (if 0 <? len (m_Context m) then
             let '(acks, ro) := readOnly_recvAck (m_From m) (m_Context m) (r_readOnly r) in
             let r := r <| r_readOnly := ro |> in
             match MajorityConfig_VoteResult (Voters (r_trk r)) acks with
             | VoteWon =>
                 '(rss, ro) ← readOnly_advance m (r_readOnly r);
                 foldM (fun rs r => Raft_respondReadIndexReq (rs_req rs) (rs_index rs) r) rss
                   (r <| r_readOnly := ro |>)
             | _ => Ok r
             end
           else Ok r);
      Ok (r, None)
  end.

Definition stepLeader_ReadIndex (m : Message) (r : Raft St) : res (Raft St * option error) :=
  if ProgressTracker_IsSingleton (r_trk r) then
    r ← Raft_respondReadIndexReq m (l_committed (r_raftLog r)) r;
    Ok (r, None)
  else
    c ← Raft_committedEntryInCurrentTerm r;
    if negb c then Ok (r <| r_pendingReadIndexRequests ::= fun l => l ++ [m] |>, None)
    else
      let r := r <| r_readOnly ::= readOnly_addRequest (l_committed (r_raftLog r)) m |> in
      let r := r <| r_readOnly ::= fun ro => (readOnly_recvAck (r_id r) (m_Context m) ro).2 |> in
      r ← Raft_bcastHeartbeat (m_Context m) r;
      Ok (r, None).

Definition stepLeader_CheckQuorum (r : Raft St) : res (Raft St * option error) :=
  if negb (ProgressTracker_QuorumActive (r_trk r))
  then Ok (Raft_becomeFollower (r_term r) NoneID r, None)
  else
    Ok (r <| r_trk ::= ProgressTracker_Visit
               (fun id pr => if negb (id =? r_id r) then pr <| RecentActive := false |> else pr) |>,
        None).

Definition stepLeader_TransferLeader (m : Message) (r : Raft St) : res (Raft St * option error) :=
  let leadTransferee := m_From m in
  let lastLeadTransferee := r_leadTransferee r in
  if negb (lastLeadTransferee =? NoneID) && (lastLeadTransferee =? leadTransferee)
  then Ok (r, None)
  else
    let r := if negb (lastLeadTransferee =? NoneID) then Raft_abortLeaderTransfer r else r in
    if leadTransferee =? r_id r then Ok (r, None)
    else
      let r := r <| r_electionElapsed := 0 |> <| r_leadTransferee := leadTransferee |> in
      match ProgressTracker_Progress leadTransferee (r_trk r) with
      | None => Panic "nil pointer dereference"
      | Some prs =>
          r ← (if MatchIndex prs =? raftLog_lastIndex (r_raftLog r)
               then Raft_sendTimeoutNow leadTransferee r
               else Raft_sendAppend leadTransferee r);
          Ok (r, None)
      end.

Definition stepLeader (m : Message) (r : Raft St) : res (Raft St * option error) :=
  match m_Type m with
  | MsgAppResp => stepLeader_AppResp m r
  | MsgProp => stepLeader_Prop m r
  | MsgBeat => r ← Raft_bcastHeartbeat [] r; Ok (r, None)
  | MsgHeartbeatResp => stepLeader_HeartbeatResp m r
  | MsgReadIndex => stepLeader_ReadIndex m r
  | MsgCheckQuorum => stepLeader_CheckQuorum r
  | MsgTransferLeader => stepLeader_TransferLeader m r
  | _ => Ok (r, None)
  end.

(** ** stepCandidate *)

(** The response a (pre-)candidate counts. *)
Definition voteRespType (r : Raft St) : MessageType :=
  if decide (r_state r = Candidate) then MsgVoteResp else MsgPreVoteResp.

Definition stepCandidate_voteResp (m : Message) (r : Raft St) : res (Raft St * option error) :=
  if m_Term m <? r_term r then Ok (r, None)
  else
    let r := r <| r_trk ::= ProgressTracker_RecordVote (m_From m) (negb (m_Reject m)) |> in
    match ProgressTracker_TallyVotes (r_trk r) with
    | VoteWon =>
        r ← (if decide (r_state r = PreCandidate) then
               let r := Raft_becomeCandidate r in
               let r := r <| r_trk ::= ProgressTracker_RecordVote (r_id r) true |> in
               Raft_bcastVote MsgVote (r_term r) r
             else Raft_becomeLeader r);
        Ok (r, None)
    | VoteLost => Ok (Raft_becomeFollower (r_term r) NoneID r, None)
    | VotePending => Ok (r, None)
    end.

Definition stepCandidate (m : Message) (r : Raft St) : res (Raft St * option error) :=
  match m_Type m with
  | MsgProp => Ok (r, Some ErrProposalDropped)
  | MsgVoteResp | MsgPreVoteResp =>
      if decide (m_Type m = voteRespType r) then stepCandidate_voteResp m r else Ok (r, None)
  | MsgApp =>
      r ← Raft_handleAppendEntries m (Raft_becomeFollower (m_Term m) (m_From m) r);
      Ok (r, None)
  | MsgHeartbeat =>
      r ← Raft_handleHeartbeat m (Raft_becomeFollower (m_Term m) (m_From m) r);
      Ok (r, None)
  | MsgSnap =>
      r ← Raft_handleSnapshot m (Raft_becomeFollower (m_Term m) (m_From m) r);
      Ok (r, None)
  | MsgReadIndex => Ok (r, Some ErrProposalDropped)
  | _ => Ok (r, None)
  end.

(** ** stepFollower *)

Definition follow (m : Message) (r : Raft St) : Raft St :=
  r <| r_electionElapsed := 0 |> <| r_lead := m_From m |>.

(** [m.To = r.lead; r.send(m)] *)
Definition Raft_forward (m : Message) (r : Raft St) : res (Raft St) :=
  Raft_send (m <| m_To := r_lead r |>) r.

Definition stepFollower (m : Message) (r : Raft St) : res (Raft St * option error) :=
  match m_Type m with
  | MsgProp | MsgReadIndex =>
      if r_lead r =? NoneID then Ok (r, Some ErrProposalDropped)
      else r ← Raft_forward m r; Ok (r, None)
  | MsgApp => r ← Raft_handleAppendEntries m (follow m r); Ok (r, None)
  | MsgSnap => r ← Raft_handleSnapshot m (follow m r); Ok (r, None)
  | MsgHeartbeat => r ← Raft_handleHeartbeat m (follow m r); Ok (r, None)
  | MsgReadIndexResp =>
      Ok (r <| r_readStates ::= fun l => l ++ [mkReadState (m_Index m) (m_Context m)] |>, None)
  | MsgTimeoutNow => r ← Raft_hup CampaignTransfer r; Ok (r, None)
  | MsgTransferLeader =>
      if r_lead r =? NoneID then Ok (r, None)
      else r ← Raft_forward m r; Ok (r, None)
  | _ => Ok (r, None)
  end.

(** [r.step(r, m)] *)
Definition Raft_step (m : Message) (r : Raft St) : res (Raft St * option error) :=
  match r_step r with
  | StepFollower => stepFollower m r
  | StepCandidate => stepCandidate m r
  | StepLeader => stepLeader m r
  end.

(** The first switch of [Step]: compare terms. *)
Definition Raft_checkTerm (m : Message) (r : Raft St) : res (Raft St) :=
  if m_Term m =? 0 then Ok r
  else if r_term r <? m_Term m then
    match m_Type m with
    | MsgPreVote | MsgPreVoteResp => Ok r
    | _ => Ok (Raft_becomeFollower (m_Term m) (m_From m) r)
    end
  else if m_Term m <? r_term r then
    match m_Type m with
    | MsgPreVote => Raft_respondVote (m_From m) false MsgPreVoteResp (r_term r) r
    | _ => Ok r
    end
  else Ok r.

Definition Raft_Step (m : Message) (r : Raft St) : res (Raft St * option error) :=
  r ← Raft_checkTerm m r;
  match m_Type m with
  | MsgPreVote =>
      granted ← Raft_grants m r;
      r ← Raft_respondVote (m_From m) granted MsgPreVoteResp (m_Term m) r;
      Ok (r, None)
  | MsgVote =>
      granted ← Raft_grants m r;
      let r := if granted : bool then r <| r_votedFor := m_From m |> else r in
      r ← Raft_respondVote (m_From m) granted MsgVoteResp (r_term r) r;
      Ok (r, None)
  | MsgHup => r ← Raft_hup CampaignPreElection r; Ok (r, None)
  | _ => Raft_step m r
  end.

(** ** The methods the node calls *)

Definition Raft_Propose (data : bytes) (r : Raft St) : res (Raft St * option error) :=
  Raft_Step ((mkmsg MsgProp) <| m_Entries := [mkEntry 0 0 data] |>) r.

Definition Raft_Campaign (r : Raft St) : res (Raft St * option error) :=
  Raft_Step (mkmsg MsgHup) r.

Definition Raft_ReadIndex (ctx : bytes) (r : Raft St) : res (Raft St * option error) :=
  Raft_Step ((mkmsg MsgReadIndex) <| m_Context := ctx |>) r.

Definition Raft_CommitTo (i : Z) (r : Raft St) : res (Raft St) :=
  l ← raftLog_commitTo i (r_raftLog r); Ok (r <| r_raftLog := l |>).

Definition Raft_pastElectionTimeout (r : Raft St) : bool :=
  r_randomizedElectionTimeout r <=? r_electionElapsed r.

Definition Raft_tickElection (r : Raft St) : res (Raft St) :=
  let r := r <| r_electionElapsed ::= fun n => int64 (n + 1) |> in
  if Raft_pastElectionTimeout r then
    let r := r <| r_electionElapsed := 0 |> in
    '(r, _) ← Raft_Step ((mkmsg MsgHup) <| m_From := r_id r |>) r;
    Ok r
  else Ok r.

Definition Raft_tickHeartbeat (r : Raft St) : res (Raft St) :=
  let r := r <| r_heartbeatElapsed ::= fun n => int64 (n + 1) |>
             <| r_electionElapsed ::= fun n => int64 (n + 1) |> in
  r ← (if r_electionTimeout r <=? r_electionElapsed r then
         let r := r <| r_electionElapsed := 0 |> in
         '(r, _) ← Raft_Step (mkmsg MsgCheckQuorum) r;
         if bool_decide (r_state r = Leader) && negb (r_leadTransferee r =? NoneID)
         then Ok (Raft_abortLeaderTransfer r) else Ok r
       else Ok r);
  if r_heartbeatTimeout r <=? r_heartbeatElapsed r then
    let r := r <| r_heartbeatElapsed := 0 |> in
    '(r, _) ← Raft_Step ((mkmsg MsgBeat) <| m_From := r_id r |>) r;
    Ok r
  else Ok r.

Definition Raft_Tick (r : Raft St) : res (Raft St) :=
  match r_tick r with
  | TickElection => Raft_tickElection r
  | TickHeartbeat => Raft_tickHeartbeat r
  end.

Definition Raft_Ready (r : Raft St) : res Ready :=
  let msgs := r_messages r ++ List.filter (fun m => negb (m_To m =? r_id r)) (r_msgsAfterAppend r) in
  ces ← raftLog_nextCommittedEnts (r_raftLog r);
  Ok (mkReady (r_lead r) (raftLog_nextUnstableEnts (r_raftLog r)) ces msgs
        (Some (Raft_HardState r)) (r_readStates r)).

Definition Raft_HasReady (r : Raft St) : bool :=
  (0 <? len (r_messages r)) || (0 <? len (r_msgsAfterAppend r)) || (0 <? len (r_readStates r))
  || raftLog_hasNextUnstableEnts (r_raftLog r) || raftLog_hasNextCommittedEnts (r_raftLog r).

Definition Raft_Advance (rd : Ready) (r : Raft St) : res (Raft St) :=
  l ← match last (rd_Entries rd) with
      | Some e => raftLog_stableTo (e_Index e) (e_Term e) (r_raftLog r)
      | None => Ok (r_raftLog r)
      end;
  let l := match last (rd_CommittedEntries rd) with
           | Some e => raftLog_appliedTo (e_Index e) l
           | None => l
           end in
  Ok (r <| r_raftLog := l |> <| r_messages := [] |> <| r_readStates := [] |>).

(** ** Construction *)

Definition validate (c : Config St) : option error :=
  if c_HeartbeatTick c <=? 0 then Some (Errorf "heartbeat tick must be greater than 0")
  else if c_ElectionTick c <=? c_HeartbeatTick c
  then Some (Errorf "election tick must be greater than heartbeat tick")
  else match c_Storage c with
       | None => Some (Errorf "storage cannot be nil")
       | Some _ => None
       end.

Definition buildMajorityConfig (self : Z) (peers : list Z) : MajorityConfig :=
  {[ self ]} ∪ list_to_set peers.

Definition newRaft (c : Config St) : res (Raft St) :=
  match validate c, c_Storage c with
  | None, Some st =>
      let trk := NewTracker (c_ID c) (buildMajorityConfig (c_ID c) (c_Peers c)) in
      let trk := foldl (fun t pid => ProgressTracker_InitProgress pid 0 1 t) trk (c_Peers c) in
      let r := mkRaft (c_ID c) 0 Follower (newRaftLog st) [] [] trk (c_Peers c) 0 [] newReadOnly []
                 0 (c_HeartbeatTick c) (c_ElectionTick c) 0 0 0 0 TickElection StepFollower 0%nat in
      match InitialState st with
      | inl _ => Panic "InitialState failed"
      | inr hs =>
          let r := if negb (IsEmptyHardState (Some hs))
                   then r <| r_term := h_Term hs |> <| r_votedFor := h_VotedFor hs |>
                          <| r_raftLog ::= fun l => l <| l_committed := h_CommittedIndex hs |> |>
                   else r in
          if l_committed (r_raftLog r) <? c_Applied c then Panic "applied is greater than committed"
          else
            let firstIndex := FirstIndex st in
            if (0 <? c_Applied c) && (0 <? firstIndex) && (c_Applied c <? firstIndex -u 1)
            then Panic "applied is before the first log entry"
            else
              let applied := if 0 <? c_Applied c then c_Applied c
                             else if 0 <? firstIndex then firstIndex -u 1
                             else l_applied (r_raftLog r) in
              let r := r <| r_raftLog ::= raftLog_appliedTo applied |> in
              Ok (Raft_becomeFollower (r_term r) NoneID r)
      end
  | _, _ => Panic "invalid configuration"
  end.

End raft.
