(* ===== verification/RaftSteps.v ===== *)
(** * RaftSteps: the atomic transitions of the state machine

    [raft_step m] lists the atomic changes [Step] makes to a node while it
    handles the message [m], each with the guard under which the code makes it.
    [Step_steps] shows that every successful [Step] is a sequence of such
    changes; the invariants of the other files are proved by induction on that
    sequence. *)

From S2P Require Export Raft.

Section steps.
Context {RT : Runtime} {St : Type} {SS : Storage St}.
Implicit Types r : Raft St.
Implicit Types m : Message.

(** The node when [Step] was called. *)
Variable s0 : Raft St.

(** The log has not changed since. *)
Definition same_log (r : Raft St) : Prop := r_raftLog r = r_raftLog s0.

(** The vote a node casts for itself. *)
Definition self_vote (r : Raft St) : Raft St :=
  r <| r_trk ::= ProgressTracker_RecordVote (r_id r) true |>.

(** What the first switch of [Step] establishes for the messages it checks. *)
Definition term_checked (m : Message) (r : Raft St) : Prop :=
  m_Term m = 0 \/ m_Term m <= r_term r.

(** The append [m] matches the log, which it makes [l]. *)
Definition accepted (m : Message) (l : raftLog St) : Prop :=
  raftLog_matchTerm (m_Index m) (m_LogTerm m) (r_raftLog s0) = Ok true /\
  raftLog_appendEntries (m_Entries m) (r_raftLog s0) = Ok l.

(** An append comes from a leader and carries what its log holds from the next
    index of some member on, and its commit index. *)
Definition append_built (r : Raft St) (m' : Message) : Prop :=
  r_step r = StepLeader /\ m_Commit m' = l_committed (r_raftLog r) /\
  exists to_ p, ProgressTracker_Progress to_ (r_trk r) = Some p /\
    m_Index m' = NextIndex p -u 1 /\
    raftLog_term (m_Index m') (r_raftLog r) = Ok (inr (m_LogTerm m')) /\
    raftLog_slice (NextIndex p) (raftLog_lastIndex (r_raftLog r) +u 1) (r_raftLog r) = Ok (m_Entries m').

(** A heartbeat carries a commit index the receiver is known to have. *)
Definition heartbeat_built (r : Raft St) (m' : Message) : Prop :=
  r_step r = StepLeader /\ m_To m' <> r_id r /\
  exists p, ProgressTracker_Progress (m_To m') (r_trk r) = Some p /\
    m_Commit m' = umin (MatchIndex p) (l_committed (r_raftLog r)).

(** An acknowledgement names nothing, the end of the leader's own log, or the last entry
    of the append that was just accepted. *)
Definition ack_built (m : Message) (r : Raft St) (m' : Message) : Prop :=
  m_Reject m' = false ->
  m_Index m' = 0 \/
  (r_step r = StepLeader /\ m_Index m' = raftLog_lastIndex (r_raftLog r)) \/
  (r_step r = StepFollower /\ m_Type m = MsgApp /\ term_checked m r /\
   exists e l, last (m_Entries m) = Some e /\ m_Index m' = e_Index e /\ accepted m l /\
     (r_raftLog r = l \/ exists i, raftLog_commitTo i l = Ok (r_raftLog r))).

(** A vote request comes from a candidate and names the end of its log. *)
Definition vote_built (r : Raft St) (m' : Message) : Prop :=
  r_state r = Candidate /\ m_Term m' = r_term r /\
  raftLog_lastEntryID (r_raftLog r) = Ok (m_Index m', m_LogTerm m').

Definition built (m : Message) (r : Raft St) (m' : Message) : Prop :=
  match m_Type m' with
  | MsgApp => append_built r m'
  | MsgHeartbeat => heartbeat_built r m'
  | MsgAppResp => ack_built m r m'
  | MsgVote => vote_built r m'
  | _ => True
  end.

(** What a node may send while it handles [m]: messages of its own, which leave
    [From] to [send], or [m] itself, forwarded.  A granted vote answers the vote
    request [m] and agrees with the recorded vote. *)
Definition send_ok (m : Message) (r : Raft St) (m' : Message) : Prop :=
  (m_From m' = 0 \/
   (m' = m <| m_To := r_lead r |> /\ m_Type m ∈ [MsgProp; MsgReadIndex; MsgTransferLeader])) /\
  (m_Type m' = MsgVoteResp -> m_Reject m' = false ->
   m_Type m = MsgVote /\ m_To m' = m_From m /\ r_votedFor r = m_From m /\ m_Term m' = r_term r) /\
  built m r m'.

(** What a leader does to the progress of a member while it handles [m]: it leaves the
    indices alone, moves the next index back, or records an acknowledgement. *)
Definition progress_update (m : Message) (r : Raft St) (id : Z) (f : Progress -> Progress) : Prop :=
  (forall p, MatchIndex (f p) = MatchIndex p /\
             (NextIndex (f p) = NextIndex p \/ NextIndex (f p) = NextIndex p -u 1)) \/
  (m_Type m = MsgAppResp /\ m_Reject m = false /\ id = m_From m /\ term_checked m r /\
   forall p, MatchIndex (f p) = m_Index m /\ NextIndex (f p) = m_Index m +u 1).

(** A read is acknowledged by the leader that was asked, and by those who answer a
    heartbeat. *)
Definition read_acked (m : Message) (r : Raft St) (id : Z) : Prop :=
  (m_Type m = MsgReadIndex /\ id = r_id r) \/
  (m_Type m = MsgHeartbeatResp /\ id = m_From m /\ term_checked m r).

Inductive raft_step (m : Message) : Raft St -> Raft St -> Prop :=
| rs_send r r' m' :
    send_ok m r m' -> Raft_send m' r = Ok r' -> raft_step m r r'
| rs_choice r n :
    raft_step m r (r <| r_choices := n |>)
| rs_newer r :
    r_term r < m_Term m -> m_Type m <> MsgPreVote -> m_Type m <> MsgPreVoteResp ->
    raft_step m r (Raft_becomeFollower (m_Term m) (m_From m) r)
| rs_yield r :
    r_step r = StepCandidate -> m_Type m ∈ [MsgApp; MsgHeartbeat; MsgSnap] ->
    raft_step m r (Raft_becomeFollower (m_Term m) (m_From m) r)
| rs_stepdown r :
    (r_step r = StepLeader /\ ProgressTracker_QuorumActive (r_trk r) = false) \/
    (r_step r = StepCandidate /\ ProgressTracker_TallyVotes (r_trk r) = VoteLost) ->
    raft_step m r (Raft_becomeFollower (r_term r) NoneID r)
| rs_precandidate r :
    m_Type m = MsgHup -> r_state r <> Leader ->
    raft_step m r (self_vote (Raft_becomePreCandidate r))
| rs_candidate r :
    m_Type m ∈ [MsgHup; MsgTimeoutNow; MsgPreVoteResp] -> r_state r <> Leader ->
    r_term r <= Z.max (r_term s0) (m_Term m) ->
    raft_step m r (self_vote (Raft_becomeCandidate r))
| rs_leader r :
    r_step r = StepCandidate -> r_state r <> PreCandidate ->
    ProgressTracker_TallyVotes (r_trk r) = VoteWon ->
    raft_step m r (mark_active (r_id (leader_init r)) (leader_init r))
| rs_count r :
    r_step r = StepCandidate -> m_Type m = voteRespType r -> r_term r <= m_Term m ->
    (m_Type m = MsgVoteResp -> term_checked m r) ->
    raft_step m r (r <| r_trk ::= ProgressTracker_RecordVote (m_From m) (negb (m_Reject m)) |>)
| rs_grant r :
    m_Type m = MsgVote -> term_checked m r -> Raft_grants m r = Ok true ->
    raft_step m r (r <| r_votedFor := m_From m |>)
| rs_propose r data l' :
    r_step r = StepLeader -> same_log r ->
    raftLog_appendEntries [mkEntry (raftLog_lastIndex (r_raftLog r) +u 1) (r_term r) data] (r_raftLog r) = Ok l' ->
    raft_step m r (r <| r_raftLog := l' |>)
| rs_append r l' :
    r_step r = StepFollower -> m_Type m = MsgApp -> same_log r -> term_checked m r ->
    raftLog_matchTerm (m_Index m) (m_LogTerm m) (r_raftLog r) = Ok true ->
    raftLog_appendEntries (m_Entries m) (r_raftLog r) = Ok l' ->
    raft_step m r (r <| r_raftLog := l' |>)
| rs_commit_leader r l' :
    r_step r = StepLeader -> m_Type m = MsgAppResp -> same_log r ->
    l_committed (r_raftLog r) < ProgressTracker_Committed (r_trk r) ->
    raftLog_matchTerm (ProgressTracker_Committed (r_trk r)) (r_term r) (r_raftLog r) = Ok true ->
    raftLog_commitTo (ProgressTracker_Committed (r_trk r)) (r_raftLog r) = Ok l' ->
    raft_step m r (r <| r_raftLog := l' |>)
| rs_commit_follower r i l' :
    r_step r = StepFollower -> m_Type m ∈ [MsgApp; MsgHeartbeat] -> i <= m_Commit m ->
    term_checked m r -> (m_Type m = MsgApp -> accepted m (r_raftLog r)) ->
    raftLog_commitTo i (r_raftLog r) = Ok l' ->
    raft_step m r (r <| r_raftLog := l' |>)
| rs_snapshot r st e :
    r_step r = StepFollower -> m_Type m = MsgSnap -> same_log r ->
    ApplySnapshot (m_Snapshot m) (l_storage (r_raftLog r)) = Ok (st, e) ->
    raft_step m r (r <| r_raftLog ::= fun l =>
      let l := l <| l_storage := st |> in
      match e, m_Snapshot m with
      | None, Some snap => raftLog_restore (LastIncludedIndex snap) l
      | _, _ => l
      end |>)
| rs_follow r :
    r_step r = StepFollower -> m_Type m ∈ [MsgApp; MsgHeartbeat; MsgSnap] ->
    raft_step m r (follow m r)
| rs_progress r id f :
    r_step r = StepLeader -> progress_update m r id f ->
    raft_step m r (r <| r_trk ::= update_progress id f |>)
| rs_visit r f :
    r_step r = StepLeader ->
    (forall id p, MatchIndex (f id p) = MatchIndex p /\ NextIndex (f id p) = NextIndex p) ->
    raft_step m r (r <| r_trk ::= ProgressTracker_Visit f |>)
| rs_reads r p s :
    raft_step m r (r <| r_pendingReadIndexRequests := p |> <| r_readStates := s |>)
| rs_read_add r :
    r_step r = StepLeader -> m_Type m = MsgReadIndex -> same_log r ->
    Raft_committedEntryInCurrentTerm r = Ok true ->
    raft_step m r (r <| r_readOnly ::= readOnly_addRequest (l_committed (r_raftLog r)) m |>)
| rs_read_ack r id :
    r_step r = StepLeader -> read_acked m r id ->
    raft_step m r (r <| r_readOnly ::= fun ro => (readOnly_recvAck id (m_Context m) ro).2 |>)
| rs_read_advance r rss ro :
    r_step r = StepLeader -> readOnly_advance m (r_readOnly r) = Ok (rss, ro) ->
    raft_step m r (r <| r_readOnly := ro |>)
| rs_transfer r t el :
    r_step r = StepLeader ->
    raft_step m r (r <| r_leadTransferee := t |> <| r_electionElapsed := el |>).

(** Messages and read states may have been added, and the runtime asked for
    choices; nothing else changed. *)
Definition quiet (r r' : Raft St) : Prop :=
  exists ms ma rs n, r' = r <| r_messages := r_messages r ++ ms |>
                            <| r_msgsAfterAppend := r_msgsAfterAppend r ++ ma |>
                            <| r_readStates := r_readStates r ++ rs |> <| r_choices := n |>.

(** ** The transitions in closed form *)

Lemma Raft_eta r :
  r = mkRaft (r_id r) (r_term r) (r_state r) (r_raftLog r) (r_messages r) (r_msgsAfterAppend r)
        (r_trk r) (r_peers r) (r_votedFor r) (r_readStates r) (r_readOnly r)
        (r_pendingReadIndexRequests r) (r_lead r) (r_heartbeatTimeout r) (r_electionTimeout r)
        (r_electionElapsed r) (r_heartbeatElapsed r) (r_randomizedElectionTimeout r)
        (r_leadTransferee r) (r_tick r) (r_step r) (r_choices r).
Proof. by destruct r. Qed.

(** The tracker after [reset]. *)
Definition reset_trk (r : Raft St) : ProgressTracker :=
  ProgressTracker_Visit (reset_progress (r_id r) (raftLog_lastIndex (r_raftLog r)))
    (ProgressTracker_ResetVotes (r_trk r)).

(** The election timeout [reset] draws. *)
Definition draw_timeout (r : Raft St) : Z :=
  int64 (r_electionTimeout r + choose_int (r_choices r) (r_electionTimeout r)).

Definition kept_vote (t : Z) (r : Raft St) : Z :=
  if r_term r =? t then r_votedFor r else NoneID.

Lemma Raft_reset_eq t r :
  Raft_reset t r =
  mkRaft (r_id r) t (r_state r) (r_raftLog r) (r_messages r) (r_msgsAfterAppend r)
    (reset_trk r) (r_peers r) (kept_vote t r) (r_readStates r) newReadOnly
    [] NoneID (r_heartbeatTimeout r) (r_electionTimeout r)
    0 0 (draw_timeout r) NoneID (r_tick r) (r_step r) (S (r_choices r)).
Proof.
  rewrite (Raft_eta (Raft_reset t r)).
  f_equal; unfold Raft_reset, kept_vote; destruct (r_term r =? t) eqn:E; to_prop; try reflexivity.
  exact E.
Qed.

Lemma Raft_becomeFollower_eq t lead r :
  Raft_becomeFollower t lead r =
  mkRaft (r_id r) t Follower (r_raftLog r) (r_messages r) (r_msgsAfterAppend r)
    (reset_trk r) (r_peers r) (kept_vote t r) (r_readStates r) newReadOnly
    [] lead (r_heartbeatTimeout r) (r_electionTimeout r)
    0 0 (draw_timeout r) NoneID TickElection StepFollower (S (r_choices r)).
Proof. unfold Raft_becomeFollower. rewrite Raft_reset_eq. reflexivity. Qed.

Lemma Raft_becomeCandidate_eq r :
  Raft_becomeCandidate r =
  mkRaft (r_id r) (r_term r +u 1) Candidate (r_raftLog r) (r_messages r) (r_msgsAfterAppend r)
    (reset_trk r) (r_peers r) (r_id r) (r_readStates r) newReadOnly
    [] NoneID (r_heartbeatTimeout r) (r_electionTimeout r)
    0 0 (draw_timeout r) NoneID TickElection StepCandidate (S (r_choices r)).
Proof. unfold Raft_becomeCandidate. rewrite Raft_reset_eq. reflexivity. Qed.

Lemma leader_init_eq r :
  leader_init r =
  mkRaft (r_id r) (r_term r) Leader (r_raftLog r) (r_messages r) (r_msgsAfterAppend r)
    (reset_trk r) (r_peers r) (r_votedFor r) (r_readStates r) newReadOnly
    [] (r_id r) (r_heartbeatTimeout r) (r_electionTimeout r)
    0 0 (draw_timeout r) NoneID TickHeartbeat StepLeader (S (r_choices r)).
Proof.
  unfold leader_init. rewrite Raft_reset_eq. unfold kept_vote. simpl. by rewrite Z.eqb_refl.
Qed.

Opaque Raft_reset Raft_becomeFollower Raft_becomeCandidate leader_init.

Definition quiet_steps m r r' : Prop := rtc (raft_step m) r r' /\ quiet r r'.

Lemma quiet_refl r : quiet r r.
Proof. exists [], [], [], (r_choices r). rewrite !app_nil_r. by destruct r. Qed.

Lemma quiet_trans r1 r2 r3 : quiet r1 r2 -> quiet r2 r3 -> quiet r1 r3.
Proof.
  intros (ms & ma & rs & n & ->) (ms' & ma' & rs' & n' & ->).
  exists (ms ++ ms'), (ma ++ ma'), (rs ++ rs'), n'. by rewrite !app_assoc.
Qed.

Lemma quiet_steps_refl m r : quiet_steps m r r.
Proof. split; [done|apply quiet_refl]. Qed.

Lemma quiet_steps_trans m r1 r2 r3 :
  quiet_steps m r1 r2 -> quiet_steps m r2 r3 -> quiet_steps m r1 r3.
Proof. intros [? ?] [? ?]. split; [by etrans|by eapply quiet_trans]. Qed.

Lemma quiet_step r r' : quiet r r' -> r_step r' = r_step r.
Proof. by intros (?&?&?&?&->). Qed.

Lemma quiet_log r r' : quiet r r' -> same_log r -> same_log r'.
Proof. by intros (?&?&?&?&->). Qed.

Hint Resolve quiet_refl quiet_steps_refl : kvgo.

Lemma Raft_send_quiet m r r' : Raft_send m r = Ok r' -> quiet r r'.
Proof.
  unfold Raft_send. intros H. inv_res. destruct (waits_for_append _); inv_res.
  - eexists [], [_], [], (r_choices r). rewrite !app_nil_r. by destruct r.
  - eexists [_], [], [], (r_choices r). rewrite !app_nil_r. by destruct r.
Qed.

Lemma send_ok_quiet m m' r r' : send_ok m r m' -> Raft_send m' r = Ok r' -> quiet_steps m r r'.
Proof.
  intros Hok Hs. split; [|by eapply Raft_send_quiet]. eapply rtc_once, rs_send; done.
Qed.

Lemma send_own m m' r r' :
  m_From m' = 0 -> m_Type m' <> MsgVoteResp -> built m r m' -> Raft_send m' r = Ok r' ->
  quiet_steps m r r'.
Proof. intros Hf Ht Ha Hs. eapply send_ok_quiet; [|done]. by split_and!; [left|..]. Qed.

(** The types whose messages carry no claim. *)
Definition plain (t : MessageType) : bool :=
  match t with MsgVoteResp | MsgApp | MsgHeartbeat | MsgAppResp | MsgVote => false | _ => true end.

Lemma plain_built m r m' : plain (m_Type m') = true -> built m r m'.
Proof. unfold built. by destruct (m_Type m'). Qed.

Lemma send_plain m m' r r' :
  m_From m' = 0 -> plain (m_Type m') = true -> Raft_send m' r = Ok r' -> quiet_steps m r r'.
Proof.
  intros Hf Hp. apply send_own; [done| |by apply plain_built]. intros E. by rewrite E in Hp.
Qed.

Lemma foldM_quiet {A} m (f : A -> Raft St -> res (Raft St)) xs r r' :
  (forall x s s', x ∈ xs -> quiet r s -> f x s = Ok s' -> quiet_steps m s s') ->
  foldM f xs r = Ok r' -> quiet_steps m r r'.
Proof.
  intros Hf H. eapply (foldM_inv (quiet_steps m r)); [|apply quiet_steps_refl|exact H].
  intros x s s' Hx Hs Hfx. eapply quiet_steps_trans; [exact Hs|eapply Hf; [done|apply Hs|done]].
Qed.

Lemma sendAppend_quiet m to_ r r' :
  r_step r = StepLeader -> Raft_sendAppend to_ r = Ok r' -> quiet_steps m r r'.
Proof.
  unfold Raft_sendAppend. intros Hst H.
  destruct (ProgressTracker_Progress to_ (r_trk r)) as [p|] eqn:Hp; [|inv_res; apply quiet_steps_refl].
  apply bind_Ok in H as ([e|t] & Ht & H).
  - destruct (Snapshot _); [inv_res; apply quiet_steps_refl|]. by eapply send_plain in H.
  - apply bind_Ok in H as (ents & He & H). eapply send_own in H; [done|done..|].
    split; [done|]. split; [done|]. by exists to_, p.
Qed.

Lemma sendAppend_only to_ r r' : Raft_sendAppend to_ r = Ok r' -> quiet r r'.
Proof.
  unfold Raft_sendAppend. intros H.
  destruct (ProgressTracker_Progress _ _); [|inv_res; apply quiet_refl].
  apply bind_Ok in H as ([e|t] & _ & H).
  - destruct (Snapshot _); [inv_res; apply quiet_refl|by eapply Raft_send_quiet].
  - apply bind_Ok in H as (ents & _ & H). by eapply Raft_send_quiet.
Qed.

Lemma visit_quiet m r : quiet_steps m r (Raft_visit r).2.
Proof.
  split; [eapply rtc_once, rs_choice|].
  exists [], [], [], (S (r_choices r)). rewrite !app_nil_r. by destruct r.
Qed.

Lemma bcastAppend_quiet m r r' :
  r_step r = StepLeader -> Raft_bcastAppend r = Ok r' -> quiet_steps m r r'.
Proof.
  intros Hst H. eapply quiet_steps_trans; [apply visit_quiet|].
  eapply foldM_quiet; [|exact H]. intros [id pr] s s' _ Hq Hs. simpl in Hs.
  destruct (id =? r_id s); [inv_res; apply quiet_steps_refl|].
  eapply sendAppend_quiet; [|exact Hs]. by rewrite (quiet_step _ _ Hq).
Qed.

Lemma bcastHeartbeat_quiet m ctx r r' :
  r_step r = StepLeader -> Raft_bcastHeartbeat ctx r = Ok r' -> quiet_steps m r r'.
Proof.
  intros Hst H. eapply quiet_steps_trans; [apply visit_quiet|].
  eapply foldM_quiet; [|exact H]. intros [id pr] s s' Hin Hq Hs. simpl in Hs.
  destruct (id =? r_id s) eqn:E; [inv_res; apply quiet_steps_refl|]. to_prop.
  eapply send_own in Hs; [done|done..|]. destruct Hq as (?&?&?&?&->). split; [done|]. split; [done|].
  exists pr. split; [|done]. simpl in Hin. rewrite (visit_order_perm (r_choices r) (progress (r_trk r))) in Hin.
  by apply elem_of_map_to_list in Hin.
Qed.

Lemma bcastVote_quiet m t term r r' :
  t = MsgPreVote \/ (t = MsgVote /\ r_state r = Candidate /\ term = r_term r) ->
  Raft_bcastVote t term r = Ok r' -> quiet_steps m r r'.
Proof.
  intros Ht H. unfold Raft_bcastVote in H. apply bind_Ok in H as ([li lt] & Hl & H).
  eapply foldM_quiet; [|exact H]. intros pid s s' _ (?&?&?&?&->) Hs.
  destruct Ht as [-> | (-> & Hc & ->)]; [by eapply send_plain in Hs|]. by eapply send_own in Hs.
Qed.

(** A transition followed by a vote broadcast. *)
Lemma step_bcastVote m r rc t term r' :
  raft_step m r rc -> t = MsgPreVote \/ (t = MsgVote /\ r_state rc = Candidate /\ term = r_term rc) ->
  Raft_bcastVote t term rc = Ok r' ->
  rtc (raft_step m) r r'.
Proof. intros Hs Ht H. eapply rtc_l; [exact Hs|]. by apply (bcastVote_quiet m) in H as [? _]. Qed.

Lemma respondReadIndexReq_quiet m req i r r' :
  Raft_respondReadIndexReq req i r = Ok r' -> quiet_steps m r r'.
Proof.
  unfold Raft_respondReadIndexReq. destruct (_ || _); intros H.
  - injection H as <-. split.
    + eapply rtc_once.
      assert (r <| r_readStates ::= fun l => l ++ [mkReadState i (m_Context req)] |> =
              r <| r_pendingReadIndexRequests := r_pendingReadIndexRequests r |>
                <| r_readStates := r_readStates r ++ [mkReadState i (m_Context req)] |>) as ->
        by by destruct r.
      apply rs_reads.
    + exists [], [], [mkReadState i (m_Context req)], (r_choices r). rewrite !app_nil_r. by destruct r.
  - by eapply send_plain in H.
Qed.

Lemma drain_steps m r r' :
  Raft_drainPendingReadIndexRequests r = Ok r' -> rtc (raft_step m) r r'.
Proof.
  intros H. eapply rtc_l.
  - apply (rs_reads _ r [] (r_readStates r)).
  - assert (r <| r_pendingReadIndexRequests := [] |> <| r_readStates := r_readStates r |>
            = r <| r_pendingReadIndexRequests := [] |>) as -> by by destruct r.
    refine (proj1 (foldM_quiet _ _ _ _ _ _ H)). intros req s s' _ _. apply respondReadIndexReq_quiet.
Qed.

(** ** The handlers *)

Lemma maybeCommit_steps m r r' b :
  r_step r = StepLeader -> m_Type m = MsgAppResp -> same_log r ->
  Raft_maybeCommit (ProgressTracker_Committed (r_trk r)) r = Ok (r', b) ->
  rtc (raft_step m) r r'.
Proof.
  intros Hst Ht Hl0. unfold Raft_maybeCommit. destruct (_ <? _) eqn:E; to_prop; [|intros H; by inv_res].
  intros (mt & Hm & H)%bind_Ok. destruct mt; [|by inv_res].
  apply bind_Ok in H as (l & Hl & H). inv_res. by eapply rtc_once, rs_commit_leader.
Qed.

Lemma handleAppendEntries_steps m r r' :
  r_step r = StepFollower -> m_Type m = MsgApp -> same_log r -> term_checked m r ->
  Raft_handleAppendEntries m r = Ok r' -> rtc (raft_step m) r r'.
Proof.
  intros Hst Ht Hl0 Hchk. unfold Raft_handleAppendEntries. intros ([] & Hmt & H)%bind_Ok.
  2: { destruct (Snapshot _); by eapply send_own in H as [? _]. }
  apply bind_Ok in H as ([l resp] & Hl & H). apply bind_Ok in H as (l' & Hc & H).
  assert (rtc (raft_step m) r (r <| r_raftLog := l |>) /\ accepted m l /\ m_From resp = 0 /\
          m_Type resp = MsgAppResp /\
          (m_Index resp = 0 \/ exists e, last (m_Entries m) = Some e /\ m_Index resp = e_Index e))
    as (H1 & Hac & Hf & Hrt & Hix).
  { unfold accepted. rewrite <- Hl0. destruct (last (m_Entries m)) as [e|] eqn:El.
    - apply bind_Ok in Hl as (l1 & Ha & Hl). inv_res. split_and!; try done; [|by right; exists e].
      eapply rtc_once, rs_append; done.
    - apply last_None in El. rewrite El. inv_res. split_and!; try done; [by destruct r|by left]. }
  assert (rtc (raft_step m) r (r <| r_raftLog := l' |>) /\ (l' = l \/ exists i, raftLog_commitTo i l = Ok l'))
    as [H2 Hl'].
  { destruct (_ <? _) eqn:E; [|inv_res; by split; [|left]]. split; [|by right; eexists]. etrans; [exact H1|].
    change (r <| r_raftLog := l' |>) with (r <| r_raftLog := l |> <| r_raftLog := l' |>).
    eapply rtc_once, rs_commit_follower; [done| |apply Z.le_min_l|done|by intros _|done].
    rewrite Ht. left. }
  etrans; [exact H2|]. eapply send_own in H as [? _]; [done|done|by rewrite Hrt|].
  unfold built. rewrite Hrt. intros _. destruct Hix as [?|(e & He & Hi)]; [by left|right; right].
  split; [done|]. split; [done|]. split; [done|]. exists e, l. split_and!; try done; apply Hac.
Qed.

Lemma handleHeartbeat_steps m r r' :
  r_step r = StepFollower -> m_Type m = MsgHeartbeat -> term_checked m r ->
  Raft_handleHeartbeat m r = Ok r' -> rtc (raft_step m) r r'.
Proof.
  intros Hst Ht Hchk. unfold Raft_handleHeartbeat. intros (l & Hl & H)%bind_Ok.
  eapply rtc_l; [|by eapply send_plain in H as [? _]].
  eapply rs_commit_follower; [done| |reflexivity|done|by rewrite Ht|done]. rewrite Ht. by right; left.
Qed.

Lemma handleSnapshot_steps m r r' :
  r_step r = StepFollower -> m_Type m = MsgSnap -> same_log r ->
  Raft_handleSnapshot m r = Ok r' -> rtc (raft_step m) r r'.
Proof.
  intros Hst Ht Hl0. unfold Raft_handleSnapshot. intros ([st e] & Ha & H)%bind_Ok.
  pose proof (rs_snapshot m r st e Hst Ht Hl0 Ha) as Hs.
  destruct e as [e|]; [|destruct (m_Snapshot m)]; inv_res; by apply rtc_once.
Qed.

Lemma appendEntry_steps m data r r' :
  r_step r = StepLeader -> same_log r -> Raft_appendEntry data r = Ok r' ->
  rtc (raft_step m) r r' /\ r_step r' = StepLeader.
Proof.
  intros Hst Hl0. unfold Raft_appendEntry. intros (l & Hl & H)%bind_Ok.
  eapply send_own in H as [Hs Hq]; [|done..|by right; left]. split.
  - eapply rtc_l; [by eapply rs_propose|exact Hs].
  - by rewrite (quiet_step _ _ Hq).
Qed.

Lemma becomeLeader_steps m r r' :
  r_step r = StepCandidate -> r_state r <> PreCandidate ->
  ProgressTracker_TallyVotes (r_trk r) = VoteWon -> same_log r ->
  Raft_becomeLeader r = Ok r' -> rtc (raft_step m) r r'.
Proof.
  intros Hst Hp Hv Hl0. unfold Raft_becomeLeader.
  destruct (ProgressTracker_Progress _ _); [|done]. intros (r1 & H1 & H2)%bind_Ok.
  eapply rtc_l; [by apply rs_leader|].
  apply (appendEntry_steps m) in H1 as [H1 Hl]; [|by rewrite leader_init_eq..]. etrans; [exact H1|].
  by apply (bcastAppend_quiet m) in H2 as [? _].
Qed.

Lemma hup_election_steps m r r' :
  m_Type m ∈ [MsgHup; MsgTimeoutNow; MsgPreVoteResp] -> r_term r <= Z.max (r_term s0) (m_Term m) ->
  same_log r -> Raft_hup_election r = Ok r' -> rtc (raft_step m) r r'.
Proof.
  intros Ht Hb Hl0. unfold Raft_hup_election. case_decide; [intros; by inv_res|]. intros H'.
  eapply rtc_l; [by apply rs_candidate|]. unfold self_vote.
  destruct (ProgressTracker_TallyVotes _) eqn:E.
  - apply (bcastVote_quiet m) in H' as [? _]; [done|by right; rewrite Raft_becomeCandidate_eq].
  - apply (bcastVote_quiet m) in H' as [? _]; [done|by right; rewrite Raft_becomeCandidate_eq].
  - apply becomeLeader_steps; [by rewrite Raft_becomeCandidate_eq..|done|by rewrite Raft_becomeCandidate_eq|done].
Qed.

Lemma hup_steps m t r r' :
  m_Type m = (if t is CampaignPreElection then MsgHup else MsgTimeoutNow) ->
  r_term r <= Z.max (r_term s0) (m_Term m) -> same_log r ->
  Raft_hup t r = Ok r' -> rtc (raft_step m) r r'.
Proof.
  intros Ht Hb Hl0. unfold Raft_hup.
  destruct t; [|apply hup_election_steps; [rewrite Ht; in_list|done|done]..].
  case_decide; [intros; by inv_res|]. intros H'.
  eapply rtc_l; [by apply rs_precandidate|]. unfold self_vote.
  destruct (ProgressTracker_TallyVotes _) eqn:E.
  - apply (bcastVote_quiet m) in H' as [? _]; [done|by left].
  - apply (bcastVote_quiet m) in H' as [? _]; [done|by left].
  - apply hup_election_steps; [rewrite Ht; in_list|done|done|done].
Qed.

Lemma respondVote_reject m to_ t term r r' :
  t ∈ [MsgVoteResp; MsgPreVoteResp] -> Raft_respondVote to_ false t term r = Ok r' -> quiet_steps m r r'.
Proof.
  unfold Raft_respondVote. intros Ha H. eapply send_ok_quiet; [|exact H].
  split_and!; [by left|done|]. unfold built. simpl. by inv_list; subst t.
Qed.

Lemma respondVote_other m to_ g t term r r' :
  plain t = true -> Raft_respondVote to_ g t term r = Ok r' -> quiet_steps m r r'.
Proof. unfold Raft_respondVote. intros Ht H. by eapply send_plain in H. Qed.

(** ** stepLeader *)

Definition leading (r : Raft St) : Prop := r_step r = StepLeader /\ same_log r.

Lemma mark_active_steps m id (b : bool) r :
  leading r ->
  rtc (raft_step m) r (if b then mark_active id r else r) /\
  leading (if b then mark_active id r else r).
Proof. destruct b; [|done]. intros [Hst Hl]. split; [|done]. apply rtc_once, rs_progress; [done|]. left. by intros p; split; [|left]. Qed.

Lemma quiet_steps_leader m r r1 r2 :
  leading r1 -> quiet_steps m r1 r2 -> rtc (raft_step m) r r1 ->
  rtc (raft_step m) r r2 /\ leading r2.
Proof.
  intros [Hst Hl] [H1 Hq] H. split; [by etrans|]. split; [by rewrite (quiet_step _ _ Hq)|].
  by eapply quiet_log.
Qed.

Lemma stepLeader_AppResp_steps m r r' e :
  leading r -> m_Type m = MsgAppResp -> term_checked m r -> stepLeader_AppResp m r = Ok (r', e) ->
  rtc (raft_step m) r r'.
Proof.
  intros Hst Ht Hchk. unfold stepLeader_AppResp.
  destruct (ProgressTracker_Progress _ _); [|intros; by inv_res].
  intros H. simpl in H.
  pose proof (mark_active_steps m (m_From m) (m_Term m =? r_term r) r Hst) as [H0 Hst0].
  assert (term_checked m (if m_Term m =? r_term r then mark_active (m_From m) r else r)) as Hchk0
    by by destruct (_ =? _).
  revert H. generalize dependent (if m_Term m =? r_term r then mark_active (m_From m) r else r).
  intros r0 H0 Hst0 Hchk0 (r1 & H1 & H)%bind_Ok.
  assert (rtc (raft_step m) r r1 /\ leading r1) as [Hs1 Hst1].
  { destruct (m_Reject m) eqn:Erj.
    - apply bind_Ok in H1 as (r2 & H1 & H2).
      assert (quiet_steps m r0 r2) as Hq.
      { destruct (_ && _); [|inv_res; apply quiet_steps_refl].
        destruct (Snapshot _); [inv_res; apply quiet_steps_refl|]. by eapply send_plain in H1. }
      destruct (quiet_steps_leader _ _ _ _ Hst0 Hq H0) as [Hs Hst2].
      injection H2 as <-. split; [|done]. eapply rtc_r; [|apply rs_progress]; [done|apply Hst2|]. left. by intros q; split; [|right].
    - injection H1 as <-. split; [|done]. eapply rtc_r; [|apply rs_progress]; [done|apply Hst0|].
      right. by split_and!. }
  clear H0 Hst0 Hchk0 H1 r0. apply bind_Ok in H as (r2 & H2 & H).
  assert (quiet_steps m r1 r2) as Hq2.
  { destruct (_ && _); [|inv_res; apply quiet_steps_refl]. by eapply send_plain in H2. }
  destruct (quiet_steps_leader _ _ _ _ Hst1 Hq2 Hs1) as [Hs2 Hst2].
  apply bind_Ok in H as ([r3 adv] & H3 & H). apply bind_Ok in H as (r4 & H4 & H). inv_res.
  etrans; [exact Hs2|]. destruct Hst2. etrans; [by eapply maybeCommit_steps|].
  destruct adv; [by apply drain_steps|by inv_res].
Qed.

Lemma stepLeader_Prop_steps m r r' e :
  leading r -> stepLeader_Prop m r = Ok (r', e) -> rtc (raft_step m) r r'.
Proof.
  intros [Hst Hl]. unfold stepLeader_Prop. destruct (negb _); [intros; by inv_res|].
  destruct (m_Entries m) as [|e0 es]; [done|].
  intros (r1 & H1 & H)%bind_Ok. apply bind_Ok in H as (r2 & H2 & H). inv_res.
  apply (appendEntry_steps m) in H1 as [H1 Hs]; [|done..].
  etrans; [exact H1|]. by apply (bcastAppend_quiet m) in H2 as [? _].
Qed.

Lemma stepLeader_HeartbeatResp_steps m r r' e :
  leading r -> m_Type m = MsgHeartbeatResp -> term_checked m r ->
  stepLeader_HeartbeatResp m r = Ok (r', e) -> rtc (raft_step m) r r'.
Proof.
  intros Hst Ht Hchk. unfold stepLeader_HeartbeatResp.
  destruct (ProgressTracker_Progress _ _) as [prs|]; [|intros; by inv_res].
  intros H. simpl in H.
  pose proof (mark_active_steps m (m_From m) (m_Term m =? r_term r) r Hst) as [H0 Hst0].
  set (r0 := if m_Term m =? r_term r then mark_active (m_From m) r else r) in *.
  assert (r_term r0 = r_term r) as Et0 by (subst r0; by destruct (_ =? _)). clearbody r0.
  apply bind_Ok in H as (r1 & H1 & H).
  assert (quiet_steps m r0 r1) as Hq.
  { destruct (_ <? _); [|inv_res; apply quiet_steps_refl].
    by apply (sendAppend_quiet m) in H1; [|apply Hst0]. }
  assert (term_checked m r1) as Hchk1.
  { destruct Hq as [_ (?&?&?&?&->)]. unfold term_checked in *. simpl. by rewrite Et0. }
  destruct (quiet_steps_leader _ _ _ _ Hst0 Hq H0) as [Hs1 Hst1].
  etrans; [exact Hs1|]. apply bind_Ok in H as (r2 & H2 & H). inv_res.
  destruct (0 <? len (m_Context m)); [|by inv_res].
  destruct (readOnly_recvAck _ _ _) as [acks ro] eqn:Ea.
  assert (rtc (raft_step m) r1 (r1 <| r_readOnly := ro |>)) as Hs2.
  { apply rtc_once. pose proof (rs_read_ack m r1 (m_From m) (proj1 Hst1) ltac:(by right)) as Hs.
    unfold set_field in Hs. by rewrite Ea in Hs. }
  etrans; [exact Hs2|]. destruct (MajorityConfig_VoteResult _ _); [by inv_res..|].
  apply bind_Ok in H2 as ([rss ro'] & Hadv & H2).
  eapply rtc_l; [eapply rs_read_advance; [apply Hst1|done]|].
  refine (proj1 (foldM_quiet m _ _ _ _ _ H2)). intros rs s s' _ _. apply respondReadIndexReq_quiet.
Qed.

Lemma stepLeader_ReadIndex_steps m r r' e :
  leading r -> m_Type m = MsgReadIndex ->
  stepLeader_ReadIndex m r = Ok (r', e) -> rtc (raft_step m) r r'.
Proof.
  intros [Hst Hl0] Ht. unfold stepLeader_ReadIndex. destruct (ProgressTracker_IsSingleton _).
  { intros (r1 & H1 & H)%bind_Ok. inv_res. by eapply respondReadIndexReq_quiet. }
  intros (c & Hc & H)%bind_Ok. destruct c; simpl in H; [|injection H as <- <-].
  2: { apply rtc_once.
    pose proof (rs_reads m r (r_pendingReadIndexRequests r ++ [m]) (r_readStates r)) as Hs.
    by destruct r. }
  apply bind_Ok in H as (r1 & H1 & H). inv_res.
  eapply rtc_l; [by apply rs_read_add|]. eapply rtc_l; [apply (rs_read_ack _ _ (r_id r)); [done|by left]|].
  by eapply bcastHeartbeat_quiet.
Qed.

Lemma stepLeader_TransferLeader_steps m r r' e :
  leading r -> stepLeader_TransferLeader m r = Ok (r', e) -> rtc (raft_step m) r r'.
Proof.
  intros [Hst _]. unfold stepLeader_TransferLeader. destruct (_ && _); [intros; by inv_res|].
  set (r0 := if negb _ then _ else _).
  assert (rtc (raft_step m) r r0 /\ r_step r0 = StepLeader) as [H0 Hst0].
  { subst r0. destruct (negb _); [|done]. split; [|done].
    pose proof (rs_transfer m r NoneID (r_electionElapsed r) Hst) as Hs.
    apply rtc_once. by destruct r. }
  clearbody r0. destruct (m_From m =? _); [intros; by inv_res|].
  pose proof (rs_transfer m r0 (m_From m) 0 Hst0) as Hs.
  set (r1 := r0 <| r_electionElapsed := 0 |> <| r_leadTransferee := m_From m |>).
  change (raft_step m r0 r1) in Hs. assert (r_step r1 = StepLeader) as Hst1 by done.
  clearbody r1. intros H. simpl in H.
  destruct (ProgressTracker_Progress _ _) as [prs|]; [|done].
  apply bind_Ok in H as (r2 & H2 & H). inv_res.
  etrans; [exact H0|]. eapply rtc_l; [exact Hs|].
  destruct (_ =? _); [by eapply send_plain in H2 as [? _]|].
  by apply (sendAppend_quiet m) in H2 as [? _].
Qed.

(** The messages the first switch of [Step] checks. *)
Definition checked (m : Message) (r : Raft St) : Prop :=
  m_Type m <> MsgPreVote -> m_Type m <> MsgPreVoteResp -> term_checked m r.

Lemma stepLeader_steps m r r' e :
  leading r -> checked m r -> stepLeader m r = Ok (r', e) -> rtc (raft_step m) r r'.
Proof.
  intros Hst Hchk. unfold stepLeader. destruct (m_Type m) eqn:Ht; try (intros; by inv_res).
  - apply stepLeader_AppResp_steps; [done..|]. apply Hchk; by rewrite Ht.
  - intros (r1 & H1 & H)%bind_Ok. inv_res. eapply bcastHeartbeat_quiet; [apply Hst|done].
  - by apply stepLeader_Prop_steps.
  - apply stepLeader_HeartbeatResp_steps; [done..|]. apply Hchk; by rewrite Ht.
  - by apply stepLeader_ReadIndex_steps.
  - unfold stepLeader_CheckQuorum. destruct (negb _) eqn:E; intros H; inv_res; apply rtc_once.
    + apply rs_stepdown. left. split; [apply Hst|by to_prop].
    + apply rs_visit; [apply Hst|]. intros id p. by destruct (negb (id =? r_id r)).
  - by apply stepLeader_TransferLeader_steps.
Qed.

(** ** stepCandidate, stepFollower, Step *)

(** What a (pre-)candidate does with its tally. *)
Lemma tally_steps m r r' (e : option error) :
  r_step r = StepCandidate -> m_Type m = voteRespType r ->
  r_term r <= Z.max (r_term s0) (m_Term m) -> same_log r ->
  match ProgressTracker_TallyVotes (r_trk r) with
  | VoteWon =>
      r1 ← (if decide (r_state r = PreCandidate)
            then Raft_bcastVote MsgVote (r_term (self_vote (Raft_becomeCandidate r)))
                   (self_vote (Raft_becomeCandidate r))
            else Raft_becomeLeader r);
      Ok (r1, None)
  | VoteLost => Ok (Raft_becomeFollower (r_term r) NoneID r, None)
  | VotePending => Ok (r, None)
  end = Ok (r', e) -> rtc (raft_step m) r r'.
Proof.
  intros Hst Ht Hb Hl0 H. destruct (ProgressTracker_TallyVotes (r_trk r)) eqn:Ev.
  - by inv_res.
  - inv_res. apply rtc_once, rs_stepdown. by right.
  - apply bind_Ok in H as (r2 & H2 & H). inv_res. case_decide as Hp.
    + assert (m_Type m = MsgPreVoteResp) as Htp by (rewrite Ht; unfold voteRespType; by rewrite Hp).
      refine (step_bcastVote m r _ MsgVote _ _ (rs_candidate m r _ _ Hb) _ H2);
        [rewrite Htp; in_list|by rewrite Hp|right; split_and!; [done| |done]].
      unfold self_vote. by rewrite Raft_becomeCandidate_eq.
    + by apply becomeLeader_steps.
Qed.

Lemma stepCandidate_voteResp_steps m r r' e :
  r_step r = StepCandidate -> m_Type m = voteRespType r ->
  (m_Type m = MsgVoteResp -> term_checked m r) -> r_term r <= Z.max (r_term s0) (m_Term m) ->
  same_log r ->
  stepCandidate_voteResp m r = Ok (r', e) -> rtc (raft_step m) r r'.
Proof.
  intros Hst Ht Hchk Hb Hl0. unfold stepCandidate_voteResp.
  destruct (_ <? _) eqn:E; to_prop; [intros; by inv_res|].
  intros H. eapply rtc_l; [exact (rs_count m r Hst Ht E Hchk)|].
  eapply tally_steps; [exact Hst|exact Ht|exact Hb|exact Hl0|exact H].
Qed.

Lemma becomeFollower_step t lead r : r_step (Raft_becomeFollower t lead r) = StepFollower.
Proof. by rewrite Raft_becomeFollower_eq. Qed.

Lemma becomeFollower_checked m lead r : term_checked m (Raft_becomeFollower (m_Term m) lead r).
Proof. rewrite Raft_becomeFollower_eq. by right. Qed.

Lemma becomeFollower_log t lead r : same_log r -> same_log (Raft_becomeFollower t lead r).
Proof. by rewrite Raft_becomeFollower_eq. Qed.

Lemma stepCandidate_steps m r r' e :
  r_step r = StepCandidate ->
  checked m r -> r_term r <= Z.max (r_term s0) (m_Term m) -> same_log r ->
  stepCandidate m r = Ok (r', e) -> rtc (raft_step m) r r'.
Proof.
  intros Hst Hchk Hb Hl0. unfold stepCandidate. destruct (m_Type m) eqn:Ht; try (intros; by inv_res).
  - intros (r1 & H1 & H)%bind_Ok. inv_res. eapply rtc_l; [apply rs_yield; [done|rewrite Ht; in_list]|].
    eapply handleAppendEntries_steps;
      [apply becomeFollower_step|done|by apply becomeFollower_log|apply becomeFollower_checked|done].
  - case_decide as Hv; [|intros; by inv_res]. apply stepCandidate_voteResp_steps; [done|congruence|intros _; apply Hchk; by rewrite Ht|done|done].
  - intros (r1 & H1 & H)%bind_Ok. inv_res. eapply rtc_l; [apply rs_yield; [done|rewrite Ht; in_list]|].
    eapply handleSnapshot_steps; [apply becomeFollower_step|done|by apply becomeFollower_log|done].
  - intros (r1 & H1 & H)%bind_Ok. inv_res. eapply rtc_l; [apply rs_yield; [done|rewrite Ht; in_list]|].
    eapply handleHeartbeat_steps; [apply becomeFollower_step|done|apply becomeFollower_checked|done].
  - case_decide as Hv; [|intros; by inv_res]. apply stepCandidate_voteResp_steps; [done|congruence|by rewrite Ht|done|done].
Qed.

Lemma forward_steps m r r' :
  m_Type m ∈ [MsgProp; MsgReadIndex; MsgTransferLeader] ->
  Raft_forward m r = Ok r' -> rtc (raft_step m) r r'.
Proof.
  intros Ht H. refine (proj1 (send_ok_quiet m _ r r' _ H)). split; [by right|].
  simpl. split; [intros E; rewrite E in Ht; set_solver|]. apply plain_built. simpl.
  inv_list; by rewrite Ht.
Qed.

Lemma stepFollower_steps m r r' e :
  r_step r = StepFollower -> checked m r -> r_term r <= Z.max (r_term s0) (m_Term m) -> same_log r ->
  stepFollower m r = Ok (r', e) -> rtc (raft_step m) r r'.
Proof.
  intros Hst Hchk Hb Hl0. unfold stepFollower. destruct (m_Type m) eqn:Ht; try (intros; by inv_res).
  1, 2, 4: intros (r1 & H1 & H)%bind_Ok; inv_res;
    (eapply rtc_l; [apply rs_follow; [done|rewrite Ht; in_list]|]);
    (assert (term_checked m (follow m r)) by (apply Hchk; by rewrite Ht));
    by eauto using handleAppendEntries_steps, handleSnapshot_steps, handleHeartbeat_steps.
  1, 2, 4: destruct (_ =? _); [intros; by inv_res|]; intros (r1 & H1 & H)%bind_Ok; inv_res;
    apply forward_steps; [rewrite Ht; in_list|done].
  - intros H. injection H as <- <-. apply rtc_once.
    pose proof (rs_reads m r (r_pendingReadIndexRequests r)
      (r_readStates r ++ [mkReadState (m_Index m) (m_Context m)])) as Hs. by destruct r.
  - intros (r1 & H1 & H)%bind_Ok. inv_res. exact (hup_steps m CampaignTransfer _ _ Ht Hb Hl0 H1).
Qed.

Lemma Raft_step_steps m r r' e :
  checked m r -> r_term r <= Z.max (r_term s0) (m_Term m) -> same_log r ->
  Raft_step m r = Ok (r', e) -> rtc (raft_step m) r r'.
Proof.
  intros Hchk Hb Hl0. unfold Raft_step. destruct (r_step r) eqn:Hst.
  - by apply stepFollower_steps.
  - by apply stepCandidate_steps.
  - by apply stepLeader_steps.
Qed.

(** After the first switch the term is the old one or the message's, and at
    least the message's unless the message is a pre-vote. *)
Lemma checkTerm_term m r r' :
  Raft_checkTerm m r = Ok r' ->
  r_term r' <= Z.max (r_term r) (m_Term m) /\
  (m_Type m <> MsgPreVote -> m_Type m <> MsgPreVoteResp -> term_checked m r').
Proof.
  unfold Raft_checkTerm, term_checked. destruct (m_Term m =? 0) eqn:E0; to_prop.
  { intros H. inv_res. split; [lia|by left]. }
  destruct (r_term r <? m_Term m) eqn:E1; to_prop.
  - destruct (m_Type m); intros H; inv_res; rewrite ?Raft_becomeFollower_eq; simpl;
      split; (lia || done || (right; lia)).
  - destruct (m_Term m <? r_term r) eqn:E2; to_prop; [|intros H; inv_res; split; lia].
    destruct (m_Type m); intros H; inv_res; try (split; lia).
    unfold Raft_respondVote in H. apply Raft_send_quiet in H as (?&?&?&?&->). simpl. split; lia.
Qed.

Lemma checkTerm_log m r r' : Raft_checkTerm m r = Ok r' -> r_raftLog r' = r_raftLog r.
Proof.
  unfold Raft_checkTerm. destruct (_ =? 0); [intros; by inv_res|]. destruct (_ <? _).
  - destruct (m_Type m); intros H; inv_res; by rewrite ?Raft_becomeFollower_eq.
  - destruct (_ <? r_term r); [|intros; by inv_res].
    destruct (m_Type m); intros H; try by inv_res.
    unfold Raft_respondVote in H. by apply Raft_send_quiet in H as (?&?&?&?&->).
Qed.

Lemma checkTerm_steps m r r' : Raft_checkTerm m r = Ok r' -> rtc (raft_step m) r r'.
Proof.
  unfold Raft_checkTerm. destruct (_ =? _); [intros; by inv_res|]. destruct (_ <? _) eqn:E; to_prop.
  - destruct (m_Type m) eqn:Ht; intros H; inv_res; try done;
      apply rtc_once, rs_newer; by rewrite ?Ht.
  - destruct (_ <? r_term r); [|intros; by inv_res].
    destruct (m_Type m); try (intros; by inv_res).
    intros H. apply (respondVote_reject m) in H as [? _]; [done|in_list].
Qed.

(** Voting: the answer to a vote request agrees with the recorded vote. *)
Lemma vote_steps m r r1 g r' :
  m_Type m = MsgVote -> term_checked m r -> Raft_grants m r = Ok g ->
  r1 = (if g : bool then r <| r_votedFor := m_From m |> else r) ->
  Raft_respondVote (m_From m) g MsgVoteResp (r_term r1) r1 = Ok r' -> rtc (raft_step m) r r'.
Proof.
  intros Ht Hchk Hg -> H. destruct g; [|apply (respondVote_reject m) in H as [? _]; [done|in_list]].
  eapply rtc_l; [by apply rs_grant|]. unfold Raft_respondVote in H.
  refine (proj1 (send_ok_quiet m _ _ _ _ H)). by split_and!; [left|..].
Qed.

(** Every successful [Step] is a sequence of atomic transitions. *)
Lemma Step_steps m r' e : Raft_Step m s0 = Ok (r', e) -> rtc (raft_step m) s0 r'.
Proof.
  unfold Raft_Step. intros (r0 & H0 & H)%bind_Ok. etrans; [by apply checkTerm_steps|].
  pose proof (checkTerm_log _ _ _ H0) as Hl. apply checkTerm_term in H0 as [Hb Hchk].
  destruct (m_Type m) eqn:Ht;
    try by (eapply Raft_step_steps; [unfold checked; rewrite Ht; exact Hchk|exact Hb|exact Hl|exact H]).
  - apply bind_Ok in H as (g & Hg & H). apply bind_Ok in H as (r1 & H1 & H). inv_res.
    by eapply vote_steps; [|apply Hchk|..].
  - apply bind_Ok in H as (r1 & H1 & H). inv_res. exact (hup_steps m CampaignPreElection _ _ Ht Hb Hl H1).
  - apply bind_Ok in H as (g & Hg & H). apply bind_Ok in H as (r1 & H1 & H). inv_res.
    by apply (respondVote_other m) in H1 as [? _].
Qed.

End steps.
#[global] Opaque Raft_reset Raft_becomeFollower Raft_becomeCandidate leader_init.
#[export] Hint Constructors raft_step : kvgo.

(** Rewrites the compound transitions to their closed forms; to be used before
    [simpl], which would otherwise unfold the nested updates. *)
Ltac expand_steps :=
  unfold self_vote, mark_active;
  rewrite ?Raft_becomeFollower_eq, ?Raft_becomeCandidate_eq, ?leader_init_eq.
