(* ===== verification/Election.v ===== *)
(** * Election: at most one leader per term

    A cluster is a set of nodes running [Raft] and a network that may lose,
    duplicate, delay and reorder messages.  [book] is a ghost register of the
    votes cast: [(i, t) ↦ x] when node [i] voted for [x] in term [t].  Each atomic
    transition of a node keeps [node_inv] and only adds to the register, so two
    leaders of one term would share a voter who voted twice. *)

From S2P Require Export RaftSteps.

Abbreviation book := (gmap (Z * Z) Z).

(** The handler and the ticker that belong to a state. *)
Definition state_step (s : State) : stepFn :=
  match s with Follower => StepFollower | PreCandidate | Candidate => StepCandidate
             | Leader => StepLeader end.
Definition state_tick (s : State) : tickFn :=
  match s with Leader => TickHeartbeat | _ => TickElection end.

(** A granted vote is in the register. *)
Definition vote_ok (b : book) (m : Message) : Prop :=
  m_From m <> 0 /\
  (m_Type m = MsgVoteResp -> m_Reject m = false -> b !! (m_From m, m_Term m) = Some (m_To m)).

(** The register of votes cast grows, and only by votes of node [i]. *)
Definition book_ext (i : Z) (b b' : book) : Prop :=
  b ⊆ b' /\ forall j t, j <> i -> b' !! (j, t) = b !! (j, t).

Section election.
Context {RT : Runtime} {St : Type} {SS : Storage St}.
Variable V : MajorityConfig.
Implicit Types r : Raft St.
Implicit Types m : Message.

Definition coherent (r : Raft St) : Prop :=
  r_step r = state_step (r_state r) /\ r_tick r = state_tick (r_state r).

Record node_inv (b : book) (i : Z) (r : Raft St) : Prop := {
  ni_id : r_id r = i;
  ni_pos : i <> 0;
  ni_member : i ∈ V;
  ni_voters : Voters (r_trk r) = V;
  ni_coherent : coherent r;
  ni_term : 0 <= r_term r;
  ni_book t x : b !! (i, t) = Some x -> t <= r_term r;
  ni_vote : b !! (i, r_term r) = if r_votedFor r =? 0 then None else Some (r_votedFor r);
  ni_out m : m ∈ r_messages r ++ r_msgsAfterAppend r -> vote_ok b m;
  ni_cand : r_state r = Candidate ->
    forall j, votes (r_trk r) !! j = Some true -> b !! (j, r_term r) = Some i;
  ni_lead : r_state r = Leader ->
    exists vs, MajorityConfig_VoteResult V vs = VoteWon /\
               forall j, vs !! j = Some true -> b !! (j, r_term r) = Some i
}.

(** A message node [i] may be handed: one that is addressed to it, or a local
    one. *)
Definition msg_inv (b : book) (i : Z) (m : Message) : Prop :=
  (m_Type m = MsgVote -> m_From m <> 0) /\
  (m_Type m = MsgVoteResp -> m_Reject m = false -> b !! (m_From m, m_Term m) = Some i).

(** [m] is not a message of an old term that a (pre-)candidate would follow.
    [Step] does not filter those out: see [stale_append_breaks_election]. *)
Definition calm (m : Message) (r : Raft St) : Prop :=
  m_Type m ∈ [MsgApp; MsgHeartbeat; MsgSnap] -> r_step r = StepCandidate -> r_term r <= m_Term m.

(** Terms do not overflow where a candidacy may start. *)
Definition bounded (m : Message) (t : Z) : Prop :=
  m_Type m ∈ [MsgHup; MsgTimeoutNow; MsgPreVoteResp] -> t < MaxUint64 /\ m_Term m < MaxUint64.

(** The register after a transition to [r]: as before, or with the vote of [r] added. *)
Definition book_step (i : Z) (b b' : book) (r : Raft St) : Prop :=
  b' = b \/ (b !! (i, r_term r) = None /\ b' = <[ (i, r_term r) := r_votedFor r ]> b).

(** What the election depends on. *)
Definition same_ballot (r r' : Raft St) : Prop :=
  r_id r' = r_id r /\ r_term r' = r_term r /\ r_state r' = r_state r /\
  r_step r' = r_step r /\ r_tick r' = r_tick r /\ r_votedFor r' = r_votedFor r /\
  r_messages r' = r_messages r /\ r_msgsAfterAppend r' = r_msgsAfterAppend r /\
  Voters (r_trk r') = Voters (r_trk r) /\ votes (r_trk r') = votes (r_trk r).

Lemma book_ext_refl i b : book_ext i b b.
Proof. done. Qed.

Lemma book_ext_trans i b1 b2 b3 : book_ext i b1 b2 -> book_ext i b2 b3 -> book_ext i b1 b3.
Proof. intros [? H1] [? H2]. split; [by etrans|]. intros j t Hj. by rewrite H2, H1. Qed.

Lemma book_lookup (b b' : book) k x : b ⊆ b' -> b !! k = Some x -> b' !! k = Some x.
Proof. intros H Hk. by eapply lookup_weaken. Qed.

Lemma book_ext_insert i b t x : b !! (i, t) = None -> book_ext i b (<[ (i, t) := x ]> b).
Proof.
  intros Hn. split; [by apply insert_subseteq|]. intros j t' Hj.
  rewrite lookup_insert_ne; [done|]. congruence.
Qed.

Lemma book_step_ext i b b' r : book_step i b b' r -> book_ext i b b'.
Proof. intros [-> | [Hn ->]]; [apply book_ext_refl|by apply book_ext_insert]. Qed.

Lemma vote_ok_mono b b' m : b ⊆ b' -> vote_ok b m -> vote_ok b' m.
Proof. intros Hs [Hf Hv]. split; [done|]. intros Ht Hr. eapply book_lookup; eauto. Qed.

Lemma msg_inv_mono b b' i m : b ⊆ b' -> msg_inv b i m -> msg_inv b' i m.
Proof. intros Hs [Hf Hv]. split; [done|]. intros Ht Hr. eapply book_lookup; eauto. Qed.

(** Other nodes' votes do not disturb a node. *)
Lemma node_inv_ext i j b b' r :
  i <> j -> book_ext i b b' -> node_inv b j r -> node_inv b' j r.
Proof.
  intros Hij [Hs Ho] []. split; try done.
  - intros t x. rewrite Ho by done. apply ni_book0.
  - by rewrite Ho.
  - intros m Hm. eapply vote_ok_mono; eauto.
  - intros Hc k Hk. eapply book_lookup; eauto.
  - intros Hl. destruct (ni_lead0 Hl) as (vs & Hw & Hv). exists vs. split; [done|].
    intros k Hk. eapply book_lookup; eauto.
Qed.

Lemma node_inv_same b i r r' : same_ballot r r' -> node_inv b i r -> node_inv b i r'.
Proof.
  intros (Hid & Ht & Hst & Hsp & Htk & Hvf & Hms & Hma & HV & Hvs) []. split.
  - congruence.
  - done.
  - done.
  - congruence.
  - unfold coherent in *. by rewrite Hsp, Htk, Hst.
  - by rewrite Ht.
  - intros t x. rewrite Ht. eauto.
  - by rewrite Ht, Hvf.
  - intros m. rewrite Hms, Hma. eauto.
  - by rewrite Hst, Hvs, Ht.
  - by rewrite Hst, Ht.
Qed.

(** Sending puts one stamped message in an outbox. *)
Lemma Raft_send_out m r r' :
  Raft_send m r = Ok r' ->
  exists m', m_Type m' = m_Type m /\ m_To m' = m_To m /\ m_Reject m' = m_Reject m /\
    m_From m' = (if m_From m =? 0 then r_id r else m_From m) /\
    (is_vote_msg (m_Type m) = true -> m_Term m' = m_Term m) /\
    (r' = r <| r_messages ::= fun l => l ++ [m'] |> \/
     r' = r <| r_msgsAfterAppend ::= fun l => l ++ [m'] |>).
Proof.
  unfold Raft_send, NoneID. intros (m1 & H1 & H2)%bind_Ok.
  set (m0 := if m_From m =? 0 then m <| m_From := r_id r |> else m) in *.
  assert (m_Type m0 = m_Type m /\ m_To m0 = m_To m /\ m_Reject m0 = m_Reject m /\ m_Term m0 = m_Term m /\
          m_From m0 = (if m_From m =? 0 then r_id r else m_From m)) as (E1 & E2 & E3 & E4 & E5).
  { subst m0. by destruct (m_From m =? 0). }
  assert (m_Type m1 = m_Type m0 /\ m_To m1 = m_To m0 /\ m_Reject m1 = m_Reject m0 /\ m_From m1 = m_From m0 /\
          (is_vote_msg (m_Type m0) = true -> m_Term m1 = m_Term m0)) as (F1 & F2 & F3 & F4 & F5).
  { clearbody m0. destruct (is_vote_msg (m_Type m0)) eqn:Ev.
    - destruct (m_Term m0 =? 0); by inv_res.
    - destruct (m_Type m0) eqn:Et; inv_res; by repeat split. }
  exists m1. split; [congruence|]. split; [congruence|]. split; [congruence|]. split; [congruence|].
  split; [rewrite <- E1, <- E4; exact F5|].
  destruct (waits_for_append _); inv_res; [by right|by left].
Qed.

Lemma send_inv s0 b i m m' r r' :
  node_inv b i r -> msg_inv b i m -> send_ok s0 m r m' -> Raft_send m' r = Ok r' -> node_inv b i r'.
Proof.
  intros Hn [Hmf _] (Hfrom & Hgrant & _) Hs.
  apply Raft_send_out in Hs as (mo & Ety & Eto & Erj & Efr & Etm & Hr').
  assert (vote_ok b mo) as Hmo.
  { split.
    - rewrite Efr. pose proof (ni_pos _ _ _ Hn). rewrite (ni_id _ _ _ Hn). by destruct (m_From m' =? 0) eqn:E; to_prop.
    - intros Ht Hr. rewrite Ety in Ht. destruct (Hgrant Ht) as (Hmt & Hto & Hvf & Htm); [congruence|].
      rewrite Etm, Htm, Eto, Hto by (by rewrite Ht). destruct Hfrom as [Hfrom|[-> Hfw]].
      + rewrite Efr, Hfrom, (ni_id _ _ _ Hn). simpl. rewrite (ni_vote _ _ _ Hn), Hvf.
        specialize (Hmf Hmt). by rewrite (proj2 (Z.eqb_neq _ _) Hmf).
      + simpl in Ht. rewrite Ht in Hfw. set_solver. }
  destruct Hn. destruct Hr' as [-> | ->]; split; try done; simpl.
  - intros mx Hx. rewrite !elem_of_app, list_elem_of_singleton in Hx. destruct Hx as [[?| ->]|?]; [|done|].
    + apply ni_out0. set_solver.
    + apply ni_out0. set_solver.
  - intros mx Hx. rewrite !elem_of_app, list_elem_of_singleton in Hx. destruct Hx as [?|[?| ->]]; [| |done].
    + apply ni_out0. set_solver.
    + apply ni_out0. set_solver.
Qed.

(** Following a leader or a newer term. *)
Lemma follower_inv b i t lead r :
  node_inv b i r -> r_term r <= t -> node_inv b i (Raft_becomeFollower t lead r).
Proof.
  intros [] Hle. rewrite Raft_becomeFollower_eq. split; simpl; try done; try lia.
  - intros t' x Hx. specialize (ni_book0 _ _ Hx). lia.
  - unfold kept_vote. destruct (r_term r =? t) eqn:E; to_prop; [by subst|]. simpl.
    destruct (b !! (i, t)) eqn:Eb; [|done]. specialize (ni_book0 _ _ Eb). lia.
Qed.

Lemma precandidate_inv b i r :
  node_inv b i r -> node_inv b i (self_vote (Raft_becomePreCandidate r)).
Proof. intros []. split; simpl; done. Qed.

Lemma candidate_inv b i r :
  node_inv b i r -> r_term r < MaxUint64 ->
  exists b', book_step i b b' (self_vote (Raft_becomeCandidate r)) /\
    node_inv b' i (self_vote (Raft_becomeCandidate r)).
Proof.
  intros [] Hlt. rewrite Raft_becomeCandidate_eq, wrap64_succ_id by lia.
  assert (b !! (i, r_term r + 1) = None) as Hnone.
  { apply eq_None_not_Some. intros [x Hx]. specialize (ni_book0 _ _ Hx). lia. }
  exists (<[ (i, r_term r + 1) := i ]> b). split; [right; simpl; by rewrite ni_id0|].
  unfold self_vote. split; simpl; try done; try lia.
  - intros t x [[[= <-] _]|[_ Hx]]%lookup_insert_Some; [lia|]. specialize (ni_book0 _ _ Hx). lia.
  - rewrite ni_id0, lookup_insert_eq. by rewrite (proj2 (Z.eqb_neq _ _) ni_pos0).
  - intros m Hm. eapply vote_ok_mono; [|by apply ni_out0]. by apply insert_subseteq.
  - intros _ j. rewrite ni_id0. intros [[<- _]|[_ Hx]]%lookup_insert_Some; [apply lookup_insert_eq|].
    by rewrite lookup_empty in Hx.
Qed.

Lemma leader_inv b i r :
  node_inv b i r -> r_step r = StepCandidate -> r_state r <> PreCandidate ->
  ProgressTracker_TallyVotes (r_trk r) = VoteWon ->
  node_inv b i (mark_active (r_id (leader_init r)) (leader_init r)).
Proof.
  intros Hn Hsp Hnp Hw. assert (r_state r = Candidate) as Hc.
  { destruct (ni_coherent _ _ _ Hn) as [Hco _].
    rewrite Hsp in Hco. by destruct (r_state r). }
  destruct Hn. rewrite leader_init_eq. unfold mark_active. split; simpl; try done.
  intros _. exists (votes (r_trk r)). split; [|by apply ni_cand0].
  rewrite <- ni_voters0. exact Hw.
Qed.

Lemma count_inv b i m r :
  node_inv b i r -> msg_inv b i m -> m_Type m = voteRespType r -> r_term r <= m_Term m ->
  (m_Type m = MsgVoteResp -> term_checked m r) ->
  node_inv b i (r <| r_trk ::= ProgressTracker_RecordVote (m_From m) (negb (m_Reject m)) |>).
Proof.
  intros [] [_ Hv] Ht Hle Hchk. split; simpl; try done.
  intros Hc j. unfold voteRespType in Ht. rewrite decide_True in Ht by done.
  intros [[<- Hr]|[_ Hx]]%lookup_insert_Some; [|by apply ni_cand0].
  apply negb_true_iff in Hr. rewrite <- (Hv Ht Hr). repeat f_equal.
  destruct (Hchk Ht); lia.
Qed.

Lemma grant_inv b i m r :
  node_inv b i r -> msg_inv b i m -> m_Type m = MsgVote -> term_checked m r ->
  Raft_grants m r = Ok true ->
  exists b', book_step i b b' (r <| r_votedFor := m_From m |>) /\
    node_inv b' i (r <| r_votedFor := m_From m |>).
Proof.
  intros Hn [Hf _] Ht Hchk Hg. specialize (Hf Ht). unfold Raft_grants in Hg.
  destruct (Raft_canVoteFor m r) eqn:Hc; [|done]. unfold Raft_canVoteFor in Hc.
  destruct (m_Term m <? r_term r) eqn:E1; to_prop; [done|].
  assert (m_Term m = r_term r) as E2.
  { pose proof (ni_term _ _ _ Hn). destruct Hchk; lia. }
  rewrite E2, Z.eqb_refl in Hc. simpl in Hc. destruct Hn.
  destruct (r_votedFor r =? 0) eqn:E3; simpl in Hc.
  - exists (<[ (i, r_term r) := m_From m ]> b). split; [by right|].
    assert (b ⊆ <[ (i, r_term r) := m_From m ]> b) as Hsub by by apply insert_subseteq.
    split; simpl; try done.
    + intros t x [[[= <-] _]|[_ Hx]]%lookup_insert_Some; [lia|eauto].
    + rewrite lookup_insert_eq. by rewrite (proj2 (Z.eqb_neq _ _) Hf).
    + intros mx Hx. eapply vote_ok_mono; eauto.
    + intros Hs j Hj. eapply book_lookup; eauto.
    + intros Hs. destruct (ni_lead0 Hs) as (vs & Hw & Hv). exists vs. split; [done|].
      intros j Hj. eapply book_lookup; eauto.
  - destruct (r_votedFor r =? m_From m) eqn:E4; [|done]. to_prop.
    exists b. split; [by left|]. split; simpl; try done.
    rewrite <- E4. by rewrite (proj2 (Z.eqb_neq _ _) E3).
Qed.

(** Handling [App], [Heartbeat] and [Snap] never makes a candidate of an old
    term. *)
Lemma calm_step s0 m r r' : raft_step s0 m r r' -> calm m r -> calm m r'.
Proof.
  intros H Hc Ht. specialize (Hc Ht).
  destruct H; rewrite ?Raft_becomeFollower_eq, ?leader_init_eq; try done.
  - apply Raft_send_quiet in H0 as (?&?&?&?&->). done.
  - rewrite H in Ht. set_solver.
  - inv_list; congruence.
Qed.

(** Every atomic transition keeps the invariant, and adds to the register only
    the vote of its own node. *)
Lemma raft_step_book s0 b i m r r' :
  raft_step s0 m r r' -> node_inv b i r -> msg_inv b i m -> calm m r ->
  bounded m (r_term s0) ->
  exists b', book_step i b b' r' /\ node_inv b' i r'.
Proof.
  intros H Hn Hm Hc Hb.
  destruct H;
    try (exists b; split; [by left|]; by (eapply node_inv_same; [|exact Hn])).
  - exists b. split; [by left|]. by eapply send_inv.
  - exists b. split; [by left|]. apply follower_inv; [done|lia].
  - exists b. split; [by left|]. apply follower_inv; [done|by apply Hc].
  - exists b. split; [by left|]. by apply follower_inv.
  - exists b. split; [by left|]. by apply precandidate_inv.
  - apply candidate_inv; [done|]. destruct (Hb H). lia.
  - exists b. split; [by left|]. by apply leader_inv.
  - exists b. split; [by left|]. by apply count_inv.
  - by apply grant_inv.
Qed.

Lemma raft_step_inv s0 b i m r r' :
  raft_step s0 m r r' -> node_inv b i r -> msg_inv b i m -> calm m r ->
  bounded m (r_term s0) ->
  exists b', book_ext i b b' /\ node_inv b' i r'.
Proof.
  intros H Hn Hm Hc Hb. destruct (raft_step_book _ _ _ _ _ _ H Hn Hm Hc Hb) as (b' & Hs & Hn').
  exists b'. split; [by eapply book_step_ext|done].
Qed.

Lemma raft_steps_inv s0 b i m r r' :
  rtc (raft_step s0 m) r r' -> node_inv b i r -> msg_inv b i m -> calm m r ->
  bounded m (r_term s0) ->
  exists b', book_ext i b b' /\ node_inv b' i r'.
Proof.
  intros H. revert b. induction H as [r|r r1 r2 H1 _ IH]; intros b Hn Hm Hc Hb.
  { exists b. split; [apply book_ext_refl|done]. }
  destruct (raft_step_inv _ _ _ _ _ _ H1 Hn Hm Hc Hb) as (b1 & Hb1 & Hn1).
  destruct (IH b1) as (b2 & Hb2 & Hn2); [done| |by eapply calm_step|done|].
  - eapply msg_inv_mono; [apply Hb1|done].
  - exists b2. split; [by eapply book_ext_trans|done].
Qed.

Lemma Step_inv b i m r r' e :
  Raft_Step m r = Ok (r', e) -> node_inv b i r -> msg_inv b i m -> calm m r ->
  bounded m (r_term r) ->
  exists b', book_ext i b b' /\ node_inv b' i r'.
Proof. intros H%Step_steps. by apply raft_steps_inv. Qed.

End election.
