(* ===== verification/RaftInv.v ===== *)
(** * RaftInv: what every [Step] of a node preserves

    The lemmas here are proved by cases on the atomic transitions of
    [RaftSteps]. *)

From S2P Require Export Election RaftLogSpec.

Section inv.
Context {RT : Runtime} {St : Type} {SS : Storage St}.
Implicit Types r : Raft St.
Implicit Types m : Message.

(** A property kept by the atomic transitions is kept by [Step]. *)
Lemma Step_preserves (P : Raft St -> Prop) m r r' e :
  (forall a b, raft_step r m a b -> P a -> P b) ->
  Raft_Step m r = Ok (r', e) -> P r -> P r'.
Proof. intros Hstep H%Step_steps. induction H as [|a b c Hab _ IH]; eauto. Qed.

(** ** Terms and votes *)

(** The pair (term, vote) only moves forward. *)
Definition ballot_le (r r' : Raft St) : Prop :=
  r_term r <= r_term r' /\
  (r_term r' = r_term r -> r_votedFor r <> 0 -> r_votedFor r' = r_votedFor r).

Lemma ballot_le_trans r1 r2 r3 : ballot_le r1 r2 -> ballot_le r2 r3 -> ballot_le r1 r3.
Proof.
  intros [H1 V1] [H2 V2]. split; [lia|]. intros Ht Hv.
  assert (r_term r2 = r_term r1) as E by lia. rewrite V2; [by apply V1|lia|]. rewrite V1; done.
Qed.

Lemma ballot_le_same r r' :
  r_term r' = r_term r -> r_votedFor r' = r_votedFor r -> ballot_le r r'.
Proof. intros H1 H2. split; [lia|done]. Qed.

Lemma ballot_le_follower t lead r : r_term r <= t -> ballot_le r (Raft_becomeFollower t lead r).
Proof.
  intros Hle. rewrite Raft_becomeFollower_eq. split; [done|]. simpl. unfold kept_vote.
  intros -> _. by rewrite Z.eqb_refl.
Qed.

Lemma grant_ballot m r :
  0 <= r_term r -> term_checked m r -> Raft_grants m r = Ok true ->
  ballot_le r (r <| r_votedFor := m_From m |>).
Proof.
  intros Hp Hchk Hg. split; [done|]. simpl. intros _ Hv. unfold Raft_grants in Hg.
  destruct (Raft_canVoteFor m r) eqn:Hc; [|done]. unfold Raft_canVoteFor in Hc.
  destruct (m_Term m <? r_term r) eqn:E1; to_prop; [done|].
  assert (m_Term m = r_term r) as E2 by (destruct Hchk; lia).
  rewrite E2, Z.eqb_refl, (proj2 (Z.eqb_neq _ _) Hv) in Hc. simpl in Hc.
  destruct (r_votedFor r =? m_From m) eqn:E3; [|done]. by to_prop.
Qed.

Lemma raft_step_ballot s0 m r r' :
  raft_step s0 m r r' -> 0 <= r_term r -> calm m r -> bounded m (r_term s0) -> ballot_le r r'.
Proof.
  intros H Hp Hc Hb.
  destruct H; try (apply ballot_le_same; expand_steps; done).
  - apply Raft_send_quiet in H0 as (?&?&?&?&->). by apply ballot_le_same.
  - apply ballot_le_follower. lia.
  - apply ballot_le_follower. by apply Hc.
  - by apply ballot_le_follower.
  - destruct (Hb H) as [? ?]. unfold self_vote. rewrite Raft_becomeCandidate_eq, wrap64_succ_id by lia.
    split; simpl; [lia|lia].
  - by apply grant_ballot.
Qed.

Lemma Step_ballot m r r' e :
  Raft_Step m r = Ok (r', e) -> 0 <= r_term r -> calm m r -> bounded m (r_term r) -> ballot_le r r'.
Proof.
  intros H Hp Hc Hb.
  assert (ballot_le r r' /\ calm m r') as [? _]; [|done].
  eapply (Step_preserves (fun a => ballot_le r a /\ calm m a)); [|exact H|by split; [apply ballot_le_same|]].
  intros a b Hab [Hle Hca]. split; [|by eapply calm_step].
  eapply ballot_le_trans; [exact Hle|]. eapply raft_step_ballot; eauto. destruct Hle; lia.
Qed.

(** ** The commit cursor *)

Lemma commitTo_monotone i (l l' : raftLog St) :
  raftLog_commitTo i l = Ok l' -> l_committed l <= l_committed l'.
Proof. unfold raftLog_commitTo. split_ifs; intros; inv_res; to_prop; simpl; lia. Qed.

Lemma appendEntries_committed ents (l l' : raftLog St) :
  raftLog_appendEntries ents l = Ok l' -> l_committed l' = l_committed l.
Proof.
  unfold raftLog_appendEntries. destruct (head ents); [|intros; by inv_res].
  destruct (_ <? _); [done|]. intros (u & _ & H)%bind_Ok. by inv_res.
Qed.

Lemma raft_step_commit s0 m r r' :
  raft_step s0 m r r' -> l_committed (r_raftLog r) <= l_committed (r_raftLog r').
Proof.
  intros H. destruct H; expand_steps; simpl; try done.
  - apply Raft_send_quiet in H0 as (?&?&?&?&->). done.
  - by rewrite (appendEntries_committed _ _ _ H1).
  - by rewrite (appendEntries_committed _ _ _ H4).
  - by apply commitTo_monotone in H4.
  - by apply commitTo_monotone in H4.
  - destruct e; [done|]. destruct (m_Snapshot m); [|done]. simpl.
    destruct (_ <? _) eqn:E; to_prop; lia.
Qed.

Lemma Step_commit m r r' e :
  Raft_Step m r = Ok (r', e) -> l_committed (r_raftLog r) <= l_committed (r_raftLog r').
Proof.
  intros H. eapply (Step_preserves (fun a => l_committed (r_raftLog r) <= l_committed (r_raftLog a)));
    [|exact H|done].
  intros a b Hab Ha. apply raft_step_commit in Hab. lia.
Qed.

(** ** The shape of a node *)

(** The timer of [reset] is drawn from [E, 2E). *)
Definition timer_ok (r : Raft St) : Prop :=
  0 < r_heartbeatTimeout r < r_electionTimeout r /\ r_electionTimeout r < 2 ^ 62 /\
  r_electionTimeout r <= r_randomizedElectionTimeout r < 2 * r_electionTimeout r.

Record raft_ok (r : Raft St) : Prop := {
  ok_coherent : coherent r;
  ok_tracker : tracker_ok (r_trk r);
  ok_self : selfID (r_trk r) = r_id r;
  ok_timer : timer_ok r;
  ok_lead : r_state r = Leader -> r_lead r = r_id r;
  ok_reads : readOnly_ok (r_readOnly r)
}.

Lemma draw_timeout_range r :
  0 < r_electionTimeout r < 2 ^ 62 ->
  r_electionTimeout r <= draw_timeout r < 2 * r_electionTimeout r.
Proof.
  intros H. unfold draw_timeout. pose proof (choose_int_range (r_choices r) (r_electionTimeout r)).
  rewrite int64_id; lia.
Qed.

Lemma tracker_ok_reset r : tracker_ok (r_trk r) -> tracker_ok (reset_trk r).
Proof. intros H. unfold reset_trk. auto with kvgo. Qed.

Lemma raft_ok_follower t lead r : raft_ok r -> raft_ok (Raft_becomeFollower t lead r).
Proof.
  intros [? ? ? (? & ? & ?) ? ?]. rewrite Raft_becomeFollower_eq.
  split; simpl; try done; [by apply tracker_ok_reset| |auto with kvgo].
  unfold timer_ok; simpl. pose proof (draw_timeout_range r). lia.
Qed.

Lemma raft_ok_candidate r : raft_ok r -> raft_ok (self_vote (Raft_becomeCandidate r)).
Proof.
  intros [? ? ? (? & ? & ?) ? ?]. unfold self_vote. rewrite Raft_becomeCandidate_eq.
  split; simpl; try done; [by apply tracker_ok_RecordVote, tracker_ok_reset| |auto with kvgo].
  unfold timer_ok; simpl. pose proof (draw_timeout_range r). lia.
Qed.

Lemma raft_ok_leader r : raft_ok r -> raft_ok (mark_active (r_id (leader_init r)) (leader_init r)).
Proof.
  intros [? ? ? (? & ? & ?) ? ?]. unfold mark_active. rewrite leader_init_eq.
  split; simpl; try done; [by apply tracker_ok_update, tracker_ok_reset| |auto with kvgo].
  unfold timer_ok; simpl. pose proof (draw_timeout_range r). lia.
Qed.

Lemma raft_step_ok s0 m r r' : raft_step s0 m r r' -> raft_ok r -> raft_ok r'.
Proof.
  intros H Hok. destruct H;
    lazymatch goal with
    | |- raft_ok (Raft_becomeFollower _ _ _) => by apply raft_ok_follower
    | |- raft_ok (self_vote (Raft_becomeCandidate _)) => by apply raft_ok_candidate
    | |- raft_ok (mark_active _ _) => by apply raft_ok_leader
    | |- _ => try (destruct Hok; split; done)
    end.
  - apply Raft_send_quiet in H0 as (?&?&?&?&->). destruct Hok. by split.
  - destruct Hok. split; simpl; try done. intros Hl. destruct ok_coherent0 as [Hco _]. by rewrite Hl, H in Hco.
  - destruct Hok. split; simpl; try done. by apply tracker_ok_update.
  - destruct Hok. split; simpl; try done. by apply tracker_ok_Visit.
  - destruct Hok. split; simpl; try done. by apply readOnly_ok_addRequest.
  - destruct Hok. split; simpl; try done. by apply readOnly_ok_recvAck.
  - destruct Hok. split; simpl; try done. by eapply readOnly_ok_advance.
Qed.

Lemma Step_ok m r r' e : Raft_Step m r = Ok (r', e) -> raft_ok r -> raft_ok r'.
Proof. intros H. eapply Step_preserves; [|exact H]. intros a b. apply raft_step_ok. Qed.

(** A property of nodes that the ticks keep when [Step] keeps it: ticks move the
    timers and step local messages. *)
Lemma Tick_preserves (P : Raft St -> Prop) r r' :
  (forall a b m e, m_Type m ∈ [MsgHup; MsgCheckQuorum; MsgBeat] -> Raft_Step m a = Ok (b, e) -> P a -> P b) ->
  (forall a el hb, P a -> P (a <| r_electionElapsed := el |> <| r_heartbeatElapsed := hb |>)) ->
  (forall a, P a -> P (Raft_abortLeaderTransfer a)) ->
  Raft_Tick r = Ok r' -> P r -> P r'.
Proof.
  intros HS HE HA. unfold Raft_Tick. intros H Hr. destruct (r_tick r).
  - unfold Raft_tickElection in H. destruct (Raft_pastElectionTimeout _).
    + apply bind_Ok in H as ([r1 e] & H1 & H). injection H as <-.
      eapply HS in H1; [done|simpl; in_list|].
      apply (HE _ 0 (r_heartbeatElapsed r)) in Hr. by destruct r.
    + injection H as <-. apply (HE _ (int64 (r_electionElapsed r + 1)) (r_heartbeatElapsed r)) in Hr. by destruct r.
  - unfold Raft_tickHeartbeat in H. apply bind_Ok in H as (r1 & H1 & H).
    assert (P r1) as Hr1.
    { clear H. destruct (_ <=? _).
      - apply bind_Ok in H1 as ([r2 e] & H2 & H1). eapply HS in H2; [|simpl; in_list|].
        + destruct (_ && _); injection H1 as <-; [by apply HA|done].
        + apply (HE _ 0 (int64 (r_heartbeatElapsed r + 1))) in Hr. by destruct r.
      - injection H1 as <-. apply (HE _ (int64 (r_electionElapsed r + 1)) (int64 (r_heartbeatElapsed r + 1))) in Hr. by destruct r. }
    clear H1. destruct (_ <=? _); [|by injection H as <-].
    apply bind_Ok in H as ([r2 e] & H2 & H). injection H as <-. eapply HS in H2; [done|simpl; in_list|].
    apply (HE _ (r_electionElapsed r1) 0) in Hr1. by destruct r1.
Qed.

Lemma Tick_ok r r' : Raft_Tick r = Ok r' -> raft_ok r -> raft_ok r'.
Proof.
  apply Tick_preserves.
  - intros a b m e _ H. by eapply Step_ok.
  - intros a el hb []. by split.
  - intros a []. by split.
Qed.

End inv.

(** ** The log of a node *)

Section loginv.
Context {RT : Runtime} {St : Type} {SS : Storage St} {SP : StorageSpec St}.
Implicit Types r : Raft St.
Implicit Types m : Message.
Implicit Types l : raftLog St.

(** An append message that carries on from a point of the log. *)
Definition app_ok (m : Message) (l : raftLog St) : Prop :=
  m_Type m = MsgApp ->
  0 <= m_Index m <= log_last l /\ contig (m_Index m + 1) (m_Entries m) /\
  m_Index m + len (m_Entries m) < MaxIndex.

(** One more entry fits. *)
Definition room (l : raftLog St) : Prop := log_last l + 2 <= MaxIndex.

Lemma propose_log t d l l' :
  raftLog_ok l -> room l ->
  raftLog_appendEntries [mkEntry (raftLog_lastIndex l +u 1) t d] l = Ok l' ->
  raftLog_ok l' /\ log_view l' = log_view l ++ [mkEntry (log_last l + 1) t d] /\
  l_storage l' = l_storage l.
Proof.
  intros Hok Hr H. pose proof Hok as (Hwf & Ha & Hc & Hb). unfold room in Hr.
  pose proof (log_base_nonneg l Hwf). pose proof (log_last_bounds l Hwf).
  rewrite raftLog_lastIndex_view, wrap64_succ_id in H by (done || lia).
  destruct (raftLog_appendEntries_view [mkEntry (log_last l + 1) t d] l Hok) as (l1 & E & Hok1 & Hst & _ & _ & Hv).
  { split; [done|]. change (first_of [mkEntry (log_last l + 1) t d]) with (log_last l + 1).
    split; [|split; [lia|rewrite len_cons, len_nil; lia]]. apply contig_cons. split; [done|apply contig_nil]. }
  rewrite E in H. injection H as <-. split; [done|]. split; [|done].
  rewrite Hv. f_equal. apply slice_to_all. unfold first_of, log_last. simpl. lia.
Qed.

Lemma append_log m l l' :
  raftLog_ok l -> m_Type m = MsgApp -> app_ok m l ->
  raftLog_appendEntries (m_Entries m) l = Ok l' ->
  raftLog_ok l' /\ l_storage l' = l_storage l /\
  (m_Entries m = [] /\ l' = l \/
   appendable (m_Entries m) l /\
   log_view l' = slice_to (log_view l) (m_Index m - log_base l) ++ m_Entries m).
Proof.
  intros Hok Ht Hap H. destruct (Hap Ht) as (Hi & Hc & Hm).
  destruct (decide (m_Entries m = [])) as [E|Hne].
  { rewrite E in H. injection H as <-. split; [done|]. split; [done|]. by left. }
  pose proof (contig_first _ _ Hc Hne) as Hf.
  assert (appendable (m_Entries m) l) as Happ.
  { split; [done|]. rewrite Hf. split; [done|]. split; [|lia]. split; [|lia].
    unfold raftLog_appendEntries in H. destruct (m_Entries m) as [|e0 es]; [done|].
    cbn [head] in H. unfold first_of in Hf. simpl in Hf. rewrite Hf in H.
    destruct (_ <? l_committed l) eqn:E; [done|]. to_prop.
    pose proof (len_nonneg (e0 :: es)). rewrite wrap64_pred_id in E by lia. lia. }
  destruct (raftLog_appendEntries_view _ _ Hok Happ) as (l1 & E & Hok1 & Hst & _ & _ & Hv).
  rewrite E in H. injection H as <-. split; [done|]. split; [done|]. right. split; [done|].
  rewrite Hv, Hf. by replace (m_Index m + 1 - log_base l - 1) with (m_Index m - log_base l) by lia.
Qed.

Lemma commitTo_view i l l' : raftLog_commitTo i l = Ok l' -> log_view l' = log_view l.
Proof. unfold raftLog_commitTo. split_ifs; intros H; by inv_res. Qed.

Lemma raft_step_log s0 m r r' :
  raft_step s0 m r r' -> m_Type m <> MsgSnap -> app_ok m (r_raftLog s0) -> room (r_raftLog s0) ->
  raftLog_ok (r_raftLog s0) -> raftLog_ok (r_raftLog r) -> raftLog_ok (r_raftLog r').
Proof.
  intros H Hns Hap Hrm H0 Hok. destruct H; expand_steps; simpl; try done.
  - apply Raft_send_quiet in H1 as (?&?&?&?&->). done.
  - unfold same_log in *. rewrite H1 in H2. by apply propose_log in H2 as (? & _).
  - unfold same_log in *. rewrite H2 in H5. by apply append_log in H5 as (? & _).
  - by apply raftLog_commitTo_ok in H5 as (? & _).
  - by apply raftLog_commitTo_ok in H5 as (? & _).
Qed.

Lemma Step_log m r r' e :
  Raft_Step m r = Ok (r', e) -> m_Type m <> MsgSnap -> app_ok m (r_raftLog r) -> room (r_raftLog r) ->
  raftLog_ok (r_raftLog r) -> raftLog_ok (r_raftLog r').
Proof.
  intros H ? ? ? H0. eapply (Step_preserves (fun a => raftLog_ok (r_raftLog a))); [|exact H|done].
  intros a b Hab Ha. by eapply raft_step_log.
Qed.

(** ** Leaders only append *)

(** The log extends the one [Step] was called with, unless the node follows
    somebody else's. *)
Definition grows (m : Message) (s0 r : Raft St) : Prop :=
  (log_view (r_raftLog s0) `prefix_of` log_view (r_raftLog r)) \/
  (m_Type m ∈ [MsgApp; MsgSnap] /\ r_step r = StepFollower).

Lemma raft_step_grows s0 m r r' :
  raft_step s0 m r r' -> raftLog_ok (r_raftLog s0) -> room (r_raftLog s0) ->
  grows m s0 r -> grows m s0 r'.
Proof.
  intros H Hok Hrm Hg.
  assert (Hsame : r_raftLog r' = r_raftLog r ->
    (r_step r = StepFollower -> r_step r' = StepFollower) -> grows m s0 r').
  { intros E Hf. unfold grows. rewrite E. destruct Hg as [?|[? ?]]; [by left|right; eauto]. }
  destruct H; try (apply Hsame; expand_steps; done).
  - apply Raft_send_quiet in H0 as (?&?&?&?&->). by apply Hsame.
  - destruct Hg as [?|[Ht Hf]]; [by left|]. rewrite H in Ht. inv_list; done.
  - destruct Hg as [Hg|[Ht Hf]]; [left; expand_steps; exact Hg|]. exfalso. inv_list; congruence.
  - apply Hsame; [by expand_steps|]. congruence.
  - unfold same_log in *. rewrite H0 in H1. apply propose_log in H1 as (_ & Hv & _); [|done..].
    left. simpl. rewrite Hv. by eexists.
  - right. split; [rewrite H0; in_list|done].
  - destruct Hg as [Hg|[Ht Hf]]; [|congruence]. left. simpl. unfold same_log in *. rewrite H1 in H4.
    apply commitTo_view in H4. rewrite H4. done.
  - destruct Hg as [Hg|[Ht Hf]]; [left|by right]. simpl. apply commitTo_view in H4. by rewrite H4.
  - right. split; [rewrite H0; in_list|done].
Qed.

Lemma Step_grows m r r' e :
  Raft_Step m r = Ok (r', e) -> raftLog_ok (r_raftLog r) -> room (r_raftLog r) -> grows m r r'.
Proof.
  intros H Hok Hrm. eapply (Step_preserves (grows m r)); [|exact H|by left].
  intros a b Hab Ha. by eapply raft_step_grows.
Qed.

(** ** When a leader commits *)

(** A leader's commit cursor moves only on an append response. *)
Definition commit_kept (m : Message) (s0 r : Raft St) : Prop :=
  l_committed (r_raftLog r) = l_committed (r_raftLog s0) \/
  (m_Type m ∈ [MsgApp; MsgHeartbeat; MsgSnap] /\ r_step r = StepFollower).

Lemma raft_step_commit_kept s0 m r r' :
  raft_step s0 m r r' -> m_Type m <> MsgAppResp -> commit_kept m s0 r -> commit_kept m s0 r'.
Proof.
  intros H Hna Hg.
  assert (Hsame : l_committed (r_raftLog r') = l_committed (r_raftLog r) ->
    (r_step r = StepFollower -> r_step r' = StepFollower) -> commit_kept m s0 r').
  { intros E Hf. unfold commit_kept. rewrite E. destruct Hg as [?|[? ?]]; [by left|right; eauto]. }
  destruct H; try (apply Hsame; expand_steps; done).
  - apply Raft_send_quiet in H0 as (?&?&?&?&->). by apply Hsame.
  - destruct Hg as [?|[Ht Hf]]; [by left|]. rewrite H in Ht. inv_list; done.
  - destruct Hg as [Hg|[Ht Hf]]; [left; expand_steps; exact Hg|]. exfalso. inv_list; congruence.
  - apply Hsame; [by expand_steps|]. congruence.
  - apply Hsame; [|done]. simpl. by eapply appendEntries_committed.
  - apply Hsame; [|done]. simpl. by eapply appendEntries_committed.
  - right. split; [|done]. inv_list; simplify_eq; rewrite H0; in_list.
  - right. split; [|done]. rewrite H0; in_list.
Qed.

Lemma drain_kept r r' :
  Raft_drainPendingReadIndexRequests r = Ok r' ->
  r_raftLog r' = r_raftLog r /\ r_trk r' = r_trk r /\ r_term r' = r_term r.
Proof.
  unfold Raft_drainPendingReadIndexRequests. intros H.
  eapply (foldM_quiet r (mkmsg MsgAppResp)) in H as [_ (?&?&?&?&->)]; [done|].
  intros req a b _ _. apply respondReadIndexReq_quiet.
Qed.

(** What is known when [stepLeader] moves the commit cursor. *)
Lemma AppResp_commit m r r' e :
  stepLeader_AppResp m r = Ok (r', e) -> l_committed (r_raftLog r) < l_committed (r_raftLog r') ->
  l_committed (r_raftLog r') = ProgressTracker_Committed (r_trk r') /\
  Voters (r_trk r') = Voters (r_trk r) /\ dom (progress (r_trk r')) = dom (progress (r_trk r)) /\
  raftLog_matchTerm (l_committed (r_raftLog r')) (r_term r) (r_raftLog r) = Ok true /\
  raftLog_commitTo (l_committed (r_raftLog r')) (r_raftLog r) = Ok (r_raftLog r').
Proof.
  unfold stepLeader_AppResp. intros H Hlt.
  destruct (ProgressTracker_Progress _ _); [|inv_res; lia]. simpl in H.
  set (ra := if m_Term m =? r_term r then mark_active (m_From m) r else r) in H.
  assert (r_raftLog ra = r_raftLog r /\ r_term ra = r_term r /\ Voters (r_trk ra) = Voters (r_trk r) /\
          dom (progress (r_trk ra)) = dom (progress (r_trk r))) as (La & Ta & Va & Da).
  { subst ra. destruct (_ =? _); [|done]. split_and!; try done. apply update_progress_dom. }
  clearbody ra. apply bind_Ok in H as (r1 & H1 & H).
  assert (r_raftLog r1 = r_raftLog r /\ r_term r1 = r_term r /\ Voters (r_trk r1) = Voters (r_trk r) /\
          dom (progress (r_trk r1)) = dom (progress (r_trk r))) as (L1 & T1 & V1 & D1).
  { destruct (m_Reject m).
    - apply bind_Ok in H1 as (r2 & H1 & H2). assert (quiet ra r2) as (?&?&?&?&->).
      { destruct (_ && _); [|inv_res; apply quiet_refl].
        destruct (Snapshot _); [inv_res; apply quiet_refl|by eapply Raft_send_quiet]. }
      injection H2 as <-. simpl. split_and!; try done. rewrite <- Da. apply dom_alter_L.
    - injection H1 as <-. simpl. split_and!; try done. rewrite <- Da. apply dom_alter_L. }
  clear H1 La Ta Va Da ra. apply bind_Ok in H as (r2 & H2 & H).
  assert (quiet r1 r2) as (?&?&?&?&->).
  { destruct (_ && _); [by eapply Raft_send_quiet|inv_res; apply quiet_refl]. }
  clear H2. apply bind_Ok in H as ([r3 adv] & H3 & H). apply bind_Ok in H as (r4 & H4 & H). inv_res.
  assert (r_raftLog r' = r_raftLog r3 /\ r_trk r' = r_trk r3) as [L4 K4].
  { destruct adv; [|by inv_res]. by apply drain_kept in H4 as (? & ? & _). }
  rewrite L4, K4 in *. clear H4 L4 K4. unfold Raft_maybeCommit in H3. simpl in H3.
  destruct (_ <? _) eqn:E; to_prop; [|inv_res; simpl in Hlt; rewrite L1 in Hlt; lia].
  apply bind_Ok in H3 as (b & Hb & H3). destruct b; [|inv_res; simpl in Hlt; rewrite L1 in Hlt; lia].
  apply bind_Ok in H3 as (l & Hl & H3). inv_res. simpl in *. rewrite L1, T1 in *.
  assert (l_committed l = ProgressTracker_Committed (r_trk r1)) as Hc.
  { unfold raftLog_commitTo in Hl. rewrite (proj2 (Z.leb_gt _ _)) in Hl by lia.
    destruct (_ <? _); [done|]. by inv_res. }
  by rewrite Hc.
Qed.

Lemma Step_leader_commit m r r' e :
  Raft_Step m r = Ok (r', e) -> r_step r = StepLeader -> r_step r' = StepLeader ->
  l_committed (r_raftLog r) < l_committed (r_raftLog r') -> stepLeader_AppResp m r = Ok (r', e).
Proof.
  intros H Hst Hst' Hlt. destruct (decide (m_Type m = MsgAppResp)) as [Ht|Ht].
  2: { assert (commit_kept m r r') as [E|[_ E]]; [|lia|congruence].
       eapply (Step_preserves (commit_kept m r)); [|exact H|by left].
       intros a b Hab Ha. by eapply raft_step_commit_kept. }
  unfold Raft_Step in H. apply bind_Ok in H as (r0 & H0 & H). rewrite Ht in H.
  unfold Raft_checkTerm in H0. rewrite Ht in H0. destruct (m_Term m =? 0); [inv_res|].
  { unfold Raft_step in H. by rewrite Hst in H; unfold stepLeader in H; rewrite Ht in H. }
  destruct (r_term r <? m_Term m).
  - inv_res. unfold Raft_step in H. rewrite becomeFollower_step in H. unfold stepFollower in H.
    rewrite Ht in H. inv_res. by rewrite becomeFollower_step in Hst'.
  - assert (r0 = r) as -> by (destruct (m_Term m <? r_term r); by inv_res).
    unfold Raft_step in H. by rewrite Hst in H; unfold stepLeader in H; rewrite Ht in H.
Qed.

End loginv.
