(* ===== verification/RaftSpec.v ===== *)
(** * RaftSpec: what the handlers do, branch by branch *)

From S2P Require Export RaftInv.

Section spec.
Context {RT : Runtime} {St : Type} {SS : Storage St} {SP : StorageSpec St}.
Implicit Types r : Raft St.
Implicit Types m : Message.
Implicit Types l : raftLog St.

(** Appends [m] to the messages that wait for the log to be persisted. *)
Definition push_after (m : Message) (r : Raft St) : Raft St :=
  r <| r_msgsAfterAppend ::= fun q => q ++ [m] |>.

Definition vote_resp (t : MessageType) (r : Raft St) (to_ term : Z) (granted : bool) : Message :=
  (mkmsg t) <| m_From := r_id r |> <| m_To := to_ |> <| m_Term := term |> <| m_Reject := negb granted |>.

Lemma respondVote_eq to_ g t term r :
  t = MsgVoteResp \/ t = MsgPreVoteResp -> term <> 0 ->
  Raft_respondVote to_ g t term r = Ok (push_after (vote_resp t r to_ term g) r).
Proof.
  intros Ht Hne. unfold Raft_respondVote, Raft_send. simpl.
  destruct Ht as [-> | ->]; simpl; by rewrite (proj2 (Z.eqb_neq _ _) Hne).
Qed.

(** A candidate's log, described by its last index and term, is at least as up to
    date as the log [l]: lexicographic order on (term, index). *)
Definition up_to_date (l : raftLog St) (idx term : Z) : Prop :=
  exists lastTerm, view_term (log_last l) l = Some lastTerm /\
    (lastTerm < term \/ (term = lastTerm /\ log_last l <= idx)).

Lemma isUpToDate_iff idx term l :
  raftLog_wf l -> exists b, raftLog_isUpToDate idx term l = Ok b /\ (b = true <-> up_to_date l idx term).
Proof.
  intros H. destruct (raftLog_lastEntryID_view l H) as (t & Hv & E).
  unfold raftLog_isUpToDate. rewrite E. simpl. eexists. split; [done|].
  unfold up_to_date. rewrite Hv, orb_true_iff, andb_true_iff. split.
  - intros [Hlt|[He Hle]]; to_prop; eexists; split; try done; [by left|right; lia].
  - intros (x & [= <-] & [?|[? ?]]); [left|right]; [by apply Z.ltb_lt|].
    by split; [apply Z.eqb_eq|apply Z.leb_le].
Qed.

(** ** Vote requests *)

(** The conditions under which a vote is granted to [m] from a node at [r]. *)
Definition may_grant (m : Message) (r : Raft St) : Prop :=
  (r_term r < m_Term m \/ r_votedFor r = 0 \/ r_votedFor r = m_From m) /\
  up_to_date (r_raftLog r) (m_Index m) (m_LogTerm m).

Lemma grants_iff m r :
  raftLog_wf (r_raftLog r) -> r_term r <= m_Term m ->
  exists g, Raft_grants m r = Ok g /\ (g = true <-> may_grant m r).
Proof.
  intros H Hle. unfold Raft_grants, Raft_canVoteFor, may_grant, Raft_isCandidateUpToDate.
  destruct (isUpToDate_iff (m_Index m) (m_LogTerm m) _ H) as (b & Hb & Hiff).
  rewrite (proj2 (Z.ltb_ge _ _) Hle).
  destruct (_ && _ && _) eqn:E; to_prop.
  - exists false. split; [done|]. split; [done|]. intros [[?|[?|?]] _]; lia.
  - exists b. split; [done|]. rewrite Hiff. split; [|tauto]. intros Hu. split; [|done].
    rewrite !andb_false_iff in E. destruct E as [[E|E]|E]; to_prop; lia.
Qed.

(** The node after the first switch of [Step] on a vote request. *)
Lemma checkTerm_vote m r :
  m_Type m = MsgVote -> 0 < m_Term m -> r_term r <= m_Term m ->
  exists r0, Raft_checkTerm m r = Ok r0 /\ r_term r0 = m_Term m /\ r_id r0 = r_id r /\
    r_raftLog r0 = r_raftLog r /\ r_msgsAfterAppend r0 = r_msgsAfterAppend r /\
    r_votedFor r0 = (if r_term r <? m_Term m then 0 else r_votedFor r).
Proof.
  intros Ht Hp Hle. unfold Raft_checkTerm. rewrite Ht, (proj2 (Z.eqb_neq _ _)) by lia.
  destruct (r_term r <? m_Term m) eqn:E; to_prop.
  - eexists. split; [done|]. rewrite Raft_becomeFollower_eq. simpl. split_and!; try done.
    unfold kept_vote. by rewrite (proj2 (Z.eqb_neq _ _)) by lia.
  - rewrite (proj2 (Z.ltb_ge _ _)) by lia. exists r. split_and!; try done. lia.
Qed.

Lemma Step_vote m r :
  raftLog_wf (r_raftLog r) -> m_Type m = MsgVote -> 0 < m_Term m -> r_term r <= m_Term m ->
  exists r' g, Raft_Step m r = Ok (r', None) /\ (g = true <-> may_grant m r) /\
    r_term r' = m_Term m /\ r_raftLog r' = r_raftLog r /\
    r_votedFor r' = (if g then m_From m else if r_term r <? m_Term m then 0 else r_votedFor r) /\
    r_msgsAfterAppend r' = r_msgsAfterAppend r ++ [vote_resp MsgVoteResp r (m_From m) (m_Term m) g].
Proof.
  intros Hwf Ht Hp Hle. destruct (checkTerm_vote m r Ht Hp Hle) as (r0 & H0 & T0 & I0 & L0 & A0 & V0).
  assert (Hwf0 : raftLog_wf (r_raftLog r0)) by by rewrite L0.
  destruct (grants_iff m r0 Hwf0) as (g & Hg & Hiff); [lia|].
  unfold Raft_Step. rewrite H0. simpl. rewrite Ht, Hg. simpl.
  assert (r_term (if g then r0 <| r_votedFor := m_From m |> else r0) = m_Term m) as Tg by by destruct g.
  assert (Hresp : vote_resp MsgVoteResp (if g then r0 <| r_votedFor := m_From m |> else r0)
    (m_From m) (m_Term m) g = vote_resp MsgVoteResp r (m_From m) (m_Term m) g).
  { unfold vote_resp. destruct g; simpl; by rewrite I0. }
  rewrite Tg, respondVote_eq, Hresp; [|by left|lia]. simpl. eexists _, g. split; [done|]. split.
  { rewrite Hiff. unfold may_grant. rewrite L0, T0, V0.
    destruct (r_term r <? m_Term m) eqn:E; to_prop;
      (split; (intros [? ?]; split; [lia|done])). }
  generalize dependent (vote_resp MsgVoteResp r (m_From m) (m_Term m) g). intros resp _.
  destruct g; simpl; by rewrite ?L0, ?A0, ?V0, ?T0.
Qed.

(** ** Pre-votes *)

Lemma Step_prevote_quiet m r r' e :
  m_Type m = MsgPreVote -> Raft_Step m r = Ok (r', e) -> quiet r r'.
Proof.
  intros Ht. unfold Raft_Step. intros (r0 & H0 & H)%bind_Ok. rewrite Ht in H.
  apply bind_Ok in H as (g & _ & H). apply bind_Ok in H as (r1 & H1 & H). inv_res.
  unfold Raft_respondVote in H1. apply Raft_send_quiet in H1. eapply quiet_trans; [|exact H1].
  unfold Raft_checkTerm in H0. rewrite Ht in H0. destruct (_ =? 0); [inv_res; apply quiet_refl|].
  destruct (_ <? _); [inv_res; apply quiet_refl|]. destruct (_ <? _); [|inv_res; apply quiet_refl].
  unfold Raft_respondVote in H0. by eapply Raft_send_quiet.
Qed.

(** ** Append requests *)

(** The answer to an accepted append: the last index and term it carried. *)
Definition append_accepted (m : Message) (r : Raft St) : Message :=
  let resp := (mkmsg MsgAppResp) <| m_From := r_id r |> <| m_To := m_From m |> <| m_Term := r_term r |> in
  match last (m_Entries m) with
  | Some e => resp <| m_Index := e_Index e |> <| m_LogTerm := e_Term e |>
  | None => resp
  end.

(** The answer to a refused append: the index asked for and the receiver's
    snapshot boundary. *)
Definition append_refused (m : Message) (r : Raft St) : Message :=
  (mkmsg MsgAppResp) <| m_From := r_id r |> <| m_To := m_From m |> <| m_Term := r_term r |>
    <| m_Reject := true |> <| m_Index := m_Index m |> <| m_RejectHint := log_base (r_raftLog r) |>.

Lemma send_after m r :
  m_Type m = MsgAppResp -> m_From m = 0 ->
  Raft_send m r = Ok (push_after (m <| m_From := r_id r |> <| m_Term := r_term r |>) r).
Proof. intros Ht Hf. unfold Raft_send. rewrite Hf. simpl. rewrite Ht. simpl. by rewrite Ht. Qed.

(** The log after an accepted append. *)
Definition append_view (m : Message) (l : raftLog St) : list Entry :=
  if decide (m_Entries m = []) then log_view l
  else slice_to (log_view l) (m_Index m - log_base l) ++ m_Entries m.

(** The sender's log continues ours: it agrees with us at [m.Index], and does not
    reach below what we committed. *)
Definition append_fits (m : Message) (l : raftLog St) : Prop :=
  log_base l <= m_Index m <= log_last l /\ view_term (m_Index m) l = Some (m_LogTerm m) /\
  (m_Entries m <> [] -> l_committed l <= m_Index m) /\
  contig (m_Index m + 1) (m_Entries m) /\ m_Index m + len (m_Entries m) < MaxIndex.

Lemma append_fits_log m l :
  raftLog_ok l -> append_fits m l ->
  exists l', raftLog_appendEntries (m_Entries m) l = Ok l' /\ raftLog_ok l' /\
    log_view l' = append_view m l /\ l_committed l' = l_committed l /\
    l_applied l' = l_applied l /\ l_storage l' = l_storage l.
Proof.
  intros Hok (Hi & Ht & Hc & Hct & Hm). unfold append_view.
  destruct (decide (m_Entries m = [])) as [E|Hne].
  { rewrite E. exists l. by split_and!. }
  pose proof (contig_first _ _ Hct Hne) as Hf.
  destruct (raftLog_appendEntries_view (m_Entries m) l Hok) as (l' & E & Hok' & Hst & Hco & Hap & Hv).
  { split; [done|]. rewrite Hf. split; [done|]. specialize (Hc Hne). lia. }
  exists l'. split_and!; try done. rewrite Hv, Hf.
  by replace (m_Index m + 1 - log_base l - 1) with (m_Index m - log_base l) by lia.
Qed.

Lemma follow_commit m (l : raftLog St) :
  raftLog_ok l ->
  exists l', (if l_committed l <? m_Commit m
              then raftLog_commitTo (umin (m_Commit m) (raftLog_lastIndex l)) l else Ok l) = Ok l' /\
    raftLog_ok l' /\ log_view l' = log_view l /\
    l_committed l' = Z.max (l_committed l) (Z.min (m_Commit m) (log_last l)) /\
    l_applied l' = l_applied l /\ l_storage l' = l_storage l.
Proof.
  intros Hok. pose proof Hok as (Hwf & Ha & Hc & Hb). destruct (_ <? _) eqn:E; to_prop.
  - rewrite raftLog_lastIndex_view by done.
    assert (exists l', raftLog_commitTo (umin (m_Commit m) (log_last l)) l = Ok l') as (l' & Hl).
    { rewrite raftLog_commitTo_spec by done. destruct (_ <=? _); [by eauto|].
      rewrite (proj2 (Z.ltb_ge _ _)) by lia. by eauto. }
    exists l'. pose proof (commitTo_view _ _ _ Hl). apply raftLog_commitTo_ok in Hl as Hx; [|done].
    destruct Hx as (? & ? & ? & ? & ?). by split_and!.
  - exists l. split_and!; try done. lia.
Qed.

Lemma handleAppendEntries_fits m r :
  raftLog_ok (r_raftLog r) -> append_fits m (r_raftLog r) ->
  exists l', Raft_handleAppendEntries m r =
      Ok (push_after (append_accepted m r) (r <| r_raftLog := l' |>)) /\
    raftLog_ok l' /\ log_view l' = append_view m (r_raftLog r) /\
    l_committed l' = Z.max (l_committed (r_raftLog r)) (Z.min (m_Commit m) (log_last l')) /\
    l_storage l' = l_storage (r_raftLog r).
Proof.
  intros Hok Hfit. pose proof Hok as (Hwf & _). pose proof Hfit as (Hi & Ht & _).
  unfold Raft_handleAppendEntries.
  rewrite raftLog_matchTerm_view, bool_decide_true by done. simpl.
  destruct (append_fits_log m _ Hok Hfit) as (l1 & Ha & Hok1 & Hv1 & Hc1 & Hp1 & Hs1).
  destruct (follow_commit m l1 Hok1) as (l2 & Hc & Hok2 & Hv2 & Hc2 & Hp2 & Hs2).
  exists l2. assert (log_last l2 = log_last l1) as Hll.
  { unfold log_last, log_base, log_snap. by rewrite Hv2, Hs2. }
  rewrite Hc1 in *. rewrite Hll, Hc2, Hv2, Hv1, Hs2, Hs1. split; [|done].
  unfold append_accepted. destruct (last (m_Entries m)) as [e|] eqn:El.
  - rewrite Ha. simpl. rewrite Hc1, Hc. simpl. by rewrite send_after.
  - apply last_None in El. rewrite El in Ha. injection Ha as <-.
    simpl. rewrite Hc. simpl. by rewrite send_after.
Qed.

Lemma handleAppendEntries_refuse m r :
  raftLog_ok (r_raftLog r) -> log_base (r_raftLog r) <= m_Index m <= log_last (r_raftLog r) ->
  view_term (m_Index m) (r_raftLog r) <> Some (m_LogTerm m) ->
  Raft_handleAppendEntries m r = Ok (push_after (append_refused m r) r).
Proof.
  intros (Hwf & _) Hi Hne. unfold Raft_handleAppendEntries.
  rewrite raftLog_matchTerm_view, bool_decide_false by done. simpl.
  destruct Hwf as (Hs & _). rewrite (st_Snapshot _ Hs). by rewrite send_after.
Qed.

(** Entries at or below the commit cursor make the handler panic, even when they
    repeat what the log holds. *)
Lemma handleAppendEntries_below m r e0 es :
  raftLog_ok (r_raftLog r) -> log_base (r_raftLog r) <= m_Index m < l_committed (r_raftLog r) ->
  view_term (m_Index m) (r_raftLog r) = Some (m_LogTerm m) ->
  m_Entries m = e0 :: es -> e_Index e0 = m_Index m + 1 ->
  exists why, Raft_handleAppendEntries m r = Panic why.
Proof.
  intros Hok Hi Ht He H0. pose proof Hok as (Hwf & Ha & Hc & Hb). unfold Raft_handleAppendEntries.
  pose proof (log_last_bounds _ Hwf). pose proof (log_base_nonneg _ Hwf).
  rewrite raftLog_matchTerm_view, bool_decide_true by (done || lia). simpl. rewrite He.
  destruct (last (e0 :: es)) eqn:El; [|by apply last_None in El].
  unfold raftLog_appendEntries. simpl. rewrite H0, wrap64_pred_id by lia.
  rewrite (proj2 (Z.ltb_lt _ _)) by lia. simpl. by eexists.
Qed.

(** What a follower does with an append message that is not of a newer term. *)
Lemma Step_follower_app m r :
  r_step r = StepFollower -> m_Type m = MsgApp -> m_Term m <= r_term r ->
  Raft_Step m r = (r1 ← Raft_handleAppendEntries m (follow m r); Ok (r1, None)).
Proof.
  intros Hst Ht Hle. unfold Raft_Step, Raft_checkTerm. rewrite Ht.
  rewrite (proj2 (Z.ltb_ge (r_term r) _)) by lia.
  destruct (m_Term m =? 0); [|destruct (m_Term m <? r_term r)]; simpl; unfold Raft_step; rewrite Hst;
    unfold stepFollower; by rewrite Ht.
Qed.

End spec.
