(* ===== verification/RaftElect.v ===== *)
(** * RaftElect: timeouts, campaigns, becoming leader, and replication *)

From S2P Require Export RaftSpec.

Section elect.
Context {RT : Runtime} {St : Type} {SS : Storage St} {SP : StorageSpec St}.
Implicit Types r : Raft St.
Implicit Types m : Message.

(** [n] calls of [Tick] in a row. *)
Fixpoint ticks (n : nat) (r : Raft St) : res (Raft St) :=
  match n with
  | O => Ok r
  | S n => r ← Raft_Tick r; ticks n r
  end.

Lemma ticks_add a b r : ticks (a + b) r = (r1 ← ticks a r; ticks b r1).
Proof.
  revert r. induction a as [|a IH]; intros r; simpl; [done|].
  destruct (Raft_Tick r); simpl; [apply IH|done].
Qed.

(** Below the timeout a tick only counts. *)
Lemma tick_counts r :
  r_tick r = TickElection -> 0 <= r_electionElapsed r -> r_electionElapsed r + 1 < r_randomizedElectionTimeout r ->
  r_randomizedElectionTimeout r < 2 ^ 63 ->
  Raft_Tick r = Ok (r <| r_electionElapsed := r_electionElapsed r + 1 |>).
Proof.
  intros Ht Hp Hlt Hb. unfold Raft_Tick. rewrite Ht. unfold Raft_tickElection, Raft_pastElectionTimeout. simpl.
  rewrite int64_id by lia. rewrite (proj2 (Z.leb_gt _ _)) by lia. f_equal. unfold set_field.
  by rewrite int64_id by lia.
Qed.

Lemma ticks_count (n : nat) r :
  r_tick r = TickElection -> 0 <= r_electionElapsed r ->
  r_electionElapsed r + Z.of_nat n < r_randomizedElectionTimeout r ->
  r_randomizedElectionTimeout r < 2 ^ 63 ->
  ticks n r = Ok (r <| r_electionElapsed := r_electionElapsed r + Z.of_nat n |>).
Proof.
  revert r. induction n as [|n IH]; intros r Ht Hp Hlt Hb; simpl.
  { rewrite Z.add_0_r. by destruct r. }
  rewrite tick_counts by (done || lia). simpl. rewrite IH; simpl; try done; try lia.
  f_equal. unfold set_field. f_equal. lia.
Qed.

(** At the timeout it campaigns. *)
Lemma tick_fires r :
  r_tick r = TickElection -> 0 <= r_electionElapsed r ->
  r_electionElapsed r + 1 = r_randomizedElectionTimeout r -> r_randomizedElectionTimeout r < 2 ^ 63 ->
  Raft_Tick r =
    ('(r1, _) ← Raft_Step ((mkmsg MsgHup) <| m_From := r_id r |>) (r <| r_electionElapsed := 0 |>); Ok r1).
Proof.
  intros Ht Hp Heq Hb. unfold Raft_Tick. rewrite Ht. unfold Raft_tickElection, Raft_pastElectionTimeout. simpl.
  rewrite int64_id by lia. by rewrite (proj2 (Z.leb_le _ _)) by lia.
Qed.

(** ** Sending never fails on a well-formed log *)

Definition plain_msg (m : Message) : Prop := is_vote_msg (m_Type m) = false.

Lemma send_total m r : plain_msg m -> exists r', Raft_send m r = Ok r'.
Proof.
  unfold plain_msg, Raft_send. intros Hp.
  set (m0 := if m_From m =? NoneID then m <| m_From := r_id r |> else m).
  assert (m_Type m0 = m_Type m) as Ht by (subst m0; by destruct (m_From m =? NoneID)).
  clearbody m0. rewrite Ht, Hp.
  destruct (m_Type m); simpl; destruct (waits_for_append _); by eexists.
Qed.

Lemma slice_total lo (l : raftLog St) :
  raftLog_wf l -> exists ents, raftLog_slice lo (log_last l + 1) l = Ok ents.
Proof.
  intros Hwf. pose proof (log_last_eq l Hwf) as Hll. pose proof (log_base_nonneg l Hwf).
  pose proof Hwf as (Hs & _ & Ho & _ & Hm). pose proof (len_nonneg (u_entries (l_unstable l))).
  unfold raftLog_slice. destruct (_ <=? lo) eqn:E; to_prop; [by eauto|].
  assert (exists x, (if lo <? u_offset (l_unstable l)
    then Entries lo (Z.min (log_last l + 1) (u_offset (l_unstable l))) (l_storage l)
    else Ok (inr [])) = Ok x) as [x ->].
  { destruct (lo <? _); [by apply st_Entries_total|by eauto]. }
  simpl. destruct x as [e|ents]; [by eauto|]. destruct (_ <? _) eqn:E2; to_prop; [|by eauto].
  rewrite !wrap64_id by (unfold is_u64; lia). rewrite (proj2 (Z.ltb_ge _ _)) by lia. by eauto.
Qed.

Lemma sendAppend_total to_ r :
  raftLog_wf (r_raftLog r) -> exists r', Raft_sendAppend to_ r = Ok r'.
Proof.
  intros Hwf. unfold Raft_sendAppend. destruct (ProgressTracker_Progress to_ _) as [p|]; [|by eauto].
  destruct (raftLog_term_total (NextIndex p -u 1) _ Hwf) as [t Ht]. rewrite Ht. simpl.
  destruct t as [e|t].
  { destruct (Snapshot _); [by eauto|]. by apply send_total. }
  rewrite raftLog_lastIndex_view by done. pose proof (log_last_bounds _ Hwf). pose proof (log_base_nonneg _ Hwf).
  rewrite wrap64_succ_id by lia.
  assert (exists ents, raftLog_slice (NextIndex p) (log_last (r_raftLog r) + 1) (r_raftLog r) = Ok ents) as [ents ->].
  { apply slice_total. done. }
  simpl. by apply send_total.
Qed.

Lemma bcastAppend_total r :
  raftLog_wf (r_raftLog r) -> exists r', Raft_bcastAppend r = Ok r' /\ quiet r r'.
Proof.
  intros Hwf. unfold Raft_bcastAppend. simpl.
  apply (foldM_total _ (quiet r)).
  - intros [id pr] r1 _ Hq. destruct (id =? r_id r1); [by eauto|].
    pose proof Hq as (?&?&?&?&E). destruct (sendAppend_total id r1) as [r2 H2]; [by rewrite E|].
    exists r2. split; [done|]. eapply quiet_trans; [exact Hq|].
    by apply sendAppend_only in H2.
  - exists [], [], [], (S (r_choices r)). rewrite !app_nil_r. by destruct r.
Qed.

(** The acknowledgement a leader owes itself for its log up to [i]. *)
Definition self_ack (r : Raft St) (i : Z) : Message :=
  (mkmsg MsgAppResp) <| m_From := r_id r |> <| m_To := r_id r |> <| m_Term := r_term r |> <| m_Index := i |>.

Lemma appendEntry_spec data r :
  raftLog_ok (r_raftLog r) -> room (r_raftLog r) ->
  exists l', Raft_appendEntry data r =
      Ok (push_after (self_ack r (log_last (r_raftLog r) + 1)) (r <| r_raftLog := l' |>)) /\
    raftLog_ok l' /\ l_storage l' = l_storage (r_raftLog r) /\
    log_view l' = log_view (r_raftLog r) ++ [mkEntry (log_last (r_raftLog r) + 1) (r_term r) data].
Proof.
  intros Hok Hr. unfold Raft_appendEntry. pose proof Hok as (Hwf & Ha & Hc & Hb). unfold room in Hr.
  pose proof (log_base_nonneg _ Hwf). pose proof (log_last_bounds _ Hwf).
  rewrite raftLog_lastIndex_view, wrap64_succ_id by (done || lia).
  destruct (raftLog_appendEntries_view [mkEntry (log_last (r_raftLog r) + 1) (r_term r) data] _ Hok)
    as (l1 & E & Hok1 & Hst & _ & _ & Hv).
  { split; [done|]. unfold first_of. simpl. split; [|split; [lia|rewrite len_cons, len_nil; lia]].
    apply contig_cons. split; [done|apply contig_nil]. }
  rewrite E. simpl. pose proof Hok1 as (Hwf1 & _).
  assert (log_view l1 = log_view (r_raftLog r) ++ [mkEntry (log_last (r_raftLog r) + 1) (r_term r) data]) as Hv1.
  { rewrite Hv. f_equal. apply slice_to_all. unfold first_of, log_last. simpl. lia. }
  assert (log_last l1 = log_last (r_raftLog r) + 1) as Hll.
  { unfold log_last, log_base, log_snap. rewrite Hv1, Hst, len_app, len_cons, len_nil. lia. }
  rewrite send_after by done. exists l1. rewrite raftLog_lastIndex_view, Hll by done. by split.
Qed.

(** A new leader: same term, every peer to be probed from the old end of the
    log, and an empty entry of its own term at the end. *)
Lemma becomeLeader_spec r :
  raft_ok r -> raftLog_ok (r_raftLog r) -> room (r_raftLog r) ->
  exists r', Raft_becomeLeader r = Ok r' /\ r_state r' = Leader /\ r_term r' = r_term r /\
    r_lead r' = r_id r /\ raftLog_ok (r_raftLog r') /\
    log_view (r_raftLog r') =
      log_view (r_raftLog r) ++ [mkEntry (log_last (r_raftLog r) + 1) (r_term r) []] /\
    r_id r' = r_id r /\ self_ack r (log_last (r_raftLog r) + 1) ∈ r_msgsAfterAppend r'.
Proof.
  intros Hr Hok Hrm. unfold Raft_becomeLeader. rewrite leader_init_eq. simpl.
  assert (is_Some (ProgressTracker_Progress (r_id r) (reset_trk r))) as [p Hp].
  { rewrite <- (ok_self _ Hr). change (selfID (r_trk r)) with (selfID (reset_trk r)).
    apply tracker_ok_self, tracker_ok_reset, Hr. }
  rewrite Hp.
  match goal with |- context [Raft_appendEntry [] ?x] => set (r1 := x) end.
  destruct (appendEntry_spec [] r1) as (l' & E & Hok' & _ & Hv); [done..|].
  rewrite E. cbv [mbind res_bind]. match goal with |- context [Raft_bcastAppend ?x] => set (r2 := x) end.
  destruct (bcastAppend_total r2) as (r' & Hb & (?&?&?&?&->)); [apply Hok'|].
  rewrite Hb. eexists. split; [done|]. simpl. split_and!; try done.
  rewrite !elem_of_app. left. right. left.
Qed.

Lemma won_single id (vs : gmap Z bool) :
  vs !! id = Some true -> MajorityConfig_VoteResult {[ id ]} vs = VoteWon.
Proof.
  intros H. apply VoteResult_won_iff; [set_solver|].
  assert (granted_by {[ id ]} vs = {[ id ]}) as ->.
  { apply set_eq. intros x. unfold granted_by. rewrite elem_of_filter, elem_of_singleton.
    split; [by intros [_ ?]|]. by intros ->. }
  unfold quorum. by rewrite size_singleton.
Qed.

Lemma hup_election_single r :
  raft_ok r -> raftLog_ok (r_raftLog r) -> room (r_raftLog r) ->
  Voters (r_trk r) = {[ r_id r ]} -> r_state r <> Leader -> 0 <= r_term r < MaxUint64 ->
  exists r', Raft_hup_election r = Ok r' /\ r_state r' = Leader /\ r_term r' = r_term r + 1 /\
    raftLog_ok (r_raftLog r') /\
    log_view (r_raftLog r') =
      log_view (r_raftLog r) ++ [mkEntry (log_last (r_raftLog r) + 1) (r_term r + 1) []].
Proof.
  intros Hr Hok Hrm HV Hnl Ht. unfold Raft_hup_election. rewrite decide_False by done.
  pose proof (raft_ok_candidate _ Hr) as Hrc. unfold self_vote in Hrc.
  rewrite Raft_becomeCandidate_eq, wrap64_succ_id in * by lia. cbn [r_id] in *.
  match type of Hrc with raft_ok ?x => set (r1 := x) in * end.
  assert (ProgressTracker_TallyVotes (r_trk r1) = VoteWon) as ->.
  { unfold ProgressTracker_TallyVotes. simpl. rewrite HV. apply won_single. apply lookup_insert_eq. }
  destruct (becomeLeader_spec r1 Hrc) as (r' & E & ? & ? & ? & ? & ? & _); [done..|].
  exists r'. by split_and!.
Qed.

(** Alone in the configuration, a node that campaigns becomes leader at once. *)
Lemma Campaign_single r :
  raft_ok r -> raftLog_ok (r_raftLog r) -> room (r_raftLog r) ->
  Voters (r_trk r) = {[ r_id r ]} -> r_state r <> Leader -> 0 <= r_term r < MaxUint64 ->
  exists r', Raft_Campaign r = Ok (r', None) /\ r_state r' = Leader /\ r_term r' = r_term r + 1 /\
    raftLog_ok (r_raftLog r') /\
    log_view (r_raftLog r') =
      log_view (r_raftLog r) ++ [mkEntry (log_last (r_raftLog r) + 1) (r_term r + 1) []].
Proof.
  intros Hr Hok Hrm HV Hnl Ht.
  assert (raft_ok (self_vote (Raft_becomePreCandidate r))) as Hrc.
  { eapply (raft_step_ok r (mkmsg MsgHup)); [by apply rs_precandidate|done]. }
  assert (Raft_Campaign r = (r1 ← Raft_hup CampaignPreElection r; Ok (r1, None))) as -> by done.
  unfold Raft_hup. rewrite decide_False by done. unfold self_vote in Hrc.
  match type of Hrc with raft_ok ?x => set (r1 := x) in * end.
  assert (ProgressTracker_TallyVotes (r_trk r1) = VoteWon) as Hw.
  { unfold ProgressTracker_TallyVotes. simpl. rewrite HV. apply won_single. apply lookup_insert_eq. }
  cbv zeta. fold r1. rewrite Hw.
  destruct (hup_election_single r1 Hrc) as (r' & E & ? & ? & ? & ?); [done..|].
  rewrite E. exists r'. by split_and!.
Qed.

End elect.

(** ** From the leader's log to a follower's *)

Section replication.
Context {RT : Runtime} {St : Type} {SS : Storage St} {SP : StorageSpec St}.
Implicit Types r : Raft St.
Implicit Types m : Message.
Implicit Types l : raftLog St.

(** The append message for a peer whose next index is [next]. *)
Definition append_msg (r : Raft St) (to_ next prevTerm : Z) : Message :=
  (mkmsg MsgApp) <| m_From := r_id r |> <| m_To := to_ |> <| m_Term := r_term r |>
    <| m_Index := next - 1 |> <| m_LogTerm := prevTerm |>
    <| m_Commit := l_committed (r_raftLog r) |>
    <| m_Entries := slice (log_view (r_raftLog r)) (next - 1 - log_base (r_raftLog r))
                      (len (log_view (r_raftLog r))) |>.

(** [sendAppend] sends everything from the peer's next index on, with the term of
    the entry before it. *)
Lemma sendAppend_spec to_ p r :
  raftLog_wf (r_raftLog r) -> ProgressTracker_Progress to_ (r_trk r) = Some p ->
  0 < NextIndex p -> log_base (r_raftLog r) <= NextIndex p - 1 <= log_last (r_raftLog r) ->
  exists t, view_term (NextIndex p - 1) (r_raftLog r) = Some t /\
    Raft_sendAppend to_ r =
      Ok (r <| r_messages ::= fun q => q ++ [append_msg r to_ (NextIndex p) t] |>).
Proof.
  intros Hwf Hp Hpos Hi. pose proof (log_last_bounds _ Hwf). pose proof (log_base_nonneg _ Hwf).
  unfold Raft_sendAppend. rewrite Hp, wrap64_pred_id by lia.
  destruct (raftLog_term_view (NextIndex p - 1) _ Hwf Hi) as (t & Hv & ->).
  exists t. split; [done|]. simpl. rewrite raftLog_lastIndex_view, wrap64_succ_id by (done || lia).
  rewrite raftLog_slice_view by (done || lia). unfold append_msg.
  replace (NextIndex p - log_base (r_raftLog r) - 1) with (NextIndex p - 1 - log_base (r_raftLog r)) by lia.
  replace (log_last (r_raftLog r) + 1 - log_base (r_raftLog r) - 1) with (len (log_view (r_raftLog r)))
    by (unfold log_last; lia).
  done.
Qed.

(** The entry the log holds at index [i]. *)
Definition entry_at (i : Z) (l : raftLog St) : option Entry :=
  index (log_view l) (i - log_base l - 1).

(** The logs hold the same entries between their snapshot boundaries and [i]. *)
Definition agree_upto (i : Z) (l k : raftLog St) : Prop :=
  forall j, log_base l < j <= i -> log_base k < j -> entry_at j l = entry_at j k.

Lemma append_view_entry m l j :
  raftLog_wf l -> log_base l <= m_Index m <= log_last l -> m_Entries m <> [] ->
  log_base l < j ->
  index (append_view m l) (j - log_base l - 1) =
    if j <=? m_Index m then entry_at j l else index (m_Entries m) (j - m_Index m - 1).
Proof.
  intros Hwf Hi Hne Hj. unfold append_view. rewrite decide_False by done.
  assert (len (slice_to (log_view l) (m_Index m - log_base l)) = m_Index m - log_base l) as Hl.
  { apply len_slice_to. unfold log_last in *. lia. }
  destruct (j <=? m_Index m) eqn:E; to_prop.
  - rewrite index_app_l, index_slice_to by lia. done.
  - rewrite index_app_r, Hl by lia. f_equal. lia.
Qed.

(** A follower that agrees with the leader below the append holds the leader's
    entries once it has handled it. *)
Lemma append_makes_agree r to_ next t l l' :
  raftLog_ok (r_raftLog r) -> log_base (r_raftLog r) <= next - 1 ->
  next <= log_last (r_raftLog r) ->
  raftLog_wf l -> log_base l <= next - 1 <= log_last l ->
  agree_upto (next - 1) (r_raftLog r) l ->
  log_view l' = append_view (append_msg r to_ next t) l -> log_base l' = log_base l ->
  agree_upto (log_last (r_raftLog r)) (r_raftLog r) l' /\ log_last l' = log_last (r_raftLog r).
Proof.
  intros (HwL & _) Hb Hn HwF Hi Hag Hv Hb'. set (L := r_raftLog r) in *.
  assert (len (m_Entries (append_msg r to_ next t)) = log_last L - next + 1) as Hlen.
  { simpl. rewrite len_slice; unfold log_last in *; fold L; lia. }
  assert (m_Entries (append_msg r to_ next t) <> []) as Hne.
  { intros E. rewrite E, len_nil in Hlen. lia. }
  split.
  - intros j Hj Hj'. rewrite Hb' in Hj'. unfold entry_at at 2. rewrite Hb', Hv.
    rewrite append_view_entry by (done || simpl; lia). cbn [append_msg m_Index set_field].
    change (m_Index (append_msg r to_ next t)) with (next - 1).
    destruct (j <=? next - 1) eqn:E; to_prop.
    + rewrite Hag by lia. done.
    + simpl. fold L. unfold log_last in *. rewrite index_slice by lia. unfold entry_at. f_equal. lia.
  - unfold log_last at 1. rewrite Hb', Hv. unfold append_view. rewrite decide_False by done.
    rewrite len_app, Hlen, len_slice_to; simpl; unfold log_last in *; lia.
Qed.

End replication.
