(* ===== verification/RaftSafety.v ===== *)
(** * RaftSafety: committed entries, new nodes, reads

    The lemmas behind the theorems about a single node: what [Step] does to the
    committed prefix of the log, that [newRaft] establishes the invariant of a
    node, and when a leader answers reads. *)

From S2P Require Export RaftSpec RaftElect.

Section safety.
Context {RT : Runtime} {St : Type} {SS : Storage St} {SP : StorageSpec St}.
Implicit Types r : Raft St.
Implicit Types m : Message.
Implicit Types l : raftLog St.

(** The entries up to the commit cursor. *)
Definition committed_part (l : raftLog St) : list Entry :=
  slice_to (log_view l) (l_committed l - log_base l).

(** The log [l] still starts with what was committed in [l0]. *)
Definition keeps (l0 l : raftLog St) : Prop :=
  raftLog_ok l /\ l_storage l = l_storage l0 /\ l_committed l0 <= l_committed l /\
  committed_part l0 `prefix_of` log_view l.

(** A node is handed a message, or its clock ticks. *)
Definition stepped (r r' : Raft St) : Prop := (exists m e, Raft_Step m r = Ok (r', e)) \/ Raft_Tick r = Ok r'.

Lemma slice_to_prefix {A : Type} (l : list A) i j : i <= j -> slice_to l i `prefix_of` slice_to l j.
Proof.
  intros H. unfold slice_to. exists (drop (Z.to_nat i) (take (Z.to_nat j) l)).
  rewrite <-(take_drop (Z.to_nat i) (take (Z.to_nat j) l)) at 1. f_equal. rewrite take_take. f_equal. lia.
Qed.

Lemma committed_part_prefix l : committed_part l `prefix_of` log_view l.
Proof. unfold committed_part, slice_to. apply prefix_take. Qed.

Lemma keeps_refl l : raftLog_ok l -> keeps l l.
Proof. intros H. split; [done|]. split; [done|]. split; [done|]. apply committed_part_prefix. Qed.

Lemma keeps_commit i l0 l l' :
  keeps l0 l -> raftLog_commitTo i l = Ok l' -> keeps l0 l'.
Proof.
  intros (Hok & Hst & Hc & Hp) H. pose proof (commitTo_view _ _ _ H) as Hv.
  apply raftLog_commitTo_ok in H as (Hok' & Hc' & Hst' & _); [|done].
  split; [done|]. split; [congruence|]. split; [lia|]. by rewrite Hv.
Qed.

Lemma keeps_append m l l' :
  raftLog_ok l -> m_Type m = MsgApp -> app_ok m l ->
  raftLog_appendEntries (m_Entries m) l = Ok l' -> keeps l l'.
Proof.
  intros Hok Ht Hap H. pose proof (appendEntries_committed _ _ _ H) as Hc.
  destruct (append_log m l l' Hok Ht Hap H) as (Hok' & Hst & [[_ ->]|[Happ Hv]]); [by apply keeps_refl|].
  split; [done|]. split; [done|]. split; [lia|]. rewrite Hv.
  destruct Happ as (Hne & Hcont & Hf & _). destruct (Hap Ht) as (_ & Hc1 & _).
  rewrite (contig_first _ _ Hc1 Hne) in Hf.
  etrans; [apply (slice_to_prefix _ _ (m_Index m - log_base l)); lia|]. by apply prefix_app_r.
Qed.

Lemma keeps_propose t d l l' :
  raftLog_ok l -> room l ->
  raftLog_appendEntries [mkEntry (raftLog_lastIndex l +u 1) t d] l = Ok l' -> keeps l l'.
Proof.
  intros Hok Hr H. pose proof (appendEntries_committed _ _ _ H) as Hc.
  apply propose_log in H as (Hok' & Hv & Hst); [|done..].
  split; [done|]. split; [done|]. split; [lia|]. rewrite Hv. apply prefix_app_r, committed_part_prefix.
Qed.

Lemma raft_step_keeps s0 m r r' :
  raft_step s0 m r r' -> m_Type m <> MsgSnap -> app_ok m (r_raftLog s0) -> room (r_raftLog s0) ->
  raftLog_ok (r_raftLog s0) -> keeps (r_raftLog s0) (r_raftLog r) -> keeps (r_raftLog s0) (r_raftLog r').
Proof.
  intros H Hns Hap Hrm H0 Hk. destruct H; expand_steps; simpl; try done.
  - apply Raft_send_quiet in H1 as (?&?&?&?&->). done.
  - unfold same_log in *. rewrite H1 in H2. by eapply keeps_propose.
  - unfold same_log in *. rewrite H2 in H5. by eapply keeps_append.
  - by eapply keeps_commit.
  - by eapply keeps_commit.
Qed.

(** [Step] never changes what is committed. *)
Lemma Step_keeps m r r' e :
  Raft_Step m r = Ok (r', e) -> m_Type m <> MsgSnap -> app_ok m (r_raftLog r) -> room (r_raftLog r) ->
  raftLog_ok (r_raftLog r) -> keeps (r_raftLog r) (r_raftLog r').
Proof.
  intros H ? ? ? Hok. eapply (Step_preserves (fun a => keeps (r_raftLog r) (r_raftLog a))); [|exact H|by apply keeps_refl].
  intros a b Hab Ha. by eapply raft_step_keeps.
Qed.

(** ** The commit rule *)

Lemma Step_commit_rule m r r' e :
  raft_ok r -> raftLog_ok (r_raftLog r) -> r_state r = Leader -> r_state r' = Leader ->
  Raft_Step m r = Ok (r', e) -> l_committed (r_raftLog r) < l_committed (r_raftLog r') ->
  view_term (l_committed (r_raftLog r')) (r_raftLog r) = Some (r_term r) /\
  quorum (Voters (r_trk r)) <=
    Z.of_nat (size (filter (fun id => l_committed (r_raftLog r')
       <= default 0 (MatchIndex <$> progress (r_trk r') !! id)) (Voters (r_trk r)))).
Proof.
  intros Hr Hok Hl Hl' H Hlt. pose proof (Step_ok _ _ _ _ H Hr) as Hr'.
  assert (r_step r = StepLeader /\ r_step r' = StepLeader) as [Hst Hst'].
  { destruct (ok_coherent _ Hr) as [-> _], (ok_coherent _ Hr') as [-> _]. by rewrite Hl, Hl'. }
  pose proof (Step_leader_commit _ _ _ _ H Hst Hst' Hlt) as HA.
  destruct (AppResp_commit _ _ _ _ HA Hlt) as (Hc & HV & Hd & Hm & Hct). split.
  - pose proof Hok as (Hwf & Happ & Hcl & Hb). rewrite raftLog_commitTo_spec in Hct by done.
    rewrite (proj2 (Z.leb_gt _ _)) in Hct by lia. destruct (_ <? _) eqn:E; to_prop; [done|].
    rewrite raftLog_matchTerm_view in Hm by (done || lia). injection Hm as Hm. by apply bool_decide_eq_true in Hm.
  - rewrite Hc, <-HV. apply Committed_quorum. by apply ok_tracker.
Qed.

(** ** Appends *)

Lemma raftLog_term_beyond i l :
  raftLog_wf l -> log_last l < i -> st_last (l_storage l) < i -> raftLog_term i l = Ok (inl ErrUnavailable).
Proof.
  intros H Hi Hs. pose proof (log_last_bounds l H). pose proof (log_base_nonneg l H). unfold raftLog_term.
  rewrite (proj2 (Z.eqb_neq _ _)) by lia.
  assert (unstable_maybeTerm i (l_unstable l) = None) as ->.
  { pose proof (log_last_eq l H). pose proof H as (_ & _ & ? & _ & ?). unfold unstable_maybeTerm.
    pose proof (len_nonneg (u_entries (l_unstable l))). rewrite wrap64_id by (unfold is_u64; lia).
    by replace ((i <? _) || (_ <=? i)) with true by lia. }
  destruct H as (Hst & _). rewrite (st_Term _ i Hst). simpl. unfold st_last in Hs.
  pose proof (len_nonneg (st_log (l_storage l))).
  rewrite (proj2 (Z.ltb_ge i _)), (proj2 (Z.ltb_lt _ i)) by lia. done.
Qed.

(** A follower that does not reach the message's index refuses it. *)
Lemma handleAppendEntries_beyond m r :
  raftLog_ok (r_raftLog r) -> log_last (r_raftLog r) < m_Index m ->
  st_last (l_storage (r_raftLog r)) < m_Index m ->
  Raft_handleAppendEntries m r = Ok (push_after (append_refused m r) r).
Proof.
  intros (Hwf & _) Hi Hs. unfold Raft_handleAppendEntries, raftLog_matchTerm.
  rewrite raftLog_term_beyond by done. simpl. destruct Hwf as (Hst & _).
  rewrite (st_Snapshot _ Hst). by rewrite send_after.
Qed.

(** What [sendAppend] sends fits a follower that has the entry before it. *)
Lemma append_msg_fits r to_ next t l :
  raftLog_ok (r_raftLog r) -> log_base (r_raftLog r) <= next - 1 -> next <= log_last (r_raftLog r) ->
  log_base l <= next - 1 <= log_last l -> view_term (next - 1) l = Some t -> l_committed l <= next - 1 ->
  append_fits (append_msg r to_ next t) l.
Proof.
  intros (Hwf & _) Hb Hn Hl Ht Hc. pose proof (log_last_bounds _ Hwf) as Hmax. set (L := r_raftLog r) in *.
  split; [exact Hl|]. split; [exact Ht|]. split; [intros _; exact Hc|].
  change (m_Index (append_msg r to_ next t)) with (next - 1).
  change (m_Entries (append_msg r to_ next t)) with (slice (log_view L) (next - 1 - log_base L) (len (log_view L))).
  split.
  - unfold slice. apply contig_take. pose proof (log_view_contig L Hwf) as Hv. unfold log_last in *.
    eapply (contig_drop _ _ (Z.to_nat (next - 1 - log_base L))) in Hv; [|unfold len in *; lia].
    by replace (log_base L + 1 + Z.of_nat (Z.to_nat (next - 1 - log_base L))) with (next - 1 + 1) in Hv by lia.
  - unfold log_last in *. rewrite len_slice by lia. lia.
Qed.

(** ** New nodes *)

Lemma InitProgress_tracker peers trk :
  dom (progress trk) ∪ list_to_set peers = Voters trk -> selfID trk ∈ Voters trk ->
  let trk' := foldl (fun t pid => ProgressTracker_InitProgress pid 0 1 t) trk peers in
  tracker_ok trk' /\ selfID trk' = selfID trk.
Proof.
  revert trk. induction peers as [|p peers IH]; intros trk Hd Hs; simpl.
  { split; [|done]. split; [|done]. rewrite <-Hd. set_solver. }
  destruct (IH (ProgressTracker_InitProgress p 0 1 trk)) as [Hok Hself]; [|done|done].
  simpl. rewrite dom_insert_L, <-Hd. simpl. set_solver.
Qed.

Lemma newRaft_ok cfg (r : Raft St) :
  newRaft cfg = Ok r -> c_ElectionTick cfg < 2 ^ 62 -> raft_ok r.
Proof.
  intros H HE. unfold newRaft in H. unfold validate in H. destruct (c_HeartbeatTick cfg <=? 0) eqn:E1; to_prop; [done|].
  destruct (c_ElectionTick cfg <=? c_HeartbeatTick cfg) eqn:E2; to_prop; [done|].
  destruct (c_Storage cfg) as [st|]; [|done]. destruct (InitialState st) as [|hs]; [done|].
  set (trk := foldl _ _ _) in H.
  destruct (InitProgress_tracker (c_Peers cfg) (NewTracker (c_ID cfg) (buildMajorityConfig (c_ID cfg) (c_Peers cfg))))
    as [Htrk Hself]; [unfold buildMajorityConfig; simpl; by rewrite dom_singleton_L|unfold buildMajorityConfig; simpl; set_solver|].
  fold trk in Htrk, Hself. clearbody trk.
  set (r0 := if negb _ then _ else _) in H.
  assert (r_trk r0 = trk /\ r_id r0 = c_ID cfg /\ r_heartbeatTimeout r0 = c_HeartbeatTick cfg /\
          r_electionTimeout r0 = c_ElectionTick cfg) as (T0 & I0 & B0 & L0)
    by (subst r0; destruct (IsEmptyHardState (Some hs)); done).
  clearbody r0. destruct (_ <? c_Applied cfg); [done|]. destruct (_ && _ && _); [done|].
  set (r1 := r0 <| r_raftLog ::= _ |>) in H.
  assert (r_trk r1 = trk /\ r_id r1 = c_ID cfg /\ r_heartbeatTimeout r1 = c_HeartbeatTick cfg /\
          r_electionTimeout r1 = c_ElectionTick cfg) as (T1 & I1 & B1 & L1) by done.
  clearbody r1. injection H as <-. rewrite Raft_becomeFollower_eq. split; simpl; try done.
  - apply tracker_ok_reset. by rewrite T1.
  - unfold reset_trk. simpl. rewrite T1, I1. exact Hself.
  - unfold timer_ok. simpl. pose proof (draw_timeout_range r1). rewrite B1, L1 in *. lia.
  - apply readOnly_ok_new.
Qed.

Lemma stepped_ok r r' : rtc stepped r r' -> raft_ok r -> raft_ok r'.
Proof.
  induction 1 as [|a b c [(m & e & Hab)|Hab] _ IH]; [done|..]; intros Ha; apply IH; [by eapply Step_ok|by eapply Tick_ok].
Qed.

End safety.

(** ** Reads *)

Section reads.
Context {RT : Runtime} {St : Type} {SS : Storage St}.
Implicit Types r : Raft St.
Implicit Types m : Message.

(** The reads the node asked for itself, among the ones released. *)
Definition own_reads (id : Z) (rss : list readIndexStatus) : list ReadState :=
  omap (fun rs => if (m_From (rs_req rs) =? NoneID) || (m_From (rs_req rs) =? id)
                  then Some (mkReadState (rs_index rs) (m_Context (rs_req rs))) else None) rss.

(** The answer to a read that another node asked for. *)
Definition read_resp (id term : Z) (rs : readIndexStatus) : Message :=
  (mkmsg MsgReadIndexResp) <| m_To := m_From (rs_req rs) |> <| m_Context := m_Context (rs_req rs) |>
    <| m_Index := rs_index rs |> <| m_From := id |> <| m_Term := term |>.

(** The answers to the others among the reads released. *)
Definition forwarded_reads (id term : Z) (rss : list readIndexStatus) : list Message :=
  omap (fun rs => if (m_From (rs_req rs) =? NoneID) || (m_From (rs_req rs) =? id)
                  then None else Some (read_resp id term rs)) rss.

(** The answers to reads among the messages to be sent. *)
Definition answers (r : Raft St) : list Message := filter (fun m => m_Type m = MsgReadIndexResp) (r_messages r).

(** The acknowledgements of the read [ctx] once [from] has answered. *)
Definition acks_with (from : Z) (ctx : bytes) (ro : readOnly) : gmap Z bool :=
  (readOnly_recvAck from ctx ro).1.

(** What sending leaves alone. *)
Definition same_reads (r r' : Raft St) : Prop :=
  r_id r' = r_id r /\ r_readStates r' = r_readStates r /\ r_readOnly r' = r_readOnly r /\
  Voters (r_trk r') = Voters (r_trk r) /\ r_term r' = r_term r /\ answers r' = answers r.

Lemma send_same_reads m r r' : Raft_send m r = Ok r' -> m_Type m ∈ [MsgApp; MsgSnap] -> same_reads r r'.
Proof.
  unfold Raft_send. set (m0 := if _ =? _ then _ else _). assert (m_Type m0 = m_Type m) as E0 by by subst m0; destruct (_ =? _).
  clearbody m0. rewrite E0. intros H Ht.
  assert ((exists m', r' = r <| r_messages ::= fun l => l ++ [m'] |> /\ m_Type m' <> MsgReadIndexResp)) as (m' & -> & Hm).
  { rewrite !elem_of_cons, elem_of_nil in Ht. destruct Ht as [Ht|[Ht|[]]]; rewrite Ht in H; simpl in H; rewrite E0, Ht in H; simpl in H;
      injection H as <-; eexists; (split; [reflexivity|]); simpl; congruence. }
  split_and!; try done. unfold answers. simpl. by rewrite filter_app, filter_cons_False, filter_nil, app_nil_r.
Qed.

(** What [send] makes of the answer to a read. *)
Lemma send_read_resp r rs :
  Raft_send ((mkmsg MsgReadIndexResp) <| m_To := m_From (rs_req rs) |> <| m_Context := m_Context (rs_req rs) |>
    <| m_Index := rs_index rs |>) r = Ok (r <| r_messages ::= fun l => l ++ [read_resp (r_id r) (r_term r) rs] |>).
Proof. done. Qed.

Lemma sendAppend_same_reads to_ r r' : Raft_sendAppend to_ r = Ok r' -> same_reads r r'.
Proof.
  unfold Raft_sendAppend. intros H. destruct (ProgressTracker_Progress _ _); [|by injection H as <-].
  apply bind_Ok in H as ([e|t] & _ & H).
  - destruct (Snapshot _); [by injection H as <-|]. unfold Raft_sendSnapshot in H. eapply send_same_reads; [exact H|simpl; in_list].
  - apply bind_Ok in H as (ents & _ & H). eapply send_same_reads; [exact H|simpl; in_list].
Qed.

Lemma respond_all rss r r' :
  foldM (fun rs r => Raft_respondReadIndexReq (rs_req rs) (rs_index rs) r) rss r = Ok r' ->
  r_readStates r' = r_readStates r ++ own_reads (r_id r) rss /\ r_readOnly r' = r_readOnly r /\
  r_id r' = r_id r /\ r_term r' = r_term r /\ answers r' = answers r ++ forwarded_reads (r_id r) (r_term r) rss.
Proof.
  revert r. induction rss as [|rs rss IH]; intros r H; cbn [foldM] in H.
  { injection H as <-. by rewrite !app_nil_r. }
  apply bind_Ok in H as (r1 & H1 & H). apply IH in H as (Hs & Hro & Hid & Htm & Han).
  unfold Raft_respondReadIndexReq in H1. unfold own_reads, forwarded_reads. cbn [omap list_omap].
  destruct (_ || _) eqn:E.
  - injection H1 as <-. simpl in *. rewrite Hs, <-app_assoc. done.
  - rewrite send_read_resp in H1. injection H1 as <-. simpl in *. rewrite Hs, Hro, Hid, Htm, Han. split_and!; try done.
    unfold answers. simpl. by rewrite filter_app, <- app_assoc.
Qed.

(** The read requests waiting under the contexts [q]. *)
Definition waiting (q : list bytes) (ro : readOnly) : list readIndexStatus :=
  omap (fun c => pendingReadIndex ro !! c) q.

(** An acknowledgement changes neither the queue nor the requests. *)
Lemma recvAck_same id ctx ro c :
  readIndexQueue (readOnly_recvAck id ctx ro).2 = readIndexQueue ro /\
  (fun rs => (rs_req rs, rs_index rs)) <$> pendingReadIndex (readOnly_recvAck id ctx ro).2 !! c =
  (fun rs => (rs_req rs, rs_index rs)) <$> pendingReadIndex ro !! c.
Proof.
  unfold readOnly_recvAck. destruct (pendingReadIndex ro !! ctx) as [rs|] eqn:E; [|done]. simpl.
  split; [done|]. destruct (decide (c = ctx)) as [->|Hne]; [by rewrite lookup_insert_eq, E|by rewrite lookup_insert_ne].
Qed.

Lemma own_reads_waiting id term (ro ro' : readOnly) q rss :
  (forall c, (fun rs => (rs_req rs, rs_index rs)) <$> pendingReadIndex ro' !! c =
             (fun rs => (rs_req rs, rs_index rs)) <$> pendingReadIndex ro !! c) ->
  Forall2 (fun c s => pendingReadIndex ro' !! c = Some s) q rss ->
  own_reads id rss = own_reads id (waiting q ro) /\ forwarded_reads id term rss = forwarded_reads id term (waiting q ro).
Proof.
  intros Hsame H. induction H as [|c s q rss Hc _ [IH1 IH2]]; [done|]. specialize (Hsame c). rewrite Hc in Hsame.
  unfold waiting. cbn [omap list_omap]. destruct (pendingReadIndex ro !! c) as [s'|]; [|done].
  simpl in Hsame. injection Hsame as Hq Hi. unfold own_reads, forwarded_reads in *. cbn [omap list_omap].
  unfold read_resp in *. rewrite Hq, Hi. fold (waiting q ro). by rewrite IH1, IH2.
Qed.

(** Without a quorum of acknowledgements nothing is released; with one, the reads
    up to the acknowledged one are, in the order they came. *)
Lemma HeartbeatResp_reads m r r' e :
  readOnly_ok (r_readOnly r) -> ProgressTracker_Progress (m_From m) (r_trk r) <> None -> m_Context m <> [] ->
  stepLeader_HeartbeatResp m r = Ok (r', e) ->
  match MajorityConfig_VoteResult (Voters (r_trk r)) (acks_with (m_From m) (m_Context m) (r_readOnly r)) with
  | VoteWon =>
      forall prev rest, readIndexQueue (r_readOnly r) = prev ++ m_Context m :: rest ->
      r_readStates r' = r_readStates r ++ own_reads (r_id r) (waiting (prev ++ [m_Context m]) (r_readOnly r)) /\
      answers r' = answers r ++ forwarded_reads (r_id r) (r_term r) (waiting (prev ++ [m_Context m]) (r_readOnly r)) /\
      readIndexQueue (r_readOnly r') = rest
  | _ => r_readStates r' = r_readStates r /\ answers r' = answers r /\
         readIndexQueue (r_readOnly r') = readIndexQueue (r_readOnly r)
  end.
Proof.
  intros Hok Hp Hc H. unfold stepLeader_HeartbeatResp in H.
  destruct (ProgressTracker_Progress (m_From m) (r_trk r)) as [prs|]; [|done].
  set (ra := if m_Term m =? r_term r then mark_active (m_From m) r else r) in H.
  assert (same_reads r ra) as Ha by (subst ra; by destruct (_ =? _)). clearbody ra.
  apply bind_Ok in H as (r1 & H1 & H).
  assert (same_reads r r1) as (Hi1 & Hs1 & Hr1 & HV1 & Ht1 & Ha1).
  { assert (same_reads ra r1) as Hb by (destruct (_ <? _); [by eapply sendAppend_same_reads|by injection H1 as <-]).
    unfold same_reads in *. intuition congruence. }
  clear H1 Ha ra. rewrite (proj2 (Z.ltb_lt 0 _)) in H by (destruct (m_Context m); [done|rewrite len_cons; pose proof (len_nonneg l); lia]).
  apply bind_Ok in H as (r2 & H2 & H). injection H as <- _. unfold acks_with. rewrite Hr1 in H2.
  pose proof (readOnly_ok_recvAck (m_From m) (m_Context m) _ Hok) as Hro.
  pose proof (recvAck_same (m_From m) (m_Context m) (r_readOnly r)) as Hsame.
  destruct (readOnly_recvAck (m_From m) (m_Context m) (r_readOnly r)) as [acks ro]. simpl in Hro, Hsame, H2.
  rewrite HV1 in H2. simpl fst. destruct (MajorityConfig_VoteResult (Voters (r_trk r)) acks).
  - injection H2 as <-. simpl. split; [done|]. split; [exact Ha1|]. by destruct (Hsame []).
  - injection H2 as <-. simpl. split; [done|]. split; [exact Ha1|]. by destruct (Hsame []).
  - intros prev rest Hq. apply bind_Ok in H2 as ([rss ro'] & Hadv & H2).
    destruct (readOnly_advance_found m ro prev rest Hro) as (rss1 & ro1 & Hadv1 & Hf & Hq1 & _);
      [by rewrite (proj1 (Hsame [])), Hq|].
    rewrite Hadv in Hadv1. injection Hadv1 as <- <-.
    apply respond_all in H2 as (Hs2 & Hr2 & _ & _ & Ha2). simpl in Hs2, Hr2.
    change (answers r2 = answers r1 ++ forwarded_reads (r_id r1) (r_term r1) rss) in Ha2.
    destruct (own_reads_waiting (r_id r) (r_term r) (r_readOnly r) ro (prev ++ [m_Context m]) rss (fun c => proj2 (Hsame c)) Hf)
      as [Ho Hfw]. rewrite Hs2, Hr2, Ha2, Hs1, Hi1, Ht1, Ha1, Ho, Hfw. done.
Qed.

(** What a heartbeat response releases was pending, and confirmed by a quorum. *)
Lemma HeartbeatResp_released m r r' e rst :
  readOnly_ok (r_readOnly r) -> Voters (r_trk r) <> ∅ -> stepLeader_HeartbeatResp m r = Ok (r', e) ->
  rst ∈ r_readStates r' -> rst ∉ r_readStates r ->
  MajorityConfig_VoteResult (Voters (r_trk r)) (acks_with (m_From m) (m_Context m) (r_readOnly r)) = VoteWon /\
  exists ctx rs, pendingReadIndex (r_readOnly r) !! ctx = Some rs /\ rst = mkReadState (rs_index rs) ctx.
Proof.
  intros Hok HV H Hin Hn. destruct (ProgressTracker_Progress (m_From m) (r_trk r)) as [prs|] eqn:Ep.
  2: { unfold stepLeader_HeartbeatResp in H. rewrite Ep in H. by injection H as <- _. }
  destruct (decide (m_Context m = [])) as [Ec|Hc].
  { unfold stepLeader_HeartbeatResp in H. rewrite Ep, Ec in H. apply bind_Ok in H as (r1 & H1 & H). simpl in H.
    injection H as <- _. assert (same_reads r r1) as (_ & Hs & _); [|by rewrite Hs in Hin].
    assert (same_reads r (if m_Term m =? r_term r then mark_active (m_From m) r else r)) as Ha by by destruct (_ =? _).
    destruct (_ <? _); [|by injection H1 as <-]. apply sendAppend_same_reads in H1.
    unfold same_reads in *. intuition congruence. }
  pose proof (HeartbeatResp_reads m r r' e Hok ltac:(by rewrite Ep) Hc H) as Hr.
  destruct (MajorityConfig_VoteResult _ _) eqn:Ev; [by rewrite (proj1 Hr) in Hin..|]. split; [done|].
  destruct Hok as (_ & Hq & Hk). assert (m_Context m ∈ readIndexQueue (r_readOnly r)) as Hctx.
  { apply Hq. unfold acks_with, readOnly_recvAck in Ev. destruct (pendingReadIndex _ !! _); [by eexists|].
    exfalso. destruct (won_tallies_meet _ _ _ HV Ev Ev) as (k & _ & Hx & _). simpl in Hx. by rewrite lookup_empty in Hx. }
  apply list_elem_of_split in Hctx as (prev & rest & E). destruct (Hr _ _ E) as [Hs _]. rewrite Hs in Hin.
  apply elem_of_app in Hin as [?|Hin]; [done|]. unfold own_reads, waiting in Hin.
  apply list_elem_of_omap in Hin as (rs & (ctx & _ & Hx)%list_elem_of_omap & Hrs).
  exists ctx, rs. split; [done|]. destruct (_ || _); [|done]. injection Hrs as <-. by rewrite (Hk _ _ Hx).
Qed.

(** [Step] hands a heartbeat response to [stepLeader], unless it is of a later term. *)
Lemma Step_HeartbeatResp m r :
  m_Type m = MsgHeartbeatResp -> m_Term m <= r_term r -> r_step r = StepLeader ->
  Raft_Step m r = stepLeader_HeartbeatResp m r.
Proof.
  intros Ht Hm Hs. unfold Raft_Step, Raft_checkTerm. rewrite (proj2 (Z.ltb_ge _ _) Hm), Ht.
  destruct (_ =? 0), (m_Term m <? r_term r); simpl; unfold Raft_step; rewrite Hs; unfold stepLeader; by rewrite Ht.
Qed.

(** [CheckQuorum]: a leader without an active quorum steps down in its term; with
    one, it stays and forgets the activity of the others. *)
Lemma Step_CheckQuorum m r :
  m_Type m = MsgCheckQuorum -> m_Term m = 0 -> r_step r = StepLeader ->
  Raft_Step m r = stepLeader_CheckQuorum r.
Proof.
  intros Ht Hm Hs. unfold Raft_Step, Raft_checkTerm. rewrite Hm, Ht. simpl.
  unfold Raft_step. rewrite Hs. unfold stepLeader. by rewrite Ht.
Qed.

End reads.
