(* ===== verification/Node.v ===== *)
(** * Node: the event loop around a [Raft] ([raft/node.go], [raft/apply.go])

    [node.run] is a loop over [select].  One turn of it is [node_turn]: the head
    of the loop, which may prepare a [Ready], and the case that fires.  The local
    variables of [run] are part of the state: [n_rd], and whether the channel
    variables [readyc] and [advancec] are set.  The request channels are the
    constructors of [event]; the reply on [resp] is the output. *)

From S2P Require Export RaftInv.

Definition Ready0 : Ready := mkReady 0 [] [] [] None [].

(** The capacity of [tickc]. *)
Definition tickBuffer : Z := 128.

Record node (St : Type) : Type := mkNode {
  n_r : Raft St;
  n_tickc : Z;                      (* ticks waiting in the channel *)
  n_prevHard : option HardState;
  n_stepsOnAdvance : list Message;
  n_rd : Ready;
  n_readyc : bool;
  n_advancec : bool
}.
Arguments mkNode {St} _ _ _ _ _ _ _.
Arguments n_r {St} _.
Arguments n_tickc {St} _.
Arguments n_prevHard {St} _.
Arguments n_stepsOnAdvance {St} _.
Arguments n_rd {St} _.
Arguments n_readyc {St} _.
Arguments n_advancec {St} _.

#[export] Instance eta_node St : Eta (node St) := fun n =>
  mkNode (n_r n) (n_tickc n) (n_prevHard n) (n_stepsOnAdvance n) (n_rd n) (n_readyc n) (n_advancec n).

(** The cases of the [select]. *)
Inductive event : Type :=
| OnReady
| OnPropose (data : bytes)
| OnStep (m : Message)
| OnCampaign
| OnReadIndex (ctx : bytes)
| OnAdvance
| OnTick.

(** What a case sends back. *)
Inductive reply : Type :=
| NoReply
| Reply (e : option error)
| SendReady (rd : Ready).

Definition IsLocalMsg (t : MessageType) : bool :=
  match t with MsgBeat | MsgHup => true | _ => false end.

Definition hardStatesEqual (a b : option HardState) : bool :=
  match a, b with
  | None, None => true
  | Some a, Some b =>
      (h_Term a =? h_Term b) && (h_VotedFor a =? h_VotedFor b) && (h_CommittedIndex a =? h_CommittedIndex b)
  | _, _ => false
  end.

Section node.
Context {RT : Runtime} {St : Type} {SS : Storage St}.

Definition setupNode (cfg : Config St) : res (node St) :=
  r ← newRaft cfg; Ok (mkNode r 0 None [] Ready0 false false).

Definition node_hasReady (n : node St) : bool :=
  let hard := Some (Raft_HardState (n_r n)) in
  (negb (IsEmptyHardState hard) && negb (hardStatesEqual hard (n_prevHard n))) || Raft_HasReady (n_r n).

Definition node_ready (n : node St) : res Ready :=
  rd ← Raft_Ready (n_r n);
  Ok (if hardStatesEqual (rd_HardState rd) (n_prevHard n) then rd <| rd_HardState := None |> else rd).

(** The head of the loop. *)
Definition node_prepare (n : node St) : res (node St) :=
  if negb (n_advancec n) && node_hasReady n then
    rd ← node_ready n; Ok (n <| n_rd := rd |> <| n_readyc := true |>)
  else Ok n.

(** A case can fire when its channel is not nil; [tickc] must hold a tick. *)
Definition node_enabled (ev : event) (n : node St) : bool :=
  match ev with
  | OnReady => n_readyc n
  | OnAdvance => n_advancec n
  | OnTick => 0 <? n_tickc n
  | _ => true
  end.

Definition node_deliver (n : node St) : node St :=
  let r := n_r n in
  let own := List.filter (fun m => m_To m =? r_id r) (r_msgsAfterAppend r) in
  n <| n_readyc := false |> <| n_advancec := true |>
    <| n_stepsOnAdvance ::= fun l => l ++ own |>
    <| n_r := r <| r_msgsAfterAppend := [] |> |>.

(** [_ = n.r.Step(m)] for each message the node had for itself. *)
Definition node_stepAll (ms : list Message) (r : Raft St) : res (Raft St) :=
  foldM (fun m r => '(r, _) ← Raft_Step m r; Ok r) ms r.

Definition node_advance (n : node St) : res (node St) :=
  let rd := n_rd n in
  let prev := if negb (IsEmptyHardState (rd_HardState rd)) then rd_HardState rd else n_prevHard n in
  r ← Raft_Advance rd (n_r n);
  r ← node_stepAll (n_stepsOnAdvance n) r;
  Ok (n <| n_prevHard := prev |> <| n_r := r |> <| n_stepsOnAdvance := [] |>
        <| n_rd := Ready0 |> <| n_advancec := false |>).

Definition node_select (ev : event) (n : node St) : res (node St * reply) :=
  match ev with
  | OnReady => Ok (node_deliver n, SendReady (n_rd n))
  | OnPropose data => '(r, e) ← Raft_Propose data (n_r n); Ok (n <| n_r := r |>, Reply e)
  | OnStep m => '(r, e) ← Raft_Step m (n_r n); Ok (n <| n_r := r |>, Reply e)
  | OnCampaign => '(r, e) ← Raft_Campaign (n_r n); Ok (n <| n_r := r |>, Reply e)
  | OnReadIndex ctx => '(r, e) ← Raft_ReadIndex ctx (n_r n); Ok (n <| n_r := r |>, Reply e)
  | OnAdvance => n ← node_advance n; Ok (n, NoReply)
  | OnTick =>
      r ← Raft_Tick (n_r n); Ok (n <| n_r := r |> <| n_tickc ::= fun k => k - 1 |>, NoReply)
  end.

(** One turn of [run]; [None]: the event has to wait. *)
Definition node_turn (ev : event) (n : node St) : res (option (node St * reply)) :=
  n ← node_prepare n;
  if node_enabled ev n then x ← node_select ev n; Ok (Some x) else Ok None.

(** [node.Tick]: a full channel drops the tick. *)
Definition node_Tick (n : node St) : node St :=
  if n_tickc n <? tickBuffer then n <| n_tickc ::= fun k => k + 1 |> else n.

(** [node.Step]: local messages are refused before they reach the loop. *)
Definition node_Step (m : Message) (n : node St) : res (option (node St * reply)) :=
  if IsLocalMsg (m_Type m) then Ok (Some (n, Reply (Some (Errorf "cannot step local message type"))))
  else node_turn (OnStep m) n.

(** ** apply.go *)

(** [ConsumeReady]; [apply] is the target's answer to the committed entries. *)
Definition Applier_ConsumeReady (apply : list Entry -> option error) (r : Raft St)
  : res (Raft St * Ready * option error) :=
  if negb (Raft_HasReady r) then Ok (r, Ready0, None)
  else
    rd ← Raft_Ready r;
    '(r, e) ← (if 0 <? len (rd_Entries rd) then
                 '(st, e) ← Save (rd_Entries rd) None (l_storage (r_raftLog r));
                 Ok (r <| r_raftLog ::= fun l => l <| l_storage := st |> |>, e)
               else Ok (r, None));
    match e with
    | Some e => Ok (r, rd, Some e)
    | None =>
        match (if 0 <? len (rd_CommittedEntries rd) then apply (rd_CommittedEntries rd) else None) with
        | Some e => Ok (r, rd, Some e)
        | None =>
            r ← Raft_Advance rd (r <| r_msgsAfterAppend := [] |>);
            Ok (r, rd, None)
        end
    end.

End node.
