(* ===== verification/Host.v ===== *)
(** * Host: persisting, sending and applying a [Ready] ([server/raft.go])

    [raftHost.start] receives a [Ready] from the node, stores it, hands out its
    messages, read states and committed entries, and calls [Advance]; meanwhile
    the node serves other requests.  The storage is shared with the node: the
    host saves into the storage the node's log reads.  What leaves the host (on
    the transport, on [readStatec] and on [applyc]) is the list [h_effects]. *)

From S2P Require Export Node.

Record toApply : Type := mkToApply {
  ta_data : list bytes;
  ta_appliedThru : Z
}.

Inductive effect : Type :=
| Sent (msgs : list Message)
| ReadDone (rs : ReadState)
| Apply (ap : toApply).

(** The loop that copies the committed entries into one buffer:
    [n := copy(buf, e.Data); data[i] = buf[:n]; buf = buf[n:]]. *)
Fixpoint carve (ents : list Entry) (buf : bytes) : list bytes :=
  match ents with
  | [] => []
  | e :: rest =>
      let n := Nat.min (length buf) (length (e_Data e)) in
      take n (e_Data e) :: carve rest (drop n buf)
  end.

Definition total_data (ents : list Entry) : nat :=
  foldl (fun n e => n + length (e_Data e))%nat 0%nat ents.

(** Sends on channels succeed until the host is stopped: [None] stands for a host
    that is not stopped, [Some k] for one that is stopped after [k] more sends. *)
Fixpoint send_reads (stop : option nat) (rss : list ReadState) : list effect * option nat * bool :=
  match rss with
  | [] => ([], stop, true)
  | rs :: rss =>
      match stop with
      | Some O => ([], stop, false)
      | _ => let '(eff, stop, ok) := send_reads (pred <$> stop) rss in (ReadDone rs :: eff, stop, ok)
      end
  end.

Record RaftHostConfig (St : Type) : Type := mkHostConfig {
  hc_ID : Z;
  hc_Peers : list Z;
  hc_Storage : option St;
  hc_Transport : bool;   (* whether a transport is given *)
  hc_HeartbeatTick : Z;
  hc_ElectionTick : Z
}.
Arguments mkHostConfig {St} _ _ _ _ _ _.
Arguments hc_ID {St} _.
Arguments hc_Peers {St} _.
Arguments hc_Storage {St} _.
Arguments hc_Transport {St} _.
Arguments hc_HeartbeatTick {St} _.
Arguments hc_ElectionTick {St} _.

(** Where the host is with the [Ready] it received. *)
Inductive phase : Type :=
| Idle
| Received (rd : Ready)
| Handled (rd : Ready)
| Failed (e : error).

Record raftHost (St : Type) : Type := mkHost {
  h_n : node St;
  h_peers : list Z;
  h_lead : Z;
  h_phase : phase;
  h_effects : list effect
}.
Arguments mkHost {St} _ _ _ _ _.
Arguments h_n {St} _.
Arguments h_peers {St} _.
Arguments h_lead {St} _.
Arguments h_phase {St} _.
Arguments h_effects {St} _.

#[export] Instance eta_raftHost St : Eta (raftHost St) := fun h =>
  mkHost (h_n h) (h_peers h) (h_lead h) (h_phase h) (h_effects h).

Section host.
Context {RT : Runtime} {St : Type} {SS : Storage St}.

Definition validatePublicRaftHostConfig (cfg : RaftHostConfig St) : option error :=
  match hc_Storage cfg with
  | None => Some (Errorf "storage is not presented")
  | Some _ => if hc_Transport cfg then None else Some (Errorf "transport is not presented")
  end.

Definition NewRaftHost (cfg : RaftHostConfig St) : res (Result (raftHost St)) :=
  match validatePublicRaftHostConfig cfg, hc_Storage cfg with
  | None, Some st =>
      let heartbeat := if hc_HeartbeatTick cfg =? 0 then 1 else hc_HeartbeatTick cfg in
      let election := if hc_ElectionTick cfg =? 0 then 10 else hc_ElectionTick cfg in
      match Snapshot st with
      | inl e => Ok (inl e)
      | inr snap =>
          n ← setupNode (mkConfig (hc_ID cfg) (hc_Peers cfg) (Some st) (LastIncludedIndex snap) election heartbeat);
          Ok (inr (mkHost n (hc_Peers cfg) 0 Idle []))
      end
  | Some e, _ => Ok (inl e)
  | None, None => Ok (inl (Errorf "storage is not presented"))
  end.

Definition handleBatch (stop : option nat) (rd : Ready) (st : St)
  : res (St * list effect * option error) :=
  '(st, e) ← (if (0 <? len (rd_Entries rd)) || negb (IsEmptyHardState (rd_HardState rd))
              then Save (rd_Entries rd) (rd_HardState rd) st
              else Ok (st, None));
  match e with
  | Some e => Ok (st, [], Some e)
  | None =>
      let sent := if 0 <? len (rd_Messages rd) then [Sent (rd_Messages rd)] else [] in
      let '(reads, stop, ok) := send_reads stop (rd_ReadStates rd) in
      let applied :=
        match ok, last (rd_CommittedEntries rd), stop with
        | true, Some e, None | true, Some e, Some (S _) =>
            [Apply (mkToApply (carve (rd_CommittedEntries rd)
                                 (replicate (total_data (rd_CommittedEntries rd)) Byte.x00))
                              (e_Index e))]
        | _, _, _ => []
        end in
      Ok (st, sent ++ reads ++ applied, None)
  end.

(** ** The loop of [start] *)

Definition node_storage (n : node St) : St := l_storage (r_raftLog (n_r n)).
Definition node_set_storage (st : St) (n : node St) : node St :=
  n <| n_r ::= fun r => r <| r_raftLog ::= fun l => l <| l_storage := st |> |> |>.

(** [case <-ticker.C] *)
Definition raftHost_tick (h : raftHost St) : raftHost St := h <| h_n ::= node_Tick |>.

(** [case rd := <-r.n.Ready()]: the node delivers and the lead is stored. *)
Definition raftHost_receive (h : raftHost St) : res (option (raftHost St)) :=
  match h_phase h with
  | Idle =>
      x ← node_turn OnReady (h_n h);
      match x with
      | Some (n, SendReady rd) => Ok (Some (h <| h_n := n |> <| h_lead := rd_Lead rd |> <| h_phase := Received rd |>))
      | _ => Ok None
      end
  | _ => Ok None
  end.

(** [r.handleBatch(rd)]; an error ends the loop. *)
Definition raftHost_handle (stop : option nat) (h : raftHost St) : res (option (raftHost St)) :=
  match h_phase h with
  | Received rd =>
      '(st, eff, e) ← handleBatch stop rd (node_storage (h_n h));
      let h := h <| h_n ::= node_set_storage st |> <| h_effects ::= fun l => l ++ eff |> in
      Ok (Some (h <| h_phase := match e with None => Handled rd | Some e => Failed e end |>))
  | _ => Ok None
  end.

(** [r.n.Advance()] *)
Definition raftHost_advance (h : raftHost St) : res (option (raftHost St)) :=
  match h_phase h with
  | Handled _ =>
      x ← node_turn OnAdvance (h_n h);
      match x with
      | Some (n, _) => Ok (Some (h <| h_n := n |> <| h_phase := Idle |>))
      | None => Ok None
      end
  | _ => Ok None
  end.

(** Requests the node serves for other goroutines ([Propose], [Step], [Campaign],
    [ReadIndex], and its tick channel). *)
Definition raftHost_request (ev : event) (h : raftHost St) : res (option (raftHost St)) :=
  match ev with
  | OnReady | OnAdvance => Ok None
  | _ =>
      x ← node_turn ev (h_n h);
      match x with
      | Some (n, _) => Ok (Some (h <| h_n := n |>))
      | None => Ok None
      end
  end.

End host.
