(* ===== verification/HostSpec.v ===== *)
(** * HostSpec: what the node and its host do with the log

    The applied cursor moves only in [Advance]; the entries handed to the server
    follow each other without gap or repetition; the messages of a [Ready] leave
    only after its hard state and entries are stored. *)

From S2P Require Export Host DurableSpec.

(** ** The applied cursor *)

Section applied.
Context {RT : Runtime} {St : Type} {SS : Storage St}.
Implicit Types r : Raft St.
Implicit Types m : Message.

Abbreviation applied_of := (fun r => l_applied (r_raftLog r)).

Lemma appendEntries_applied ents (l l' : raftLog St) :
  raftLog_appendEntries ents l = Ok l' -> l_applied l' = l_applied l.
Proof.
  unfold raftLog_appendEntries. destruct (head ents); [|intros; by inv_res].
  destruct (_ <? _); [done|]. intros (u & _ & H)%bind_Ok. by inv_res.
Qed.

Lemma commitTo_applied i (l l' : raftLog St) :
  raftLog_commitTo i l = Ok l' -> l_applied l' = l_applied l.
Proof. unfold raftLog_commitTo. split_ifs; intros H; by inv_res. Qed.

Lemma raft_step_applied s0 m r r' :
  raft_step s0 m r r' -> m_Type m <> MsgSnap -> applied_of r' = applied_of r.
Proof.
  intros H Hm. destruct H; expand_steps; simpl; try done.
  - apply Raft_send_quiet in H0 as (?&?&?&?&->). done.
  - by eapply appendEntries_applied.
  - by eapply appendEntries_applied.
  - by eapply commitTo_applied.
  - by eapply commitTo_applied.
Qed.

Lemma Step_applied m r r' e :
  Raft_Step m r = Ok (r', e) -> m_Type m <> MsgSnap -> applied_of r' = applied_of r.
Proof.
  intros H Hm. eapply (Step_preserves (fun a => applied_of a = applied_of r)); [|exact H|done].
  intros a b Hab Ha. apply raft_step_applied in Hab; congruence.
Qed.

(** ** Messages a node keeps for itself *)

(** Only responses wait for the log. *)
Definition after_ok (r : Raft St) : Prop :=
  Forall (fun m => waits_for_append (m_Type m) = true) (r_msgsAfterAppend r).

Lemma send_after_ok m r r' : Raft_send m r = Ok r' -> after_ok r -> after_ok r'.
Proof.
  unfold Raft_send. intros H Hok. apply bind_Ok in H as (m' & Hm & H).
  destruct (waits_for_append (m_Type m')) eqn:E; injection H as <-; [|done].
  unfold after_ok. cbn. apply Forall_app. split; [done|]. by apply Forall_singleton.
Qed.

Lemma raft_step_after_ok s0 m r r' : raft_step s0 m r r' -> after_ok r -> after_ok r'.
Proof.
  intros H Hok. destruct H; try (unfold after_ok in *; expand_steps; exact Hok).
  by eapply send_after_ok.
Qed.

Lemma Step_after_ok m r r' e : Raft_Step m r = Ok (r', e) -> after_ok r -> after_ok r'.
Proof. intros H. eapply Step_preserves; [|exact H]. intros a b. apply raft_step_after_ok. Qed.

(** ... and the cursor is unchanged together with it. *)
Definition cursor_at (k : Z) (r : Raft St) : Prop := l_applied (r_raftLog r) = k /\ after_ok r.

Lemma Step_cursor k m r r' e :
  Raft_Step m r = Ok (r', e) -> m_Type m <> MsgSnap -> cursor_at k r -> cursor_at k r'.
Proof.
  intros H Hm [Ha Hf]. split; [|by eapply Step_after_ok]. rewrite <-Ha. by eapply Step_applied.
Qed.

Lemma Tick_cursor k r r' : Raft_Tick r = Ok r' -> cursor_at k r -> cursor_at k r'.
Proof.
  apply Tick_preserves; [|done|done]. intros a b m e Hin HS. eapply Step_cursor; [exact HS|].
  intros E. rewrite E in Hin. inv_list; done.
Qed.

Lemma stepAll_cursor k ms r r' :
  Forall (fun m => waits_for_append (m_Type m) = true) ms ->
  node_stepAll ms r = Ok r' -> cursor_at k r -> cursor_at k r'.
Proof.
  unfold node_stepAll. revert r. induction ms as [|m ms IH]; intros r Hms H Hr; simpl in H; [by injection H as <-|].
  apply Forall_cons in Hms as [Hm Hms]. apply bind_Ok in H as (r1 & H1 & H).
  apply bind_Ok in H1 as ([r2 e] & H2 & H1). injection H1 as <-. eapply IH; [done|exact H|].
  eapply Step_cursor; [exact H2| |done]. intros E. by rewrite E in Hm.
Qed.

End applied.

(** ** Handing out committed entries *)

Lemma total_data_acc ents n :
  foldl (fun n e => n + length (e_Data e))%nat n ents = (n + total_data ents)%nat.
Proof.
  unfold total_data. revert n. induction ents as [|e ents IH]; intros n; simpl; [lia|].
  rewrite IH, (IH (length (e_Data e))). lia.
Qed.

(** Carving one buffer gives the entries their data. *)
Lemma carve_data ents buf : length buf = total_data ents -> carve ents buf = e_Data <$> ents.
Proof.
  revert buf. induction ents as [|e ents IH]; intros buf Hb; [done|].
  unfold total_data in Hb. simpl in Hb. rewrite total_data_acc in Hb. cbn [carve fmap list_fmap].
  rewrite Nat.min_r by lia. rewrite take_ge by lia. f_equal. apply IH. rewrite length_drop. lia.
Qed.

(** What the server receives on [applyc]. *)
Definition applied_data (effs : list effect) : list bytes :=
  effs ≫= fun e => match e with Apply ap => ta_data ap | _ => [] end.

Definition applied_thru (start : Z) (effs : list effect) : Z :=
  foldl (fun a e => match e with Apply ap => ta_appliedThru ap | _ => a end) start effs.

Lemma send_reads_running rss : send_reads None rss = (ReadDone <$> rss, None, true).
Proof. induction rss as [|rs rss IH]; [done|]. simpl. by rewrite IH. Qed.

Lemma applied_data_app e1 e2 : applied_data (e1 ++ e2) = applied_data e1 ++ applied_data e2.
Proof. apply bind_app. Qed.

Lemma applied_data_reads rss : applied_data (ReadDone <$> rss) = [].
Proof. induction rss as [|rs rss IH]; [done|]. exact IH. Qed.

Lemma applied_thru_reads a rss : applied_thru a (ReadDone <$> rss) = a.
Proof. induction rss as [|rs rss IH]; [done|]. exact IH. Qed.

Section apply.
Context {RT : Runtime} {St : Type} {SS : Storage St}.

Lemma handleBatch_applied rd st st' eff a :
  handleBatch (St:=St) None rd st = Ok (st', eff, None) ->
  contig (a + 1) (rd_CommittedEntries rd) ->
  applied_data eff = e_Data <$> rd_CommittedEntries rd /\
  applied_thru a eff = a + len (rd_CommittedEntries rd).
Proof.
  unfold handleBatch. intros H Hc. apply bind_Ok in H as ([st1 [e|]] & _ & H); [done|].
  rewrite send_reads_running in H. injection H as <- <-.
  rewrite !applied_data_app, applied_data_reads. unfold applied_thru. rewrite !foldl_app.
  assert (applied_data (if 0 <? len (rd_Messages rd) then [Sent (rd_Messages rd)] else []) = []) as ->
    by (by destruct (_ <? _)).
  assert (foldl (fun a e => match e with Apply ap => ta_appliedThru ap | _ => a end) a
    (if 0 <? len (rd_Messages rd) then [Sent (rd_Messages rd)] else []) = a) as -> by (by destruct (_ <? _)).
  fold (applied_thru a (ReadDone <$> rd_ReadStates rd)). rewrite applied_thru_reads. cbn [app].
  destruct (last (rd_CommittedEntries rd)) as [e|] eqn:E.
  - simpl. rewrite app_nil_r, carve_data by apply length_replicate. split; [done|].
    rewrite (contig_last _ _ _ Hc E). lia.
  - apply last_None in E. rewrite E. simpl. change (len []) with 0. split; [done|lia].
Qed.

End apply.

Section order.
Context {RT : Runtime} {St : Type} {SS : Storage St} {SP : StorageSpec St}.
Implicit Types h : raftHost St.
Implicit Types n : node St.

(** The log invariant where the loop may prepare a [Ready]. *)
Definition turn_ok n : Prop :=
  n_advancec n = false ->
  raftLog_ok (r_raftLog (n_r n)) /\ log_base (r_raftLog (n_r n)) <= l_applied (r_raftLog (n_r n)).

Definition no_snapshot (ev : event) : Prop :=
  match ev with OnStep m => m_Type m <> MsgSnap | _ => True end.

(** The moves of a running host, with the requests served meanwhile. *)
Inductive host_step : raftHost St -> raftHost St -> Prop :=
| hs_request ev h h' :
    no_snapshot ev -> turn_ok (h_n h) -> raftHost_request ev h = Ok (Some h') -> host_step h h'
| hs_tick h : host_step h (raftHost_tick h)
| hs_receive h h' : turn_ok (h_n h) -> raftHost_receive h = Ok (Some h') -> host_step h h'
| hs_handle h h' : raftHost_handle None h = Ok (Some h') -> host_step h h'
| hs_advance h h' : raftHost_advance h = Ok (Some h') -> host_step h h'.

(** An entry of a node's log that the node knows to be committed. *)
Definition committed_in (r : Raft St) (e : Entry) : Prop :=
  e ∈ log_view (r_raftLog r) /\ e_Index e <= l_committed (r_raftLog r).

(** What the loop of the node maintains about the applied cursor [k]; [K] is what is
    known of entries that the node had committed. *)
Definition node_at (K : Entry -> Prop) (k : Z) n : Prop :=
  cursor_at k (n_r n) /\
  Forall (fun m => waits_for_append (m_Type m) = true) (n_stepsOnAdvance n) /\
  (n_readyc n = true -> contig (k + 1) (rd_CommittedEntries (n_rd n)) /\ Forall K (rd_CommittedEntries (n_rd n))).

(** The host, [done] being all entries it has handed out so far, starting above
    [a0]. *)
Definition host_at (K : Entry -> Prop) (a0 : Z) (done : list Entry) h : Prop :=
  contig (a0 + 1) done /\ Forall K done /\ applied_data (h_effects h) = e_Data <$> done /\
  applied_thru a0 (h_effects h) = a0 + len done /\
  match h_phase h with
  | Idle => node_at K (a0 + len done) (h_n h) /\ n_advancec (h_n h) = false
  | Received rd =>
      node_at K (a0 + len done) (h_n h) /\ n_advancec (h_n h) = true /\ n_readyc (h_n h) = false /\
      n_rd (h_n h) = rd /\ contig (a0 + len done + 1) (rd_CommittedEntries rd) /\ Forall K (rd_CommittedEntries rd)
  | Handled rd =>
      exists prev, done = prev ++ rd_CommittedEntries rd /\
        node_at K (a0 + len prev) (h_n h) /\ n_advancec (h_n h) = true /\ n_readyc (h_n h) = false /\
        n_rd (h_n h) = rd
  | Failed _ => True
  end.

Lemma ready_entries n rd :
  turn_ok n -> n_advancec n = false -> node_ready n = Ok rd ->
  let l := r_raftLog (n_r n) in
  rd_CommittedEntries rd = slice (log_view l) (l_applied l - log_base l) (l_committed l - log_base l).
Proof.
  intros Ht Ha H l. destruct (Ht Ha) as [Hok Hb]. unfold node_ready in H.
  apply bind_Ok in H as (rd0 & H0 & H). injection H as <-.
  assert (rd_CommittedEntries (if hardStatesEqual (rd_HardState rd0) (n_prevHard n)
    then rd0 <| rd_HardState := None |> else rd0) = rd_CommittedEntries rd0) as -> by (by destruct (hardStatesEqual _ _)).
  unfold Raft_Ready in H0. rewrite raftLog_nextCommittedEnts_view in H0 by done. by injection H0 as <-.
Qed.

(** The entries of a [Ready] follow the cursor. *)
Lemma ready_contig k n rd :
  turn_ok n -> n_advancec n = false -> cursor_at k (n_r n) -> node_ready n = Ok rd ->
  contig (k + 1) (rd_CommittedEntries rd).
Proof.
  intros Ht Ha [Hk _] H. destruct (Ht Ha) as [Hok Hb]. rewrite (ready_entries n rd Ht Ha H).
  pose proof (log_view_contig _ (proj1 Hok)) as Hv. unfold slice. apply contig_take. subst k.
  set (l := r_raftLog (n_r n)) in *.
  destruct Hok as (Hwf & Happ & Hc & _). unfold log_last in Hc.
  eapply (contig_drop _ _ (Z.to_nat (l_applied l - log_base l))) in Hv; [|unfold len in *; lia].
  by replace (log_base l + 1 + Z.of_nat (Z.to_nat (l_applied l - log_base l))) with (l_applied l + 1) in Hv by lia.
Qed.

(** ... and they are committed entries of the node's log. *)
Lemma ready_committed n rd :
  turn_ok n -> n_advancec n = false -> node_ready n = Ok rd -> Forall (committed_in (n_r n)) (rd_CommittedEntries rd).
Proof.
  intros Ht Ha H. destruct (Ht Ha) as [Hok Hb]. rewrite (ready_entries n rd Ht Ha H).
  pose proof (log_view_contig _ (proj1 Hok)) as Hv. set (l := r_raftLog (n_r n)) in *.
  apply Forall_lookup. intros i e Hi. unfold slice in Hi. apply lookup_take_Some in Hi as [Hi Hlt]. rewrite lookup_drop in Hi.
  split; [by eapply list_elem_of_lookup_2|]. fold l. rewrite (Hv _ _ Hi). lia.
Qed.

Lemma prepare_at K k n n' :
  turn_ok n -> (forall e, committed_in (n_r n) e -> K e) -> node_prepare n = Ok n' -> node_at K k n ->
  node_at K k n' /\ n_advancec n' = n_advancec n /\
  (n_advancec n = true -> n' = n).
Proof.
  intros Ht HK H (Hc & Hs & Hr). unfold node_prepare in H. destruct (negb _ && _) eqn:E.
  - apply andb_true_iff in E as [E _]. apply negb_true_iff in E.
    apply bind_Ok in H as (rd & Hrd & H). injection H as <-. split; [|split; [done|]].
    + split; [exact Hc|]. split; [exact Hs|]. intros _. simpl. split; [by eapply ready_contig|].
      eapply Forall_impl; [by eapply ready_committed|done].
    + intros Ha. by rewrite Ha in E.
  - injection H as <-. done.
Qed.

(** A request leaves the cursor and the pending [Ready] alone. *)
Lemma request_at K k n n' rep ev :
  no_snapshot ev -> match ev with OnReady | OnAdvance => False | _ => True end ->
  node_select ev n = Ok (n', rep) -> node_at K k n ->
  node_at K k n' /\ n_advancec n' = n_advancec n /\ n_readyc n' = n_readyc n /\ n_rd n' = n_rd n.
Proof.
  intros Hns Hev H (Hc & Hs & Hr).
  assert (forall r', cursor_at k r' -> node_at K k (n <| n_r := r' |>)) as Hset by done.
  destruct ev; try done; simpl in H.
  - apply bind_Ok in H as ([r' e] & HS & H). injection H as <- _. split; [|done].
    apply Hset. unfold Raft_Propose in HS. by eapply Step_cursor; [exact HS|done|].
  - apply bind_Ok in H as ([r' e] & HS & H). injection H as <- _. split; [|done].
    apply Hset. by eapply Step_cursor; [exact HS|done|].
  - apply bind_Ok in H as ([r' e] & HS & H). injection H as <- _. split; [|done].
    apply Hset. unfold Raft_Campaign in HS. by eapply Step_cursor; [exact HS|done|].
  - apply bind_Ok in H as ([r' e] & HS & H). injection H as <- _. split; [|done].
    apply Hset. unfold Raft_ReadIndex in HS. by eapply Step_cursor; [exact HS|done|].
  - apply bind_Ok in H as (r' & HS & H). injection H as <- _. split; [|done].
    apply Tick_cursor with (k := k) in HS; [|done]. by apply Hset in HS.
Qed.

Lemma deliver_at K k n : node_at K k n -> n_readyc n = true ->
  node_at K k (node_deliver n) /\ contig (k + 1) (rd_CommittedEntries (n_rd n)) /\ Forall K (rd_CommittedEntries (n_rd n)).
Proof.
  intros ([Hk Ha] & Hs & Hr) Hrc. split; [|by apply Hr]. split; [split; [exact Hk|by constructor]|].
  split; [|done]. simpl. apply Forall_app. split; [done|].
  unfold after_ok in Ha. rewrite Forall_forall in Ha |- *. intros m Hm. apply Ha. rewrite list_elem_of_In in Hm |- *.
  by apply filter_In in Hm as [? _].
Qed.

(** [Advance] moves the cursor over the entries of the pending [Ready]. *)
Lemma advance_at K k n n' :
  node_advance n = Ok n' -> node_at K k n -> n_readyc n = false ->
  contig (k + 1) (rd_CommittedEntries (n_rd n)) ->
  node_at K (k + len (rd_CommittedEntries (n_rd n))) n' /\ n_advancec n' = false.
Proof.
  intros H ([Hk Ha] & Hs & Hr) Hrc Hcont. unfold node_advance in H.
  apply bind_Ok in H as (r1 & H1 & H). apply bind_Ok in H as (r2 & H2 & H). injection H as <-.
  split; [|done]. split; [|split; [by constructor|simpl; by rewrite Hrc]]. simpl.
  eapply stepAll_cursor; [exact Hs|exact H2|]. clear H2. unfold Raft_Advance in H1.
  apply bind_Ok in H1 as (l & Hl & H1). injection H1 as <-. split; [|exact Ha]. cbn.
  assert (l_applied l = k) as Hlk.
  { rewrite <-Hk. destruct (last (rd_Entries (n_rd n))); [|by injection Hl as <-].
    unfold raftLog_stableTo in Hl. apply bind_Ok in Hl as (u & _ & Hl). by injection Hl as <-. }
  destruct (last (rd_CommittedEntries (n_rd n))) as [e|] eqn:E; simpl.
  - rewrite (contig_last _ _ _ Hcont E). lia.
  - apply last_None in E. rewrite E. change (len []) with 0. lia.
Qed.

Lemma node_at_storage K k st n : node_at K k n -> node_at K k (node_set_storage st n).
Proof. done. Qed.

Lemma node_at_tick K k n : node_at K k n -> node_at K k (node_Tick n).
Proof. unfold node_Tick. by destruct (_ <? _). Qed.

End order.

Section order_run.
Context {RT : Runtime} {St : Type} {SS : Storage St} {SP : StorageSpec St}.
Implicit Types h : raftHost St.

Lemma turn_request_at K k ev (n n' : node St) rep :
  no_snapshot ev -> match ev with OnReady | OnAdvance => False | _ => True end -> turn_ok n ->
  (forall e, committed_in (n_r n) e -> K e) -> node_turn ev n = Ok (Some (n', rep)) -> node_at K k n ->
  node_at K k n' /\ n_advancec n' = n_advancec n /\
  (n_advancec n = true -> n_readyc n' = n_readyc n /\ n_rd n' = n_rd n).
Proof.
  intros Hns Hev Hok HK H Hn. unfold node_turn in H. apply bind_Ok in H as (n1 & H1 & H).
  destruct (node_enabled ev n1); [|done]. apply bind_Ok in H as ([n2 rep2] & H2 & H). injection H as <- <-.
  apply (prepare_at K k) in H1 as (Hn1 & Ha1 & Hsame); [|done..].
  apply (request_at K k) in H2 as (Hn2 & Ha2 & Hr2 & Hd2); [|done..].
  split; [done|]. split; [congruence|]. intros Ha. rewrite (Hsame Ha) in *. done.
Qed.

Lemma request_host_at K a0 done ev h h' :
  no_snapshot ev -> turn_ok (h_n h) -> (forall e, committed_in (n_r (h_n h)) e -> K e) ->
  raftHost_request ev h = Ok (Some h') -> host_at K a0 done h -> host_at K a0 done h'.
Proof.
  intros Hns Hok HK H (Hc & HF & Hd & Ht & Hp).
  assert (Hev : match ev with OnReady | OnAdvance => False | _ => True end) by (by destruct ev).
  assert (exists n' rep, node_turn ev (h_n h) = Ok (Some (n', rep)) /\ h' = h <| h_n := n' |>) as (n' & rep & Hn & ->).
  { destruct ev; try done; cbn [raftHost_request] in H;
      apply bind_Ok in H as ([[n' rep]|] & Hn & H); try done; injection H as <-; by exists n', rep. }
  split; [exact Hc|]. split; [exact HF|]. split; [exact Hd|]. split; [exact Ht|]. cbn [h_phase]. simpl.
  destruct (h_phase h).
  - destruct Hp as [Hp Ha]. eapply turn_request_at in Hn as (? & ? & _); [|done..]. split; [done|congruence].
  - destruct Hp as (Hp & Ha & Hr & Hrd & Hcont & HK'). eapply turn_request_at in Hn as (? & ? & Hkeep); [|done..].
    destruct (Hkeep Ha). split_and!; congruence || done.
  - destruct Hp as (prev & ? & Hp & Ha & Hr & Hrd). eapply turn_request_at in Hn as (? & ? & Hkeep); [|done..].
    destruct (Hkeep Ha). exists prev. split_and!; congruence || done.
  - done.
Qed.

Lemma receive_host_at K a0 done h h' :
  turn_ok (h_n h) -> (forall e, committed_in (n_r (h_n h)) e -> K e) -> raftHost_receive h = Ok (Some h') -> host_at K a0 done h -> host_at K a0 done h'.
Proof.
  intros Hok HK H (Hc & HF & Hd & Ht & Hp). unfold raftHost_receive in H. destruct (h_phase h) eqn:E; try done.
  destruct Hp as [Hp Ha]. apply bind_Ok in H as (x & Hx & H). unfold node_turn in Hx.
  apply bind_Ok in Hx as (n1 & H1 & Hx). destruct (node_enabled OnReady n1) eqn:Een; [|by injection Hx as <-].
  cbn [node_select] in Hx. simpl in Hx. injection Hx as <-. injection H as <-.
  apply (prepare_at K (a0 + len done)) in H1 as (Hn1 & Ha1 & _); [|done..].
  destruct (deliver_at _ _ _ Hn1 Een) as (Hn2 & Hcont & HK').
  split; [exact Hc|]. split; [exact HF|]. split; [exact Hd|]. split; [exact Ht|]. simpl. split_and!; try done.
Qed.

Lemma handle_host_at K a0 done h h' :
  raftHost_handle None h = Ok (Some h') -> host_at K a0 done h ->
  exists more, host_at K a0 (done ++ more) h'.
Proof.
  intros H (Hc & HF & Hd & Ht & Hp). unfold raftHost_handle in H. destruct (h_phase h) as [|rd| |] eqn:E; try done.
  destruct Hp as (Hp & Ha & Hr & Hrd & Hcont & HK'). apply bind_Ok in H as ([[st eff] e] & Hb & H). injection H as <-.
  destruct e as [e|].
  - exists []. rewrite app_nil_r. split; [exact Hc|]. split; [exact HF|].
    assert (eff = []) as ->.
    { unfold handleBatch in Hb. apply bind_Ok in Hb as ([st1 [e1|]] & _ & Hb); [by injection Hb as _ <- _|].
      by destruct (send_reads None (rd_ReadStates rd)) as [[reads stop] ok]. }
    cbn. rewrite app_nil_r. done.
  - apply (handleBatch_applied _ _ _ _ (a0 + len done)) in Hb as [Hda Hth]; [|done].
    exists (rd_CommittedEntries rd).
    split; [apply contig_app; split; [done|]; by replace (a0 + 1 + len done) with (a0 + len done + 1) by lia|].
    split; [by apply Forall_app|]. cbn. rewrite applied_data_app, Hd, Hda, fmap_app. split; [done|].
    unfold applied_thru in *. rewrite foldl_app, Ht, Hth, len_app. split; [lia|].
    exists done. split; [done|]. by rewrite Hrd.
Qed.

Lemma advance_host_at K a0 done h h' :
  raftHost_advance h = Ok (Some h') -> host_at K a0 done h -> host_at K a0 done h'.
Proof.
  intros H (Hc & HF & Hd & Ht & Hp). unfold raftHost_advance in H. destruct (h_phase h) as [| |rd|] eqn:E; try done.
  destruct Hp as (prev & -> & Hn & Ha & Hr & Hrd). apply bind_Ok in H as (x & Hx & H).
  unfold node_turn in Hx. apply bind_Ok in Hx as (n1 & H1 & Hx). unfold node_prepare in H1. rewrite Ha in H1. injection H1 as <-.
  cbn [node_enabled] in Hx. rewrite Ha in Hx. apply bind_Ok in Hx as ([n2 rep] & H2 & Hx). injection Hx as <-. injection H as <-.
  cbn [node_select] in H2. apply bind_Ok in H2 as (n3 & H3 & H2). injection H2 as <- _.
  apply contig_app in Hc as [Hc1 Hc2].
  destruct (advance_at K (a0 + len prev) _ _ H3 Hn Hr) as [Hn3 Ha3]; [rewrite Hrd; by replace (a0 + len prev + 1) with (a0 + 1 + len prev) by lia|].
  split; [by apply contig_app|]. split; [exact HF|]. split; [exact Hd|]. split; [exact Ht|]. simpl. split; [|done].
  rewrite Hrd in Hn3. by rewrite len_app, Z.add_assoc.
Qed.

(** Every move keeps [host_at], possibly with more entries handed out. *)
Lemma host_step_at K a0 done h h' :
  host_step h h' -> (forall e, committed_in (n_r (h_n h)) e -> K e) ->
  host_at K a0 done h -> exists more, host_at K a0 (done ++ more) h'.
Proof.
  intros H HK Hh. destruct H as [ev h h' Hns Hok H|h|h h' Hok H|h h' H|h h' H];
    lazymatch goal with
    | _ : raftHost_handle _ _ = _ |- _ => by eapply handle_host_at
    | _ => exists []; rewrite app_nil_r
    end.
  - by eapply request_host_at.
  - destruct Hh as (Hc & HF & Hd & Ht & Hp). split; [exact Hc|]. split; [exact HF|]. split; [exact Hd|]. split; [exact Ht|]. simpl.
    assert (n_advancec (node_Tick (h_n h)) = n_advancec (h_n h) /\ n_readyc (node_Tick (h_n h)) = n_readyc (h_n h) /\
      n_rd (node_Tick (h_n h)) = n_rd (h_n h)) as (-> & -> & ->) by (unfold node_Tick; by destruct (_ <? _)).
    destruct (h_phase h); [|..|done].
    + destruct Hp. split; [by apply node_at_tick|done].
    + destruct Hp as (? & ?). split; [by apply node_at_tick|done].
    + destruct Hp as (b & ? & ? & ?). exists b. split; [done|]. split; [by apply node_at_tick|done].
  - by eapply receive_host_at.
  - by eapply advance_host_at.
Qed.

(** An entry that the node had committed at some moment between [h0] and [h']. *)
Definition was_committed h0 h' (e : Entry) : Prop :=
  exists h, rtc host_step h0 h /\ rtc host_step h h' /\ committed_in (n_r (h_n h)) e.

Lemma host_run_at a0 h0 h' :
  rtc host_step h0 h' -> host_at (was_committed h0 h') a0 [] h0 -> exists done, host_at (was_committed h0 h') a0 done h'.
Proof.
  assert (forall h done, rtc host_step h0 h -> rtc host_step h h' -> host_at (was_committed h0 h') a0 done h ->
    exists done', host_at (was_committed h0 h') a0 done' h') as Hgo; [|intros H; by apply (Hgo h0 [])].
  intros h done Hpre H. revert done Hpre.
  induction H as [h|h1 h2 h3 H12 H23 IH]; intros done Hpre Hh; [by exists done|].
  eapply (host_step_at (was_committed h0 h3)) in Hh as (m1 & Hh); [|exact H12|intros e He; exists h1; split_and!; [done|by eapply rtc_l|done]].
  eapply IH; [by eapply rtc_r|exact Hh].
Qed.

(** A host that was just made. *)
Lemma host_start_at K cfg (n : node St) peers :
  setupNode cfg = Ok n -> host_at K (l_applied (r_raftLog (n_r n))) [] (mkHost n peers 0 Idle []).
Proof.
  intros H. unfold setupNode in H. apply bind_Ok in H as (r & Hr & H). injection H as <-.
  split; [apply contig_nil|]. split; [by constructor|]. split; [done|]. change (len []) with 0. rewrite Z.add_0_r. split; [done|].
  split; [|done]. split; [split; [done|]|done]. simpl.
  unfold newRaft in Hr. destruct (validate cfg), (c_Storage cfg) as [st|]; try done.
  destruct (InitialState st) as [|hs]; [done|]. set (r0 := if negb _ then _ else _) in Hr.
  assert (r_msgsAfterAppend r0 = []) as E by (subst r0; by destruct (IsEmptyHardState (Some hs))). clearbody r0.
  destruct (_ <? c_Applied cfg); [done|]. destruct (_ && _ && _); [done|]. injection Hr as <-.
  unfold after_ok. rewrite Raft_becomeFollower_eq. simpl.
  by rewrite E.
Qed.

End order_run.

(** ** Persistence before sending *)

Lemma hardStatesEqual_spec a b : hardStatesEqual (Some a) (Some b) = true <-> a = b.
Proof.
  destruct a, b. simpl. split; [intros H; by to_prop; subst|intros [= -> -> ->]]. by rewrite !Z.eqb_refl.
Qed.

(** A save that succeeds stores the hard state it was given. *)
Lemma durable_Save_hard s ents hard s' :
  DurableStorage_Save ents hard s = Ok (s', None) ->
  d_hd s' = match hard with Some h => if IsEmptyHardState hard then d_hd s else h | None => d_hd s end.
Proof.
  unfold DurableStorage_Save. set (eff := match hard with Some _ => _ | None => _ end).
  destruct (_ && _) eqn:E.
  { intros [= <-]. apply andb_true_iff in E as [_ E]. unfold eff. destruct hard; [by rewrite E|done]. }
  destruct (segmentedWAL_write _ _ _) as [[[we|] rw] W]; [done|].
  destruct (segmentedWAL_sync _ _) as [[se|] W1]; [done|].
  destruct (segmentedWAL_maybeCut _ _) as [[[e|] rw2] W2]; [done|].
  set (s1 := _ <| d_hd := eff |>). intros H. change eff with (d_hd s1). clearbody s1.
  unfold DurableStorage_truncateAndAppend in H. destruct ents as [|e0 ents]; [by injection H as <-|].
  repeat match goal with H : (if ?b then _ else _) = _ |- _ => destruct b end; try done; by injection H as <-.
Qed.

Lemma durable_Save_nil s hard s' :
  DurableStorage_Save [] hard s = Ok (s', None) -> d_entries s' = d_entries s /\ d_snap s' = d_snap s.
Proof.
  unfold DurableStorage_Save. destruct (_ && _); [by intros [= <-]|].
  destruct (segmentedWAL_write _ _ _) as [[[we|] rw] W]; [done|].
  destruct (segmentedWAL_sync _ _) as [[se|] W1]; [done|].
  destruct (segmentedWAL_maybeCut _ _) as [[[e|] rw2] W2]; [done|]. by intros [= <-].
Qed.

Section durable.
Context {RT : Runtime}.
Implicit Types n : node DurableStorage.

(** The hard state the node remembers as persisted is the stored one. *)
Definition hard_saved n : Prop :=
  (forall h, n_prevHard n = Some h -> d_hd (node_storage n) = h) /\
  (IsEmptyHardState (Some (Raft_HardState (n_r n))) = true ->
   d_hd (node_storage n) = Raft_HardState (n_r n)).

Lemma ready_parts n rd :
  node_ready n = Ok rd ->
  rd_Entries rd = u_entries (l_unstable (r_raftLog (n_r n))) /\
  rd_HardState rd = if hardStatesEqual (Some (Raft_HardState (n_r n))) (n_prevHard n)
                    then None else Some (Raft_HardState (n_r n)).
Proof.
  intros H. unfold node_ready in H. apply bind_Ok in H as (rd0 & H0 & H). injection H as <-.
  unfold Raft_Ready in H0. apply bind_Ok in H0 as (ces & _ & H0). injection H0 as <-. cbn [rd_HardState].
  by destruct (hardStatesEqual (Some (Raft_HardState (n_r n))) (n_prevHard n)).
Qed.

(** After the batch is handled, the storage holds the hard state and the whole
    log the node had when it made the [Ready]. *)
Lemma handleBatch_durable stop n rd st' eff :
  node_ready n = Ok rd -> hard_saved n -> raftLog_ok (r_raftLog (n_r n)) ->
  handleBatch stop rd (node_storage n) = Ok (st', eff, None) ->
  d_hd st' = Raft_HardState (n_r n) /\ d_entries st' = log_view (r_raftLog (n_r n)) /\
  d_snap st' = d_snap (node_storage n).
Proof.
  intros Hrd [Hprev Hempty] Hok H. apply ready_parts in Hrd as [He Hh].
  unfold handleBatch in H. apply bind_Ok in H as ([st1 [e|]] & HS & H); [done|].
  destruct (send_reads stop (rd_ReadStates rd)) as [[reads stop'] ok]. injection H as <- <-.
  assert (Hhd : match rd_HardState rd with
                | Some h => if IsEmptyHardState (rd_HardState rd) then d_hd (node_storage n) else h
                | None => d_hd (node_storage n) end = Raft_HardState (n_r n)).
  { rewrite Hh. destruct (hardStatesEqual _ _) eqn:E.
    - destruct (n_prevHard n) as [p|]; [|done]. apply hardStatesEqual_spec in E as ->. by apply Hprev.
    - destruct (IsEmptyHardState (Some _)) eqn:E2; [by apply Hempty|done]. }
  set (l := r_raftLog (n_r n)) in *. destruct Hok as (Hwf & _).
  assert (Hlog : rd_Entries rd = [] -> d_entries (node_storage n) = log_view l).
  { rewrite He. intros E. pose proof Hwf as (_ & _ & _ & Hx & _). unfold log_view. rewrite E, app_nil_r.
    specialize (Hx E). unfold st_last in Hx. simpl in Hx. unfold node_storage. fold l.
    rewrite slice_to_all; [done|]. unfold log_base, log_snap. simpl. lia. }
  destruct ((0 <? len (rd_Entries rd)) || _) eqn:E.
  2: { injection HS as <-. apply orb_false_iff in E as [E1 E2]. apply negb_false_iff in E2. to_prop.
       assert (rd_Entries rd = []) as Hnil by (apply nil_length_inv; unfold len in *; lia).
       split; [|split; [by apply Hlog|done]]. rewrite E2 in Hhd. by destruct (rd_HardState rd). }
  split; [by rewrite (durable_Save_hard _ _ _ _ HS)|].
  destruct (decide (rd_Entries rd = [])) as [Hnil|Hne].
  { rewrite Hnil in HS. apply durable_Save_nil in HS as [-> ->]. split; [by apply Hlog|done]. }
  rewrite He in HS, Hne. pose proof Hwf as (_ & _ & _ & _ & Hm).
  destruct (save_unstable l _ _ [] Hwf Hne HS) as (_ & Hv & Hsn & Hst); [apply contig_nil|change (len []) with 0; lia|].
  unfold log_snap in Hsn. simpl in Hsn. split; [|exact Hsn].
  rewrite !app_nil_r in Hv. rewrite <-Hv. unfold log_view, log_base, log_snap. simpl. simpl in Hst.
  rewrite Hsn. exact Hst.
Qed.

End durable.
