(* ===== verification/Calls.v ===== *)
(** * Calls: the goroutines around a node ([raft/node.go], [server/raft.go])

    [Propose], [Step], [Campaign] and [ReadIndex] are called by other goroutines: each
    offers a request on a channel of [node.run] and then waits for the answer, unless its
    context is done first.  [raftHost.Start] and [raftHost.Stop] start and end the loop
    of the host, which receives and handles what [run] hands out.  [procs] is the state
    of all of them and [proc_step] one atomic step of one of them; Node and Host define
    what a turn of [run] and of the host's loop does. *)

From S2P Require Export Host.

(** ** Calls *)

Inductive call_result : Type :=
| CtxErr                          (* [ctx.Err()] *)
| Result_ (e : option error).     (* what the node answered *)

(** Where a call is: in the first [select], in the second one, with what its [resp]
    channel (of capacity 1) holds, or back. *)
Inductive call_pc : Type :=
| Offering
| Awaiting (resp : list (option error))
| Returned (o : call_result).

Record call : Type := mkCall {
  c_req : event;
  c_ctxDone : bool;
  c_pc : call_pc
}.

#[export] Instance eta_call : Eta call := fun c => mkCall (c_req c) (c_ctxDone c) (c_pc c).

Definition node_Propose (data : bytes) : call := mkCall (OnPropose data) false Offering.
Definition node_Campaign : call := mkCall OnCampaign false Offering.
Definition node_ReadIndex (rctx : bytes) : call := mkCall (OnReadIndex rctx) false Offering.

Definition errLocalMsg : error := Errorf "cannot step local message type through Node.Step".

Definition node_Step_call (m : Message) : call :=
  mkCall (OnStep m) false
    (if IsLocalMsg (m_Type m) then Returned (Result_ (Some errLocalMsg)) else Offering).

(** The methods that make a request. *)
Inductive method : Type :=
| MPropose (data : bytes)
| MStep (m : Message)
| MCampaign
| MReadIndex (rctx : bytes).

Definition node_begin (m : method) : call :=
  match m with
  | MPropose data => node_Propose data
  | MStep m => node_Step_call m
  | MCampaign => node_Campaign
  | MReadIndex rctx => node_ReadIndex rctx
  end.

(** [case <-ctx.Done(): return ctx.Err()], in both selects. *)
Definition call_giveUp (c : call) : option call :=
  if c_ctxDone c then
    match c_pc c with
    | Offering | Awaiting _ => Some (c <| c_pc := Returned CtxErr |>)
    | Returned _ => None
    end
  else None.

(** [case err := <-resp: return err]. *)
Definition call_collect (c : call) : option call :=
  match c_pc c with
  | Awaiting (e :: _) => Some (c <| c_pc := Returned (Result_ e) |>)
  | _ => None
  end.

(** ** The host's goroutines *)

Record procs (St : Type) : Type := mkProcs {
  p_h : raftHost St;               (* the node, and where the host's loop is *)
  p_tickInterval : Z;
  p_started : bool;
  p_stopc : bool;                  (* [stopc] of the host is closed *)
  p_done : bool;                   (* [done] is closed *)
  p_errc : list error;             (* capacity 1 *)
  p_stops : nat;                   (* calls of [Stop] that wait for [done] *)
  p_nodeStopc : bool;              (* [stopc] of the node is closed *)
  p_run : bool;                    (* [node.run] has not returned *)
  p_calls : gmap nat call;
  p_served : list (nat * event * option error)  (* requests [run] has taken, and its answers *)
}.
Arguments mkProcs {St} _ _ _ _ _ _ _ _ _ _ _.
Arguments p_h {St} _.
Arguments p_tickInterval {St} _.
Arguments p_started {St} _.
Arguments p_stopc {St} _.
Arguments p_done {St} _.
Arguments p_errc {St} _.
Arguments p_stops {St} _.
Arguments p_nodeStopc {St} _.
Arguments p_run {St} _.
Arguments p_calls {St} _.
Arguments p_served {St} _.

#[export] Instance eta_procs St : Eta (procs St) := fun p =>
  mkProcs (p_h p) (p_tickInterval p) (p_started p) (p_stopc p) (p_done p) (p_errc p) (p_stops p) (p_nodeStopc p)
    (p_run p) (p_calls p) (p_served p).

Definition millisecond : Z := 1000000.

Section procs.
Context {RT : Runtime} {St : Type} {SS : Storage St}.

Definition NewNode (cfg : Config St) : res (node St * bool) := n ← setupNode cfg; Ok (n, true).

Definition validateRaftHostConfig (cfg : RaftHostConfig St) (n : option (node St)) : option error :=
  match validatePublicRaftHostConfig cfg with
  | Some e => Some e
  | None => match n with None => Some (Errorf "node is not presented") | Some _ => None end
  end.

Definition defaultTickInterval (d : Z) : Z := if d =? 0 then 100 * millisecond else d.

(** A host around a node whose [run] is [running]. *)
Definition newRaftHost (cfg : RaftHostConfig St) (tickInterval : Z) (n : option (node St)) (running : bool)
  : Result (procs St) :=
  match validateRaftHostConfig cfg n, n with
  | Some e, _ => inl e
  | None, Some n =>
      inr (mkProcs (mkHost n (hc_Peers cfg) 0 Idle []) (defaultTickInterval tickInterval)
             false false false [] 0 false running ∅ [])
  | None, None => inl (Errorf "node is not presented")
  end.

(** [Start] starts the loop once; [time.NewTicker] panics on an interval that is not
    positive. *)
Definition raftHost_Start (p : procs St) : res (procs St) :=
  if p_started p then Ok p
  else if p_tickInterval p <=? 0 then Panic "non-positive interval for NewTicker"
  else Ok (p <| p_started := true |>).

(** The loop of [start] is running. *)
Definition loop_alive (p : procs St) : bool := p_started p && negb (p_done p).

(** The loop returns: it picks [stopc], or [handleBatch] failed. *)
Definition loop_exit (p : procs St) : option (procs St) :=
  if loop_alive p then
    match h_phase (p_h p) with
    | Idle => if p_stopc p then Some (p <| p_done := true |>) else None
    | Failed e =>
        match p_errc p with
        | [] => Some (p <| p_errc := [e] |> <| p_done := true |>)
        | _ :: _ => None
        end
    | _ => None
    end
  else None.

(** A step of the loop that needs [run] to be there. *)
Definition loop_with (running : bool) (f : raftHost St -> res (option (raftHost St))) (p : procs St)
  : res (option (procs St)) :=
  if loop_alive p && (negb running || p_run p) then
    h ← f (p_h p);
    Ok (option_map (fun h => p <| p_h := h |>) h)
  else Ok None.

Definition loop_tick (p : procs St) : res (option (procs St)) :=
  loop_with false (fun h =>
    Ok match h_phase h with Idle => Some (raftHost_tick h) | _ => None end) p.

(** [Stop] first closes [stopc]; it then waits for [done]. *)
Definition raftHost_Stop (p : procs St) : procs St := p <| p_stopc := true |> <| p_stops ::= S |>.

(** [<-r.done; r.n.Stop()]. *)
Definition Stop_return (p : procs St) : option (procs St) :=
  match p_done p, p_stops p with
  | true, S k => Some (p <| p_stops := k |> <| p_nodeStopc := true |>)
  | _, _ => None
  end.

(** [run] takes the request of call [id] and answers it. *)
Definition run_serve (id : nat) (p : procs St) : res (option (procs St)) :=
  match p_calls p !! id with
  | Some c =>
      match c_pc c with
      | Offering =>
          if p_run p then
            x ← node_turn (c_req c) (h_n (p_h p));
            match x with
            | Some (n, Reply e) =>
                Ok (Some (p <| p_h ::= fun h => h <| h_n := n |> |>
                            <| p_calls ::= <[ id := c <| c_pc := Awaiting [e] |> ]> |>
                            <| p_served ::= fun l => l ++ [(id, c_req c, e)] |>))
            | _ => Ok None
            end
          else Ok None
      | _ => Ok None
      end
  | None => Ok None
  end.

(** A tick that waits in the channel. *)
Definition run_tick (p : procs St) : res (option (procs St)) :=
  if p_run p then
    h ← raftHost_request OnTick (p_h p);
    Ok (option_map (fun h => p <| p_h := h |>) h)
  else Ok None.

(** [case <-n.stopc: return]. *)
Definition run_exit (p : procs St) : option (procs St) :=
  if p_run p && p_nodeStopc p then Some (p <| p_run := false |>) else None.

Definition call_update (id : nat) (f : call -> option call) (p : procs St) : option (procs St) :=
  c ← p_calls p !! id; c ← f c; Some (p <| p_calls ::= <[ id := c ]> |>).

(** One step of one goroutine. *)
Inductive proc_action : Type :=
| PBegin (id : nat) (m : method)   (* a goroutine calls the node *)
| PCancel (id : nat)               (* its context is done *)
| PGiveUp (id : nat)
| PServe (id : nat)
| PCollect (id : nat)
| PStart
| PStop
| PStopReturn
| PLoopTick
| PLoopReady
| PLoopHandle (stop : option nat)
| PLoopAdvance
| PLoopExit
| PRunTick
| PRunExit.

Definition proc_step (a : proc_action) (p : procs St) : res (option (procs St)) :=
  match a with
  | PBegin id m =>
      Ok match p_calls p !! id with
         | None => Some (p <| p_calls ::= <[ id := node_begin m ]> |>)
         | Some _ => None
         end
  | PCancel id => Ok (call_update id (fun c => Some (c <| c_ctxDone := true |>)) p)
  | PGiveUp id => Ok (call_update id call_giveUp p)
  | PServe id => run_serve id p
  | PCollect id => Ok (call_update id call_collect p)
  | PStart => p ← raftHost_Start p; Ok (Some p)
  | PStop => Ok (Some (raftHost_Stop p))
  | PStopReturn => Ok (Stop_return p)
  | PLoopTick => loop_tick p
  | PLoopReady => loop_with true raftHost_receive p
  | PLoopHandle stop =>
      match stop with
      | Some _ => if p_stopc p then loop_with false (raftHost_handle stop) p else Ok None
      | None => loop_with false (raftHost_handle stop) p
      end
  | PLoopAdvance => loop_with true raftHost_advance p
  | PLoopExit => Ok (loop_exit p)
  | PRunTick => run_tick p
  | PRunExit => Ok (run_exit p)
  end.

(** A sequence of steps; [None]: one of them has to wait. *)
Fixpoint proc_run (acts : list proc_action) (p : procs St) : res (option (procs St)) :=
  match acts with
  | [] => Ok (Some p)
  | a :: acts =>
      x ← proc_step a p;
      match x with Some p => proc_run acts p | None => Ok None end
  end.

Definition pstep (p p' : procs St) : Prop := exists a, proc_step a p = Ok (Some p').

(** ** The invariant *)

Definition is_request (ev : event) : Prop :=
  match ev with OnPropose _ | OnStep _ | OnCampaign | OnReadIndex _ => True | _ => False end.

(** What a call's state says about the requests [run] has taken. *)
Definition call_ok (served : list (nat * event * option error)) (id : nat) (c : call) : Prop :=
  match c_pc c with
  | Offering => forall x, x ∈ served -> x.1.1 <> id
  | Awaiting resp => exists e, resp = [e] /\ (id, c_req c, e) ∈ served
  | Returned (Result_ e) =>
      (id, c_req c, e) ∈ served \/
      (exists m, c_req c = OnStep m /\ IsLocalMsg (m_Type m) = true /\ e = Some errLocalMsg /\
                 forall x, x ∈ served -> x.1.1 <> id)
  | Returned CtxErr => c_ctxDone c = true
  end.

(** A [Ready] that has been taken waits for [Advance]. *)
Definition phase_ok (h : raftHost St) : Prop :=
  match h_phase h with
  | Received _ | Handled _ => n_advancec (h_n h) = true
  | _ => True
  end.

Record procs_ok (p : procs St) : Prop := {
  po_calls id c : p_calls p !! id = Some c -> call_ok (p_served p) id c;
  po_request id c : p_calls p !! id = Some c -> is_request (c_req c);
  po_once : NoDup (fst ∘ fst <$> p_served p);
  po_known x : x ∈ p_served p -> is_Some (p_calls p !! x.1.1);
  po_phase : phase_ok (p_h p);
  po_stops : p_stops p <> 0%nat -> p_stopc p = true;
  po_nodeStop : p_nodeStopc p = true -> p_done p = true;
  po_run : p_run p = false -> p_nodeStopc p = true;
  po_errc : p_done p = false -> p_errc p = [];
  po_done : p_done p = true -> p_started p = true
}.

(** ** Turns *)

Lemma node_prepare_advancec (n n' : node St) : node_prepare n = Ok n' -> n_advancec n' = n_advancec n.
Proof.
  unfold node_prepare. destruct (_ && _); [|intros H; by inv_res].
  intros (rd & _ & H)%bind_Ok. by inv_res.
Qed.

(** Requests and ticks leave [advancec] alone. *)
Lemma node_turn_advancec ev (n n' : node St) r :
  node_turn ev n = Ok (Some (n', r)) -> ev <> OnReady -> ev <> OnAdvance -> n_advancec n' = n_advancec n.
Proof.
  unfold node_turn. intros (n1 & H1%node_prepare_advancec & H)%bind_Ok Hr Ha.
  destruct (node_enabled ev n1); [|by inv_res]. apply bind_Ok in H as (x & H & Hx). inv_res. rewrite <- H1.
  destruct ev; simpl in H; try done; inv_res; try done;
    match goal with H : (let '(_, _) := ?a in _) = _ |- _ => destruct a end; by inv_res.
Qed.

Lemma node_turn_ready (n n' : node St) r : node_turn OnReady n = Ok (Some (n', r)) -> n_advancec n' = true.
Proof.
  unfold node_turn. intros (n1 & _ & H)%bind_Ok. destruct (node_enabled OnReady n1); [|by inv_res].
  apply bind_Ok in H as (x & H & Hx). inv_res. simpl in H. by inv_res.
Qed.

Lemma receive_phase (h h' : raftHost St) : raftHost_receive h = Ok (Some h') -> phase_ok h'.
Proof.
  unfold raftHost_receive. intros H. destruct (h_phase h); [|by inv_res..]. apply bind_Ok in H as (x & Hx & H).
  destruct x as [[n [| |rd]]|]; inv_res; simplify_eq/=. unfold phase_ok. simpl. by eapply node_turn_ready.
Qed.

Lemma handle_phase stop (h h' : raftHost St) : raftHost_handle stop h = Ok (Some h') -> phase_ok h -> phase_ok h'.
Proof.
  unfold raftHost_handle. intros H Hp. destruct (h_phase h) eqn:Eh; try (by inv_res).
  apply bind_Ok in H as ([[st eff] e] & _ & H). inv_res. unfold phase_ok in *. rewrite Eh in Hp. simpl.
  by destruct e.
Qed.

Lemma advance_phase (h h' : raftHost St) : raftHost_advance h = Ok (Some h') -> h_phase h' = Idle.
Proof.
  unfold raftHost_advance. intros H. destruct (h_phase h); try (by inv_res). apply bind_Ok in H as (x & _ & H).
  destruct x as [[n r]|]; by inv_res.
Qed.

Lemma request_phase ev (h h' : raftHost St) : raftHost_request ev h = Ok (Some h') -> phase_ok h -> phase_ok h'.
Proof.
  intros H Hp. assert (exists n r, node_turn ev (h_n h) = Ok (Some (n, r)) /\ h' = h <| h_n := n |> /\
    ev <> OnReady /\ ev <> OnAdvance) as (n & r & Ht & -> & Hr & Ha).
  { unfold raftHost_request in H. destruct ev; try done; apply bind_Ok in H as (x & Hx & H);
      destruct x as [[n r]|]; inv_res; simplify_eq/=; by exists n, r. }
  unfold phase_ok in *. simpl. by rewrite (node_turn_advancec _ _ _ _ Ht Hr Ha).
Qed.

(** ** The invariant is kept *)

Lemma call_ok_other served x id c : x.1.1 <> id -> call_ok served id c -> call_ok (served ++ [x]) id c.
Proof.
  intros Hx. unfold call_ok. destruct (c_pc c) as [|resp|[|e]]; [| |done|].
  - intros H y [Hy|Hy]%elem_of_app; [by apply H|]. apply list_elem_of_singleton in Hy. by subst.
  - intros (e & -> & H). exists e. split; [done|]. apply elem_of_app. by left.
  - intros [H|(m & Hm & Hl & He & H)]; [left; apply elem_of_app; by left|right].
    exists m. split_and!; try done. intros y [Hy|Hy]%elem_of_app; [by apply H|].
    apply list_elem_of_singleton in Hy. by subst.
Qed.

Lemma node_begin_ok served id m : (forall x, x ∈ served -> x.1.1 <> id) -> call_ok served id (node_begin m).
Proof.
  intros H. destruct m as [d|m| |c]; unfold call_ok; simpl; try done.
  destruct (IsLocalMsg (m_Type m)) eqn:E; [|done]. right. by exists m.
Qed.

(** A step that only touches one call. *)
Lemma call_update_ok id f (p p' : procs St) :
  call_update id f p = Some p' -> procs_ok p ->
  (forall c c', call_ok (p_served p) id c -> f c = Some c' -> call_ok (p_served p) id c') ->
  (forall c c', f c = Some c' -> c_req c' = c_req c) -> procs_ok p'.
Proof.
  unfold call_update. intros (c & Hc & H)%bind_Some [] Hf Hq. apply bind_Some in H as (c' & Hc' & [= <-]).
  split; simpl; try done.
  - intros j d [[<- <-]|[_ Hd]]%lookup_insert_Some; [|by apply po_calls0]. eapply Hf; [|done]. by apply po_calls0.
  - intros j d [[<- <-]|[_ Hd]]%lookup_insert_Some; [rewrite (Hq _ _ Hc')|]; eauto.
  - intros x Hx. apply lookup_insert_is_Some'. right. by apply po_known0.
Qed.

Lemma giveUp_req c c' : call_giveUp c = Some c' -> c_req c' = c_req c.
Proof.
  unfold call_giveUp. destruct (c_ctxDone c); [|done]. destruct (c_pc c); intros H; try done; by injection H as <-.
Qed.

Lemma collect_req c c' : call_collect c = Some c' -> c_req c' = c_req c.
Proof. unfold call_collect. destruct (c_pc c) as [|[|]|]; intros H; try done; by injection H as <-. Qed.

Lemma giveUp_ok served id c c' : call_ok served id c -> call_giveUp c = Some c' -> call_ok served id c'.
Proof.
  unfold call_giveUp. intros _. destruct (c_ctxDone c) eqn:E; [|done].
  destruct (c_pc c); intros H; try done; by injection H as <-.
Qed.

Lemma collect_ok served id c c' : call_ok served id c -> call_collect c = Some c' -> call_ok served id c'.
Proof.
  unfold call_collect, call_ok. destruct (c_pc c) as [|[|e resp]|]; try done.
  intros (e' & [= -> ->] & H) [= <-]. simpl. by left.
Qed.

Lemma serve_ok id (p p' : procs St) : run_serve id p = Ok (Some p') -> procs_ok p -> procs_ok p'.
Proof.
  unfold run_serve. intros H Hp. destruct (p_calls p !! id) as [c|] eqn:Hc; [|done].
  destruct (c_pc c) eqn:Epc; [|done..]. destruct (p_run p) eqn:Er; [|done].
  apply bind_Ok in H as (x & Hx & H). destruct x as [[n [|e|]]|]; inv_res; simplify_eq/=. destruct Hp.
  pose proof (po_calls0 id c Hc) as Hok. unfold call_ok in Hok. rewrite Epc in Hok.
  assert (c_req c <> OnReady /\ c_req c <> OnAdvance) as [Hr Ha].
  { split; intros E; rewrite E in Hx; unfold node_turn in Hx; inv_res;
      (destruct (node_enabled _ _); inv_res; simplify_eq/=; inv_res; simplify_eq/=). }
  split; simpl; try done.
  - intros j d [[<- <-]|[Hj Hd]]%lookup_insert_Some.
    + unfold call_ok. simpl. exists e. split; [done|]. apply elem_of_app. right. by apply list_elem_of_singleton.
    + by apply call_ok_other; [|apply po_calls0].
  - intros j d [[<- <-]|[Hj Hd]]%lookup_insert_Some; [exact (po_request0 id c Hc)|by eapply po_request0].
  - rewrite fmap_app, NoDup_app. split_and!; [done| |apply NoDup_singleton].
    intros y (x & -> & Hx')%list_elem_of_fmap Hy. simpl in Hy. apply list_elem_of_singleton in Hy. by apply (Hok x).
  - intros x [Hx'|Hx'%list_elem_of_singleton]%elem_of_app; apply lookup_insert_is_Some'.
    + right. by apply po_known0.
    + left. by subst x.
  - unfold phase_ok in *. simpl. by rewrite (node_turn_advancec _ _ _ _ Hx Hr Ha).
Qed.

Lemma loop_with_ok running f (p p' : procs St) :
  loop_with running f p = Ok (Some p') -> procs_ok p ->
  (forall h h', f h = Ok (Some h') -> phase_ok h -> phase_ok h') -> procs_ok p'.
Proof.
  unfold loop_with. destruct (_ && _); [|done]. intros (x & Hx & H)%bind_Ok [] Hf.
  destruct x as [h|]; inv_res; simplify_eq/=. split; simpl; try done. by eapply Hf.
Qed.

Lemma pstep_ok (p p' : procs St) : pstep p p' -> procs_ok p -> procs_ok p'.
Proof.
  intros [a H] Hp. destruct a as [id m|id|id|id|id| | | | | |stop| | | |]; simpl in H.
  - destruct (p_calls p !! id) eqn:E; [done|]. injection H as <-. destruct Hp. split; simpl; try done.
    + intros j c [[<- <-]|[_ Hc]]%lookup_insert_Some; [|by apply po_calls0]. apply node_begin_ok.
      intros x Hx Hid. apply po_known0 in Hx. rewrite Hid, E in Hx. by destruct Hx.
    + intros j c [[<- <-]|[_ Hc]]%lookup_insert_Some; [by destruct m|by eapply po_request0].
    + intros x Hx. apply lookup_insert_is_Some'. right. by apply po_known0.
  - injection H as H. eapply call_update_ok; [exact H|done| |by intros c c' [= <-]]. intros c c' Hc [= <-].
    unfold call_ok in *. simpl. destruct (c_pc c) as [| |[|]]; done.
  - injection H as H. eapply call_update_ok; [exact H|done|apply giveUp_ok|apply giveUp_req].
  - by eapply serve_ok.
  - injection H as H. eapply call_update_ok; [exact H|done|apply collect_ok|apply collect_req].
  - apply bind_Ok in H as (p1 & H1 & H). injection H as <-. unfold raftHost_Start in H1.
    destruct (p_started p); [by injection H1 as <-|]. destruct (_ <=? 0); [done|]. injection H1 as <-.
    destruct Hp. by split.
  - injection H as <-. destruct Hp. by split.
  - unfold Stop_return in H. destruct (p_done p) eqn:Ed; [|done]. destruct (p_stops p) eqn:Es; [done|].
    injection H as <-. destruct Hp. split; simpl; try done. intros _. apply po_stops0. by rewrite Es.
  - eapply loop_with_ok; [exact H|done|]. simpl. intros h h' E Hh. destruct (h_phase h) eqn:Eh; inv_res; try done.
    unfold phase_ok, raftHost_tick in *. simpl. by rewrite Eh.
  - eapply loop_with_ok; [exact H|done|]. intros h h' E _. by eapply receive_phase.
  - assert (loop_with false (raftHost_handle stop) p = Ok (Some p')) as H'.
    { destruct stop; [destruct (p_stopc p); done|done]. }
    eapply loop_with_ok; [exact H'|done|apply handle_phase].
  - eapply loop_with_ok; [exact H|done|]. intros h h' E _. apply advance_phase in E. unfold phase_ok. by rewrite E.
  - injection H as H. unfold loop_exit, loop_alive in H. destruct (p_started p) eqn:Est; [|done].
    destruct Hp. destruct (h_phase (p_h p)) eqn:Eh; try (by destruct (negb _)).
    + destruct (negb _); [|done]. destruct (p_stopc p) eqn:Esc; [|done]. injection H as <-. split; simpl; by eauto.
    + destruct (negb _); [|done]. destruct (p_errc p) eqn:Ee; [|done]. injection H as <-. split; simpl; by eauto.
  - unfold run_tick in H. destruct (p_run p) eqn:Er; [|done]. apply bind_Ok in H as (x & Hx & H). destruct x as [h|]; inv_res; simplify_eq/=.
    destruct Hp. split; simpl; try done. exact (request_phase OnTick _ _ Hx po_phase0).
  - injection H as H. unfold run_exit in H. destruct (p_run p && p_nodeStopc p) eqn:E; [|done]. injection H as <-.
    apply andb_true_iff in E as [_ E]. destruct Hp. by split.
Qed.

End procs.
