(* ===== verification/Server.v ===== *)
(** * Server: proposing, applying and reading ([server/server.go], [server/handler_kv.go],
    [server/dispatcher.go], [server/envelope.go])

    A put goes through Raft as an envelope: the request id and the encoded
    request.  The apply loop decodes it, writes it to the state machine and wakes
    the waiter registered under the id.  A read asks Raft for an index and waits
    until the apply loop has passed it.  The handlers and the apply loop block on
    channels; each is modelled by the pieces between its blocking points.  The state machine is an
    interface of the sources ([StateMachine]); its contract is [StateMachineSpec],
    which the storage engine satisfies (EngineServer). *)

From S2P Require Export GoState Protocol Wait Host DurableStorage.

(** The part of the interface the server uses.  [sm_PutAsync] is the call up to the
    point where it returns or waits; [sm_blocked k] tells which: while it holds, the
    last put, of key [k], has not returned. *)
Class StateMachine (SM : Type) : Type := {
  sm_Get : bytes -> M SM (option bytes);
  sm_PutAsync : bytes -> bytes -> M SM unit;
  sm_blocked : bytes -> SM -> bool
}.

(** A state machine in a good state stands for a map: a get returns what the map
    holds and a put updates it, before it waits for anything; neither panics.  Nothing
    is said about how long a put waits. *)
Class StateMachineSpec (SM : Type) `{!StateMachine SM} : Type := {
  sm_good : SM -> Prop;
  sm_view : SM -> bytes -> option bytes;
  sm_get_spec k sm : sm_good sm ->
    exists sm', sm_Get k sm = (Ok (sm_view sm k), sm') /\ sm_good sm' /\ forall k', sm_view sm' k' = sm_view sm k';
  sm_put_spec k v sm : sm_good sm ->
    exists sm', sm_PutAsync k v sm = (Ok tt, sm') /\ sm_good sm' /\
      forall k', sm_view sm' k' = if decide (k' = k) then Some v else sm_view sm k'
}.

(** ** envelope.go *)

Definition envelopeHeaderSize : Z := 8.

Definition marshalEnvelope (id : Z) (payload : bytes) : bytes := PutUint64 id ++ payload.

Definition unmarshalEnvelope (data : bytes) : Result (Z * bytes) :=
  if len data <? envelopeHeaderSize then inl ErrEnvelopeTooShort
  else inr (Uint64 (slice_to data envelopeHeaderSize), slice_from data envelopeHeaderSize).

(** ** server.go *)

Record Server (SM : Type) : Type := mkServer {
  sv_sm : SM;
  sv_w : waitList;
  sv_applyWait : timeList;
  sv_reqIDGen : Z;
  sv_raftStorage : DurableStorage
}.
Arguments mkServer {SM} _ _ _ _ _.
Arguments sv_sm {SM} _.
Arguments sv_w {SM} _.
Arguments sv_applyWait {SM} _.
Arguments sv_reqIDGen {SM} _.
Arguments sv_raftStorage {SM} _.

#[export] Instance eta_Server SM : Eta (Server SM) := fun s =>
  mkServer (sv_sm s) (sv_w s) (sv_applyWait s) (sv_reqIDGen s) (sv_raftStorage s).

Section server.
Context {SM : Type} `{!StateMachine SM}.
Implicit Types s : Server SM.

(** [s.w.Trigger]; [Panic] stands for a send that blocks forever. *)
Definition Server_trigger (id : Z) (x : any) (s : Server SM) : res (Server SM) :=
  match waitList_Trigger id x (sv_w s) with
  | Some w => Ok (s <| sv_w := w |>)
  | None => Panic "blocked on a full channel"
  end.

Definition Server_nextRequestID (s : Server SM) : Z * Server SM :=
  let id := sv_reqIDGen s +u 1 in (id, s <| sv_reqIDGen := id |>).

(** Where the apply loop waits: in [PutAsync] of a key, for the request with an id. *)
Record in_put : Type := mkInPut {
  ip_id : Z;
  ip_key : bytes
}.

(** One entry, up to its end or to a [PutAsync] that waits. *)
Definition Server_applyEntry (raw : bytes) (s : Server SM) : res (option in_put * Server SM) :=
  if len raw =? 0 then Ok (None, s)
  else
    match unmarshalEnvelope raw with
    | inl _ => Ok (None, s)
    | inr (id, payload) =>
        match DecodeRequest payload with
        | inl e => s ← Server_trigger id (AnyErr e) s; Ok (None, s)
        | inr req =>
            if q_Cmd req =? CmdPut then
              match sm_PutAsync (q_Key req) (q_Value req) (sv_sm s) with
              | (Ok _, sm) =>
                  let s := s <| sv_sm := sm |> in
                  if sm_blocked (q_Key req) sm then Ok (Some (mkInPut id (q_Key req)), s)
                  else s ← Server_trigger id AnyNil s; Ok (None, s)
              | (Panic why, _) => Panic why
              end
            else s ← Server_trigger id (AnyErr (Errorf "unknown command in apply")) s; Ok (None, s)
        end
    end.

(** The entries of a batch, up to the end or to a [PutAsync] that waits, with the
    entries behind it. *)
Fixpoint Server_applyLoop (data : list bytes) (s : Server SM) : res (option (in_put * list bytes) * Server SM) :=
  match data with
  | [] => Ok (None, s)
  | raw :: rest =>
      '(w, s) ← Server_applyEntry raw s;
      match w with
      | Some p => Ok (Some (p, rest), s)
      | None => Server_applyLoop rest s
      end
  end.

Definition Server_applyBatch (ap : toApply) : Server SM -> res (option (in_put * list bytes) * Server SM) :=
  Server_applyLoop (ta_data ap).

(** [PutAsync] has returned: the request is answered and the batch goes on. *)
Definition Server_putReturned (p : in_put) (rest : list bytes) (s : Server SM)
  : res (option (in_put * list bytes) * Server SM) :=
  s ← Server_trigger (ip_id p) AnyNil s; Server_applyLoop rest s.

(** The cases of [run].  The read context is the eight bytes of the request id;
    a shorter one would make [BigEndian.Uint64] panic. *)
Definition Server_onReadState (rs : ReadState) (s : Server SM) : res (Server SM) :=
  if len (rst_RequestCtx rs) <? 8 then Panic "index out of range"
  else Server_trigger (BE_Uint64 (rst_RequestCtx rs)) (AnyIndex (rst_Index rs)) s.

(** What [run] does after the batch [ap]; a compaction error is only logged. *)
Definition Server_onApplied (ap : toApply) (s : Server SM) : res (Server SM) :=
  if 0 <? ta_appliedThru ap then
    tl ← timeList_Trigger (ta_appliedThru ap) (sv_applyWait s);
    '(st, _) ← DurableStorage_MaybeCompact (ta_appliedThru ap) (sv_raftStorage s);
    Ok (s <| sv_applyWait := tl |> <| sv_raftStorage := st |>)
  else Ok s.

(** ** handler_kv.go *)

(** [proposePut] up to [raftHost.Propose]: the channel to wait on, and the data
    to propose unless encoding failed. *)
Definition Server_proposePut (key value : bytes) (s : Server SM) : res (nat * option (Z * bytes) * Server SM) :=
  let '(id, s) := Server_nextRequestID s in
  let '(ch, w) := waitList_Register id (sv_w s) in
  let s := s <| sv_w := w |> in
  match EncodeRequest (mkRequest CmdPut key value 0) with
  | inl e => s ← Server_trigger id (AnyErr e) s; Ok (ch, None, s)
  | inr encoded => Ok (ch, Some (id, marshalEnvelope id encoded), s)
  end.

(** [raftHost.Propose] failed. *)
Definition Server_proposeFailed (id : Z) (e : error) (s : Server SM) : res (Server SM) :=
  Server_trigger id (AnyErr e) s.

(** [if result != nil { return result.(error) }]. *)
Definition put_result (v : any) : res (option error) :=
  match v with
  | AnyNil => Ok None
  | AnyErr e => Ok (Some e)
  | AnyIndex _ => Panic "interface conversion: interface is uint64, not error"
  end.

(** [proposeRead] up to [raftHost.ReadIndex]: the channel and the context. *)
Definition Server_proposeRead (s : Server SM) : nat * Z * bytes * Server SM :=
  let '(rctx, s) := Server_nextRequestID s in
  let '(ch, w) := waitList_Register rctx (sv_w s) in
  (ch, rctx, BE_PutUint64 rctx, s <| sv_w := w |>).

(** Where a call of [proposeRead] is: it waits for its index, or for the index to be
    applied, or it has returned.  The index is the variable [readIndex]. *)
Inductive read_pc : Type :=
| ReadAsked (ch : nat) (rctx : Z)
| ReadWaits (readIndex : Z) (c : waitChan)
| ReadReturned (readIndex : Z) (e : option error).

(** [ReadIndex] failed, or the deadline passed before an index arrived. *)
Definition Server_readFailed (rctx : Z) (s : Server SM) : res (Server SM) :=
  Server_trigger rctx AnyNil s.

(** [readIndex = v.(uint64)]. *)
Definition read_index (v : any) : res Z :=
  match v with
  | AnyIndex i => Ok i
  | _ => Panic "interface conversion: interface is not uint64"
  end.

(** [s.applyWait.Wait(readIndex)] *)
Definition Server_waitApplied (readIndex : Z) (s : Server SM) : waitChan * Server SM :=
  let '(c, tl) := timeList_Wait readIndex (sv_applyWait s) in (c, s <| sv_applyWait := tl |>).

(** The cases of the two [select]s of [proposeRead]. *)
Inductive read_case : Type :=
| ReadFails (e : error)      (* [ReadIndex] returns an error *)
| ReadIndexed                (* [v := <-ch] *)
| ReadApplied                (* [<-s.applyWait.Wait(readIndex)] *)
| ReadDeadline.              (* [<-ctx.Done()] *)

Definition Server_readStep (x : read_case) (pc : read_pc) (s : Server SM) : res (option (read_pc * Server SM)) :=
  match x, pc with
  | ReadFails e, ReadAsked _ rctx =>
      s ← Server_readFailed rctx s; Ok (Some (ReadReturned 0 (Some e), s))
  | ReadIndexed, ReadAsked ch _ =>
      match chan_recv ch (sv_w s) with
      | Some (v, w) =>
          i ← read_index v;
          let '(c, s) := Server_waitApplied i (s <| sv_w := w |>) in Ok (Some (ReadWaits i c, s))
      | None => Ok None
      end
  | ReadDeadline, ReadAsked _ rctx =>
      s ← Server_readFailed rctx s; Ok (Some (ReadReturned 0 (Some ErrDeadlineExceeded), s))
  | ReadApplied, ReadWaits i c =>
      Ok (if chan_closed c (sv_applyWait s) then Some (ReadReturned i None, s) else None)
  | ReadDeadline, ReadWaits i _ => Ok (Some (ReadReturned i (Some ErrDeadlineExceeded), s))
  | _, _ => Ok None
  end.

(** The response of [handleGet], given how [proposeRead] ended. *)
Definition Server_handleGet (read : option error) (req : Request) (s : Server SM) : res (Response * Server SM) :=
  match read with
  | Some e => Ok (mkResponse (if errors_Is e ErrDeadlineExceeded then StatusTimeout else StatusError) [] 0, s)
  | None =>
      match sm_Get (q_Key req) (sv_sm s) with
      | (Panic why, _) => Panic why
      | (Ok None, sm) => Ok (mkResponse StatusNotFound [] 0, s <| sv_sm := sm |>)
      | (Ok (Some v), sm) => Ok (mkResponse StatusOK v 0, s <| sv_sm := sm |>)
      end
  end.

(** [handlePut] given how [proposePut] ended; its error makes the dispatcher
    answer [StatusError]. *)
Definition handlePut (put : option error) : Response :=
  match put with
  | Some _ => mkResponse StatusError [] 0
  | None => mkResponse StatusOK [] 0
  end.

(** ** dispatcher.go *)

(** One turn of [handleRequest] on a received payload: an immediate answer, or a
    handler. *)
Inductive dispatched : Type :=
| Respond (resp : Response)
| RunGet (req : Request)
| RunPut (req : Request).

Definition handleRequest (payload : bytes) : dispatched :=
  match DecodeRequest payload with
  | inl _ => Respond (mkResponse StatusError [] 0)
  | inr req =>
      if q_Cmd req =? CmdGet then RunGet req
      else if q_Cmd req =? CmdPut then RunPut req
      else Respond (mkResponse StatusError [] 0)
  end.

End server.

(** ** Properties *)

Section server_spec.
Context {SM : Type} `{!StateMachine SM} `{!StateMachineSpec SM}.
Implicit Types s : Server SM.

(** The server's own channels are in order, and so is its state machine. *)
Definition server_ok s : Prop := wait_ok (sv_w s) /\ time_ok (sv_applyWait s) /\ sm_good (sv_sm s).

Lemma unmarshal_marshal id payload :
  is_u64 id -> unmarshalEnvelope (marshalEnvelope id payload) = inr (id, payload).
Proof.
  intros Hid. unfold unmarshalEnvelope, marshalEnvelope, envelopeHeaderSize.
  rewrite len_app, len_PutUint64. pose proof (len_nonneg payload).
  rewrite (proj2 (Z.ltb_ge _ _)) by lia.
  rewrite slice_to_app_len, slice_from_app by apply len_PutUint64.
  rewrite <-(app_nil_r (PutUint64 id)) at 1. by rewrite Uint64_Put.
Qed.

Lemma Server_trigger_ok id x s :
  server_ok s -> exists s', Server_trigger id x s = Ok s' /\ server_ok s' /\
    sv_sm s' = sv_sm s /\ sv_applyWait s' = sv_applyWait s /\ sv_reqIDGen s' = sv_reqIDGen s /\
    sv_raftStorage s' = sv_raftStorage s /\
    (forall ch, wl_chans (sv_w s') !! ch =
       if bool_decide (wl_m (sv_w s) !! id = Some ch) then Some [x] else wl_chans (sv_w s) !! ch).
Proof.
  intros (Hw & Ht & Hsm). unfold Server_trigger.
  destruct (wait_ok_Trigger id x (sv_w s) Hw) as (w' & -> & Hw' & _ & Hch). by eexists.
Qed.

(** The data a put was proposed with. *)
Lemma proposePut_data key value s :
  len key < 2 ^ 32 -> len value < 2 ^ 32 ->
  exists encoded, EncodeRequest (mkRequest CmdPut key value 0) = inr encoded /\
    DecodeRequest encoded = inr (mkRequest CmdPut key value 0) /\
    Server_proposePut key value s =
      Ok (wl_next (sv_w s), Some (sv_reqIDGen s +u 1, marshalEnvelope (sv_reqIDGen s +u 1) encoded),
          s <| sv_reqIDGen := sv_reqIDGen s +u 1 |>
            <| sv_w := (waitList_Register (sv_reqIDGen s +u 1) (sv_w s)).2 |>).
Proof.
  intros Hk Hv. destruct (EncodeRequest_total (mkRequest CmdPut key value 0) Hk Hv) as [b Hb].
  exists b. split; [done|]. split.
  - by apply DecodeRequest_Encode in Hb.
  - unfold Server_proposePut, Server_nextRequestID. by rewrite Hb.
Qed.

(** Writing a pair to the state machine of a server. *)
Lemma put_server_ok k v s :
  server_ok s -> exists sm, sm_PutAsync k v (sv_sm s) = (Ok tt, sm) /\ server_ok (s <| sv_sm := sm |>) /\
    forall k', sm_view sm k' = if decide (k' = k) then Some v else sm_view (sv_sm s) k'.
Proof.
  intros (Hw & Ht & Hsm). destruct (sm_put_spec k v (sv_sm s) Hsm) as (sm & H & Hg & Hv). exists sm. by split_and!.
Qed.

(** Applying the entry of a put, on any server: the pair is written; then the waiter
    registered under the id there, if any, is told, at once or when [PutAsync] has
    returned. *)
Lemma applyEntry_put id key value encoded s :
  server_ok s -> is_u64 id -> DecodeRequest encoded = inr (mkRequest CmdPut key value 0) ->
  exists sm, sm_PutAsync key value (sv_sm s) = (Ok tt, sm) /\ server_ok (s <| sv_sm := sm |>) /\
    (forall k, sm_view sm k = if decide (k = key) then Some value else sm_view (sv_sm s) k) /\
    Server_applyEntry (marshalEnvelope id encoded) s =
      if sm_blocked key sm then Ok (Some (mkInPut id key), s <| sv_sm := sm |>)
      else s' ← Server_trigger id AnyNil (s <| sv_sm := sm |>); Ok (None, s').
Proof.
  intros Hok Hid Hd. unfold Server_applyEntry.
  assert (len (marshalEnvelope id encoded) =? 0 = false) as ->.
  { unfold marshalEnvelope. rewrite len_app, len_PutUint64. pose proof (len_nonneg encoded). lia. }
  rewrite unmarshal_marshal, Hd by done. cbn [q_Cmd q_Key q_Value]. rewrite Z.eqb_refl.
  destruct (put_server_ok key value s Hok) as (sm & Hp & Hok1 & Hv). exists sm. by rewrite Hp.
Qed.

(** What an entry does to the map, on any server. *)
Definition entry_effect (raw : bytes) (view : bytes -> option bytes) : bytes -> option bytes :=
  if len raw =? 0 then view
  else match unmarshalEnvelope raw with
       | inl _ => view
       | inr (_, payload) =>
           match DecodeRequest payload with
           | inl _ => view
           | inr req =>
               if q_Cmd req =? CmdPut then fun k => if decide (k = q_Key req) then Some (q_Value req) else view k
               else view
           end
       end.

(** Whatever the entry is, the loop does not panic, and the effect depends on nothing
    but the entry, also when [PutAsync] waits. *)
Lemma applyEntry_total raw s :
  server_ok s -> exists w s', Server_applyEntry raw s = Ok (w, s') /\ server_ok s' /\
    sv_applyWait s' = sv_applyWait s /\
    (forall k, sm_view (sv_sm s') k = entry_effect raw (sm_view (sv_sm s)) k) /\
    (forall p, w = Some p -> sm_blocked (ip_key p) (sv_sm s') = true).
Proof.
  intros Hok. unfold Server_applyEntry, entry_effect. destruct (_ =? 0); [by exists None, s|].
  destruct (unmarshalEnvelope raw) as [|[id payload]]; [by exists None, s|].
  assert (forall x t, server_ok t -> exists s', (t' ← Server_trigger id x t; Ok (None, t')) = Ok (@None in_put, s') /\
    server_ok s' /\ sv_applyWait s' = sv_applyWait t /\ sv_sm s' = sv_sm t) as Htr.
  { intros x t Ht. destruct (Server_trigger_ok id x t Ht) as (s' & -> & ? & ? & ? & _). by exists s'. }
  destruct (DecodeRequest payload) as [e|req].
  - destruct (Htr (AnyErr e) s Hok) as (s' & -> & ? & ? & Hsm). exists None, s'. by rewrite Hsm.
  - destruct (_ =? CmdPut).
    + destruct (put_server_ok (q_Key req) (q_Value req) s Hok) as (sm & -> & Hok1 & Hv).
      destruct (sm_blocked (q_Key req) sm) eqn:Eb.
      { eexists _, _. split; [done|]. split_and!; try done. by intros p [= <-]. }
      destruct (Htr AnyNil _ Hok1) as (s' & -> & ? & ? & Hsm). exists None, s'. by rewrite Hsm.
    + destruct (Htr (AnyErr (Errorf "unknown command in apply")) s Hok) as (s' & -> & ? & ? & Hsm).
      exists None, s'. by rewrite Hsm.
Qed.

Definition batch_effect (data : list bytes) (view : bytes -> option bytes) : bytes -> option bytes :=
  foldl (fun view raw => entry_effect raw view) view data.

Lemma entry_effect_ext raw v1 v2 : (forall k, v1 k = v2 k) -> forall k, entry_effect raw v1 k = entry_effect raw v2 k.
Proof.
  intros H k. unfold entry_effect. destruct (_ =? 0); [done|]. destruct (unmarshalEnvelope raw) as [|[? payload]]; [done|].
  destruct (DecodeRequest payload) as [|req]; [done|]. destruct (_ =? CmdPut); [|done]. by destruct (decide _).
Qed.

Lemma batch_effect_ext data v1 v2 : (forall k, v1 k = v2 k) -> forall k, batch_effect data v1 k = batch_effect data v2 k.
Proof.
  unfold batch_effect. revert v1 v2. induction data as [|raw data IH]; intros v1 v2 H k; [done|]. simpl.
  apply IH. by apply entry_effect_ext.
Qed.

(** What is left of a batch. *)
Definition left_over (w : option (in_put * list bytes)) : list bytes := match w with Some (_, rest) => rest | None => [] end.

(** The loop does not panic; when it waits, it is in a [PutAsync] that has not returned,
    and the map has the effect of the entries up to that one. *)
Lemma applyLoop_total data s :
  server_ok s -> exists w s' done, Server_applyLoop data s = Ok (w, s') /\ server_ok s' /\
    sv_applyWait s' = sv_applyWait s /\ data = done ++ left_over w /\
    (forall k, sm_view (sv_sm s') k = batch_effect done (sm_view (sv_sm s)) k) /\
    (forall p rest, w = Some (p, rest) -> sm_blocked (ip_key p) (sv_sm s') = true).
Proof.
  revert s. induction data as [|raw l IH]; intros s Hok; [by exists None, s, []|]. simpl.
  destruct (applyEntry_total raw s Hok) as (w & s1 & H1 & Hok1 & Ht1 & Hv1 & Hb1). rewrite H1. simpl.
  destruct w as [p|].
  - exists (Some (p, l)), s1, [raw]. split_and!; try done. intros p' rest [= <- <-]. by apply Hb1.
  - destruct (IH s1 Hok1) as (w & s' & done_ & H' & Hok' & Ht' & Hd & Hv' & Hb'). exists w, s', (raw :: done_).
    split; [done|]. split; [done|]. split; [congruence|]. split; [by rewrite Hd|]. split; [|done].
    intros k. rewrite Hv'. exact (batch_effect_ext done_ _ _ Hv1 k).
Qed.

(** Nobody but the apply loop writes: what the rest of the program does to a server
    meanwhile. *)
Definition meanwhile s s' : Prop := server_ok s' /\ forall k, sm_view (sv_sm s') k = sm_view (sv_sm s) k.

(** A whole batch, with the waits in between. *)
Inductive batch_run : list bytes -> Server SM -> Server SM -> Prop :=
| batch_done data s s' : Server_applyLoop data s = Ok (None, s') -> batch_run data s s'
| batch_waits data s p rest s1 s2 s3 s' :
    Server_applyLoop data s = Ok (Some (p, rest), s1) -> meanwhile s1 s2 -> sm_blocked (ip_key p) (sv_sm s2) = false ->
    Server_trigger (ip_id p) AnyNil s2 = Ok s3 -> batch_run rest s3 s' -> batch_run data s s'.

Lemma batch_effect_app d1 d2 v : batch_effect (d1 ++ d2) v = batch_effect d2 (batch_effect d1 v).
Proof. unfold batch_effect. apply foldl_app. Qed.

Lemma batch_run_effect data s s' :
  batch_run data s s' -> server_ok s ->
  server_ok s' /\ forall k, sm_view (sv_sm s') k = batch_effect data (sm_view (sv_sm s)) k.
Proof.
  induction 1 as [data s s' H|data s p rest s1 s2 s3 s' H [Hok2 Hv2] _ Ht _ IH]; intros Hok;
    destruct (applyLoop_total data s Hok) as (w & s1' & done_ & H' & Hok1 & _ & -> & Hv & _); rewrite H in H';
    injection H' as <- <-.
  - simpl. by rewrite app_nil_r.
  - destruct (Server_trigger_ok (ip_id p) AnyNil s2 Hok2) as (s3' & Ht' & Hok3 & Hsm & _). rewrite Ht in Ht'. injection Ht' as <-.
    destruct (IH Hok3) as [Hok' Hv']. split; [done|]. intros k. rewrite Hv'. simpl. rewrite batch_effect_app.
    apply batch_effect_ext. intros k'. by rewrite Hsm, Hv2.
Qed.

(** The answer of a get once its read is confirmed. *)
Lemma handleGet_spec req s :
  server_ok s -> exists s', server_ok s' /\ (forall k, sm_view (sv_sm s') k = sm_view (sv_sm s) k) /\
    Server_handleGet None req s =
      Ok (match sm_view (sv_sm s) (q_Key req) with
          | Some v => mkResponse StatusOK v 0
          | None => mkResponse StatusNotFound [] 0
          end, s').
Proof.
  intros (Hw & Ht & Hsm). unfold Server_handleGet. destruct (sm_get_spec (q_Key req) (sv_sm s) Hsm) as (sm & -> & Hg & Hv).
  exists (s <| sv_sm := sm |>). split; [by split_and!|]. split; [done|]. by destruct (sm_view (sv_sm s) (q_Key req)).
Qed.

End server_spec.

(** A map of byte strings is a state machine. *)
#[export] Instance map_StateMachine : StateMachine (gmap bytes bytes) := {
  sm_Get := fun k sm => (Ok (sm !! k), sm);
  sm_PutAsync := fun k v sm => (Ok tt, <[ k := v ]> sm);
  sm_blocked := fun _ _ => false
}.

#[export] Instance map_StateMachineSpec : StateMachineSpec (gmap bytes bytes).
Proof.
  refine {| sm_good := fun _ => True; sm_view := fun sm k => sm !! k |}.
  - intros k sm _. by exists sm.
  - intros k v sm _. eexists. split; [done|]. split; [done|]. intros k'. case_decide as H; [subst; apply lookup_insert_eq|].
    by apply lookup_insert_ne.
Defined.
