(* ===== verification/Reads.v ===== *)
(** * Reads: gets next to the apply loop ([server/server.go], [server/handler_kv.go])

    A server as a system of goroutines: [run], which takes read states and batches and
    may wait inside [PutAsync]; handlers of gets, each in a call of [proposeRead]; and
    handlers of puts, which register and propose.  [serve_run] is any interleaving of
    them.  What holds throughout is [serve_inv]; from it follows that a get is answered
    from a state that has every entry up to its read index ([get_reads_applied]). *)

From S2P Require Export Server.

(** ** The goroutines *)

(** [run] is in its [select], or in [PutAsync] inside a batch. *)
Inductive run_at : Type :=
| RunIdle
| RunInPut (ap : toApply) (p : in_put) (rest : list bytes).

(** A handler of a get: the request, the read context, and where [proposeRead] is. *)
Record reading : Type := mkReading {
  rd_req : Request;
  rd_ctx : Z;
  rd_pc : read_pc
}.

Record serving (SM : Type) : Type := mkServing {
  g_s : Server SM;
  g_run : run_at;
  g_reads : gmap nat reading
}.
Arguments mkServing {SM} _ _ _.
Arguments g_s {SM} _.
Arguments g_run {SM} _.
Arguments g_reads {SM} _.

Inductive serve_event : Type :=
| EvReadState (rs : ReadState)              (* [rs := <-readStateC] *)
| EvApply (ap : toApply)                    (* [ap := <-applyc] *)
| EvPutReturned                             (* [PutAsync] returns *)
| EvBackground                              (* work of the state machine's own *)
| EvGet (k : nat) (req : Request)           (* [handleGet] starts, as handler [k] *)
| EvRead (k : nat) (x : read_case)
| EvPut (key value : bytes)                 (* [proposePut] registers *)
| EvPutFailed (id : Z) (e : error).

Section serving.
Context {SM : Type} `{!StateMachine SM} `{!StateMachineSpec SM}.
Implicit Types (s : Server SM) (g : serving SM).

(** [run] after the loop over a batch stopped: the batch is finished, or it waits. *)
Definition Server_afterLoop (ap : toApply) (x : option (in_put * list bytes) * Server SM)
  : res (run_at * Server SM) :=
  match x with
  | (None, s) => s ← Server_onApplied ap s; Ok (RunIdle, s)
  | (Some (p, rest), s) => Ok (RunInPut ap p rest, s)
  end.

Definition Server_onApply (ap : toApply) (s : Server SM) : res (run_at * Server SM) :=
  x ← Server_applyBatch ap s; Server_afterLoop ap x.

Inductive serve_step : serve_event -> serving SM -> serving SM -> Prop :=
| serve_readState rs s s' reads :
    Server_onReadState rs s = Ok s' ->
    serve_step (EvReadState rs) (mkServing s RunIdle reads) (mkServing s' RunIdle reads)
| serve_apply ap s run s' reads :
    Server_onApply ap s = Ok (run, s') ->
    serve_step (EvApply ap) (mkServing s RunIdle reads) (mkServing s' run reads)
| serve_returned ap p rest s x run s' reads :
    sm_blocked (ip_key p) (sv_sm s) = false -> Server_putReturned p rest s = Ok x -> Server_afterLoop ap x = Ok (run, s') ->
    serve_step EvPutReturned (mkServing s (RunInPut ap p rest) reads) (mkServing s' run reads)
| serve_background sm' s run reads :
    sm_good sm' -> (forall k, sm_view sm' k = sm_view (sv_sm s) k) ->
    serve_step EvBackground (mkServing s run reads) (mkServing (s <| sv_sm := sm' |>) run reads)
| serve_get k req s run reads ch rctx b s' :
    reads !! k = None -> Server_proposeRead s = (ch, rctx, b, s') ->
    serve_step (EvGet k req) (mkServing s run reads) (mkServing s' run (<[ k := mkReading req rctx (ReadAsked ch rctx) ]> reads))
| serve_read k x s run reads req rctx pc pc' s' :
    reads !! k = Some (mkReading req rctx pc) -> Server_readStep x pc s = Ok (Some (pc', s')) ->
    serve_step (EvRead k x) (mkServing s run reads) (mkServing s' run (<[ k := mkReading req rctx pc' ]> reads))
| serve_put key value s run reads ch id s' :
    Server_proposePut key value s = Ok (ch, id, s') ->
    serve_step (EvPut key value) (mkServing s run reads) (mkServing s' run reads)
| serve_putFailed id e s run reads s' :
    Server_proposeFailed id e s = Ok s' ->
    serve_step (EvPutFailed id e) (mkServing s run reads) (mkServing s' run reads).

Inductive serve_run (g0 : serving SM) : list serve_event -> serving SM -> Prop :=
| serve_start : serve_run g0 [] g0
| serve_more evs g ev g' : serve_run g0 evs g -> serve_step ev g g' -> serve_run g0 (evs ++ [ev]) g'.

(** ** What the host feeds in *)

Definition fed_by (ev : serve_event) : list bytes := match ev with EvApply ap => ta_data ap | _ => [] end.

(** The data of all batches so far. *)
Definition fed (evs : list serve_event) : list bytes := evs ≫= fed_by.

(** Every batch says how far the log is applied after it. *)
Definition in_order (evs : list serve_event) : Prop :=
  forall pre ap post, evs = pre ++ EvApply ap :: post -> ta_appliedThru ap = len (fed pre) + len (ta_data ap).

Definition unapplied g : list bytes := match g_run g with RunIdle => [] | RunInPut _ _ rest => rest end.

Lemma fed_snoc evs ev : fed (evs ++ [ev]) = fed evs ++ fed_by ev.
Proof. unfold fed. rewrite bind_app. simpl. by rewrite app_nil_r. Qed.

Lemma in_order_app evs evs' : in_order (evs ++ evs') -> in_order evs.
Proof. intros H pre ap post ->. apply (H pre ap (post ++ evs')). by rewrite <- app_assoc. Qed.

(** ** The invariant *)

(** An index that the read state of context [rctx] had. *)
Definition told_index (evs : list serve_event) (rctx i : Z) : Prop :=
  exists rs, EvReadState rs ∈ evs /\ BE_Uint64 (rst_RequestCtx rs) = rctx /\ rst_Index rs = i.

(** [ch] is the channel of the request [rctx] and of no other; what is in it that is an
    index came with a read state of that context. *)
Record channel_of (evs : list serve_event) (rctx : Z) (ch : nat) (w : waitList) : Prop := {
  co_old : (ch < wl_next w)%nat;
  co_id id : wl_m w !! id = Some ch -> id = rctx;
  co_told b i : wl_chans w !! ch = Some b -> AnyIndex i ∈ b -> told_index evs rctx i
}.

(** [c] is a channel that is closed only when [i] has been reached. *)
Definition waits_for (i : Z) (c : waitChan) (tl : timeList) : Prop :=
  match c with
  | Closec => i <= lastTriggerDeadline tl
  | TimeChan ch => (ch < tl_next tl)%nat /\ (ch ∈ tl_closed tl -> i <= lastTriggerDeadline tl) /\
                   forall t, tl_m tl !! t = Some ch -> t = i
  end.

Definition reading_ok (evs : list serve_event) (n : Z) s (r : reading) : Prop :=
  match rd_pc r with
  | ReadAsked ch rctx => rctx = rd_ctx r /\ channel_of evs rctx ch (sv_w s)
  | ReadWaits i c => told_index evs (rd_ctx r) i /\ waits_for i c (sv_applyWait s)
  | ReadReturned i None => told_index evs (rd_ctx r) i /\ i <= n
  | ReadReturned _ (Some _) => True
  end.

(** [done] are the entries that have been applied. *)
Record serve_inv s0 (evs : list serve_event) (done : list bytes) g : Prop := {
  si_ok : server_ok (g_s g);
  si_fed : fed evs = done ++ unapplied g;
  si_view k : sm_view (sv_sm (g_s g)) k = batch_effect done (sm_view (sv_sm s0)) k;
  si_thru : lastTriggerDeadline (sv_applyWait (g_s g)) <= len done;
  si_batch ap p rest : g_run g = RunInPut ap p rest -> ta_appliedThru ap = len (fed evs);
  si_reads k r : g_reads g !! k = Some r -> reading_ok evs (len done) (g_s g) r
}.

(** *** Channels *)

Lemma told_mono evs evs' rctx i : (forall ev, ev ∈ evs -> ev ∈ evs') -> told_index evs rctx i -> told_index evs' rctx i.
Proof. intros H (rs & Hin & ?). exists rs. split; [by apply H|done]. Qed.

Lemma channel_mono evs evs' rctx ch w :
  (forall ev, ev ∈ evs -> ev ∈ evs') -> channel_of evs rctx ch w -> channel_of evs' rctx ch w.
Proof. intros H [H1 H2 H3]. split; [done..|]. intros b i Hb Hi. eapply told_mono; [exact H|by eapply H3]. Qed.

Lemma channel_trigger evs rctx ch id x w w' :
  wait_ok w -> waitList_Trigger id x w = Some w' -> (forall i, x = AnyIndex i -> told_index evs id i) ->
  channel_of evs rctx ch w -> channel_of evs rctx ch w'.
Proof.
  intros Hok Ht Hx [H1 H2 H3]. destruct (wait_ok_Trigger id x w Hok) as (w1 & Ht' & _ & Hm & Hch).
  rewrite Ht in Ht'. injection Ht' as <-. split.
  - replace (wl_next w') with (wl_next w); [done|]. unfold waitList_Trigger, chan_send in Ht.
    destruct (wl_m w !! id) as [c|]; [simpl in Ht; destruct (wl_chans w !! c) as [[]|]; try done|]; by injection Ht as <-.
  - intros j. rewrite Hm. intros [_ Hj]%lookup_delete_Some. by apply H2.
  - intros b i. rewrite Hch. case_bool_decide as Hid; [|by apply H3].
    intros [= <-] Hi%list_elem_of_singleton. rewrite <- (H2 id Hid). by apply Hx.
Qed.

Lemma channel_register evs rctx ch id w : channel_of evs rctx ch w -> channel_of evs rctx ch (waitList_Register id w).2.
Proof.
  intros [H1 H2 H3]. split; simpl.
  - lia.
  - intros j [[_ E]|[_ Hj]]%lookup_insert_Some; [lia|by apply H2].
  - intros b i. rewrite lookup_insert_ne by lia. apply H3.
Qed.

Lemma channel_new evs id w : wait_ok w -> channel_of evs id (wl_next w) (waitList_Register id w).2.
Proof.
  intros (H1 & _ & _). split; simpl.
  - lia.
  - intros j [[E _]|[_ Hj]]%lookup_insert_Some; [done|]. apply H1 in Hj as [_ Hj]. lia.
  - intros b i. rewrite lookup_insert_eq. intros [= <-] Hi. by inversion Hi.
Qed.

Lemma recv_inv ch w v w' :
  chan_recv ch w = Some (v, w') ->
  exists rest, wl_chans w !! ch = Some (v :: rest) /\ w' = w <| wl_chans ::= <[ ch := rest ]> |>.
Proof.
  unfold chan_recv. destruct (wl_chans w !! ch) as [[|x rest]|] eqn:E; try done. intros [= <- <-]. by exists rest.
Qed.

Lemma wait_ok_recv ch w v w' : chan_recv ch w = Some (v, w') -> wait_ok w -> wait_ok w'.
Proof.
  intros (rest & Hch & ->)%recv_inv (H1 & H2 & H3). split_and!; simpl.
  - intros id c Hid. destruct (H1 id c Hid) as [Hb Hlt]. split; [|done].
    rewrite lookup_insert_ne; [done|]. intros <-. by rewrite Hch in Hb.
  - done.
  - intros c b [[<- _]|[_ Hb]]%lookup_insert_Some; [by eapply H3|by eapply H3].
Qed.

Lemma channel_recv evs rctx ch c w v w' :
  chan_recv c w = Some (v, w') -> channel_of evs rctx ch w -> channel_of evs rctx ch w'.
Proof.
  intros (rest & Hch & ->)%recv_inv [H1 H2 H3]. split; simpl; [done..|].
  intros b i [[<- <-]|[_ Hb]]%lookup_insert_Some Hi; [|by eapply H3]. eapply H3; [exact Hch|by right].
Qed.

(** *** Deadlines *)

Lemma waits_Wait i c d tl : time_ok tl -> waits_for i c tl -> waits_for i c (timeList_Wait d tl).2.
Proof.
  intros (H1 & _ & H3) Hw. unfold timeList_Wait. destruct (_ <=? _); [done|].
  destruct (tl_m tl !! d); [done|]. destruct c as [|ch]; [done|]. destruct Hw as (Hn & Hc & Hm). split_and!; simpl.
  - lia.
  - done.
  - intros t [[_ E]|[_ Ht]]%lookup_insert_Some; [lia|by apply Hm].
Qed.

Lemma waits_new i tl : time_ok tl -> waits_for i (timeList_Wait i tl).1 (timeList_Wait i tl).2.
Proof.
  intros (H1 & H2 & H3). unfold timeList_Wait. destruct (Z.leb_spec i (lastTriggerDeadline tl)); [done|].
  destruct (tl_m tl !! i) as [ch|] eqn:E; simpl.
  - destruct (H1 i ch E) as (? & ? & ?). split_and!; [done|done|]. intros t Ht. by eapply H2.
  - split_and!; [lia|intros Hc%H3; lia|]. intros t [[E' _]|[_ Ht]]%lookup_insert_Some; [done|]. apply H1 in Ht. lia.
Qed.

Lemma waits_Trigger i c d tl tl' :
  time_ok tl -> timeList_Trigger d tl = Ok tl' -> lastTriggerDeadline tl <= d -> waits_for i c tl -> waits_for i c tl'.
Proof.
  intros Hok Ht Hd Hw. destruct (time_ok_Trigger d tl Hok) as (tl1 & Ht' & _ & Hl & Hcl). rewrite Ht in Ht'. injection Ht' as <-.
  unfold timeList_Trigger in Ht. destruct (_ || _); [done|]. injection Ht as Ht.
  destruct c as [|ch]; simpl in *; [rewrite Hl; lia|]. destruct Hw as (Hn & Hc & Hm). split_and!.
  - by rewrite <- Ht.
  - rewrite Hcl, Hl. intros [Hin|(t & Htm & Hle)]; [specialize (Hc Hin); lia|]. by rewrite (Hm t Htm) in Hle.
  - intros t. rewrite <- Ht. simpl. intros [Htm _]%map_lookup_filter_Some. by apply Hm.
Qed.

Lemma waits_closed i c tl : waits_for i c tl -> chan_closed c tl = true -> i <= lastTriggerDeadline tl.
Proof.
  destruct c as [|ch]; simpl; [done|]. intros (_ & Hc & _) H%bool_decide_eq_true. by apply Hc.
Qed.

(** *** Steps *)

(** What a step leaves to the handlers that wait. *)
Record handlers_kept (evs : list serve_event) s s' : Prop := {
  hk_channel rctx ch : channel_of evs rctx ch (sv_w s) -> channel_of evs rctx ch (sv_w s');
  hk_waits i c : waits_for i c (sv_applyWait s) -> waits_for i c (sv_applyWait s')
}.

Lemma handlers_kept_trans evs s1 s2 s3 : handlers_kept evs s1 s2 -> handlers_kept evs s2 s3 -> handlers_kept evs s1 s3.
Proof. intros [A1 B1] [A2 B2]. split; auto. Qed.

Lemma reading_kept evs evs' n n' s s' r :
  (forall ev, ev ∈ evs -> ev ∈ evs') -> n <= n' -> handlers_kept evs' s s' ->
  reading_ok evs n s r -> reading_ok evs' n' s' r.
Proof.
  intros Hev Hn [Hc Hw]. unfold reading_ok. destruct (rd_pc r) as [ch rctx|i c|i [e|]]; [| |done|].
  - intros [-> H]. split; [done|]. by apply Hc, (channel_mono evs).
  - intros [Ht H]. split; [by eapply told_mono|by apply Hw].
  - intros [Ht H]. split; [by eapply told_mono|lia].
Qed.

(** [Server_trigger] on a well-formed server, with a value that is no index or an index
    that was told. *)
Lemma trigger_kept evs id x s s' :
  server_ok s -> Server_trigger id x s = Ok s' -> (forall i, x = AnyIndex i -> told_index evs id i) ->
  handlers_kept evs s s' /\ server_ok s' /\ sv_sm s' = sv_sm s /\ sv_applyWait s' = sv_applyWait s.
Proof.
  intros Hok Ht Hx. destruct (Server_trigger_ok id x s Hok) as (s1 & Ht' & Hok' & Hsm & Haw & _).
  rewrite Ht in Ht'. injection Ht' as <-. split_and!; try done. split; [|by rewrite Haw].
  intros rctx ch. unfold Server_trigger in Ht. destruct (waitList_Trigger id x (sv_w s)) as [w|] eqn:E; [|done].
  injection Ht as <-. eapply channel_trigger; [apply Hok|exact E|done].
Qed.

Lemma applyEntry_kept evs raw s w s' :
  server_ok s -> Server_applyEntry raw s = Ok (w, s') -> handlers_kept evs s s'.
Proof.
  intros Hok. assert (handlers_kept evs s s) as Hrefl by done.
  assert (forall id x t, server_ok t -> handlers_kept evs s t -> (forall i, x <> AnyIndex i) ->
    (t' ← Server_trigger id x t; Ok (None, t')) = Ok (w, s') -> handlers_kept evs s s') as Htr.
  { intros id x t Ht Hk Hx (t' & H1 & H2)%bind_Ok. injection H2 as _ <-. eapply handlers_kept_trans; [exact Hk|].
    eapply trigger_kept; [exact Ht|exact H1|]. intros i Hi. by destruct (Hx i). }
  unfold Server_applyEntry. destruct (_ =? 0); [by intros [= _ <-]|].
  destruct (unmarshalEnvelope raw) as [|[id payload]]; [by intros [= _ <-]|].
  destruct (DecodeRequest payload) as [e|req]; [by apply Htr|]. destruct (_ =? CmdPut); [|by apply Htr].
  destruct (put_server_ok (q_Key req) (q_Value req) s Hok) as (sm & -> & Hok1 & _).
  destruct (sm_blocked _ sm); [by intros [= _ <-]|by apply Htr].
Qed.

Lemma applyLoop_kept evs data s w s' :
  server_ok s -> Server_applyLoop data s = Ok (w, s') -> handlers_kept evs s s'.
Proof.
  revert s. induction data as [|raw data IH]; intros s Hok; simpl; [by intros [= _ <-]|].
  intros ([o s1] & H1 & H)%bind_Ok. pose proof (applyEntry_kept evs _ _ _ _ Hok H1) as Hk.
  destruct o as [p|]; [by injection H as _ <-|]. destruct (applyEntry_total raw s Hok) as (o & s2 & H2 & Hok2 & _).
  rewrite H1 in H2. injection H2 as <- <-. eapply handlers_kept_trans; [exact Hk|by apply IH].
Qed.

(** The end of a batch. *)
Lemma onApplied_kept evs ap s s' :
  server_ok s -> Server_onApplied ap s = Ok s' -> lastTriggerDeadline (sv_applyWait s) <= ta_appliedThru ap ->
  handlers_kept evs s s' /\ server_ok s' /\ sv_sm s' = sv_sm s /\
  (lastTriggerDeadline (sv_applyWait s') = lastTriggerDeadline (sv_applyWait s) \/
   lastTriggerDeadline (sv_applyWait s') = ta_appliedThru ap).
Proof.
  intros Hok H Hle. unfold Server_onApplied in H. destruct (0 <? _); [|injection H as <-; split_and!; try done; by left].
  apply bind_Ok in H as (tl & Ht & H). apply bind_Ok in H as ([st e] & _ & H). injection H as <-.
  destruct Hok as (Hw & Htm & Hsm). destruct (time_ok_Trigger (ta_appliedThru ap) _ Htm) as (tl' & Ht' & Hok' & Hl & _).
  rewrite Ht in Ht'. injection Ht' as <-. split_and!; try done; [|by right]. split; [done|]. simpl.
  intros i c. by eapply waits_Trigger.
Qed.

(** [run] goes on with [data], the rest of what it was fed. *)
Lemma loop_inv s0 evs done0 data ap s x run s' reads :
  server_ok s -> (forall k, sm_view (sv_sm s) k = batch_effect done0 (sm_view (sv_sm s0)) k) ->
  lastTriggerDeadline (sv_applyWait s) <= len done0 -> fed evs = done0 ++ data -> ta_appliedThru ap = len (fed evs) ->
  Server_applyLoop data s = Ok x -> Server_afterLoop ap x = Ok (run, s') ->
  (forall k r, reads !! k = Some r -> reading_ok evs (len done0) s r) ->
  exists done, serve_inv s0 evs done (mkServing s' run reads).
Proof.
  intros Hok Hv Ht Hf Hap Hl Ha Hr. destruct (applyLoop_total data s Hok) as (w & s1 & more & Hl' & Hok1 & Haw & -> & Hv1 & _).
  rewrite Hl in Hl'. injection Hl' as ->. pose proof (applyLoop_kept evs _ _ _ _ Hok Hl) as Hk1.
  exists (done0 ++ more). pose proof (len_nonneg more). pose proof (len_nonneg (left_over w)).
  assert (forall k, sm_view (sv_sm s1) k = batch_effect (done0 ++ more) (sm_view (sv_sm s0)) k) as Hv2.
  { intros k. rewrite Hv1, batch_effect_app. by apply batch_effect_ext. }
  rewrite Hf, !len_app in Hap. destruct w as [[p rest]|]; simpl in Ha.
  - injection Ha as <- <-. split; simpl; try done.
    + by rewrite Hf, app_assoc.
    + rewrite Haw, len_app. lia.
    + intros ap' p' rest' [= <- <- <-]. by rewrite Hf, !len_app.
    + intros k r Hk. eapply reading_kept; [done| |exact Hk1|by eapply Hr]. rewrite len_app. lia.
  - apply bind_Ok in Ha as (s2 & Ha & Hs). injection Hs as <- <-. simpl in Hap. rewrite len_nil in Hap.
    destruct (onApplied_kept evs ap s1 s2 Hok1 Ha) as (Hk2 & Hok2 & Hsm & Hlast); [rewrite Haw; lia|].
    split; simpl; try done.
    + rewrite Hf. simpl. by rewrite !app_nil_r.
    + intros k. rewrite Hsm. apply Hv2.
    + rewrite len_app. destruct Hlast as [-> | ->]; [rewrite Haw|]; lia.
    + intros k r Hk. eapply reading_kept; [done| |exact (handlers_kept_trans _ _ _ _ Hk1 Hk2)|by eapply Hr]. rewrite len_app. lia.
Qed.

(** A step that does not touch the state machine. *)
Lemma wait_step_inv s0 evs ev done s run reads s' reads' :
  serve_inv s0 evs done (mkServing s run reads) -> fed_by ev = [] -> server_ok s' ->
  (forall k, sm_view (sv_sm s') k = sm_view (sv_sm s) k) ->
  lastTriggerDeadline (sv_applyWait s') = lastTriggerDeadline (sv_applyWait s) ->
  (forall k r, reads' !! k = Some r -> reading_ok (evs ++ [ev]) (len done) s' r) ->
  serve_inv s0 (evs ++ [ev]) done (mkServing s' run reads').
Proof.
  intros [Hok Hf Hv Ht Hb Hr] He Hok' Hv' Ht' Hr'. split; simpl in *; try done.
  - rewrite fed_snoc, He, app_nil_r. exact Hf.
  - intros k. by rewrite Hv'.
  - by rewrite Ht'.
  - intros ap p rest Hrun. rewrite fed_snoc, He, app_nil_r. by eapply Hb.
Qed.

Lemma elem_snoc {A : Type} (l : list A) (x y : A) : y ∈ l -> y ∈ l ++ [x].
Proof. intros H. apply elem_of_app. by left. Qed.

(** The handlers, when a server step keeps them. *)
Lemma kept_inv s0 evs ev done s run reads s' :
  serve_inv s0 evs done (mkServing s run reads) -> fed_by ev = [] -> server_ok s' ->
  (forall k, sm_view (sv_sm s') k = sm_view (sv_sm s) k) ->
  lastTriggerDeadline (sv_applyWait s') = lastTriggerDeadline (sv_applyWait s) ->
  handlers_kept (evs ++ [ev]) s s' ->
  serve_inv s0 (evs ++ [ev]) done (mkServing s' run reads).
Proof.
  intros Hi He Hok' Hv' Ht' Hk. eapply wait_step_inv; try done. intros k r Hkr.
  eapply reading_kept; [apply elem_snoc|done|exact Hk|]. by eapply (si_reads _ _ _ _ Hi).
Qed.

Lemma readStep_inv s0 evs done k x s run reads req rctx pc pc' s' :
  serve_inv s0 evs done (mkServing s run reads) -> reads !! k = Some (mkReading req rctx pc) ->
  Server_readStep x pc s = Ok (Some (pc', s')) ->
  serve_inv s0 (evs ++ [EvRead k x]) done (mkServing s' run (<[ k := mkReading req rctx pc' ]> reads)).
Proof.
  intros Hi Hk H. pose proof (si_reads _ _ _ _ Hi k _ Hk) as Hrd. pose proof (si_ok _ _ _ _ Hi) as Hok. simpl in Hok, Hrd.
  set (evs' := evs ++ [EvRead k x]).
  assert (forall t, handlers_kept evs' s t -> server_ok t -> sv_sm t = sv_sm s ->
    lastTriggerDeadline (sv_applyWait t) = lastTriggerDeadline (sv_applyWait s) ->
    reading_ok evs' (len done) t (mkReading req rctx pc') ->
    serve_inv s0 evs' done (mkServing t run (<[ k := mkReading req rctx pc' ]> reads))) as Hgo.
  { intros t Hkept Hokt Hsm Hl Hnew. eapply wait_step_inv; try done; [intros j; by rewrite Hsm|].
    intros j r [[<- <-]|[_ Hj]]%lookup_insert_Some; [done|].
    eapply reading_kept; [apply elem_snoc|done|exact Hkept|]. by eapply (si_reads _ _ _ _ Hi). }
  assert (forall id t, Server_trigger id AnyNil s = Ok t -> handlers_kept evs' s t /\ server_ok t /\ sv_sm t = sv_sm s /\
    sv_applyWait t = sv_applyWait s) as Htr by (intros id t Ht; by eapply trigger_kept).
  destruct x, pc; simpl in H; try done.
  - apply bind_Ok in H as (t & Ht & H). injection H as <- <-. destruct (Htr _ _ Ht) as (? & ? & ? & Haw). by apply Hgo; rewrite ?Haw.
  - destruct (chan_recv ch (sv_w s)) as [[v w]|] eqn:Er; [|done]. apply bind_Ok in H as (i & Hv & H).
    unfold Server_waitApplied in H. simpl in H. destruct (timeList_Wait i (sv_applyWait s)) as [c tl] eqn:Ew.
    injection H as <- <-. destruct Hok as (Hw & Ht & Hsm). simpl in Hrd. destruct Hrd as [-> Hch].
    assert (tl = (timeList_Wait i (sv_applyWait s)).2 /\ c = (timeList_Wait i (sv_applyWait s)).1) as [-> ->] by (by rewrite Ew).
    apply Hgo; simpl; try done.
    + split; simpl; [intros r0 c0; by eapply channel_recv|]. intros i0 c0. by apply waits_Wait.
    + split_and!; simpl; [by eapply wait_ok_recv|by apply time_ok_Wait|done].
    + unfold timeList_Wait. destruct (_ <=? _); [done|]. by destruct (tl_m _ !! i).
    + destruct v as [| |j]; try done. injection Hv as ->. apply recv_inv in Er as (rest & Hb & _). split.
      * eapply told_mono; [apply elem_snoc|]. eapply (co_told _ _ _ _ Hch); [exact Hb|by left].
      * by apply waits_new.
  - destruct (chan_closed c (sv_applyWait s)) eqn:Ec; [|done]. injection H as <- <-. apply Hgo; try done.
    destruct Hrd as [Htold Hw]. split; [eapply told_mono; [apply elem_snoc|done]|].
    pose proof (waits_closed _ _ _ Hw Ec). pose proof (si_thru _ _ _ _ Hi). simpl in *. lia.
  - apply bind_Ok in H as (t & Ht & H). injection H as <- <-. destruct (Htr _ _ Ht) as (? & ? & ? & Haw). by apply Hgo; rewrite ?Haw.
  - injection H as <- <-. by apply Hgo.
Qed.

Lemma serve_step_inv s0 evs done ev g g' :
  serve_inv s0 evs done g -> in_order (evs ++ [ev]) -> serve_step ev g g' ->
  exists done', serve_inv s0 (evs ++ [ev]) done' g'.
Proof.
  intros Hi Ho Hst. pose proof (si_ok _ _ _ _ Hi) as Hok. destruct Hst as [rs s s' reads H|ap s run s' reads H
    |ap p rest s x run s' reads Hbl H1 H2|sm' s run reads Hg Hv|k req s run reads ch rctx b s' Hk H
    |k x s run reads req rctx pc pc' s' Hk H|key value s run reads ch id s' H|id e s run reads s' H]; simpl in Hok.
  - exists done. unfold Server_onReadState in H. destruct (_ <? 8); [done|].
    destruct (trigger_kept (evs ++ [EvReadState rs]) _ _ _ _ Hok H) as (? & ? & Hsm & Haw).
    { intros i [= <-]. exists rs. split; [|done]. apply elem_of_app. right. by left. }
    eapply kept_inv; try done; [intros k; by rewrite Hsm|by rewrite Haw].
  - destruct Hi as [_ Hf Hv Ht _ Hr]. simpl in *. rewrite app_nil_r in Hf. apply bind_Ok in H as (x & Hl & Ha).
    eapply (loop_inv s0 _ done (ta_data ap) ap s x); try done.
    + by rewrite fed_snoc, Hf.
    + rewrite (Ho evs ap []) by done. by rewrite fed_snoc, len_app.
    + intros k r Hk. eapply (reading_kept evs _ (len done)); [apply elem_snoc|done|done|by apply (Hr k)].
  - destruct Hi as [_ Hf Hv Ht Hb Hr]. simpl in *. apply bind_Ok in H1 as (s1 & Htr & Hl).
    destruct (trigger_kept (evs ++ [EvPutReturned]) _ _ _ _ Hok Htr) as (Hk & Hok1 & Hsm & Haw); [done|].
    eapply (loop_inv s0 _ done rest ap s1 x); try done.
    + intros k. by rewrite Hsm.
    + by rewrite Haw.
    + by rewrite fed_snoc, app_nil_r.
    + rewrite fed_snoc, app_nil_r. by eapply Hb.
    + intros k r Hkr. eapply (reading_kept evs _ (len done)); [apply elem_snoc|done|exact Hk|by apply (Hr k)].
  - exists done. eapply kept_inv; try done. destruct Hok as (? & ? & _). by split_and!.
  - exists done. unfold Server_proposeRead in H. simpl in H. injection H as <- <- _ <-. destruct Hok as (Hw & Ht & Hsm).
    eapply wait_step_inv; try done; [split_and!; [by apply wait_ok_Register|done..]|].
    intros j r [[<- <-]|[_ Hj]]%lookup_insert_Some; [split; [done|by apply channel_new]|].
    eapply reading_kept; [apply elem_snoc|done| |by eapply (si_reads _ _ _ _ Hi)]. split; [|done].
    intros r0 c0. apply channel_register.
  - exists done. by eapply readStep_inv.
  - exists done. unfold Server_proposePut, Server_nextRequestID in H. simpl in H. destruct Hok as (Hw & Ht & Hsm).
    set (s1 := s <| sv_reqIDGen := _ |> <| sv_w := _ |>) in H.
    assert (server_ok s1) as Hok1 by (split_and!; [by apply wait_ok_Register|done..]).
    assert (handlers_kept (evs ++ [EvPut key value]) s s1) as Hk1 by (split; [intros r0 c0; apply channel_register|done]).
    destruct (EncodeRequest _) as [e|enc]; [|injection H as _ _ <-; by eapply kept_inv].
    apply bind_Ok in H as (s2 & H2 & H). injection H as _ _ <-.
    destruct (trigger_kept (evs ++ [EvPut key value]) _ _ _ _ Hok1 H2) as (Hk2 & Hok2 & Hsm2 & Haw2); [done|].
    eapply kept_inv; try done; [intros k; by rewrite Hsm2|by rewrite Haw2|by eapply handlers_kept_trans].
  - exists done. destruct (trigger_kept (evs ++ [EvPutFailed id e]) _ _ _ _ Hok H) as (? & ? & Hsm & Haw); [done|].
    eapply kept_inv; try done; [intros k; by rewrite Hsm|by rewrite Haw].
Qed.

(** A server before its first batch. *)
Definition serving0 s : serving SM := mkServing s RunIdle ∅.

Lemma serve_run_inv s0 evs g :
  server_ok s0 -> lastTriggerDeadline (sv_applyWait s0) <= 0 -> serve_run (serving0 s0) evs g -> in_order evs ->
  exists done, serve_inv s0 evs done g.
Proof.
  intros Hok Ht Hrun. induction Hrun as [|evs g ev g' _ IH Hst]; intros Ho.
  - exists []. by split.
  - destruct IH as [done Hi]; [by eapply in_order_app|]. by eapply serve_step_inv.
Qed.

(** When [proposeRead] returns without error, the server has applied all entries up to
    the index that the read state of its context had, and the get answers from a state
    with exactly the entries applied so far. *)
Lemma get_reads_applied s0 evs g k req rctx i :
  server_ok s0 -> lastTriggerDeadline (sv_applyWait s0) <= 0 -> serve_run (serving0 s0) evs g -> in_order evs ->
  g_reads g !! k = Some (mkReading req rctx (ReadReturned i None)) ->
  told_index evs rctx i /\ exists done t, fed evs = done ++ unapplied g /\ i <= len done /\
    Server_handleGet None req (g_s g) =
      Ok (match batch_effect done (sm_view (sv_sm s0)) (q_Key req) with
          | Some v => mkResponse StatusOK v 0
          | None => mkResponse StatusNotFound [] 0
          end, t).
Proof.
  intros Hok Ht Hrun Ho Hk. destruct (serve_run_inv s0 evs g Hok Ht Hrun Ho) as [done [Hok' Hf Hv _ _ Hr]].
  destruct (Hr k _ Hk) as [Htold Hi]. split; [done|]. destruct (handleGet_spec req (g_s g) Hok') as (t & _ & _ & Hg).
  exists done, t. split; [done|]. split; [done|]. by rewrite Hg, Hv.
Qed.

End serving.
