(* ===== verification/Conns.v ===== *)
(** * Conns: connections and [Shutdown] ([server/server.go])

    The goroutines of a started server: [acceptLoop], one handler per connection, the
    apply loop [run], [monitorDBHealth], and calls of [Shutdown].  [conns_step] is one
    atomic step of one of them.  Connections have numbers; what a handler does with a
    request is in Server and Session.

    A batch that [run] applies is the list of the shards its puts go to: a put waits in
    [PutAsync] when the channel of its shard is full, until the shard's committer takes a
    request or the database is closed; a committer whose write fails exits, signals
    [FatalErr] and takes nothing any more.

    Every request is answered within its timeout ([proposePut] and [proposeRead] wait
    under one), so a handler at work always has a step.  The stops of the HTTP and gRPC
    servers are taken to return; the stops after the database is closed are in Lifecycle
    and Calls. *)

From S2P Require Export Prelude.

(** [acceptLoop]: in [Accept], with a connection it has not entered in [conns], or with
    one it has not started a handler for. *)
Inductive accept_pc : Type :=
| InAccept
| Accepted (id : nat)
| Entered (id : nat)
| AcceptReturned.

(** A handler: in [Receive], at work on a request, past [handleRequest], and past the
    deletion from [conns]. *)
Inductive handler_pc : Type :=
| Receiving
| Working
| Leaving
| Deleted.

(** [Shutdown]: past the check of [started]; the listener is closed; the context is
    cancelled; in the [select], with whether [done] is closed; past [closeConnections];
    in [wg.Wait]; past the waiting; returned. *)
Inductive shutdown_pc : Type :=
| ShEntered
| ShLnClosed
| ShCancelled
| ShSelect (done : bool)
| ShForced (done : bool)
| ShWaitRun
| ShDrained
| ShReturned.

(** [run]: in the [select], inside a batch, or in the [select] of [putAsync], with the
    shards of the puts that are left. *)
Inductive run_pc : Type :=
| RunSelect
| RunApplying (rest : list nat)
| RunPutting (sh : nat) (rest : list nat)
| RunReturned.

Inductive monitor_pc : Type := MonWaiting | MonShutdown | MonExited.

Record conns_state : Type := mkConns {
  v_started : bool;
  v_ln : bool;                       (* the listener is open *)
  v_next : nat;                      (* the number of the next connection *)
  v_backlog : list nat;              (* connections [Accept] has not returned *)
  v_accept : accept_pc;
  v_conns : gset nat;
  v_open : gset nat;                 (* connections nobody has closed *)
  v_handlers : gmap nat handler_pc;  (* the goroutines [connWg] counts *)
  v_ctxDone : bool;
  v_run : run_pc;
  v_db : bool;                       (* the database is open *)
  v_lateApply : bool;                (* [run] applied a batch to a closed database *)
  v_queued : gmap nat nat;           (* requests in [reqCh], by shard *)
  v_dead : gset nat;                 (* shards whose committer has exited *)
  v_fatal : bool;                    (* [FatalErr] is closed *)
  v_monitor : monitor_pc;
  v_shutdowns : gmap nat shutdown_pc
}.

#[export] Instance eta_conns_state : Eta conns_state := fun v =>
  mkConns (v_started v) (v_ln v) (v_next v) (v_backlog v) (v_accept v) (v_conns v) (v_open v) (v_handlers v) (v_ctxDone v) (v_run v) (v_db v)
    (v_lateApply v) (v_queued v) (v_dead v) (v_fatal v) (v_monitor v) (v_shutdowns v).

(** A server that was just started. *)
Definition conns0 : conns_state :=
  mkConns true true 0 [] InAccept ∅ ∅ ∅ false RunSelect true false ∅ ∅ false MonWaiting ∅.

(** ** acceptLoop and the handlers *)

(** A client connects; the kernel completes connections while the listener is open. *)
Definition client_connects (v : conns_state) : option conns_state :=
  if v_ln v then
    Some (v <| v_next ::= S |> <| v_backlog ::= fun l => l ++ [v_next v] |> <| v_open ::= union {[ v_next v ]} |>)
  else None.

(** One turn of [acceptLoop], in three steps. *)
Definition acceptLoop_step (v : conns_state) : option conns_state :=
  match v_accept v with
  | InAccept =>
      if v_ln v then
        match v_backlog v with
        | id :: rest => Some (v <| v_backlog := rest |> <| v_accept := Accepted id |>)
        | [] => None
        end
      else Some (v <| v_accept := AcceptReturned |>)
  | Accepted id => Some (v <| v_conns ::= union {[ id ]} |> <| v_accept := Entered id |>)
  | Entered id => Some (v <| v_handlers ::= <[ id := Receiving ]> |> <| v_accept := InAccept |>)
  | AcceptReturned => None
  end.

(** [Receive] returns a request; [Receive] fails, because the connection was closed here
    or by the peer, or because of the timeout ([fails]); a request is answered. *)
Definition handler_receives (id : nat) (v : conns_state) : option conns_state :=
  match v_handlers v !! id with
  | Some Receiving => if bool_decide (id ∈ v_open v) then Some (v <| v_handlers ::= <[ id := Working ]> |>) else None
  | _ => None
  end.

Definition handler_fails (id : nat) (fails : bool) (v : conns_state) : option conns_state :=
  match v_handlers v !! id with
  | Some Receiving =>
      if fails || negb (bool_decide (id ∈ v_open v)) then Some (v <| v_handlers ::= <[ id := Leaving ]> |>) else None
  | _ => None
  end.

Definition handler_answers (id : nat) (v : conns_state) : option conns_state :=
  match v_handlers v !! id with
  | Some Working =>
      Some (v <| v_handlers ::= <[ id := if bool_decide (id ∈ v_open v) then Receiving else Leaving ]> |>)
  | _ => None
  end.

(** The end of the goroutine: [delete(s.conns, t)], then [t.Close()]. *)
Definition handler_ends (id : nat) (v : conns_state) : option conns_state :=
  match v_handlers v !! id with
  | Some Leaving => Some (v <| v_conns ::= fun c => c ∖ {[ id ]} |> <| v_handlers ::= <[ id := Deleted ]> |>)
  | Some Deleted => Some (v <| v_open ::= fun o => o ∖ {[ id ]} |> <| v_handlers ::= delete id |>)
  | _ => None
  end.

(** ** run and the committers *)

(** [make(chan *writeRequest, syncBatchSize*2)] *)
Definition reqChSize : nat := 200.

Definition queued (v : conns_state) (sh : nat) : nat := default 0%nat (v_queued v !! sh).

(** The cases of the [select] of [run], the next entry of a batch or its end, and the
    cases of the [select] of [putAsync]. *)
Inductive run_case : Type :=
| CaseApply (shards : list nat)
| CaseDone
| CaseNext
| CaseSent
| CaseStopped.

Definition run_step (x : run_case) (v : conns_state) : option conns_state :=
  match v_run v, x with
  | RunSelect, CaseApply shards => Some (v <| v_run := RunApplying shards |>)
  | RunSelect, CaseDone => if v_ctxDone v then Some (v <| v_run := RunReturned |>) else None
  | RunApplying [], CaseNext => Some (v <| v_run := RunSelect |>)
  | RunApplying (sh :: rest), CaseNext => Some (v <| v_run := RunPutting sh rest |> <| v_lateApply ::= orb (negb (v_db v)) |>)
  | RunPutting sh rest, CaseSent =>
      if Nat.ltb (queued v sh) reqChSize then
        Some (v <| v_queued ::= <[ sh := S (queued v sh) ]> |> <| v_run := RunApplying rest |>)
      else None
  | RunPutting sh rest, CaseStopped => if v_db v then None else Some (v <| v_run := RunApplying rest |>)
  | _, _ => None
  end.

(** The committer of [sh] takes a request. *)
Definition committer_takes (sh : nat) (v : conns_state) : option conns_state :=
  if bool_decide (sh ∈ v_dead v) || negb (v_db v) then None
  else match queued v sh with
       | O => None
       | S n => Some (v <| v_queued ::= <[ sh := n ]> |>)
       end.

(** A write of the committer of [sh] fails; the committer signals and exits. *)
Definition committer_fails (sh : nat) (v : conns_state) : option conns_state :=
  if bool_decide (sh ∈ v_dead v) || negb (v_db v) then None
  else Some (v <| v_dead ::= union {[ sh ]} |> <| v_fatal := true |>).

(** ** Shutdown *)

Definition closeConnections (v : conns_state) : conns_state := v <| v_open ::= fun o => o ∖ v_conns v |>.

(** One step of a call of [Shutdown]; [deadline]: its context is done. *)
Definition Shutdown_step (id : nat) (deadline : bool) (v : conns_state) : option conns_state :=
  match v_shutdowns v !! id with
  | Some ShEntered => Some (v <| v_ln := false |> <| v_open ::= fun o => o ∖ list_to_set (v_backlog v) |>
                              <| v_backlog := [] |> <| v_shutdowns ::= <[ id := ShLnClosed ]> |>)
  | Some ShLnClosed => Some (v <| v_ctxDone := true |> <| v_shutdowns ::= <[ id := ShCancelled ]> |>)
  | Some ShCancelled => Some (v <| v_shutdowns ::= <[ id := ShSelect false ]> |>)
  | Some (ShSelect true) => Some (v <| v_shutdowns ::= <[ id := ShDrained ]> |>)
  | Some (ShSelect false) =>
      if deadline then Some (closeConnections v <| v_shutdowns ::= <[ id := ShForced false ]> |>) else None
  | Some (ShForced true) => Some (v <| v_shutdowns ::= <[ id := ShWaitRun ]> |>)
  | Some (ShForced false) => None
  | Some ShWaitRun =>
      match v_run v with RunReturned => Some (v <| v_shutdowns ::= <[ id := ShDrained ]> |>) | _ => None end
  | Some ShDrained =>
      Some (v <| v_db := false |> <| v_started := false |> <| v_shutdowns ::= <[ id := ShReturned ]> |>)
  | _ => None
  end.

(** The goroutine of a [Shutdown] that closes [done]: [connWg.Wait()] returns when no
    handler is left. *)
Definition Shutdown_wait (id : nat) (v : conns_state) : option conns_state :=
  if bool_decide (v_handlers v = ∅) then
    match v_shutdowns v !! id with
    | Some (ShSelect false) => Some (v <| v_shutdowns ::= <[ id := ShSelect true ]> |>)
    | Some (ShForced false) => Some (v <| v_shutdowns ::= <[ id := ShForced true ]> |>)
    | _ => None
    end
  else None.

(** A new call; it returns [ErrNotStarted] at once if the server is not started. *)
Definition Shutdown_begin (id : nat) (v : conns_state) : option conns_state :=
  match v_shutdowns v !! id with
  | None => Some (v <| v_shutdowns ::= <[ id := if v_started v then ShEntered else ShReturned ]> |>)
  | Some _ => None
  end.

(** [monitorDBHealth] shuts the server down (as call 0) and exits. *)
Definition monitorDBHealth_step (v : conns_state) : option conns_state :=
  match v_monitor v with
  | MonWaiting =>
      if v_fatal v then v ← Shutdown_begin 0 v; Some (v <| v_monitor := MonShutdown |>) else None
  | MonShutdown =>
      match v_shutdowns v !! 0%nat with Some ShReturned => Some (v <| v_monitor := MonExited |>) | _ => None end
  | MonExited => None
  end.

(** ** Steps *)

Inductive conns_action : Type :=
| VConnect
| VAccept
| VRequest (id : nat)
| VFail (id : nat) (fails : bool)
| VAnswer (id : nat)
| VEnd (id : nat)
| VRun (x : run_case)
| VTake (sh : nat)
| VFatal (sh : nat)
| VMonitor
| VShutdown (id : nat)
| VStep (id : nat) (deadline : bool)
| VWait (id : nat).

(** The process is gone once the monitor has exited. *)
Definition conns_step (a : conns_action) (v : conns_state) : option conns_state :=
  match v_monitor v with
  | MonExited => None
  | _ =>
      match a with
      | VConnect => client_connects v
      | VAccept => acceptLoop_step v
      | VRequest id => handler_receives id v
      | VFail id fails => handler_fails id fails v
      | VAnswer id => handler_answers id v
      | VEnd id => handler_ends id v
      | VRun x => run_step x v
      | VTake sh => committer_takes sh v
      | VFatal sh => committer_fails sh v
      | VMonitor => monitorDBHealth_step v
      | VShutdown id => match id with O => None | S _ => Shutdown_begin id v end
      | VStep id deadline => Shutdown_step id deadline v
      | VWait id => Shutdown_wait id v
      end
  end.

Fixpoint conns_run (acts : list conns_action) (v : conns_state) : option conns_state :=
  match acts with
  | [] => Some v
  | a :: acts => v ← conns_step a v; conns_run acts v
  end.

Definition vstep (v v' : conns_state) : Prop := exists a, conns_step a v = Some v'.

(** ** The invariant *)

(** A handler that may still receive is in [conns], so [closeConnections] reaches it. *)
Definition reachable_handlers (v : conns_state) : Prop :=
  forall id pc, v_handlers v !! id = Some pc -> pc <> Deleted -> id ∈ v_conns v.

(** Numbers are not used twice. *)
Definition numbered (v : conns_state) : Prop :=
  (forall id pc, v_handlers v !! id = Some pc -> (id < v_next v)%nat) /\
  (forall id, id ∈ v_backlog v -> (id < v_next v)%nat /\ v_handlers v !! id = None) /\ NoDup (v_backlog v) /\
  match v_accept v with
  | Accepted id | Entered id => (id < v_next v)%nat /\ v_handlers v !! id = None /\ id ∉ v_backlog v
  | _ => True
  end.

(** [Shutdown] has cancelled the context. *)
Definition past_cancel (pc : shutdown_pc) : Prop :=
  match pc with ShEntered | ShLnClosed => False | _ => True end.

Definition cancelled (v : conns_state) : Prop :=
  (v_started v = false -> v_ctxDone v = true) /\
  forall id pc, v_shutdowns v !! id = Some pc -> past_cancel pc -> v_ctxDone v = true.

Record conns_ok (v : conns_state) : Prop := {
  vo_handlers : reachable_handlers v;
  vo_numbered : numbered v;
  vo_entered id : v_accept v = Entered id -> id ∈ v_conns v
}.

Lemma conns_step_alive a v :
  v_monitor v <> MonExited ->
  conns_step a v =
  match a with
  | VConnect => client_connects v | VAccept => acceptLoop_step v | VRequest id => handler_receives id v
  | VFail id fails => handler_fails id fails v | VAnswer id => handler_answers id v | VEnd id => handler_ends id v
  | VRun x => run_step x v | VTake sh => committer_takes sh v | VFatal sh => committer_fails sh v | VMonitor => monitorDBHealth_step v
  | VShutdown id => match id with O => None | S _ => Shutdown_begin id v end
  | VStep id d => Shutdown_step id d v | VWait id => Shutdown_wait id v
  end.
Proof. intros H. unfold conns_step. by destruct (v_monitor v). Qed.

Lemma vstep_alive v v' : vstep v v' -> v_monitor v <> MonExited.
Proof. intros [a H] E. unfold conns_step in H. by rewrite E in H. Qed.

(** A handler moves on. *)
Lemma handler_update_ok id pc pc' (v : conns_state) (f : gset nat -> gset nat) o :
  v_handlers v !! id = Some pc -> conns_ok v ->
  (forall j, j <> id -> j ∈ v_conns v -> j ∈ f (v_conns v)) ->
  (pc' <> Deleted -> pc <> Deleted /\ id ∈ f (v_conns v)) ->
  conns_ok (v <| v_conns ::= f |> <| v_open := o |> <| v_handlers ::= <[ id := pc' ]> |>).
Proof.
  intros Hid [Hh (Hn1 & Hn2 & Hn3 & Hn4) He] Hf Hpc. split; simpl.
  - intros j q. simpl. intros [[<- <-]|[Hj Hq]]%lookup_insert_Some Hd; [by apply Hpc|]. apply Hf; [done|]. by eapply Hh.
  - split_and!; simpl; [| |done|].
    + intros j q [[<- _]|[_ Hq]]%lookup_insert_Some; eauto.
    + intros j Hj. destruct (Hn2 j Hj) as [? Hjn]. split; [done|].
      rewrite lookup_insert_ne; [done|]. intros <-. congruence.
    + destruct (v_accept v) as [|j|j|]; [done| | |done]; destruct Hn4 as (? & Hjn & ?); (split_and!; [done| |done]);
        (rewrite lookup_insert_ne; [done|]; intros <-; congruence).
  - intros j Hj. simpl in Hj. apply Hf; [|by apply He]. intros ->. rewrite Hj in Hn4. destruct Hn4 as (_ & Hjn & _). congruence.
Qed.

Lemma handler_delete_ok id (v : conns_state) o :
  conns_ok v -> conns_ok (v <| v_open := o |> <| v_handlers ::= delete id |>).
Proof.
  intros [Hh (Hn1 & Hn2 & Hn3 & Hn4) He]. split.
  - intros j q. simpl. intros [_ Hq]%lookup_delete_Some. by apply Hh.
  - split_and!; simpl; [| |done|].
    + intros j q [_ Hq]%lookup_delete_Some. eauto.
    + intros j Hj. destruct (Hn2 j Hj) as [? Hjn]. split; [done|]. apply lookup_delete_None. by right.
    + destruct (v_accept v) as [|j|j|]; [done| | |done]; destruct Hn4 as (? & Hjn & ?); (split_and!; [done| |done]);
        apply lookup_delete_None; by right.
  - intros j. simpl. apply He.
Qed.

(** Steps that leave connections and handlers alone. *)
Lemma conns_ok_same (v v' : conns_state) :
  conns_ok v -> v_handlers v' = v_handlers v -> v_conns v' = v_conns v -> v_next v' = v_next v ->
  v_accept v' = v_accept v -> (v_backlog v' = v_backlog v \/ v_backlog v' = []) -> conns_ok v'.
Proof.
  intros [Hh (Hn1 & Hn2 & Hn3 & Hn4) He] Eh Ec En Ea Eb. split.
  - unfold reachable_handlers. by rewrite Eh, Ec.
  - unfold numbered. rewrite Eh, En, Ea. destruct Eb as [-> | ->]; [by split_and!|].
    split_and!; [done|by intros id Hid; inversion Hid|apply NoDup_nil_2|].
    destruct (v_accept v); [done| | |done]; destruct Hn4 as (? & ? & _); split_and!; try done; apply not_elem_of_nil.
  - rewrite Ea, Ec. done.
Qed.

Lemma accept_ok v v' : acceptLoop_step v = Some v' -> conns_ok v -> conns_ok v'.
Proof.
  unfold acceptLoop_step. intros H [Hh (Hn1 & Hn2 & Hn3 & Hn4) He]. destruct (v_accept v) as [|id|id|] eqn:Ea; [..|done].
  - destruct (v_ln v).
    + destruct (v_backlog v) as [|id rest] eqn:Eb; [done|]. injection H as <-. apply NoDup_cons in Hn3 as [Hn3 Hn5].
      split; [done| |done]. split_and!; simpl; try done.
      * intros j Hj. apply Hn2. by right.
      * destruct (Hn2 id) as [? ?]; [by left|]. done.
    + injection H as <-. by split.
  - injection H as <-. split.
    + intros j q Hj Hd. simpl in *. apply elem_of_union. right. by eapply Hh.
    + by split_and!.
    + intros j. simpl. intros [= <-]. set_solver.
  - injection H as <-. destruct Hn4 as (? & ? & Hb). split.
    + intros j q. simpl. intros [[<- <-]|[Hj Hq]]%lookup_insert_Some Hd; [by apply He|by eapply Hh].
    + split_and!; simpl; [| |done|done].
      * intros j q [[<- _]|[_ Hq]]%lookup_insert_Some; eauto.
      * intros j Hj. destruct (Hn2 j Hj). split; [done|]. rewrite lookup_insert_ne; [done|]. by intros <-.
    + done.
Qed.

Lemma connect_ok v v' : client_connects v = Some v' -> conns_ok v -> conns_ok v'.
Proof.
  unfold client_connects. intros H [Hh (Hn1 & Hn2 & Hn3 & Hn4) He]. destruct (v_ln v); [|done]. injection H as <-.
  split; [done| |done]. split_and!; simpl.
  - intros id q Hq. specialize (Hn1 id q Hq). lia.
  - intros id [Hid| ->%list_elem_of_singleton]%elem_of_app; [destruct (Hn2 id Hid); split; [lia|done]|].
    split; [lia|]. apply eq_None_not_Some. intros [q Hq]. specialize (Hn1 _ q Hq). lia.
  - apply NoDup_app. split_and!; [done| |apply NoDup_singleton].
    intros id Hid ->%list_elem_of_singleton. destruct (Hn2 _ Hid). lia.
  - destruct (v_accept v) as [|id|id|]; [done| | |done]; destruct Hn4 as (? & ? & Hb); (split_and!; [lia|done|]);
      rewrite elem_of_app, list_elem_of_singleton; intros [?| ->]; [done|lia|done|lia].
Qed.

Lemma run_step_same x v v' :
  run_step x v = Some v' ->
  v_handlers v' = v_handlers v /\ v_conns v' = v_conns v /\ v_next v' = v_next v /\ v_accept v' = v_accept v /\
  v_backlog v' = v_backlog v /\ v_started v' = v_started v /\ v_shutdowns v' = v_shutdowns v /\ v_ctxDone v' = v_ctxDone v /\
  v_open v' = v_open v /\ v_ln v' = v_ln v /\ v_monitor v' = v_monitor v /\ v_dead v' = v_dead v /\ v_db v' = v_db v.
Proof.
  unfold run_step. intros H. destruct (v_run v) as [|[|sh rest]|sh rest|], x; try done; try (by injection H as <-).
  - destruct (v_ctxDone v) eqn:E; [|done]. by injection H as <-.
  - destruct (Nat.ltb _ _); [|done]. by injection H as <-.
  - destruct (v_db v) eqn:E; [done|]. by injection H as <-.
Qed.

Lemma committer_takes_inv sh v v' :
  committer_takes sh v = Some v' ->
  exists n, sh ∉ v_dead v /\ v_db v = true /\ queued v sh = S n /\ v' = v <| v_queued ::= <[ sh := n ]> |>.
Proof.
  unfold committer_takes. destruct (bool_decide (sh ∈ v_dead v)) eqn:E; [done|]. apply bool_decide_eq_false in E.
  destruct (v_db v); [|done]. simpl. destruct (queued v sh) as [|n]; [done|]. intros [= <-]. by exists n.
Qed.

Lemma vstep_ok v v' : vstep v v' -> conns_ok v -> conns_ok v'.
Proof.
  intros Hv Hok. pose proof (vstep_alive _ _ Hv) as Hm. destruct Hv as [a H'].
  rewrite conns_step_alive in H' by done. clear Hm.
  assert (forall id pc pc', v_handlers v !! id = Some pc -> pc <> Deleted ->
    conns_ok (v <| v_handlers ::= <[ id := pc' ]> |>)) as Hup.
  { intros id pc pc' Hid Hd. apply (handler_update_ok id pc pc' v (fun c => c) (v_open v) Hid Hok); [done|].
    intros _. split; [done|]. by eapply (vo_handlers v Hok). }
  destruct a as [| |id|id fails|id|id|x|sh|sh| |id|id d|id].
  - by eapply connect_ok.
  - by eapply accept_ok.
  - unfold handler_receives in H'. destruct (v_handlers v !! id) as [[]|] eqn:E; try done.
    destruct (bool_decide _); [|done]. injection H' as <-. by eapply Hup.
  - unfold handler_fails in H'. destruct (v_handlers v !! id) as [[]|] eqn:E; try done.
    destruct (_ || _); [|done]. injection H' as <-. by eapply Hup.
  - unfold handler_answers in H'. destruct (v_handlers v !! id) as [[]|] eqn:E; try done.
    injection H' as <-. by eapply Hup.
  - unfold handler_ends in H'. destruct (v_handlers v !! id) as [[]|] eqn:E; try done; injection H' as <-.
    + apply (handler_update_ok id Leaving Deleted v (fun c => c ∖ {[ id ]}) (v_open v) E Hok); [set_solver|done].
    + apply (handler_delete_ok id v (v_open v ∖ {[ id ]}) Hok).
  - destruct (run_step_same x v v' H') as (? & ? & ? & ? & ? & _). apply (conns_ok_same v); try done. by left.
  - apply committer_takes_inv in H' as (n & _ & _ & _ & ->). apply (conns_ok_same v); try done. by left.
  - unfold committer_fails in H'. destruct (_ || _); [done|]. injection H' as <-. apply (conns_ok_same v); try done. by left.
  - unfold monitorDBHealth_step, Shutdown_begin in H'. destruct (v_monitor v); [destruct (v_fatal v); [|done]| |done].
    + destruct (v_shutdowns v !! 0%nat); [done|]. injection H' as <-. apply (conns_ok_same v); try done. by left.
    + destruct (v_shutdowns v !! 0%nat) as [[]|]; try done. injection H' as <-. apply (conns_ok_same v); try done. by left.
  - destruct id; [done|]. unfold Shutdown_begin in H'. destruct (v_shutdowns v !! S id); [done|]. injection H' as <-.
    apply (conns_ok_same v); try done. by left.
  - unfold Shutdown_step in H'. destruct (v_shutdowns v !! id) as [[| | |[]|[]| | |]|]; try done;
      try (destruct d; [|done]); try (destruct (v_run v); try done); injection H' as <-;
      (apply (conns_ok_same v); try done; first [by left|by right]).
  - unfold Shutdown_wait in H'. destruct (bool_decide _); [|done].
    destruct (v_shutdowns v !! id) as [[| | |[]|[]| | |]|]; try done; injection H' as <-;
      (apply (conns_ok_same v); try done; by left).
Qed.

Lemma cancelled_update id pc v v' :
  cancelled v -> v_shutdowns v' = <[ id := pc ]> (v_shutdowns v) -> v_ctxDone v' = v_ctxDone v ->
  (v_started v' = v_started v \/ past_cancel pc) -> (past_cancel pc -> v_ctxDone v = true) -> cancelled v'.
Proof.
  intros [Hst H] Es Ec Est Hpc. split.
  - rewrite Ec. destruct Est as [-> | Hp]; auto.
  - intros j q. rewrite Es, Ec. intros [[<- <-]|[_ Hq]]%lookup_insert_Some Hp; [by apply Hpc|by eapply H].
Qed.

Lemma begin_cancelled id v v' : cancelled v -> Shutdown_begin id v = Some v' -> cancelled v'.
Proof.
  unfold Shutdown_begin. intros Hc H. destruct (v_shutdowns v !! id); [done|]. injection H as <-.
  eapply (cancelled_update id _ v); [done..|by left|]. destruct (v_started v) eqn:E; [done|]. intros _. by apply Hc.
Qed.

(** Once the context is cancelled it stays so, and [Shutdown] cancels it before it waits. *)
Lemma vstep_cancelled v v' : vstep v v' -> cancelled v -> cancelled v'.
Proof.
  intros Hv Hc. pose proof (vstep_alive _ _ Hv) as Hm. destruct Hv as [a H]. rewrite conns_step_alive in H by done.
  assert (v_started v' = v_started v -> v_shutdowns v' = v_shutdowns v -> v_ctxDone v' = v_ctxDone v -> cancelled v')
    as Hsame by (intros Et Es Ec; unfold cancelled; by rewrite Et, Es, Ec).
  destruct a as [| |id|id fails|id|id|x|sh|sh| |id|id d|id].
  - unfold client_connects in H. destruct (v_ln v); [|done]. injection H as <-. by apply Hsame.
  - unfold acceptLoop_step in H. destruct (v_accept v); [destruct (v_ln v); [destruct (v_backlog v); [done|]|]| | |done];
      injection H as <-; by apply Hsame.
  - unfold handler_receives in H. destruct (v_handlers v !! id) as [[]|]; try done.
    destruct (bool_decide _); [|done]. injection H as <-. by apply Hsame.
  - unfold handler_fails in H. destruct (v_handlers v !! id) as [[]|]; try done.
    destruct (_ || _); [|done]. injection H as <-. by apply Hsame.
  - unfold handler_answers in H. destruct (v_handlers v !! id) as [[]|]; try done. injection H as <-. by apply Hsame.
  - unfold handler_ends in H. destruct (v_handlers v !! id) as [[]|]; try done; injection H as <-; by apply Hsame.
  - destruct (run_step_same x v v' H) as (_ & _ & _ & _ & _ & ? & ? & ? & _). by apply Hsame.
  - apply committer_takes_inv in H as (n & _ & _ & _ & ->). by apply Hsame.
  - unfold committer_fails in H. destruct (_ || _); [done|]. injection H as <-. by apply Hsame.
  - unfold monitorDBHealth_step in H. destruct (v_monitor v); [destruct (v_fatal v); [|done]| |done].
    + apply bind_Some in H as (v1 & H1 & [= <-]). exact (begin_cancelled 0 v v1 Hc H1).
    + destruct (v_shutdowns v !! 0%nat) as [[]|]; try done. injection H as <-. by apply Hsame.
  - destruct id; [done|]. by eapply begin_cancelled.
  - unfold Shutdown_step in H. destruct (v_shutdowns v !! id) as [pc|] eqn:E; [|done].
    destruct pc as [| | |[]|[]| | |]; try done; try (destruct d; [|done]);
      try (match type of H with match v_run v with _ => _ end = _ => destruct (v_run v); try done end);
      injection H as <-; try (eapply (cancelled_update id _ v); [done..|by (left + right)|intros _; by apply (proj2 Hc id _ E)]).
    + by eapply (cancelled_update id ShLnClosed v); [done..|left|].
    + by split.
  - unfold Shutdown_wait in H. destruct (bool_decide _); [|done].
    destruct (v_shutdowns v !! id) as [[| | |[]|[]| | |]|] eqn:E; try done; injection H as <-;
      (eapply (cancelled_update id _ v); [done..|by left|intros _; by apply (proj2 Hc id _ E)]).
Qed.

Lemma vsteps_cancelled v v' : rtc vstep v v' -> cancelled v -> cancelled v'.
Proof. induction 1 as [|a b c H _ IH]; [done|]. intros Ha. by eapply IH, vstep_cancelled. Qed.

Lemma queued_insert v sh n sh' :
  queued (v <| v_queued ::= <[ sh := n ]> |>) sh' = if decide (sh = sh') then n else queued v sh'.
Proof.
  unfold queued. simpl. destruct (decide (sh = sh')) as [-> |Hne]; [by rewrite lookup_insert_eq|by rewrite lookup_insert_ne].
Qed.

(** A channel holds no more than its capacity. *)
Definition within (v : conns_state) : Prop := forall sh, (queued v sh <= reqChSize)%nat.

Lemma run_step_within x v v' : run_step x v = Some v' -> within v -> within v'.
Proof.
  unfold run_step. intros H Hw. destruct (v_run v) as [|[|sh rest]|sh rest|], x; try done; try (by injection H as <-).
  - destruct (v_ctxDone v); [|done]. by injection H as <-.
  - destruct (Nat.ltb_spec (queued v sh) reqChSize); [|done]. injection H as <-. intros sh'.
    change (queued (v <| v_queued ::= <[ sh := S (queued v sh) ]> |>) sh' <= reqChSize)%nat. rewrite queued_insert.
    destruct (decide _); [lia|apply Hw].
  - destruct (v_db v); [done|]. by injection H as <-.
Qed.

(** No other step touches a channel. *)
Lemma vstep_within v v' : vstep v v' -> within v -> within v'.
Proof.
  intros Hv Hw. pose proof (vstep_alive _ _ Hv) as Hm. destruct Hv as [a H]. rewrite conns_step_alive in H by done.
  destruct a as [| |id|id fails|id|id|x|sh|sh| |id|id d|id].
  1-6: unfold client_connects, acceptLoop_step, handler_receives, handler_fails, handler_answers, handler_ends in H;
    repeat case_match; simplify_eq; done.
  - by eapply run_step_within.
  - apply committer_takes_inv in H as (n & _ & _ & Hn & ->). intros sh'. rewrite queued_insert.
    destruct (decide _) as [<- |]; [specialize (Hw sh); lia|apply Hw].
  - unfold committer_fails in H. destruct (_ || _); [done|]. by injection H as <-.
  - unfold monitorDBHealth_step, Shutdown_begin in H. destruct (v_monitor v), (v_fatal v), (v_shutdowns v !! 0%nat) as [[]|];
      by simplify_eq/=.
  - destruct id; [done|]. unfold Shutdown_begin in H. destruct (v_shutdowns v !! S id); by simplify_eq.
  - unfold Shutdown_step in H. destruct (v_shutdowns v !! id) as [[| | |[]|[]| | |]|]; try done; try (destruct d; [|done]);
      try (destruct (v_run v); try done); by injection H as <-.
  - unfold Shutdown_wait in H. destruct (bool_decide _); [|done].
    destruct (v_shutdowns v !! id) as [[| | |[]|[]| | |]|]; try done; by injection H as <-.
Qed.

Lemma vsteps_within v v' : rtc vstep v v' -> within v -> within v'.
Proof. induction 1 as [|a b c H _ IH]; [done|]. intros Ha. by eapply IH, vstep_within. Qed.

Lemma conns0_within : within conns0.
Proof. intros sh. unfold queued. simpl. rewrite lookup_empty. simpl. unfold reqChSize. lia. Qed.

Lemma conns0_ok : conns_ok conns0.
Proof.
  split; [by intros id q|split_and!; simpl; try done|done].
  - intros id Hid. by inversion Hid.
  - apply NoDup_nil_2.
Qed.

Lemma vsteps_ok v v' : rtc vstep v v' -> conns_ok v -> conns_ok v'.
Proof. induction 1 as [|a b c H _ IH]; [done|]. intros Ha. by eapply IH, vstep_ok. Qed.

(** ** Ending the handlers *)

(** Every handler that may still receive has its connection closed. *)
Definition all_closed (v : conns_state) : Prop :=
  forall id pc, v_handlers v !! id = Some pc -> pc = Receiving \/ pc = Working -> id ∉ v_open v.

(** What the handler [id] does on a closed connection. *)
Definition finish (id : nat) (pc : handler_pc) : list conns_action :=
  match pc with
  | Receiving => [VFail id false; VEnd id; VEnd id]
  | Working => [VAnswer id; VEnd id; VEnd id]
  | Leaving => [VEnd id; VEnd id]
  | Deleted => [VEnd id]
  end.

(** Everything but connections and handlers is as before. *)
Definition same_control (v v' : conns_state) : Prop :=
  v_ln v' = v_ln v /\ v_accept v' = v_accept v /\ v_ctxDone v' = v_ctxDone v /\ v_run v' = v_run v /\
  v_monitor v' = v_monitor v /\ v_shutdowns v' = v_shutdowns v /\ v_db v' = v_db v /\ v_queued v' = v_queued v /\
  v_dead v' = v_dead v.

Lemma conns_run_app acts1 acts2 v :
  conns_run (acts1 ++ acts2) v = v ← conns_run acts1 v; conns_run acts2 v.
Proof. revert v. induction acts1 as [|a acts IH]; intros v; simpl; [done|]. destruct (conns_step a v); simpl; auto. Qed.

Definition ended (id : nat) (v v' : conns_state) : Prop :=
  v_handlers v' = delete id (v_handlers v) /\ v_open v' ⊆ v_open v /\ same_control v v'.

Lemma end_deleted id v :
  v_monitor v <> MonExited -> v_handlers v !! id = Some Deleted ->
  exists v', conns_run [VEnd id] v = Some v' /\ ended id v v'.
Proof.
  intros Hm Hid. eexists. cbn [conns_run]. rewrite conns_step_alive by done. unfold handler_ends. rewrite Hid.
  split; [reflexivity|]. split_and!; simpl; [done|set_solver|by split_and!].
Qed.

Lemma end_leaving id v :
  v_monitor v <> MonExited -> v_handlers v !! id = Some Leaving ->
  exists v', conns_run [VEnd id; VEnd id] v = Some v' /\ ended id v v'.
Proof.
  intros Hm Hid. set (v1 := v <| v_conns ::= fun c => c ∖ {[ id ]} |> <| v_handlers ::= <[ id := Deleted ]> |>).
  destruct (end_deleted id v1) as (v' & Hr & Hh & Ho & Hc); [done|apply lookup_insert_eq|].
  exists v'. split.
  - change (conns_run [VEnd id; VEnd id] v) with (v ← conns_step (VEnd id) v; conns_run [VEnd id] v).
    rewrite conns_step_alive by done. unfold handler_ends. rewrite Hid. exact Hr.
  - split_and!; [rewrite Hh; simpl; by rewrite delete_insert_eq|done|done].
Qed.

Lemma end_via a id v :
  v_monitor v <> MonExited -> conns_step a v = Some (v <| v_handlers ::= <[ id := Leaving ]> |>) ->
  exists v', conns_run [a; VEnd id; VEnd id] v = Some v' /\ ended id v v'.
Proof.
  intros Hm Ha. set (v1 := v <| v_handlers ::= <[ id := Leaving ]> |>) in *.
  destruct (end_leaving id v1) as (v' & Hr & Hh & Ho & Hc); [done|apply lookup_insert_eq|].
  exists v'. split; [|split_and!; [rewrite Hh; simpl; by rewrite delete_insert_eq|done|done]].
  change (conns_run [a; VEnd id; VEnd id] v) with (v ← conns_step a v; conns_run [VEnd id; VEnd id] v).
  rewrite Ha. exact Hr.
Qed.

Lemma finish_handler id pc v :
  v_monitor v <> MonExited -> all_closed v -> v_handlers v !! id = Some pc ->
  exists v', conns_run (finish id pc) v = Some v' /\ ended id v v'.
Proof.
  intros Hm Hcl Hid. specialize (Hcl id pc Hid). destruct pc; [| |by apply end_leaving|by apply end_deleted].
  - apply end_via; [done|]. rewrite conns_step_alive by done. unfold handler_fails.
    rewrite Hid, bool_decide_false by auto. done.
  - apply end_via; [done|]. rewrite conns_step_alive by done. unfold handler_answers.
    rewrite Hid, bool_decide_false by auto. done.
Qed.

(** Steps that need no client: no connection, request or batch arrives, and neither a peer
    nor a committer fails. *)
Definition own_step (a : conns_action) : bool :=
  match a with
  | VFail _ fails => negb fails
  | VAnswer _ | VEnd _ | VTake _ | VStep _ _ | VWait _ => true
  | VRun x => match x with CaseApply _ => false | _ => true end
  | _ => false
  end.

(** All handlers end, each in at most three steps of its own. *)
Lemma finish_handlers v :
  v_monitor v <> MonExited -> all_closed v ->
  exists acts v', conns_run acts v = Some v' /\ v_handlers v' = ∅ /\ same_control v v' /\
    (length acts <= 3 * size (v_handlers v))%nat /\ forallb own_step acts = true.
Proof.
  remember (size (v_handlers v)) as n eqn:En. revert v En.
  induction n as [|n IH]; intros v En Hm Hcl.
  { exists [], v. split_and!; try done. by apply map_size_empty_iff. }
  destruct (map_choose (v_handlers v)) as (id & pc & Hid).
  { intros E. rewrite E, map_size_empty in En. lia. }
  destruct (finish_handler id pc v Hm Hcl Hid) as (v1 & Hr & Hh & Ho & Hc).
  assert (size (v_handlers v1) = n) as Hn1.
  { rewrite Hh, map_size_delete_Some by (by rewrite Hid). lia. }
  destruct (IH v1) as (acts & v' & Hr' & Hh' & Hc' & Hl & Hown).
  - done.
  - by destruct Hc as (_ & _ & _ & _ & -> & _).
  - intros j q. rewrite Hh. intros [_ Hq]%lookup_delete_Some Hp Hin. by apply (Hcl j q Hq Hp), Ho.
  - exists (finish id pc ++ acts), v'. split_and!; try done.
    + rewrite conns_run_app, Hr. exact Hr'.
    + destruct Hc as (? & ? & ? & ? & ? & ? & ? & ? & ?), Hc' as (? & ? & ? & ? & ? & ? & ? & ? & ?). split_and!; congruence.
    + rewrite length_app. assert (length (finish id pc) <= 3)%nat by (destruct pc; simpl; lia). lia.
    + rewrite forallb_app, Hown. by destruct pc.
Qed.
