(* ===== verification/EngineServer.v ===== *)
(** * EngineServer: the engine as the server's state machine

    [DB] satisfies the contract the server relies on, so what is proved of a server
    over any state machine holds of the server over the storage engine. *)

From S2P Require Export EngineDB Reads.
Local Open Scope Z_scope.

(** The last put to the shard of [k] still waits for room in the channel: its request is
    queued behind the full buffer.  (In a server only the apply loop puts.) *)
Definition db_blocked (k : bytes) (d : DB) : bool :=
  match db_shards d !! getShard k with
  | Some s => syncBatchSize * 2 <? len (s_reqCh s)
  | None => false
  end.

Section machine.
Context (pick : bool).

#[export] Instance DB_StateMachine : StateMachine DB := {
  sm_Get := DB_Get;
  sm_PutAsync := fun k v => DB_PutAsync pick k (Some v);
  sm_blocked := db_blocked
}.

Definition db_good (d : DB) : Prop :=
  List.length (db_shards d) = Z.to_nat numShards /\
  forall i s, db_shards d !! i = Some s -> exists l vals, shard_core s (db_env d) l vals /\ no_zero s.

Definition shard_values (s : shard) (E : Env) : bytes := content (valueFilename (s_wal s)) (env_world E).

Definition db_view (d : DB) (k : bytes) : option bytes :=
  s ← db_shards d !! getShard k; shard_view s (shard_values s (db_env d)) !! k.

Lemma core_values s E l vals : shard_core s E l vals -> vals = shard_values s E.
Proof using. intros [[] _]. done. Qed.

(** Replacing a shard by one whose map is known. *)
Lemma db_update d k s s' :
  db_good d -> db_shards d !! getShard k = Some s ->
  (exists l vals, shard_core s' (db_env d) l vals /\ no_zero s') ->
  let d' := d <| db_shards ::= <[ getShard k := s' ]> |> <| db_env := db_env d |> in
  db_good d' /\
  forall k', db_view d' k' = if decide (getShard k' = getShard k) then shard_view s' (shard_values s' (db_env d)) !! k'
                             else db_view d k'.
Proof using.
  intros [Hlen Hg] Hs Hs' d'.
  assert (db_shards d' !! getShard k = Some s') as Hk
    by (apply list_lookup_insert_eq, lookup_lt_is_Some; by exists s).
  assert (forall i, i <> getShard k -> db_shards d' !! i = db_shards d !! i) as Ho
    by (intros i Hi; by apply list_lookup_insert_ne).
  split.
  - split; [simpl; by rewrite length_insert|]. intros i si Hi. destruct (decide (i = getShard k)) as [->|Hne].
    + rewrite Hk in Hi. by injection Hi as <-.
    + rewrite Ho in Hi by done. by apply (Hg i).
  - intros k'. unfold db_view. case_decide as E; [by rewrite E, Hk|by rewrite Ho].
Qed.

Lemma db_lookup d k : db_good d -> exists s, db_shards d !! getShard k = Some s.
Proof using. intros [Hlen _]. apply lookup_lt_is_Some. rewrite Hlen. apply getShard_lt. Qed.

Lemma DB_get_spec k d :
  db_good d -> exists d', DB_Get k d = (Ok (db_view d k), d') /\ db_good d' /\ forall k', db_view d' k' = db_view d k'.
Proof using.
  intros Hg. destruct (db_lookup d k Hg) as [s Hs]. destruct (proj2 Hg _ _ Hs) as (l & vals & Hc & Hz).
  pose proof (core_values _ _ _ _ Hc) as ->.
  destruct (get_works s (db_env d) l _ k Hc Hz) as (s' & Hrun & Hrd).
  pose proof (core_values _ _ _ _ (rd_core _ _ _ _ _ Hrd)) as Hv. unfold DB_Get.
  rewrite (bind_run _ _ _ _ _ (on_shard_run _ _ _ _ _ _ _ Hs Hrun)). cbn beta iota. eexists. split.
  { unfold mret, M_ret, db_view. rewrite Hs. reflexivity. }
  destruct (db_update d k s s' Hg Hs) as [Hg' Hv']; [destruct Hrd; by do 2 eexists|]. split; [done|].
  intros k'. rewrite Hv'. case_decide as E; [|done]. rewrite <-Hv, (rd_view _ _ _ _ _ Hrd).
  unfold db_view. rewrite E, Hs. done.
Qed.

(** Whether or not the committer will see the write, memory has it. *)
Lemma putAsync_core k v s E l vals :
  shard_core s E l vals -> no_zero s ->
  exists s', shard_putAsync pick k (Some v) (s, E) = (Ok tt, (s', E)) /\ shard_core s' E l vals /\ no_zero s' /\
    shard_view s' vals = <[ k := v ]> (shard_view s vals).
Proof using.
  intros [Hf Hm] Hz. set (s1 := shard_putInternal k v s).
  assert (forall q, shard_core (s1 <| s_reqCh := q |>) E l vals /\ no_zero (s1 <| s_reqCh := q |>) /\
    shard_view (s1 <| s_reqCh := q |>) vals = <[ k := v ]> (shard_view s vals)) as Hq.
  { intros q. pose proof (frame_files _ _ E l vals (putInternal_frame k v s) Hf) as Hf1.
    pose proof (putInternal_mem k v s l Hm) as Hm1. split; [split; [by destruct Hf1; split|by destruct Hm1; split]|].
    split; [exact (putInternal_zero k v s Hz)|]. exact (putInternal_view k v s vals). }
  unfold shard_putAsync, send_req. change (default [] (Some v)) with v.
  erewrite bind_run by reflexivity. cbn beta iota. fold s1.
  destruct (s_stopped s1 && negb (pick && (len (s_reqCh s1) <? syncBatchSize * 2))) eqn:Eb.
  - exists s1. split; [|by specialize (Hq (s_reqCh s1)); destruct s1].
    erewrite bind_run; [reflexivity|]. erewrite bind_run by reflexivity. cbn beta iota zeta. fold s1. by rewrite Eb.
  - exists (s1 <| s_reqCh := (s_reqCh s1 ++ [mkWriteRequest k v None])%list |>). split; [|apply Hq].
    erewrite bind_run; [reflexivity|]. erewrite bind_run by reflexivity. cbn beta iota zeta. fold s1. by rewrite Eb.
Qed.

Lemma DB_put_spec k v d :
  db_good d -> exists d', DB_PutAsync pick k (Some v) d = (Ok tt, d') /\ db_good d' /\
    forall k', db_view d' k' = if decide (k' = k) then Some v else db_view d k'.
Proof using.
  intros Hg. destruct (db_lookup d k Hg) as [s Hs]. destruct (proj2 Hg _ _ Hs) as (l & vals & Hc & Hz).
  pose proof (core_values _ _ _ _ Hc) as Hvals.
  destruct (putAsync_core k v s (db_env d) l vals Hc Hz) as (s' & Hrun & Hc' & Hz' & Hv').
  pose proof (core_values _ _ _ _ Hc') as Hvals'. unfold DB_PutAsync. rewrite (on_shard_run _ _ _ _ _ _ _ Hs Hrun).
  destruct (db_update d k s s' Hg Hs) as [Hg' Hview]; [by exists l, vals|].
  eexists. split; [reflexivity|]. split; [done|]. intros k'. rewrite Hview, <-Hvals', Hv'.
  unfold db_view. case_decide as E1; case_decide as E2; subst; try done.
  - by rewrite lookup_insert_eq.
  - rewrite lookup_insert_ne by congruence. by rewrite E1, Hs.
Qed.

(** A put waits exactly if the buffer of its shard is full and the shard is not stopped. *)
Lemma DB_put_blocks k v d d' s :
  db_shards d !! getShard k = Some s -> len (s_reqCh s) <= syncBatchSize * 2 ->
  DB_PutAsync pick k (Some v) d = (Ok tt, d') ->
  db_blocked k d' = negb (s_stopped s) && (len (s_reqCh s) =? syncBatchSize * 2).
Proof using.
  intros Hs Hle H. unfold DB_PutAsync in H. apply on_shard_inv in H as (s1 & s' & E' & Hs1 & H & ->).
  rewrite Hs in Hs1. injection Hs1 as <-. unfold db_blocked. simpl.
  rewrite list_lookup_insert_eq by (apply lookup_lt_is_Some; by exists s).
  unfold shard_putAsync, send_req in H. erewrite bind_run in H by reflexivity. cbn beta iota in H.
  change (default [] (Some v)) with v in H. set (s1 := shard_putInternal k v s) in H.
  assert (s_reqCh s1 = s_reqCh s /\ s_stopped s1 = s_stopped s) as [E1 E2]
    by (subst s1; unfold shard_putInternal; by destruct (s_data s !! k)).
  clearbody s1. unfold mbind, M_bind, get_s, gets, upd, modify, mret, M_ret in H. rewrite E1, E2 in H.
  destruct (s_stopped s); [destruct (pick && (len (s_reqCh s) <? syncBatchSize * 2)) eqn:E|]; simpl in H; injection H as <- _;
    simpl; rewrite ?E1, ?len_app, ?len_cons; change (len (@nil writeRequest)) with 0.
  - apply andb_true_iff in E as [_ E%Z.ltb_lt]. apply Z.ltb_ge. lia.
  - apply Z.ltb_ge. lia.
  - destruct (Z.eqb_spec (len (s_reqCh s)) (syncBatchSize * 2)); lia.
Qed.

(** The contract. *)
#[export] Instance DB_StateMachineSpec : StateMachineSpec DB := {
  sm_good := db_good;
  sm_view := db_view;
  sm_get_spec := DB_get_spec;
  sm_put_spec := DB_put_spec
}.

End machine.

(** ** Background turns *)

Section background.
Context (IsWindows : bool) {MO : MapOrder}.

Lemma shard_part_lookup h m k i : getShard k = i -> apply_reqs (shard_part i h) m !! k = apply_reqs h m !! k.
Proof using.
  intros Hk. induction h as [|r h IH] using rev_ind; [done|]. unfold shard_part in *. rewrite filter_app, !foldl_app.
  cbn [foldl]. destruct (decide (getShard (wr_key r) = i)) as [Hr|Hr].
  - rewrite filter_cons_True, filter_nil by done. cbn [foldl]. unfold apply_req at 1 3. destruct (decide (wr_key r = k)) as [->|Hne].
    + by rewrite !lookup_insert_eq.
    + rewrite !lookup_insert_ne by done. apply IH.
  - rewrite filter_cons_False, filter_nil by done. cbn [foldl]. unfold apply_req at 2. rewrite lookup_insert_ne by congruence. apply IH.
Qed.

Lemma history_good d0 L V h d : db_history d0 L V h d -> db_good d.
Proof using.
  intros [Hlen Hsh]. split; [done|]. intros i s Hs. destruct (Hsh i s Hs) as (_ & _ & s0 & fl & l & vals & _ & Hh).
  exists l, vals. split; [by apply so_core, Hh|by apply Hh].
Qed.

(** In a run whose writes are all asynchronous, memory has every write. *)
Lemma history_view d0 L V h d :
  db_start d0 L V -> db_history d0 L V h d -> Forall (fun r => is_sync r = false) h ->
  forall k, db_view d k = apply_reqs h (match db_shards d0 !! getShard k with
                                        | Some s0 => shard_view s0 (V (getShard k))
                                        | None => ∅
                                        end) !! k.
Proof using.
  intros Hst Hd Hh k. destruct (db_lookup d k (history_good _ _ _ _ _ Hd)) as [s Hs].
  destruct (dh_shard _ _ _ _ _ Hd _ _ Hs) as (_ & _ & s0 & fl & l & vals & Hs0 & Hi).
  unfold db_view. rewrite Hs, Hs0. cbn [mbind option_bind].
  rewrite <-(core_values _ _ l vals) by (by apply so_core, Hi).
  rewrite (hi_async _ _ _ _ _ _ _ _ Hi) 
    by (apply Forall_forall; intros r [_ Hr]%list_elem_of_filter; by rewrite Forall_forall in Hh; apply Hh).
  by apply shard_part_lookup.
Qed.

(** While a server runs over the engine, a turn of a committer (or a get) is work of the
    state machine's own: no handler sees a difference. *)
Lemma turn_background pick d0 L V h (s : Server DB) run reads d' :
  db_start d0 L V -> db_history d0 L V h (sv_sm s) -> Forall (fun r => is_sync r = false) h ->
  db_step IsWindows (sv_sm s) [] d' ->
  serve_step (StateMachine0:=DB_StateMachine pick) (StateMachineSpec0:=DB_StateMachineSpec pick) EvBackground (mkServing s run reads) (mkServing (s <| sv_sm := d' |>) run reads).
Proof using.
  intros Hst Hd Hh Hstep. pose proof (db_history_step _ _ _ _ _ _ _ _ Hd Hstep) as Hd'. rewrite app_nil_r in Hd'.
  apply serve_background; [by eapply history_good|]. intros k. simpl.
  by rewrite (history_view d0 L V h d'), (history_view d0 L V h (sv_sm s)).
Qed.

End background.
