(* ===== verification/Session.v ===== *)
(** * Session: connections of clients ([server/dispatcher.go], [server/handler_kv.go],
    [server/handler_http.go], [server/handler_grpc.go], [cmd/kv-cli])

    The loop that serves a connection, in the pieces between its blocking points:
    receiving a request, and answering it once [proposeRead] or [proposePut] (Server)
    has ended.  The transport is any [StreamTransport].  The HTTP and gRPC handlers
    and the two commands of the client are below it. *)

From S2P Require Export Server Stream.

(** ** dispatcher.go *)

Section dispatcher.
Context {SM : Type} `{!StateMachine SM} {T : Type} `{!StreamTransport T}.

(** The write timeout is positive ([applyDefaults]), so there is a deadline. *)
Definition writeResponse (setDL flush : option error) (resp : Response) (t : T) : option error * T :=
  match EncodeResponse resp with
  | inl e => (Some e, t)
  | inr payload => st_Send (Some setDL) flush payload t
  end.

Inductive session_state : Type :=
| Receiving
| Getting (req : Request)
| Putting (req : Request)
| Returned.

Record session : Type := mkSession {
  ss_t : T;
  ss_state : session_state
}.

(** A write of the loop itself: the loop returns if it fails. *)
Definition session_write (setDL flush : option error) (resp : Response) (t : T) : session :=
  match writeResponse setDL flush resp t with
  | (None, t) => mkSession t Receiving
  | (Some _, t) => mkSession t Returned
  end.

(** Receiving, decoding and choosing the handler. *)
Definition session_receive (timeout : Z) (setDL writeDL flush : option error) (c : session) : option session :=
  match ss_state c with
  | Receiving =>
      match st_Receive (if 0 <? timeout then Some setDL else None) (ss_t c) with
      | (inl _, t) => Some (mkSession t Returned)
      | (inr payload, t) =>
          match handleRequest payload with
          | Respond resp => Some (session_write writeDL flush resp t)
          | RunGet req => Some (mkSession t (Getting req))
          | RunPut req => Some (mkSession t (Putting req))
          end
      end
  | _ => None
  end.

(** What the loop does with the error of a handler. *)
Definition session_handled (err : option error) (setDL flush : option error) (t : T) : session :=
  match err with
  | None => mkSession t Receiving
  | Some _ => session_write setDL flush (mkResponse StatusError [] 0) t
  end.

(** The outcomes of the writes: of the handler, and of the loop after it failed. *)
Record writes : Type := mkWrites {
  w_setDL : option error;
  w_flush : option error;
  w_setDL' : option error;
  w_flush' : option error
}.

Definition session_get (read : option error) (w : writes) (c : session) (s : Server SM)
  : res (option (session * Server SM)) :=
  match ss_state c with
  | Getting req =>
      '(resp, s) ← Server_handleGet read req s;
      let '(err, t) := writeResponse (w_setDL w) (w_flush w) resp (ss_t c) in
      Ok (Some (session_handled err (w_setDL' w) (w_flush' w) t, s))
  | _ => Ok None
  end.

Definition session_put (put : option error) (w : writes) (c : session) : option session :=
  match ss_state c with
  | Putting req =>
      match put with
      | Some e => Some (session_handled (Some e) (w_setDL' w) (w_flush' w) (ss_t c))
      | None =>
          let '(err, t) := writeResponse (w_setDL w) (w_flush w) (mkResponse StatusOK [] 0) (ss_t c) in
          Some (session_handled err (w_setDL' w) (w_flush' w) t)
      end
  | _ => None
  end.

(** ** cmd/kv-cli: [doGet] and [doPut] *)

Inductive cli_output : Type :=
| PrintValue (v : bytes)
| PrintOK
| PrintNotFound
| PrintServerError
| PrintUnknown (status : Z).

(** The part of [doGet] and [doPut] before the wait, the same in both. *)
Definition cli_send (setDL flush : option error) (req : Request) (t : T) : option error * T :=
  match EncodeRequest req with
  | inl e => (Some (Wrap "encode" e), t)
  | inr payload =>
      let '(e, t) := st_Send (Some setDL) flush payload t in (Wrap "write" <$> e, t)
  end.

Definition cli_receive (setDL : option error) (print : Response -> cli_output) (t : T) : Result cli_output * T :=
  match st_Receive (Some setDL) t with
  | (inl e, t) => (inl (Wrap "read" e), t)
  | (inr payload, t) =>
      (match DecodeResponse payload with
       | inl e => inl (Wrap "decode" e)
       | inr resp => inr (print resp)
       end, t)
  end.

Definition print_get (resp : Response) : cli_output :=
  if p_Status resp =? StatusOK then PrintValue (p_Value resp)
  else if p_Status resp =? StatusNotFound then PrintNotFound
  else if p_Status resp =? StatusError then PrintServerError
  else PrintUnknown (p_Status resp).

Definition print_put (resp : Response) : cli_output :=
  if p_Status resp =? StatusOK then PrintOK
  else if p_Status resp =? StatusError then PrintServerError
  else PrintUnknown (p_Status resp).

Definition doGet_send (setDL flush : option error) (key : bytes) : T -> option error * T :=
  cli_send setDL flush (mkRequest CmdGet key [] 0).
Definition doGet_receive (setDL : option error) : T -> Result cli_output * T := cli_receive setDL print_get.

Definition doPut_send (setDL flush : option error) (key value : bytes) : T -> option error * T :=
  cli_send setDL flush (mkRequest CmdPut key value 0).
Definition doPut_receive (setDL : option error) : T -> Result cli_output * T := cli_receive setDL print_put.

End dispatcher.
Arguments session : clear implicits.

(** ** handler_http.go *)

(** A status and a body: a text of [http.Error], or bytes. *)
Record http_response : Type := mkHttp {
  hr_status : Z;
  hr_body : string + bytes
}.

Definition StatusCode_OK : Z := 200.
Definition StatusCode_NotFound : Z := 404.
Definition StatusCode_RequestEntityTooLarge : Z := 413.
Definition StatusCode_ServiceUnavailable : Z := 503.
Definition StatusCode_GatewayTimeout : Z := 504.

Section http.
Context {SM : Type} `{!StateMachine SM}.

(** [httpGet], given how [proposeRead] ended. *)
Definition Server_httpGet (read : option error) (key : bytes) (s : Server SM) : res (http_response * Server SM) :=
  match read with
  | Some e =>
      Ok (if errors_Is e ErrDeadlineExceeded then mkHttp StatusCode_GatewayTimeout (inl "read timeout"%string)
          else mkHttp StatusCode_ServiceUnavailable (inl "read failed"%string), s)
  | None =>
      match sm_Get key (sv_sm s) with
      | (Panic why, _) => Panic why
      | (Ok None, sm) => Ok (mkHttp StatusCode_NotFound (inl "not found"%string), s <| sv_sm := sm |>)
      | (Ok (Some v), sm) => Ok (mkHttp StatusCode_OK (inr v), s <| sv_sm := sm |>)
      end
  end.

(** [io.ReadAll] of a body of at most [max] bytes; [readErr] is an error of the
    connection after the bytes of [body]. *)
Definition read_body (max : Z) (body : bytes) (readErr : option error) : Result bytes :=
  if max <? len body then inl (Errorf "http: request body too large")
  else match readErr with Some e => inl e | None => inr body end.

(** [httpPut] up to [proposePut]: an answer, or the pair to propose. *)
Definition httpPut_start (maxFrameSize : Z) (key body : bytes) (readErr : option error)
  : http_response + bytes * bytes :=
  match read_body maxFrameSize body readErr with
  | inl _ => inl (mkHttp StatusCode_RequestEntityTooLarge (inl "request body too large"%string))
  | inr value => inr (key, value)
  end.

Definition httpPut_done (put : option error) : http_response :=
  match put with
  | Some _ => mkHttp StatusCode_ServiceUnavailable (inl "write failed"%string)
  | None => mkHttp StatusCode_OK (inr [])
  end.

(** ** handler_grpc.go *)

Inductive grpc_code : Type := GrpcInternal | GrpcNotFound.

Definition grpc_Put (put : option error) : grpc_code + unit :=
  match put with
  | Some _ => inl GrpcInternal
  | None => inr tt
  end.

Definition grpc_Get (read : option error) (key : bytes) (s : Server SM) : res ((grpc_code + bytes) * Server SM) :=
  match read with
  | Some _ => Ok (inl GrpcInternal, s)
  | None =>
      match sm_Get key (sv_sm s) with
      | (Panic why, _) => Panic why
      | (Ok None, sm) => Ok (inl GrpcNotFound, s <| sv_sm := sm |>)
      | (Ok (Some v), sm) => Ok (inr v, s <| sv_sm := sm |>)
      end
  end.

End http.

(** ** An exchange over a connection *)

Section exchange.
Context {T : Type} `{!StreamTransport T} `{!StreamTransportSpec T}.

(** What a transport has written since it was [t]. *)
Definition wrote (t t' : T) : bytes := drop (length (f_out (st_framer t))) (f_out (st_framer t')).

(** An end of a connection that has read all that arrived. *)
Record idle (t : T) : Prop := {
  id_open : st_open t;
  id_in : f_in (st_framer t) = [];
  id_read : f_readDL (st_framer t) = true;
  id_write : f_writeDL (st_framer t) = true;
  id_max : f_maxPayload (st_framer t) < 2 ^ 32
}.

Lemma deliver p a b dl :
  idle a -> idle b -> deadline_set dl true -> 0 < len p -> len p + 4 <= f_maxPayload (st_framer b) ->
  exists a' b', st_Send (Some None) None p a = (None, a') /\ idle a' /\
    f_maxPayload (st_framer a') = f_maxPayload (st_framer a) /\
    st_Receive dl (st_arrive (wrote a a') b) = (inr p, b') /\ idle b' /\
    f_maxPayload (st_framer b') = f_maxPayload (st_framer b) /\ f_out (st_framer b') = f_out (st_framer b).
Proof.
  intros [Ha Hai Har Haw Ham] [Hb Hbi Hbr Hbw Hbm] Hdl Hp Hfit.
  destruct (st_send_spec (Some None) p a Ha) as (frame & a' & Hs & Ha' & Hfr & Hfa); [by rewrite Haw|done|lia|].
  assert (Hw : wrote a a' = PutUint32 (len frame) ++ frame).
  { unfold wrote. rewrite Hfa. unfold set_field. cbn [f_out]. by rewrite drop_app_length. }
  destruct (st_arrive_spec (wrote a a') b Hb) as [Hb1 Hfb].
  destruct (st_receive_spec dl frame p [] (st_arrive (wrote a a') b) Hb1) as (b' & Hr & Hb' & Hfb').
  - rewrite Hfb. unfold set_field. cbn [f_readDL]. by rewrite Hbr.
  - done.
  - done.
  - rewrite Hfb. unfold set_field. cbn [f_maxPayload]. lia.
  - rewrite Hfb. unfold set_field. cbn [f_in]. by rewrite Hbi, Hw, app_nil_r.
  - exists a', b'. split; [done|]. rewrite Hfa, Hfb', Hfb. unfold set_field. cbn [f_maxPayload f_out].
    split; [split; by rewrite ?Hfa|]. split; [done|]. split; [done|]. split; [|done].
    split; by rewrite ?Hfb', ?Hfb.
Qed.

Lemma encode_request_len req b : EncodeRequest req = inr b -> len b = 22 + len (q_Key req) + len (q_Value req).
Proof.
  unfold EncodeRequest. destruct (ensureU32Len _); [done|]. destruct (ensureU32Len _); [done|].
  intros H. apply (inj inr) in H as <-. rewrite !len_app, !len_PutUint8, len_PutUint64, !len_PutUint32. lia.
Qed.

Lemma encode_response resp :
  p_Status resp = StatusOK \/ p_Value resp = [] /\ 0 <= p_Status resp <= statusMaxKnown -> len (p_Value resp) < 2 ^ 32 ->
  exists b, EncodeResponse resp = inr b /\ len b = 13 + len (p_Value resp).
Proof.
  intros Hst Hv. unfold EncodeResponse, ensureU32Len, u32Max. rewrite (proj2 (Z.ltb_ge _ (len _))) by lia.
  assert (statusMaxKnown <? p_Status resp = false) as ->.
  { destruct Hst as [-> | [_ H]]; [done|]. apply Z.ltb_ge; lia. }
  assert (negb (statusCanCarryValue (p_Status resp)) && negb (len (p_Value resp) =? 0) = false) as ->.
  { destruct Hst as [-> | [-> _]]; [done|]. by rewrite andb_false_r. }
  eexists. split; [reflexivity|]. rewrite !len_app, len_PutUint8, len_PutUint64, len_PutUint32. lia.
Qed.

Lemma request_reaches req timeout client server :
  idle client -> idle server -> q_Cmd req = CmdGet \/ q_Cmd req = CmdPut -> q_Seq req = 0 ->
  26 + len (q_Key req) + len (q_Value req) <= f_maxPayload (st_framer server) ->
  exists client1 server1, cli_send None None req client = (None, client1) /\ idle client1 /\
    f_maxPayload (st_framer client1) = f_maxPayload (st_framer client) /\
    session_receive timeout None None None (mkSession (st_arrive (wrote client client1) server) Receiving) =
      Some (mkSession server1 (if q_Cmd req =? CmdGet then Getting req else Putting req)) /\
    idle server1 /\ f_maxPayload (st_framer server1) = f_maxPayload (st_framer server).
Proof.
  intros Hc Hs Hcmd Hseq Hlen. pose proof (id_max _ Hs).
  pose proof (len_nonneg (q_Key req)). pose proof (len_nonneg (q_Value req)).
  destruct (EncodeRequest_total req) as [b Hb]; [lia..|]. pose proof (encode_request_len req b Hb) as Hl.
  assert (request_wf req) as Hwf by (split; [destruct Hcmd as [-> | ->]; done|by rewrite Hseq]).
  pose proof (DecodeRequest_Encode req b Hwf Hb) as Hdec.
  assert (DecodeRequest b = inr req) as Hdec'.
  { rewrite Hdec. destruct req as [cmd k v seq]. cbn in Hseq |- *. subst seq. by destruct (_ =? _). }
  destruct (deliver b client server (if 0 <? timeout then Some None else None)) as (c1 & s1 & Hsend & Hc1 & Hm1 & Hrecv & Hs1 & Hm2 & _);
    [done..|by destruct (0 <? timeout)|lia|lia|].
  exists c1, s1. unfold cli_send, session_receive, handleRequest. rewrite Hb, Hsend. cbn [ss_state ss_t].
  rewrite Hrecv, Hdec'. split; [done|]. split; [done|]. split; [done|]. split; [|done].
  destruct Hcmd as [-> | ->]; done.
Qed.

Lemma response_reaches resp print client server :
  idle client -> idle server ->
  p_Status resp = StatusOK \/ p_Value resp = [] /\ 0 <= p_Status resp <= statusMaxKnown -> p_Seq resp = 0 ->
  17 + len (p_Value resp) <= f_maxPayload (st_framer client) ->
  exists server1 client1, writeResponse None None resp server = (None, server1) /\ idle server1 /\
    cli_receive None print (st_arrive (wrote server server1) client) = (inr (print resp), client1) /\ idle client1.
Proof.
  intros Hc Hs Hst Hseq Hlen. pose proof (id_max _ Hc). pose proof (len_nonneg (p_Value resp)).
  destruct (encode_response resp Hst) as (b & Hb & Hl); [lia|].
  assert (response_wf resp) as Hwf.
  { split; [|by rewrite Hseq]. destruct Hst as [-> | [_ Hst]]; [done|]. unfold statusMaxKnown in Hst. lia. }
  pose proof (DecodeResponse_Encode resp b Hwf Hb) as Hdec.
  destruct (deliver b server client (Some None)) as (s1 & c1 & Hsend & Hs1 & _ & Hrecv & Hc1 & _); [done..|lia|lia|].
  exists s1, c1. unfold writeResponse, cli_receive. rewrite Hb, Hsend, Hrecv, Hdec. done.
Qed.

End exchange.
