(* ===== verification/Config.v ===== *)
(** * Config: options of the server ([server/config.go], [server/server.go],
    [cmd/kv-server/main.go])

    The flags of the command, the list of peers they hold, the options made of them,
    and the addresses the server listens on. *)

From S2P Require Export Segments RaftTransport.
From Stdlib Require Import String Ascii.
Local Open Scope string_scope.
Local Open Scope Z_scope.

(** ** Strings *)

(** [strings.Split] by one character. *)
Fixpoint split (sep : ascii) (s : string) : list string :=
  match s with
  | "" => [""]
  | String c s =>
      if Ascii.eqb c sep then "" :: split sep s
      else match split sep s with
           | [] => [String c ""]
           | x :: xs => String c x :: xs
           end
  end.

(** [strings.SplitN(s, sep, 2)] when it has two parts. *)
Fixpoint cut (sep : ascii) (s : string) : option (string * string) :=
  match s with
  | "" => None
  | String c s =>
      if Ascii.eqb c sep then Some ("", s)
      else '(a, b) ← cut sep s; Some (String c a, b)
  end.

(** [strconv.ParseUint(s, 10, 64)] *)
Fixpoint parse_digits (s : string) (n : Z) : Result Z :=
  match s with
  | "" => inr n
  | String c s =>
      if negb (is_digit c) then inl (Errorf "invalid syntax")
      else
        let n1 := n * 10 + (Z.of_nat (nat_of_ascii c) - 48) in
        if 2 ^ 64 - 1 <? n1 then inl (Errorf "value out of range") else parse_digits s n1
  end.

Definition ParseUint (s : string) : Result Z :=
  if String.eqb s "" then inl (Errorf "invalid syntax") else parse_digits s 0.

(** The notation of a number below 10^20. *)
Fixpoint digits_of (fuel k : nat) (n : Z) : nat :=
  match fuel with
  | O => k
  | S fuel => if n <? 10 ^ Z.of_nat k then k else digits_of fuel (S k) n
  end.

Definition format_uint (n : Z) : string := decimal (digits_of 19 1 n) n.

(** ** cmd/kv-server/main.go *)

Record PeerInfo : Type := mkPeerInfo {
  pi_ID : Z;
  pi_Addr : string
}.

Definition parsePeer (entry : string) : Result PeerInfo :=
  match cut "=" entry with
  | None => inl (Errorf "invalid peer: expected id=host:raftPort")
  | Some (id, raftAddr) =>
      match ParseUint id with
      | inl e => inl (Wrap "invalid peer ID" e)
      | inr id =>
          if String.eqb raftAddr "" then inl (Errorf "invalid peer: address is empty")
          else inr (mkPeerInfo id raftAddr)
      end
  end.

Fixpoint parsePeers_loop (entries : list string) : Result (list PeerInfo) :=
  match entries with
  | [] => inr []
  | entry :: entries =>
      match parsePeer entry with
      | inl e => inl e
      | inr p => match parsePeers_loop entries with inl e => inl e | inr ps => inr (p :: ps) end
      end
  end.

Definition parsePeers (raw : string) : Result (list PeerInfo) :=
  if String.eqb raw "" then inr [] else parsePeers_loop (split "," raw).

Record Options : Type := mkOptions {
  o_ID : Z;
  o_Peers : list PeerInfo;
  o_Protocol : string;
  o_Network : string;
  o_Host : string;
  o_Port : Z;
  o_RaftPort : Z;
  o_RaftListener : bool;     (* a listener was given *)
  o_DataDir : string;
  o_ReadTimeout : Z;
  o_WriteTimeout : Z;
  o_MaxFrameSize : Z;
  o_SyncInterval : Z;
  o_HTTPPort : Z;
  o_GRPCPort : Z;
  o_Logger : bool            (* a logger was given *)
}.

#[export] Instance eta_Options : Eta Options := fun o =>
  mkOptions (o_ID o) (o_Peers o) (o_Protocol o) (o_Network o) (o_Host o) (o_Port o) (o_RaftPort o) (o_RaftListener o)
    (o_DataDir o) (o_ReadTimeout o) (o_WriteTimeout o) (o_MaxFrameSize o) (o_SyncInterval o) (o_HTTPPort o)
    (o_GRPCPort o) (o_Logger o).

Record flags : Type := mkFlags {
  fl_nodeID : Z;
  fl_peersRaw : string;
  fl_raftPort : Z;
  fl_network : string;
  fl_host : string;
  fl_port : Z;
  fl_httpPort : Z;
  fl_grpcPort : Z;
  fl_dataDir : string;
  fl_readTO : Z;
  fl_writeTO : Z;
  fl_maxFrame : Z;
  fl_syncInterval : Z;
  fl_debug : bool
}.

Definition port_range (p : Z) : bool := negb ((p <? 0) || (65535 <? p)).

(** [uint16(p)] *)
Definition uint16 (p : Z) : Z := p mod 2 ^ 16.

(** [main] up to [NewServer]: the exit code, or the options; [mkdir] is the outcome
    of creating the data directory. *)
Definition main_options (mkdir : option error) (f : flags) : Z + Options :=
  if fl_nodeID f =? 0 then inl 2
  else if String.eqb (fl_dataDir f) "" then inl 2
  else
    match mkdir with
    | Some _ => inl 1
    | None =>
        if negb (port_range (fl_port f)) then inl 2
        else if negb (port_range (fl_raftPort f)) then inl 2
        else if negb (port_range (fl_httpPort f)) then inl 2
        else if negb (port_range (fl_grpcPort f)) then inl 2
        else
          match parsePeers (fl_peersRaw f) with
          | inl _ => inl 2
          | inr peers =>
              inr (mkOptions (fl_nodeID f) peers "" (fl_network f) (fl_host f) (uint16 (fl_port f))
                     (uint16 (fl_raftPort f)) false (fl_dataDir f) (fl_readTO f) (fl_writeTO f) (fl_maxFrame f)
                     (fl_syncInterval f) (uint16 (fl_httpPort f)) (uint16 (fl_grpcPort f)) (fl_debug f))
          end
    end.

(** ** config.go *)

Definition defaultHost : string := "127.0.0.1".
Definition NetworkTCP : string := "tcp".
Definition NetworkTCP4 : string := "tcp4".
Definition NetworkTCP6 : string := "tcp6".
Definition NetworkUnix : string := "unix".
Definition defaultNetwork : string := NetworkTCP.

Definition supportedNetworks (n : string) : bool :=
  String.eqb n NetworkTCP || String.eqb n NetworkTCP4 || String.eqb n NetworkTCP6 || String.eqb n NetworkUnix.

Definition defaultReadTimeout : Z := 5 * 10 ^ 9.
Definition defaultWriteTimeout : Z := 5 * 10 ^ 9.
Definition defaultMaxFrameSize : Z := Z.shiftl 16 20.

Definition applyDefaults (o : Options) : Options :=
  let o := if o_ReadTimeout o <=? 0 then o <| o_ReadTimeout := defaultReadTimeout |> else o in
  let o := if o_WriteTimeout o <=? 0 then o <| o_WriteTimeout := defaultWriteTimeout |> else o in
  if o_MaxFrameSize o <=? 0 then o <| o_MaxFrameSize := defaultMaxFrameSize |> else o.

(** ** server.go *)

Definition Options_validate (o : Options) : option error :=
  if String.eqb (o_DataDir o) "" then Some (Errorf "server: DataDir is required")
  else if negb (String.eqb (o_Network o) "") && negb (supportedNetworks (o_Network o)) then
    Some (Errorf "server: unsupported Network")
  else if String.eqb (o_Network o) NetworkUnix && String.eqb (o_Host o) "" then
    Some (Errorf "server: Host (socket path) is required for unix network")
  else if o_ID o =? 0 then Some (Errorf "server: ID cannot be zero")
  else None.

Definition network (o : Options) : string :=
  if String.eqb (o_Network o) "" then defaultNetwork else o_Network o.

(** [fmt.Sprintf("%s:%d", host, port)] *)
Definition host_port (host : string) (port : Z) : string := host ++ ":" ++ format_uint port.

Definition httpHost (o : Options) : string :=
  if String.eqb (o_Host o) "" then defaultHost else o_Host o.

Definition has_bracket (host : string) : bool :=
  match host with String c _ => Ascii.eqb c "[" | "" => false end.

Definition listenAddr (o : Options) : string :=
  if String.eqb (network o) NetworkUnix then o_Host o
  else
    let host := if String.eqb (o_Host o) "" then defaultHost else o_Host o in
    if String.eqb (network o) NetworkTCP6 && negb (String.eqb host "") && negb (has_bracket host) then
      "[" ++ host ++ "]:" ++ format_uint (o_Port o)
    else host_port host (o_Port o).

Definition httpAddr (o : Options) : string := host_port (httpHost o) (o_HTTPPort o).

Definition grpcAddr (o : Options) : string :=
  if String.eqb (o_Host o) "" then host_port defaultHost (o_GRPCPort o) else host_port (o_Host o) (o_GRPCPort o).

(** The configuration [initializeRaftHost] gives the transport. *)
Definition raftListenAddr (o : Options) : string := host_port (o_Host o) (o_RaftPort o).

(** ** Lists of peers *)

Fixpoint has_char (c : ascii) (s : string) : bool :=
  match s with "" => false | String d s => Ascii.eqb d c || has_char c s end.

(** What an operator writes for a list of peers. *)
Definition print_peer (p : PeerInfo) : string := format_uint (pi_ID p) ++ "=" ++ pi_Addr p.

Fixpoint print_peers (ps : list PeerInfo) : string :=
  match ps with
  | [] => ""
  | [p] => print_peer p
  | p :: ps => print_peer p ++ "," ++ print_peers ps
  end.

Definition peer_ok (p : PeerInfo) : Prop := is_u64 (pi_ID p) /\ pi_Addr p <> "" /\ has_char "," (pi_Addr p) = false.

Lemma has_char_app c a b : has_char c (a ++ b) = has_char c a || has_char c b.
Proof. induction a as [|d a IH]; [done|]. simpl. by rewrite IH, orb_assoc. Qed.

Lemma split_whole sep s : has_char sep s = false -> split sep s = [s].
Proof.
  induction s as [|c s IH]; [done|]. simpl. destruct (Ascii.eqb c sep); [done|]. intros H. by rewrite (IH H).
Qed.

Lemma split_first sep a b : has_char sep a = false -> split sep (a ++ String sep b) = a :: split sep b.
Proof.
  induction a as [|c a IH]; simpl; [by rewrite Ascii.eqb_refl|].
  destruct (Ascii.eqb c sep); [done|]. intros H. by rewrite (IH H).
Qed.

Lemma cut_first sep a b : has_char sep a = false -> cut sep (a ++ String sep b) = Some (a, b).
Proof.
  induction a as [|c a IH]; simpl; [by rewrite Ascii.eqb_refl|].
  destruct (Ascii.eqb c sep); [done|]. intros H. by rewrite (IH H).
Qed.

Lemma decimal_no_char c k n : is_digit c = false -> has_char c (decimal k n) = false.
Proof.
  intros Hc. revert n. induction k as [|k IH]; intros n; [done|]. cbn [decimal]. rewrite has_char_app, IH. cbn [orb has_char].
  fold (digit (n mod 10)). pose proof (Z.mod_pos_bound n 10). destruct (Ascii.eqb_spec (digit (n mod 10)) c) as [<-|]; [|done].
  rewrite digit_is_digit in Hc by lia. done.
Qed.

Lemma parse_decimal k n rest acc :
  0 <= n < 10 ^ Z.of_nat k -> 0 <= acc -> acc * 10 ^ Z.of_nat k + n < 2 ^ 64 ->
  parse_digits (decimal k n ++ rest) acc = parse_digits rest (acc * 10 ^ Z.of_nat k + n).
Proof.
  revert n rest. induction k as [|k IH]; intros n rest Hn Hacc Hm.
  { change (10 ^ Z.of_nat 0) with 1 in *. simpl. f_equal. lia. }
  cbn [decimal]. rewrite string_app_assoc. rewrite Nat2Z.inj_succ, Z.pow_succ_r in * by lia.
  pose proof (Z.div_mod n 10). pose proof (Z.mod_pos_bound n 10).
  rewrite IH by lia.
  change (String ?c "" ++ ?r) with (String c r). cbn [parse_digits]. fold (digit (n mod 10)).
  rewrite digit_is_digit, digit_code by lia. cbn [negb].
  rewrite (proj2 (Z.ltb_ge _ _)) by lia. f_equal. lia.
Qed.

Lemma digits_of_spec fuel k n :
  0 <= n < 10 ^ Z.of_nat (k + fuel) -> (0 < k)%nat -> n < 10 ^ Z.of_nat (digits_of fuel k n) /\ (0 < digits_of fuel k n)%nat.
Proof.
  revert k. induction fuel as [|fuel IH]; intros k Hn Hk; [rewrite Nat.add_0_r in Hn; split; [apply Hn|done]|].
  cbn [digits_of]. destruct (n <? 10 ^ Z.of_nat k) eqn:E; to_prop; [done|].
  apply IH; [|lia]. by replace (S k + fuel)%nat with (k + S fuel)%nat by lia.
Qed.

Lemma string_app_nil s : (s ++ "")%string = s.
Proof. induction s as [|c s IH]; [done|]. exact (f_equal (String c) IH). Qed.

Lemma ParseUint_format n : is_u64 n -> ParseUint (format_uint n) = inr n.
Proof.
  intros Hn. unfold is_u64 in Hn. unfold format_uint, ParseUint.
  destruct (digits_of_spec 19 1 n) as [Hd Hk]; [|lia|].
  { change (10 ^ Z.of_nat (1 + 19)) with (10 ^ 20). lia. }
  destruct (String.eqb_spec (decimal (digits_of 19 1 n) n) "") as [E|_].
  { apply (f_equal String.length) in E. rewrite decimal_length in E. change (String.length "") with 0%nat in E. lia. }
  pose proof (parse_decimal (digits_of 19 1 n) n "" 0) as H.
  rewrite string_app_nil in H. rewrite H by lia. done.
Qed.

Lemma parsePeer_print p : peer_ok p -> parsePeer (print_peer p) = inr p.
Proof.
  intros (Hid & Ha & _). unfold parsePeer, print_peer. change ("=" ++ pi_Addr p) with (String "=" (pi_Addr p)).
  rewrite cut_first by (by apply decimal_no_char). rewrite ParseUint_format by done.
  destruct (String.eqb_spec (pi_Addr p) ""); [done|]. by destruct p.
Qed.

Lemma print_peer_no_comma p : peer_ok p -> has_char "," (print_peer p) = false.
Proof.
  intros (_ & _ & H). unfold print_peer, format_uint. rewrite !has_char_app, H, orb_false_r. rewrite decimal_no_char by done. done.
Qed.

Lemma parsePeers_loop_print ps : ps <> [] -> Forall peer_ok ps -> parsePeers_loop (split "," (print_peers ps)) = inr ps.
Proof.
  induction ps as [|p [|q ps] IH]; intros Hne Hok; [done|..].
  - apply Forall_cons in Hok as [Hp _]. cbn [print_peers]. rewrite split_whole by (by apply print_peer_no_comma).
    cbn [parsePeers_loop]. by rewrite parsePeer_print.
  - apply Forall_cons in Hok as [Hp Hok].
    change (print_peers (p :: q :: ps)) with (print_peer p ++ String "," (print_peers (q :: ps))).
    rewrite split_first by (by apply print_peer_no_comma). cbn [parsePeers_loop]. rewrite parsePeer_print by done.
    by rewrite IH.
Qed.

(** What is accepted is in range, and has an address without a comma. *)
Lemma parse_digits_range s n m : parse_digits s n = inr m -> 0 <= n < 2 ^ 64 -> is_u64 m.
Proof.
  revert n. induction s as [|c s IH]; intros n; simpl.
  - intros [= <-]. done.
  - destruct (is_digit c) eqn:Ec; [|done]. cbn [negb]. destruct (_ <? _) eqn:E; [done|]. intros H Hn. to_prop.
    unfold is_digit in Ec. apply andb_true_iff in Ec as [Ec _]. apply Nat.leb_le in Ec. eapply IH; [exact H|]. lia.
Qed.

Lemma split_pieces sep s : Forall (fun x => has_char sep x = false) (split sep s).
Proof.
  induction s as [|c s IH]; simpl; [by repeat constructor|]. destruct (Ascii.eqb c sep) eqn:E; [by constructor|].
  destruct (split sep s) as [|x xs]; [repeat constructor; simpl; by rewrite E|].
  apply Forall_cons in IH as [Hx Hxs]. constructor; [|done]. simpl. by rewrite E.
Qed.

Lemma cut_parts sep s a b : cut sep s = Some (a, b) -> s = a ++ String sep b /\ has_char sep a = false.
Proof.
  revert a. induction s as [|c s IH]; intros a; simpl; [done|]. destruct (Ascii.eqb_spec c sep) as [->|Hne].
  - intros [= <- <-]. done.
  - destruct (cut sep s) as [[a' b']|]; [|done]. cbn. intros [= <- <-]. destruct (IH a' eq_refl) as [-> H].
    split; [done|]. simpl. apply Ascii.eqb_neq in Hne. by rewrite Hne.
Qed.

Lemma parsePeer_ok entry p : has_char "," entry = false -> parsePeer entry = inr p -> peer_ok p.
Proof.
  unfold parsePeer. intros Hc. destruct (cut "=" entry) as [[a b]|] eqn:E; [|done].
  apply cut_parts in E as [-> _]. rewrite has_char_app in Hc. apply orb_false_iff in Hc as [_ Hc]. cbn in Hc.
  destruct (ParseUint a) as [e|id] eqn:Ei; [done|]. destruct (String.eqb_spec b ""); [done|]. intros [= <-].
  split; [|done]. unfold ParseUint in Ei. destruct (String.eqb a ""); [done|]. eapply parse_digits_range; [exact Ei|lia].
Qed.

Lemma parsePeers_ok raw ps : parsePeers raw = inr ps -> Forall peer_ok ps.
Proof.
  unfold parsePeers. destruct (String.eqb raw ""); [intros [= <-]; constructor|].
  pose proof (split_pieces "," raw) as Hp. revert ps. induction Hp as [|x xs Hx Hxs IH]; intros ps; cbn [parsePeers_loop].
  - intros [= <-]. constructor.
  - destruct (parsePeer x) as [|p] eqn:E; [done|]. destruct (parsePeers_loop xs) as [|qs]; [done|]. intros [= <-].
    constructor; [by eapply parsePeer_ok|by apply IH].
Qed.
