(* ===== verification/Bench.v ===== *)
(** * Bench: the benchmark commands ([cmd/kv-bench], [cmd/fsync-bench])

    The load generator: how it divides the requests among its workers, what a worker
    counts, and the report; and the fsync benchmark, what it does to its file and its
    statistics.  Dialing, the
    clock, the random choice of the operation and what arrives on a connection are given
    by the environment.  Times are nanoseconds. *)

From S2P Require Export Session Config.
Local Open Scope string_scope.
Local Open Scope Z_scope.

(** ** kv-bench: requests *)

Record stats : Type := mkStats {
  b_latencies : list Z;
  b_errors : Z
}.

#[export] Instance eta_stats : Eta stats := fun st => mkStats (b_latencies st) (b_errors st).

(** The update of the shared [stats] under its lock. *)
Definition add_stats (lats : list Z) (errs : Z) (st : stats) : stats :=
  mkStats (b_latencies st ++ lats) (b_errors st + errs).

Definition bench_key (i : nat) : bytes := String.list_byte_of_string ("bench:k" ++ format_uint (Z.of_nat i)).

Definition static_byte (i : nat) : byte :=
  default Byte.x00 (Stdlib.Strings.Byte.of_N (97 + N.of_nat i mod 26)).

(** All values are one slice. *)
Definition prepareData (n size : Z) : res (list bytes * list bytes) :=
  if (n <? 0) || (size <? 0) then Panic "makeslice: len out of range"
  else
    let staticVal := static_byte <$> seq 0 (Z.to_nat size) in
    Ok (bench_key <$> seq 0 (Z.to_nat n), replicate (Z.to_nat n) staticVal).

Section workers.
Context {T : Type} `{!StreamTransport T}.

(** One pass of the loop of [runWorker]: [rand.Float64() < *getRatio], the outcomes of
    setting deadlines and flushing, what arrives before [Receive], and the time it took. *)
Record attempt : Type := mkAttempt {
  at_get : bool;
  at_sendDL : option error;
  at_flush : option error;
  at_arrive : T -> T;
  at_recvDL : option error;
  at_elapsed : Z
}.

Definition bench_request (get : bool) (key val : bytes) : Request :=
  if get then mkRequest CmdGet key [] 0 else mkRequest CmdPut key val 0.

(** The end of an attempt: [true] if the response counts as a success. *)
Definition bench_receive (recvDL : option error) (t : T) : bool * T :=
  match st_Receive (Some recvDL) t with
  | (inl _, t) => (false, t)
  | (inr payload, t) =>
      (match DecodeResponse payload with
       | inl _ => false
       | inr resp => negb (p_Status resp =? StatusError)
       end, t)
  end.

Definition runWorker_request (key val : bytes) (a : attempt) (t : T) : option Z * T :=
  match EncodeRequest (bench_request (at_get a) key val) with
  | inl _ => (None, t)
  | inr payload =>
      match st_Send (Some (at_sendDL a)) (at_flush a) payload t with
      | (Some _, t) => (None, t)
      | (None, t) =>
          let '(ok, t) := bench_receive (at_recvDL a) (at_arrive a t) in
          (if ok then Some (at_elapsed a) else None, t)
      end
  end.

(** The loop over keys and values, which are slices of one length. *)
Fixpoint runWorker_loop (kvs : list (bytes * bytes)) (env : nat -> attempt) (i : nat) (t : T) (lats : list Z) (errs : Z)
  : list Z * Z :=
  match kvs with
  | [] => (lats, errs)
  | (key, val) :: kvs =>
      match runWorker_request key val (env i) t with
      | (Some l, t) => runWorker_loop kvs env (S i) t (lats ++ [l]) errs
      | (None, t) => runWorker_loop kvs env (S i) t lats (errs + 1)
      end
  end.

Definition runWorker (dial : Result T) (env : nat -> attempt) (keys values : list bytes) (st : stats) : stats :=
  match dial with
  | inl _ => st <| b_errors ::= Z.add (len keys) |>
  | inr t => let '(lats, errs) := runWorker_loop (zip keys values) env 0 t [] 0 in add_stats lats errs st
  end.

(** *** Pipelined *)

(** The sender and the receiver of a pipelined worker share the transport. *)
Record pipe : Type := mkPipe {
  pp_t : T;
  pp_payloads : list bytes;         (* not yet sent *)
  pp_sendTimes : list Z;            (* zero until sent *)
  pp_sent : nat;
  pp_sendErrs : Z;
  pp_received : nat;
  pp_lats : list Z;
  pp_errs : Z
}.

#[local] Instance eta_pipe : Eta pipe := fun p =>
  mkPipe (pp_t p) (pp_payloads p) (pp_sendTimes p) (pp_sent p) (pp_sendErrs p) (pp_received p) (pp_lats p) (pp_errs p).

(** The requests are encoded first; [None]: one could not be. *)
Fixpoint encode_all (gets : nat -> bool) (i : nat) (kvs : list (bytes * bytes)) : option (list bytes) :=
  match kvs with
  | [] => Some []
  | (key, val) :: kvs =>
      match EncodeRequest (bench_request (gets i) key val) with
      | inl _ => None
      | inr p => ps ← encode_all gets (S i) kvs; Some (p :: ps)
      end
  end.

Definition pipe_send (now : Z) (setDL flush : option error) (p : pipe) : option pipe :=
  match pp_payloads p with
  | [] => None
  | payload :: rest =>
      let '(e, t) := st_Send (Some setDL) flush payload (pp_t p) in
      Some (p <| pp_t := t |> <| pp_payloads := rest |> <| pp_sendTimes ::= <[ pp_sent p := now ]> |>
              <| pp_sent ::= S |> <| pp_sendErrs ::= Z.add (match e with Some _ => 1 | None => 0 end) |>)
  end.

(** [time.Since] saturates. *)
Definition since (now t : Z) : Z := Z.min (now - t) (2 ^ 63 - 1).

(** One pass of the receiver's loop over the [n] keys. *)
Definition pipe_receive (n : nat) (now : Z) (arrive : T -> T) (setDL : option error) (p : pipe) : option pipe :=
  if Nat.ltb (pp_received p) n then
    let '(ok, t) := bench_receive setDL (arrive (pp_t p)) in
    let p := p <| pp_t := t |> in
    if ok then
      Some (p <| pp_lats ::= fun l => (l ++ [since now (default 0 (pp_sendTimes p !! pp_received p))])%list |>
              <| pp_received ::= S |>)
    else Some (p <| pp_errs ::= Z.add 1 |> <| pp_received ::= S |>)
  else None.

Inductive pipe_action : Type :=
| PipeSend (now : Z) (setDL flush : option error)
| PipeReceive (now : Z) (arrive : T -> T) (setDL : option error).

Fixpoint pipe_run (n : nat) (acts : list pipe_action) (p : pipe) : option pipe :=
  match acts with
  | [] => Some p
  | PipeSend now setDL flush :: acts => p ← pipe_send now setDL flush p; pipe_run n acts p
  | PipeReceive now arrive setDL :: acts => p ← pipe_receive n now arrive setDL p; pipe_run n acts p
  end.

(** [None]: the schedule does not finish the two loops. *)
Definition runPipelinedWorker (dial : Result T) (gets : nat -> bool) (acts : list pipe_action) (keys values : list bytes)
  (st : stats) : option stats :=
  match dial with
  | inl _ => Some (st <| b_errors ::= Z.add (len keys) |>)
  | inr t =>
      match encode_all gets 0 (zip keys values) with
      | None => Some (st <| b_errors ::= Z.add (len keys) |>)
      | Some payloads =>
          let n := length keys in
          p ← pipe_run n acts (mkPipe t payloads (replicate n 0) 0 0 0 [] 0);
          if Nat.eqb (pp_sent p) n && Nat.eqb (pp_received p) n
          then Some (add_stats (pp_lats p) (pp_errs p + pp_sendErrs p) st) else None
      end
  end.

End workers.

(** *** gRPC *)

(** What a call of the generated client returned, and the time it took. *)
Fixpoint runGRPCWorker_loop (keys : list bytes) (call : nat -> option error) (elapsed : nat -> Z) (i : nat)
  (lats : list Z) (errs : Z) : list Z * Z :=
  match keys with
  | [] => (lats, errs)
  | _ :: keys =>
      match call i with
      | Some _ => runGRPCWorker_loop keys call elapsed (S i) lats (errs + 1)
      | None => runGRPCWorker_loop keys call elapsed (S i) (lats ++ [elapsed i])%list errs
      end
  end.

Definition runGRPCWorker (call : nat -> option error) (elapsed : nat -> Z) (keys : list bytes) (st : stats) : stats :=
  let '(lats, errs) := runGRPCWorker_loop keys call elapsed 0 [] 0 in add_stats lats errs st.

(** ** kv-bench: the report *)

Definition min64 (a b : Z) : Z := if a <? b then a else b.

Definition at_index (l : list Z) (i : Z) : res Z :=
  match index l i with Some x => Ok x | None => Panic "index out of range" end.

(** The literals [0.99] and [0.999]: the nearest floats. *)
Definition lit099 : SpecFloat.spec_float := SpecFloat.SFdiv 53 1024 (f64 99) (f64 100).
Definition lit0999 : SpecFloat.spec_float := SpecFloat.SFdiv 53 1024 (f64 999) (f64 1000).

(** [int64(float64(n) * q)] *)
Definition scaled (n : Z) (q : SpecFloat.spec_float) : Z := float_int (SpecFloat.SFmul 53 1024 (f64 n) q).

(** A sum of durations, in 64 bits. *)
Definition sum_durations (lats : list Z) : Z := foldl (fun sum l => int64 (sum + l)) 0 lats.

Record results : Type := mkResults {
  rp_total : Z;
  rp_warmup : Z;
  rp_errors : Z;
  rp_min : Z;
  rp_avg : Z;
  rp_max : Z;
  rp_p50 : Z;
  rp_p99 : Z;
  rp_p999 : Z
}.

Inductive report : Type :=
| NoSuccess (errors : Z)
| AllWarmup
| Results (r : results).

(** What is printed, without the duration and the throughput. *)
Definition printReport (warmup : Z) (st : stats) : res report :=
  let latencies := merge_sort Z.le (b_latencies st) in
  let total := len latencies in
  if total =? 0 then Ok (NoSuccess (b_errors st))
  else
    let warmupCount := if total <=? warmup then 0 else warmup in
    if warmupCount <? 0 then Panic "slice bounds out of range"
    else
      let lats := slice_from latencies warmupCount in
      let n := len lats in
      if n =? 0 then Ok AllWarmup
      else
        let avg := Z.quot (sum_durations lats) n in
        min ← at_index lats 0;
        max ← at_index lats (n - 1);
        p50 ← at_index lats (n / 2);
        p99 ← at_index lats (min64 (scaled n lit099) (n - 1));
        p999 ← at_index lats (min64 (scaled n lit0999) (n - 1));
        Ok (Results (mkResults total warmupCount (b_errors st) min avg max p50 p99 p999)).

(** ** kv-bench: [main] *)

Definition getRatio_ok (getRatio : SpecFloat.spec_float) : bool :=
  negb (SpecFloat.SFltb getRatio (f64 0) || SpecFloat.SFltb (f64 1) getRatio).

(** The keys of each worker. *)
Definition bench_ranges (totalReqs concurrency : Z) : res (list (Z * Z)) :=
  if concurrency =? 0 then Panic "integer divide by zero"
  else
    let reqsPerWorker := Z.quot totalReqs concurrency in
    Ok ((fun i : nat =>
           let startIdx := Z.of_nat i * reqsPerWorker in
           (startIdx, if Z.of_nat i =? concurrency - 1 then totalReqs else startIdx + reqsPerWorker))
        <$> seq 0 (Z.to_nat concurrency)).

(** What the goroutine [i] runs, without [-pipeline]; what it meets depends on [i]. *)
Inductive bench_mode (T : Type) : Type :=
| Plain (dial : nat -> Result T) (env : nat -> nat -> @attempt T)
| OverGRPC (call : nat -> nat -> option error) (elapsed : nat -> nat -> Z).
Arguments Plain {T} dial env.
Arguments OverGRPC {T} call elapsed.

Definition bench_worker {T : Type} `{!StreamTransport T} (m : bench_mode T) (i : nat) (keys values : list bytes) (st : stats)
  : stats :=
  match m with
  | Plain dial env => runWorker (dial i) (env i) keys values st
  | OverGRPC call elapsed => runGRPCWorker (call i) (elapsed i) keys st
  end.

(** [order]: the order in which the workers take the lock of [stats]. *)
Definition bench_workers (worker : nat -> list bytes -> list bytes -> stats -> stats) (keys values : list bytes)
  (ranges : list (Z * Z)) (order : list nat) : stats :=
  foldl (fun st i =>
    match ranges !! i with
    | Some (s, e) => worker i (slice keys s e) (slice values s e) st
    | None => st
    end) (mkStats [] 0) order.

Definition bench_main (getRatio : SpecFloat.spec_float) (totalReqs concurrency valueSize warmup : Z)
  (worker : nat -> list bytes -> list bytes -> stats -> stats) (order : list nat) : res (option report) :=
  if negb (getRatio_ok getRatio) then Ok None
  else
    '(keys, values) ← prepareData totalReqs valueSize;
    ranges ← bench_ranges totalReqs concurrency;
    r ← printReport warmup (bench_workers worker keys values ranges order);
    Ok (Some r).

(** ** fsync-bench *)

Definition fsync_sizes : list Z := [100; 1024; 4096; 16384].
Definition iterations : nat := 100.

(** [if l[i] > l[j] { l[i], l[j] = l[j], l[i] }] *)
Definition exchange (i : nat) (l : list Z) (j : nat) : list Z :=
  match l !! i, l !! j with
  | Some x, Some y => if y <? x then <[ i := y ]> (<[ j := x ]> l) else l
  | _, _ => l
  end.

Definition sort_pass (l : list Z) (i : nat) : list Z := foldl (exchange i) l (seq (S i) (length l - S i)).
Definition sortedLats (l : list Z) : list Z := foldl sort_pass l (seq 0 (length l)).

Record fsync_stats : Type := mkFsync {
  fs_min : Z;
  fs_max : Z;
  fs_avg : Z;
  fs_p50 : Z;
  fs_p99 : Z
}.

(** The statistics of one write size. *)
Definition fsync_report (latencies : list Z) : res fsync_stats :=
  l0 ← at_index latencies 0;
  let '(min, max) := foldl (fun '(min, max) lat =>
    (if lat <? min then lat else min, if max <? lat then lat else max)) (l0, l0) latencies in
  let avg := Z.quot (sum_durations latencies) (len latencies) in
  let sorted := sortedLats latencies in
  p50 ← at_index sorted (len sorted / 2);
  p99 ← at_index sorted (scaled (len sorted) lit099);
  Ok (mkFsync min max avg p50 p99).

(** What the command does to its file. *)
Inductive file_op : Type :=
| FileOpen
| FileWrite (data : bytes)
| FileSync
| FileClose
| FileRemove.

(** [data[i] = byte(i % 256)] *)
Definition fsync_data (size : Z) : bytes :=
  (fun i => coqutil.Byte.byte.of_Z (Z.of_nat i mod 256)) <$> seq 0 (Z.to_nat size).

(** [n] times a write and a sync. *)
Definition synced_writes (n : nat) (data : bytes) : list file_op := concat (replicate n [FileWrite data; FileSync]).

(** One write size, once the file is open; [clock] gives the time each write took. *)
Definition fsync_round (clock : nat -> Z) (size : Z) : list file_op * res fsync_stats :=
  let data := fsync_data size in
  ((FileOpen :: synced_writes 10 data ++ synced_writes iterations data ++ [FileClose; FileRemove])%list,
   fsync_report (clock <$> seq 0 iterations)).

(** The loop over the sizes: what is done to the file, the reports printed, and the error
    of an [OpenFile] that failed, which ends the program. *)
Fixpoint fsync_rounds (openFile : Z -> option error) (clock : Z -> nat -> Z) (sizes : list Z)
  : list file_op * res (list (Z * fsync_stats) * option error) :=
  match sizes with
  | [] => ([], Ok ([], None))
  | size :: sizes =>
      match openFile size with
      | Some e => ([], Ok ([], Some e))
      | None =>
          let '(ops, r) := fsync_round (clock size) size in
          match r with
          | Panic why => (ops, Panic why)
          | Ok st =>
              let '(ops', rest) := fsync_rounds openFile clock sizes in
              ((ops ++ ops')%list, '(l, e) ← rest; Ok ((size, st) :: l, e))
          end
      end
  end.

Definition fsync_main (openFile : Z -> option error) (clock : Z -> nat -> Z)
  : list file_op * res (list (Z * fsync_stats) * option error) :=
  fsync_rounds openFile clock fsync_sizes.
