(* ===== verification/Lifecycle.v ===== *)
(** * Lifecycle: creating, starting and stopping a server ([server/server.go],
    [server/lock.go], [server/lock_unix.go], [server/lock_windows.go])

    Which resources a server holds: the lock of the data directory, the database, the
    listeners, the Raft transport and host.  The outcome of acquiring each is an
    input.  A directory shows what several servers on one data directory do to each
    other, given that the operating system grants the lock to one of them. *)

From S2P Require Export Config.
Local Open Scope string_scope.
Local Open Scope Z_scope.

Definition ErrAlreadyStarted : error := Errorf "server: already started".
Definition ErrNotStarted : error := Errorf "server: not started".
Definition ErrDBInUse : error := Errorf "server: database is already in use".
Definition errLockBusy : error := Errorf "server: lock busy".

(** ** lock_unix.go, lock_windows.go *)

(** [syscall.EWOULDBLOCK] and [windows.ERROR_LOCK_VIOLATION]. *)
Definition EWOULDBLOCK : error := Errorf "resource temporarily unavailable".
Definition ERROR_LOCK_VIOLATION : error := Errorf "another process has locked a portion of the file".

(** [lockFile] of lock_unix.go, given the outcome of [syscall.Flock]. *)
Definition lockFile_unix (flock : option error) : option error :=
  match flock with
  | Some e => if errors_Is e EWOULDBLOCK then Some errLockBusy else Some e
  | None => None
  end.

(** [lockFile] of lock_windows.go, given the outcome of [windows.LockFileEx]. *)
Definition lockFile_windows (lockFileEx : option error) : option error :=
  if decide (lockFileEx = Some ERROR_LOCK_VIOLATION) then Some errLockBusy else lockFileEx.

(** [unlockFile], the outcome of [syscall.Flock] or [windows.UnlockFileEx]. *)
Definition unlockFile (call : option error) : option error := call.

Definition lockFile (IsWindows : bool) (call : option error) : option error :=
  if IsWindows then lockFile_windows call else lockFile_unix call.

(** ** lock.go *)

(** [acquireDataDirLock]: the directory is made, the file opened and locked; [None]
    when the lock is held. *)
Definition acquireDataDirLock (mkdir openFile lockFile : option error) : option error :=
  match mkdir with
  | Some e => Some e
  | None => match openFile with Some e => Some e | None => lockFile end
  end.

(** [dataDirLock.Close] of a lock that is held. *)
Definition dataDirLock_Close (unlock close : option error) : option error :=
  match unlockFile unlock, close with
  | Some e, Some c => Some (Join e c)
  | Some e, None => Some e
  | None, c => c
  end.

(** ** server.go *)

(** The Raft host: [Stop] is final. *)
Inductive host_phase : Type := HostNew | HostRunning | HostStopped.

Record lifecycle : Type := mkLife {
  lc_opts : Options;
  lc_started : bool;
  lc_ctx : option bool;       (* [s.ctx] and whether it is cancelled *)
  lc_lock : bool;             (* the lock is held *)
  lc_db : bool;               (* the database is open *)
  lc_ln : bool;
  lc_rt : RaftTransport;
  lc_host : host_phase;
  lc_storage : bool;          (* the Raft storage is open *)
  lc_http : bool;             (* the listener of the HTTP API is open *)
  lc_grpc : bool;
  lc_leaked : bool            (* files of shards are open that nothing refers to *)
}.

#[export] Instance eta_lifecycle : Eta lifecycle := fun l =>
  mkLife (lc_opts l) (lc_started l) (lc_ctx l) (lc_lock l) (lc_db l) (lc_ln l) (lc_rt l) (lc_host l) (lc_storage l)
    (lc_http l) (lc_grpc l) (lc_leaked l).

(** [initializeRaftHost] and the rest of [NewServer]; [storage] and [host] are the
    outcomes of [NewDurableStorage] and [NewRaftHost]. *)
Definition initializeRaftHost (storage host : option error) (o : Options) : Result lifecycle :=
  match NewRaftTransport true (negb (String.eqb (raftListenAddr o) "")) (o_RaftListener o) true with
  | inl e => inl e
  | inr rt =>
      let rt := foldl (fun rt p => RaftTransport_AddPeer (pi_ID p) rt) rt (o_Peers o) in
      match storage with
      | Some e => inl e
      | None =>
          match host with
          | Some e => inl e
          | None => inr (mkLife o false None false false false rt HostNew true false false false)
          end
      end
  end.

Definition NewServer (storage host : option error) (o : Options) : Result lifecycle :=
  match Options_validate o with
  | Some e => inl e
  | None => initializeRaftHost storage host (applyDefaults o)
  end.

(** [se_shards]: if opening the database fails, it has opened shards before that. *)
Record start_env : Type := mkStartEnv {
  se_lock : option error;
  se_db : option error;
  se_shards : bool;
  se_listen : option error;
  se_raftListen : option error;
  se_httpListen : option error;
  se_grpcListen : option error
}.

(** The deferred function of [Start] after an error. *)
Definition start_failed (l : lifecycle) : lifecycle :=
  l <| lc_ctx ::= fmap (fun _ => true) |> <| lc_ln := false |> <| lc_db := false |> <| lc_lock := false |>
    <| lc_started := false |>.

Definition host_Start (h : host_phase) : host_phase := match h with HostNew => HostRunning | h => h end.

(** The optional listeners, once everything else runs. *)
Definition Start_apis (env : start_env) (l : lifecycle) : option error * lifecycle :=
  let '(e, l) :=
    if 0 <? o_HTTPPort (lc_opts l) then
      match se_httpListen env with
      | Some e => (Some (Wrap "server: http listen" e), l)
      | None => (None, l <| lc_http := true |>)
      end
    else (None, l) in
  match e with
  | Some e => (Some e, l)
  | None =>
      if 0 <? o_GRPCPort (lc_opts l) then
        match se_grpcListen env with
        | Some e => (Some (Wrap "server: grpc listen" e), l)
        | None => (None, l <| lc_grpc := true |>)
        end
      else (None, l)
  end.

(** [Start] between the flag and the deferred function. *)
Definition Start_body (env : start_env) (l : lifecycle) : option error * lifecycle :=
  match se_lock env with
  | Some e => (Some (if errors_Is e errLockBusy then ErrDBInUse else e), l)
  | None =>
      let l := l <| lc_lock := true |> <| lc_ctx := Some false |> in
      match se_db env with
      | Some e => (Some e, l <| lc_leaked ::= orb (se_shards env) |>)
      | None =>
          let l := l <| lc_db := true |> in
          match se_listen env with
          | Some e => (Some e, l)
          | None =>
              let l := l <| lc_ln := true |> in
              match RaftTransport_Start (se_raftListen env) (lc_rt l) with
              | (Some e, rt) => (Some e, l <| lc_rt := rt |>)
              | (None, rt) => Start_apis env (l <| lc_rt := rt |> <| lc_host ::= host_Start |>)
              end
          end
      end
  end.

Definition Server_Start (env : start_env) (l : lifecycle) : option error * lifecycle :=
  if lc_started l then (Some ErrAlreadyStarted, l)
  else
    match Start_body env (l <| lc_started := true |>) with
    | (Some e, l) => (Some e, start_failed l)
    | (None, l) => (None, l)
    end.

(** [Shutdown] once the connections have ended: [None] if it blocks, as [Stop] of a
    host that never ran does. *)
Definition Server_Shutdown (closeDB closeLock : option error) (l : lifecycle) : option (option error * lifecycle) :=
  if negb (lc_started l) then Some (Some ErrNotStarted, l)
  else
    let l := l <| lc_ln := false |> <| lc_http := false |> <| lc_grpc := false |> <| lc_ctx ::= fmap (fun _ => true) |> in
    let err := if lc_db l then closeDB else None in
    let l := l <| lc_db := false |> in
    let err :=
      if lc_lock l then
        match closeLock, err with
        | Some e, None => Some e
        | Some e, Some e0 => Some (Join e0 e)
        | None, err => err
        end
      else err in
    let l := l <| lc_lock := false |> in
    match lc_host l with
    | HostNew => None
    | _ =>
        Some (err, l <| lc_host := HostStopped |> <| lc_rt ::= RaftTransport_Stop |> <| lc_storage := false |>
                     <| lc_started := false |>)
    end.

(** ** Servers on one data directory *)

(** The lock is free when no server holds it; the system call says so. *)
Definition lock_call (IsWindows : bool) (servers : gmap nat lifecycle) : option error :=
  if bool_decide (map_Forall (fun _ l => lc_lock l = false) servers) then None
  else Some (if IsWindows then ERROR_LOCK_VIOLATION else EWOULDBLOCK).

(** What [Start] meets: [se_lock env] is a failure to make the directory or to open the
    lock file. *)
Definition dir_env (IsWindows : bool) (servers : gmap nat lifecycle) (env : start_env) : start_env :=
  mkStartEnv (acquireDataDirLock (se_lock env) None (lockFile IsWindows (lock_call IsWindows servers)))
    (se_db env) (se_shards env) (se_listen env) (se_raftListen env) (se_httpListen env) (se_grpcListen env).

Inductive dir_event : Type :=
| DirNew (i : nat) (o : Options) (storage host : option error)
| DirStart (i : nat) (env : start_env)
| DirShutdown (i : nat) (closeDB closeLock : option error).

Definition dir_step (IsWindows : bool) (e : dir_event) (servers : gmap nat lifecycle) : option (gmap nat lifecycle) :=
  match e with
  | DirNew i o storage host =>
      match servers !! i, NewServer storage host o with
      | None, inr l => Some (<[ i := l ]> servers)
      | _, _ => None
      end
  | DirStart i env =>
      l ← servers !! i;
      Some (<[ i := (Server_Start (dir_env IsWindows servers env) l).2 ]> servers)
  | DirShutdown i closeDB closeLock =>
      l ← servers !! i;
      '(_, l) ← Server_Shutdown closeDB closeLock l;
      Some (<[ i := l ]> servers)
  end.

Fixpoint dir_run (IsWindows : bool) (es : list dir_event) (servers : gmap nat lifecycle) : option (gmap nat lifecycle) :=
  match es with
  | [] => Some servers
  | e :: es => servers ← dir_step IsWindows e servers; dir_run IsWindows es servers
  end.

(** ** The states of a server *)

(** The Raft transport and host move together, and only forward. *)
Definition raft_phase (l : lifecycle) : Prop :=
  match lc_host l with
  | HostNew => rt_started (lc_rt l) = false /\ rt_stopped (lc_rt l) = false
  | HostRunning => rt_started (lc_rt l) = true /\ rt_stopped (lc_rt l) = false
  | HostStopped => rt_stopped (lc_rt l) = true
  end.

(** A server that is not started holds nothing it refers to; a started one holds
    everything. *)
Definition life_ok (l : lifecycle) : Prop :=
  raft_phase l /\
  if lc_started l then
    lc_lock l = true /\ lc_db l = true /\ lc_ln l = true /\ lc_ctx l = Some false /\ lc_host l = HostRunning
  else lc_lock l = false /\ lc_db l = false /\ lc_ln l = false /\ lc_ctx l <> Some false.

Lemma AddPeer_phase id rt :
  rt_started (RaftTransport_AddPeer id rt) = rt_started rt /\ rt_stopped (RaftTransport_AddPeer id rt) = rt_stopped rt.
Proof. unfold RaftTransport_AddPeer. by destruct (rt_peers rt !! id). Qed.

Lemma NewServer_ok storage host o l : NewServer storage host o = inr l -> life_ok l /\ lc_started l = false /\ lc_storage l = true.
Proof.
  unfold NewServer, initializeRaftHost. destruct (Options_validate o); [done|].
  destruct (NewRaftTransport _ _ _ _) as [|rt] eqn:Ert; [done|]. destruct storage; [done|]. destruct host; [done|].
  intros [= <-]. split; [|done]. split; [|done]. unfold raft_phase. cbn [lc_host lc_rt].
  assert (rt_started rt = false /\ rt_stopped rt = false) as Hrt.
  { unfold NewRaftTransport in Ert. destruct (_ && _); [done|]. by injection Ert as <-. }
  revert Hrt. clear Ert. generalize (o_Peers (applyDefaults o)) as ps. intros ps. revert rt.
  induction ps as [|p ps IH]; intros rt Hrt; [done|]. cbn [foldl]. apply IH. by destruct (AddPeer_phase (pi_ID p) rt) as [-> ->].
Qed.

Lemma RaftTransport_Start_phase listen rt :
  match RaftTransport_Start listen rt with
  | (Some e, rt') => rt_started rt' = rt_started rt /\ rt_stopped rt' = rt_stopped rt
  | (None, rt') => rt_started rt = false /\ rt_stopped rt = false /\ rt_started rt' = true /\ rt_stopped rt' = false
  end.
Proof.
  unfold RaftTransport_Start. destruct (rt_stopped rt) eqn:Es; [done|]. destruct (rt_started rt) eqn:Et; [done|].
  cbn. destruct (rt_hasListener rt), listen; cbn; done.
Qed.

Lemma Start_apis_keeps env l r l' :
  Start_apis env l = (r, l') ->
  lc_started l' = lc_started l /\ lc_ctx l' = lc_ctx l /\ lc_lock l' = lc_lock l /\ lc_db l' = lc_db l /\ lc_ln l' = lc_ln l /\
  lc_rt l' = lc_rt l /\ lc_host l' = lc_host l.
Proof.
  unfold Start_apis. intros H. repeat case_match; by simplify_eq.
Qed.

(** What [Start] leaves, when it fails and when it does not. *)
Lemma Start_body_ok env l r l' :
  raft_phase l -> Start_body env l = (r, l') ->
  raft_phase l' /\ lc_started l' = lc_started l /\
  match r with
  | Some _ => True
  | None => lc_lock l' = true /\ lc_db l' = true /\ lc_ln l' = true /\ lc_ctx l' = Some false /\ lc_host l' = HostRunning
  end.
Proof.
  intros Hp. unfold Start_body. destruct (se_lock env); [by intros [= <- <-]|].
  destruct (se_db env); [by intros [= <- <-]|]. destruct (se_listen env); [by intros [= <- <-]|]. cbn [lc_rt].
  pose proof (RaftTransport_Start_phase (se_raftListen env) (lc_rt l)) as Hrt.
  cbn. destruct (RaftTransport_Start _ _) as [[e|] rt].
  - intros [= <- <-]. split; [|done]. revert Hp. unfold raft_phase. cbn. destruct Hrt as [-> ->]. done.
  - destruct Hrt as (H1 & H2 & H3 & H4). intros H.
    apply Start_apis_keeps in H as (K1 & K2 & K3 & K4 & K5 & K6 & K7). cbn in K1, K2, K3, K4, K5, K6, K7.
    assert (lc_host l = HostNew) as Hh.
    { unfold raft_phase in Hp. destruct (lc_host l); [done|by rewrite H1 in Hp; destruct Hp|by rewrite H2 in Hp]. }
    rewrite Hh in K7. split; [|split; [done|by destruct r]].
    unfold raft_phase. by rewrite K7, K6.
Qed.

Lemma Server_Start_ok env l r l' : life_ok l -> Server_Start env l = (r, l') -> life_ok l'.
Proof.
  intros [Hp Hl]. unfold Server_Start. destruct (lc_started l) eqn:Es; [intros [= _ <-]; split; [done|by rewrite Es]|].
  destruct (Start_body env _) as [r0 l0] eqn:Eb. apply Start_body_ok in Eb as (Hp0 & Hs0 & Hr0); [|done].
  cbn in Hs0. destruct r0; intros [= <- <-].
  - split; [done|]. cbn. split_and!; try done. by destruct (lc_ctx l0).
  - split; [done|]. by rewrite Hs0.
Qed.

Lemma Server_Shutdown_ok cdb cl l r l' :
  life_ok l -> Server_Shutdown cdb cl l = Some (r, l') ->
  life_ok l' /\ lc_started l' = false /\ (lc_started l = true -> lc_storage l' = false /\ rt_stopped (lc_rt l') = true).
Proof.
  intros [Hp Hl]. unfold Server_Shutdown. destruct (lc_started l) eqn:Es; cbn.
  - destruct Hl as (_ & _ & _ & Hc & ->). intros [= <- <-]. split; [|done]. split; [done|]. cbn. by rewrite Hc.
  - intros [= <- <-]. split; [split; [done|by rewrite Es]|done].
Qed.

(** A started server can be shut down. *)
Lemma Server_Shutdown_total cdb cl l : life_ok l -> exists r l', Server_Shutdown cdb cl l = Some (r, l').
Proof.
  intros [Hp Hl]. unfold Server_Shutdown. destruct (lc_started l); cbn; [|by eauto].
  destruct Hl as (_ & _ & _ & _ & ->). by eauto.
Qed.

(** Once the Raft transport has been started, no [Start] succeeds. *)
Lemma Server_Start_spent env l :
  rt_started (lc_rt l) = true \/ rt_stopped (lc_rt l) = true -> (Server_Start env l).1 <> None.
Proof.
  intros Hrt. unfold Server_Start. destruct (lc_started l); [done|]. unfold Start_body.
  destruct (se_lock env); [done|]. destruct (se_db env); [done|]. destruct (se_listen env); [done|]. cbn [lc_rt].
  pose proof (RaftTransport_Start_phase (se_raftListen env) (lc_rt l)) as H. cbn.
  destruct (RaftTransport_Start _ _) as [[e|] rt]; [done|]. destruct H as (H1 & H2 & _). by destruct Hrt; congruence.
Qed.
