(* ===== verification/Commands.v ===== *)
(** * Commands: [main] of [cmd/kv-server] and [cmd/kv-cli]

    The server command from its flags to its exit code, and the loop of the client: how a
    line becomes a command, and when the loop ends.  Lines are ASCII; the text of an error
    the operating system made, and whether it is a [net.Error], are parameters. *)

From S2P Require Export Session Lifecycle.
From Stdlib Require Import Ascii.
Local Open Scope string_scope.
Local Open Scope Z_scope.

(** ** cmd/kv-server *)

Record main_env : Type := mkMainEnv {
  me_mkdir : option error;
  me_storage : option error;
  me_host : option error;
  me_start : start_env;
  me_closeDB : option error;
  me_closeLock : option error
}.

Inductive server_line : Type :=
| LineError (e : error)
| LineListening
| LineHTTP
| LineGRPC
| LineShuttingDown
| LineShutdownError (e : error)
| LineBye.

(** What [main] prints once its flags are accepted, and its exit code, with a signal
    after [Start]; [None] if [Shutdown] blocks. *)
Definition kv_server_main (env : main_env) (f : flags) : option (list server_line * Z) :=
  match main_options (me_mkdir env) f with
  | inl code => Some ([], code)
  | inr opts =>
      match NewServer (me_storage env) (me_host env) opts with
      | inl e => Some ([LineError e], 1)
      | inr s =>
          match Server_Start (me_start env) s with
          | (Some e, _) => Some ([LineError e], 1)
          | (None, s) =>
              let started := ([LineListening] ++ (if lc_http s then [LineHTTP] else []) ++
                              (if lc_grpc s then [LineGRPC] else []) ++ [LineShuttingDown])%list in
              '(err, _) ← Server_Shutdown (me_closeDB env) (me_closeLock env) s;
              match err with
              | Some e => Some ((started ++ [LineShutdownError e])%list, 1)
              | None => Some ((started ++ [LineBye])%list, 0)
              end
          end
      end
  end.

(** ** cmd/kv-cli: lines *)

Definition is_space (c : Ascii.ascii) : bool :=
  let n := Z.of_nat (Ascii.nat_of_ascii c) in ((9 <=? n) && (n <=? 13)) || (n =? 32).

Fixpoint trimLeft (s : string) : string :=
  match s with
  | String c s' => if is_space c then trimLeft s' else s
  | EmptyString => EmptyString
  end.

Fixpoint trimRight (s : string) : string :=
  match s with
  | String c s' =>
      match trimRight s' with
      | EmptyString => if is_space c then EmptyString else String c EmptyString
      | s' => String c s'
      end
  | EmptyString => EmptyString
  end.

Definition TrimSpace (s : string) : string := trimRight (trimLeft s).

(** [strings.SplitN(s, " ", 3)] *)
Definition splitN3 (s : string) : list string :=
  match cut " "%char s with
  | None => [s]
  | Some (a, rest) =>
      match cut " "%char rest with
      | None => [a; rest]
      | Some (b, c) => [a; b; c]
      end
  end.

Definition lower (c : Ascii.ascii) : Ascii.ascii :=
  let n := Ascii.nat_of_ascii c in
  if (65 <=? Z.of_nat n) && (Z.of_nat n <=? 90) then Ascii.ascii_of_nat (n + 32) else c.

Fixpoint ToLower (s : string) : string :=
  match s with
  | String c s => String (lower c) (ToLower s)
  | EmptyString => EmptyString
  end.

(** What the loop does with a line. *)
Inductive command : Type :=
| Nothing
| Quit
| Get (key : string)
| Put (key value : string)
| Usage (cmd : string)
| Unknown (cmd : string).

Definition parse_line (text : string) : command :=
  let line := TrimSpace text in
  if String.eqb line "" then Nothing
  else
    let parts := splitN3 line in
    let cmd := ToLower (default "" (parts !! 0%nat)) in
    if String.eqb cmd "quit" || String.eqb cmd "exit" || String.eqb cmd "q" then Quit
    else if String.eqb cmd "get" then
      match parts with _ :: key :: _ => Get key | _ => Usage cmd end
    else if String.eqb cmd "put" then
      match parts with [_; key; value] => Put key value | _ => Usage cmd end
    else Unknown cmd.

(** ** cmd/kv-cli: errors *)

Section errors.
Context (text : error -> string) (isNetError : error -> bool).

(** [err.Error()] and [errors.As(err, &netErr)], through [fmt.Errorf] with [%w]. *)
Fixpoint error_text (e : error) : string :=
  match e with
  | Wrap what e => what ++ ": " ++ error_text e
  | Join e1 e2 => error_text e1 ++ String (Ascii.ascii_of_nat 10) (error_text e2)
  | e => text e
  end.

Fixpoint as_net_error (e : error) : bool :=
  match e with
  | Wrap _ e => as_net_error e
  | Join e1 e2 => as_net_error e1 || as_net_error e2
  | e => isNetError e
  end.

Definition contains (s sub : string) : bool :=
  match String.index 0 sub s with Some _ => true | None => false end.

Definition isConnectionError (err : option error) : bool :=
  match err with
  | None => false
  | Some err =>
      errors_Is err ErrEOF || as_net_error err ||
      (let errStr := error_text err in
       contains errStr "connection reset" || contains errStr "broken pipe" || contains errStr "forcibly closed" ||
       contains errStr "EOF")
  end.

(** ** cmd/kv-cli: the loop *)

Context {T : Type} `{!StreamTransport T}.

(** The outcomes of setting deadlines and flushing, and what arrives before [Receive]. *)
Record call_env : Type := mkCallEnv {
  ce_sendDL : option error;
  ce_flush : option error;
  ce_arrive : T -> T;
  ce_recvDL : option error
}.

Inductive cli_line : Type :=
| Printed (o : cli_output)
| Bye
| UsageOf (cmd : string)
| UnknownCommand (cmd : string)
| ErrorLine (e : error)
| ConnectionLost
| ReadingInput (e : error).

Definition doGet (env : call_env) (key : string) (t : T) : Result cli_output * T :=
  match doGet_send (ce_sendDL env) (ce_flush env) (String.list_byte_of_string key) t with
  | (Some e, t) => (inl e, t)
  | (None, t) => doGet_receive (ce_recvDL env) (ce_arrive env t)
  end.

Definition doPut (env : call_env) (key value : string) (t : T) : Result cli_output * T :=
  match doPut_send (ce_sendDL env) (ce_flush env) (String.list_byte_of_string key) (String.list_byte_of_string value) t with
  | (Some e, t) => (inl e, t)
  | (None, t) => doPut_receive (ce_recvDL env) (ce_arrive env t)
  end.

(** After a command: the loop goes on, or the process exits. *)
Definition cli_called (r : Result cli_output) : list cli_line * option Z :=
  match r with
  | inr o => ([Printed o], None)
  | inl e => if isConnectionError (Some e) then ([ErrorLine e; ConnectionLost], Some 1) else ([ErrorLine e], None)
  end.

Definition cli_step (env : call_env) (line : string) (t : T) : list cli_line * option Z * T :=
  match parse_line line with
  | Nothing => ([], None, t)
  | Quit => ([Bye], Some 0, t)
  | Get key => let '(r, t) := doGet env key t in (cli_called r, t)
  | Put key value => let '(r, t) := doPut env key value t in (cli_called r, t)
  | Usage cmd => ([UsageOf cmd], None, t)
  | Unknown cmd => ([UnknownCommand cmd], None, t)
  end.

(** [main] on a connection: the lines of the input, then the error of the scanner. *)
Fixpoint cli_loop (lines : list string) (scanErr : option error) (env : nat -> call_env) (i : nat) (t : T)
  : list cli_line * Z * T :=
  match lines with
  | [] => (match scanErr with Some e => [ReadingInput e] | None => [] end, 0, t)
  | line :: lines =>
      match cli_step (env i) line t with
      | (out, Some code, t) => (out, code, t)
      | (out, None, t) => let '(out', code, t) := cli_loop lines scanErr env (S i) t in ((out ++ out')%list, code, t)
      end
  end.

End errors.
