(* ===== verification/Cluster.v ===== *)
(** * Cluster: nodes and an unreliable network

    The network is the set of messages ever handed to the transport; delivering
    one does not remove it, so messages may be lost, duplicated, delayed and
    reordered.  An [action] is one thing that can happen; [exec] performs it on
    one node with the functions of [Raft]. *)

From S2P Require Export Election.

Section cluster.
Context {RT : Runtime} {St : Type} {SS : Storage St}.

Record Cluster : Type := mkCluster {
  nodes : gmap Z (Raft St);
  net : list Message
}.

#[export] Instance eta_Cluster : Eta Cluster := fun c => mkCluster (nodes c) (net c).

(** [Persist] is the host's [Storage.Save] (any change of the storage); [Emit] is
    the node handing out a [Ready]: the messages go to the transport, those to
    the node itself are stepped later; [Restart] reloads a node from storage. *)
Inductive action : Type :=
| Deliver (i : Z) (m : Message)
| Local (i : Z) (m : Message)
| DoTick (i : Z)
| Emit (i : Z)
| DoAdvance (i : Z) (rd : Ready)
| Persist (i : Z) (st : St)
| Restart (i : Z) (cfg : Config St).

(** The messages a node makes for itself ([Propose], [Campaign], [ReadIndex], the
    ticks, an administrator's transfer request). *)
Definition local_msg (m : Message) : bool :=
  (m_Term m =? 0) &&
  match m_Type m with
  | MsgHup | MsgProp | MsgReadIndex | MsgBeat | MsgCheckQuorum | MsgTransferLeader => true
  | _ => false
  end.

Definition calmb (m : Message) (r : Raft St) : bool :=
  negb (bool_decide (m_Type m ∈ [MsgApp; MsgHeartbeat; MsgSnap]) &&
        match r_step r with StepCandidate => true | _ => false end && (m_Term m <? r_term r)).

Definition no_overflow (m : Message) (r : Raft St) : bool :=
  (r_term r <? MaxUint64) && (m_Term m <? MaxUint64).

Definition ok_of {A : Type} (x : res A) : option A :=
  match x with Ok a => Some a | Panic _ => None end.

(** The new state of node [i], and what it puts on the network.  [strict]
    restricts deliveries to messages that are [calm]. *)
Definition exec_node (strict : bool) (c : Cluster) (a : action) (r : Raft St)
  : option (Raft St * list Message) :=
  match a with
  | Deliver i m =>
      if bool_decide (m ∈ net c) && (m_To m =? i) && no_overflow m r && (negb strict || calmb m r)
      then '(r, _) ← ok_of (Raft_Step m r); Some (r, [])
      else None
  | Local _ m =>
      if local_msg m && no_overflow m r
      then '(r, _) ← ok_of (Raft_Step m r); Some (r, []) else None
  | DoTick _ => if no_overflow msg0 r then r ← ok_of (Raft_Tick r); Some (r, []) else None
  | Emit _ =>
      rd ← ok_of (Raft_Ready r);
      Some (r <| r_msgsAfterAppend := [] |>,
            rd_Messages rd ++ List.filter (fun m => m_To m =? r_id r) (r_msgsAfterAppend r))
  | DoAdvance _ rd => r ← ok_of (Raft_Advance rd r); Some (r, [])
  | Persist _ st => Some (r <| r_raftLog ::= fun l => l <| l_storage := st |> |>, [])
  | Restart i cfg =>
      match c_Storage cfg with
      | Some st =>
          match InitialState st with
          | inr hs =>
              if (c_ID cfg =? i) && (h_Term hs =? r_term r) && (h_VotedFor hs =? r_votedFor r) &&
                 bool_decide (buildMajorityConfig (c_ID cfg) (c_Peers cfg) = Voters (r_trk r))
              then r ← ok_of (newRaft cfg); Some (r, []) else None
          | inl _ => None
          end
      | None => None
      end
  end.

Definition actor (a : action) : Z :=
  match a with
  | Deliver i _ | Local i _ | DoTick i | Emit i | DoAdvance i _ | Persist i _ | Restart i _ => i
  end.

Definition exec (strict : bool) (a : action) (c : Cluster) : option Cluster :=
  r ← nodes c !! actor a;
  '(r', out) ← exec_node strict c a r;
  Some (mkCluster (<[ actor a := r' ]> (nodes c)) (net c ++ out)).

Fixpoint run (strict : bool) (acts : list action) (c : Cluster) : option Cluster :=
  match acts with
  | [] => Some c
  | a :: acts => c ← exec strict a c; run strict acts c
  end.

Definition cstep (strict : bool) (c c' : Cluster) : Prop := exists a, exec strict a c = Some c'.

(** Every node was just created, from whatever its storage holds. *)
Definition cluster_init (V : MajorityConfig) (c : Cluster) : Prop :=
  net c = [] /\
  forall i r, nodes c !! i = Some r ->
    exists cfg st hs, newRaft cfg = Ok r /\ c_ID cfg = i /\ i <> 0 /\
      buildMajorityConfig (c_ID cfg) (c_Peers cfg) = V /\
      c_Storage cfg = Some st /\ InitialState st = inr hs /\ 0 <= h_Term hs.

Lemma run_cstep strict acts c c' : run strict acts c = Some c' -> rtc (cstep strict) c c'.
Proof.
  revert c. induction acts as [|a acts IH]; intros c; simpl; [by intros [= ->]|].
  intros (c1 & H1 & H)%bind_Some. eapply rtc_l; [by exists a|by apply IH].
Qed.

Lemma ok_of_Some {A} (x : res A) a : ok_of x = Some a <-> x = Ok a.
Proof. destruct x; simpl; split; congruence. Qed.

(** ** The invariant *)

Definition cluster_inv (V : MajorityConfig) (b : book) (c : Cluster) : Prop :=
  (forall i r, nodes c !! i = Some r -> node_inv V b i r) /\
  (forall m, m ∈ net c -> vote_ok b m).

Lemma InitProgress_Voters peers trk :
  Voters (foldl (fun t pid => ProgressTracker_InitProgress pid 0 1 t) trk peers) = Voters trk /\
  votes (foldl (fun t pid => ProgressTracker_InitProgress pid 0 1 t) trk peers) = votes trk.
Proof. revert trk. induction peers as [|p peers IH]; intros trk; [done|]. simpl. by rewrite !(proj1 (IH _)), !(proj2 (IH _)). Qed.

Lemma newRaft_hard cfg st hs (r : Raft St) :
  newRaft cfg = Ok r -> c_Storage cfg = Some st -> InitialState st = inr hs ->
  r_term r = h_Term hs /\ r_votedFor r = h_VotedFor hs.
Proof.
  unfold newRaft. intros H Hst Hhs. rewrite Hst, Hhs in H. destruct (validate cfg); [done|].
  set (r0 := if negb _ then _ else _) in H.
  assert (r_term r0 = h_Term hs /\ r_votedFor r0 = h_VotedFor hs) as [Et Ev].
  { subst r0. destruct (IsEmptyHardState (Some hs)) eqn:Ee; simpl; [|done]. simpl in Ee. by to_prop. }
  clearbody r0. destruct (_ <? c_Applied cfg); [done|]. destruct (_ && _ && _); [done|].
  injection H as <-. rewrite Raft_becomeFollower_eq. unfold kept_vote. simpl. by rewrite Z.eqb_refl.
Qed.

(** A new node is a follower with the persisted term and vote. *)
Lemma newRaft_inv V b cfg st hs r :
  newRaft cfg = Ok r -> c_ID cfg <> 0 -> buildMajorityConfig (c_ID cfg) (c_Peers cfg) = V ->
  c_Storage cfg = Some st -> InitialState st = inr hs -> 0 <= h_Term hs ->
  (forall t x, b !! (c_ID cfg, t) = Some x -> t <= h_Term hs) ->
  b !! (c_ID cfg, h_Term hs) = (if h_VotedFor hs =? 0 then None else Some (h_VotedFor hs)) ->
  node_inv V b (c_ID cfg) r.
Proof.
  unfold newRaft. intros H Hid HV Hst Hhs Hpos Hbk Hvt. rewrite Hst, Hhs in H.
  destruct (validate cfg); [done|].
  set (trk := foldl _ _ _) in H.
  assert (Voters trk = V) as Htrk by (subst trk; by rewrite (proj1 (InitProgress_Voters _ _))).
  clearbody trk. set (r0 := if negb _ then _ else _) in H.
  assert (r_id r0 = c_ID cfg /\ r_term r0 = h_Term hs /\ r_votedFor r0 = h_VotedFor hs /\
          r_messages r0 = [] /\ r_msgsAfterAppend r0 = [] /\ r_trk r0 = trk) as (E1 & E2 & E3 & E4 & E5 & E6).
  { subst r0. destruct (IsEmptyHardState (Some hs)) eqn:Ee; simpl; [|done].
    simpl in Ee. to_prop. by repeat split. }
  clearbody r0. destruct (_ <? c_Applied cfg); [done|]. destruct (_ && _ && _); [done|].
  injection H as <-. rewrite Raft_becomeFollower_eq. split; simpl; try done.
  - rewrite <- HV. unfold buildMajorityConfig. set_solver.
  - by rewrite E6.
  - by rewrite E2.
  - intros t x Hx. rewrite E2. eauto.
  - unfold kept_vote. simpl. by rewrite Z.eqb_refl, E2, E3.
  - rewrite E4, E5. intros m Hm. by inversion Hm.
Qed.

Lemma local_msg_inv b i m (r : Raft St) : local_msg m = true -> msg_inv b i m /\ calm m r.
Proof.
  unfold local_msg, msg_inv, calm. intros H. to_prop.
  destruct (m_Type m); try done; (split; [done|]); intros; inv_list; done.
Qed.

Lemma no_overflow_bounded m r : no_overflow m r = true -> bounded m (r_term r).
Proof. unfold no_overflow, bounded. intros. to_prop. lia. Qed.

Lemma calmb_calm m r : calmb m r = true -> calm m r.
Proof.
  unfold calmb, calm. intros H Ht Hs. rewrite Hs, bool_decide_true in H by done. simpl in H. to_prop. done.
Qed.

(** Local steps. *)
Lemma local_inv V b i m r r' e :
  local_msg m = true -> bounded m (r_term r) -> Raft_Step m r = Ok (r', e) -> node_inv V b i r ->
  exists b', book_ext i b b' /\ node_inv V b' i r'.
Proof.
  intros Hl Hb H Hn. destruct (local_msg_inv b i m r Hl) as [Hm Hc]. by eapply Step_inv.
Qed.

Lemma tickHeartbeat_inv V b i r r' :
  Raft_tickHeartbeat r = Ok r' -> node_inv V b i r -> exists b', book_ext i b b' /\ node_inv V b' i r'.
Proof.
  unfold Raft_tickHeartbeat. intros (r1 & H1 & H2)%bind_Ok Hn.
  assert (exists b1, book_ext i b b1 /\ node_inv V b1 i r1) as (b1 & Hb1 & Hn1).
  { destruct (_ <=? _); [|inv_res; exists b; split; [done|]; by eapply node_inv_same; [|exact Hn]].
    apply bind_Ok in H1 as ([r2 e] & H1 & H3).
    eapply local_inv in H1 as (b2 & Hb2 & Hn2); [|done|intros ?; inv_list; done|by eapply node_inv_same; [|exact Hn]].
    exists b2. split; [done|]. destruct (_ && _); inv_res; [by eapply node_inv_same; [|exact Hn2]|done]. }
  clear H1. destruct (_ <=? _); [|inv_res; by exists b1].
  apply bind_Ok in H2 as ([r3 e] & H2 & H3). inv_res.
  eapply local_inv in H2 as (b2 & Hb2 & Hn2); [|done|intros ?; inv_list; done|by eapply node_inv_same; [|exact Hn1]].
  exists b2. split; [by eapply book_ext_trans|done].
Qed.

Lemma Tick_inv V b i r r' :
  Raft_Tick r = Ok r' -> r_term r < MaxUint64 -> node_inv V b i r ->
  exists b', book_ext i b b' /\ node_inv V b' i r'.
Proof.
  unfold Raft_Tick. intros H Hlt Hn. destruct (r_tick r); [|by eapply tickHeartbeat_inv].
  unfold Raft_tickElection in H.
  destruct (Raft_pastElectionTimeout _);
    [|inv_res; exists b; split; [done|]; by eapply node_inv_same; [|exact Hn]].
  apply bind_Ok in H as ([r1 e] & H1 & H). inv_res.
  eapply local_inv in H1; [exact H1|done|intros _; by split|by eapply node_inv_same; [|exact Hn]].
Qed.

Lemma Emit_inv V b i r rd :
  Raft_Ready r = Ok rd -> node_inv V b i r ->
  node_inv V b i (r <| r_msgsAfterAppend := [] |>) /\
  forall m, m ∈ rd_Messages rd ++ List.filter (fun m => m_To m =? r_id r) (r_msgsAfterAppend r) ->
  vote_ok b m.
Proof.
  unfold Raft_Ready. intros (ces & _ & H)%bind_Ok Hn. inv_res. simpl. split.
  - destruct Hn. split; try done. simpl. intros m Hm. apply ni_out. rewrite app_nil_r in Hm. set_solver.
  - intros m Hm. apply (ni_out _ _ _ _ Hn). rewrite !elem_of_app in Hm. rewrite elem_of_app.
    destruct Hm as [[?|Hm]|Hm]; [by left|right..];
      apply list_elem_of_In, filter_In in Hm as [Hm _]; by apply list_elem_of_In.
Qed.

Lemma Advance_same rd (r r' : Raft St) : Raft_Advance rd r = Ok r' ->
  same_ballot (r <| r_messages := [] |>) r'.
Proof. unfold Raft_Advance. intros (l & _ & H)%bind_Ok. inv_res. done. Qed.

Lemma clear_messages_inv V b i (r : Raft St) : node_inv V b i r -> node_inv V b i (r <| r_messages := [] |>).
Proof.
  intros []. split; try done. simpl. intros m Hm. apply ni_out. rewrite elem_of_app. by right.
Qed.

(** A node that restarts from its own term and vote. *)
Lemma restart_inv V b c i cfg r r' out :
  node_inv V b i r -> exec_node true c (Restart i cfg) r = Some (r', out) -> node_inv V b i r' /\ out = [].
Proof.
  simpl. intros Hn Hx. destruct (c_Storage cfg) as [st|] eqn:Est; [|done].
  destruct (InitialState st) as [|hs] eqn:Ehs; [done|]. destruct (_ && _) eqn:E; [|done].
  to_prop. apply bind_Some in Hx as (r1 & HS%ok_of_Some & [= <- <-]). split; [|done].
  match goal with H : bool_decide (buildMajorityConfig _ _ = _) = true |- _ =>
    apply bool_decide_eq_true in H as HV end.
  assert (h_Term hs = r_term r) as Et by done. assert (h_VotedFor hs = r_votedFor r) as Ev by done.
  subst i. destruct Hn. eapply newRaft_inv; try done.
  - by rewrite HV.
  - by rewrite Et.
  - intros t x Hx. rewrite Et. eauto.
  - by rewrite Et, Ev.
Qed.

(** The step of one node, inside the cluster. *)
Lemma exec_node_inv V b c a r r' out :
  cluster_inv V b c -> nodes c !! actor a = Some r -> exec_node true c a r = Some (r', out) ->
  exists b', book_ext (actor a) b b' /\ node_inv V b' (actor a) r' /\
    forall m, m ∈ out -> vote_ok b' m.
Proof.
  intros [Hns Hnet] Hr. pose proof (Hns _ _ Hr) as Hn.
  assert (forall m, m ∈ @nil Message -> forall b', vote_ok b' m) as Hnil by (intros m Hm; by inversion Hm).
  destruct a as [i m|i m|i|i|i rd|i st|i cfg]; simpl in *.
  - destruct (_ && _) eqn:E; [|done]. to_prop. intros ([r1 e] & HS%ok_of_Some & [= <- <-])%bind_Some.
    eapply Step_inv in HS as (b' & Hb & Hi); [by eauto|done| |by apply calmb_calm|by apply no_overflow_bounded].
    match goal with H : bool_decide (m ∈ _) = true |- _ => apply bool_decide_eq_true in H as Hin end.
    destruct (Hnet m Hin) as [Hf Hv]. split; [done|]. subst i. done.
  - destruct (_ && _) eqn:E; [|done]. to_prop. intros ([r1 e] & HS%ok_of_Some & [= <- <-])%bind_Some.
    eapply local_inv in HS as (b' & Hb & Hi); [by eauto|done|by apply no_overflow_bounded|done].
  - destruct (no_overflow _ _) eqn:E; [|done]. intros (r1 & HS%ok_of_Some & [= <- <-])%bind_Some.
    unfold no_overflow in E. to_prop. eapply Tick_inv in HS as (b' & Hb & Hi); [by eauto|done|done].
  - intros (rd & HS%ok_of_Some & [= <- <-])%bind_Some. exists b. split; [done|]. by apply Emit_inv.
  - intros (r1 & HS%ok_of_Some & [= <- <-])%bind_Some. exists b. split; [done|]. split; [|by eauto].
    eapply node_inv_same; [by eapply Advance_same|]. by apply clear_messages_inv.
  - intros [= <- <-]. exists b. split; [done|]. split; [|by eauto]. by eapply node_inv_same; [|exact Hn].
  - intros Hx. destruct (restart_inv V b c i cfg r r' out) as [Hi ->]; try done.
    exists b. split; [done|]. by eauto.
Qed.

Lemma cstep_inv V b c c' :
  cluster_inv V b c -> cstep true c c' -> exists b', b ⊆ b' /\ cluster_inv V b' c'.
Proof.
  intros Hc [a Ha]. unfold exec in Ha. apply bind_Some in Ha as (r & Hr & Ha).
  apply bind_Some in Ha as ([r' out] & Hx & Ha). injection Ha as <-.
  destruct (exec_node_inv _ _ _ _ _ _ _ Hc Hr Hx) as (b' & Hb & Hn & Ho).
  exists b'. split; [apply Hb|]. destruct Hc as [Hns Hnet]. split; simpl.
  - intros i r0 [[<- <-]|[Hne Hi]]%lookup_insert_Some; [done|]. by eapply node_inv_ext; eauto.
  - intros m [Hm|Hm]%elem_of_app; [|by apply Ho]. eapply vote_ok_mono; [apply Hb|by apply Hnet].
Qed.

Lemma csteps_inv V b c c' :
  cluster_inv V b c -> rtc (cstep true) c c' -> exists b', b ⊆ b' /\ cluster_inv V b' c'.
Proof.
  intros Hc H. revert b Hc. induction H as [c|c c1 c2 H1 _ IH]; intros b Hc; [by eauto|].
  destruct (cstep_inv _ _ _ _ Hc H1) as (b1 & Hb1 & Hc1). destruct (IH b1 Hc1) as (b2 & Hb2 & Hc2).
  exists b2. split; [by etrans|done].
Qed.

(** Two quorums of votes for one term are for one candidate. *)
Lemma leaders_agree V b i j (r1 r2 : Raft St) b' :
  b ⊆ b' -> node_inv V b i r1 -> node_inv V b' j r2 ->
  r_state r1 = Leader -> r_state r2 = Leader -> r_term r1 = r_term r2 -> i = j.
Proof.
  intros Hb H1 H2 L1 L2 Ht. destruct (ni_lead _ _ _ _ H1 L1) as (v1 & W1 & B1).
  destruct (ni_lead _ _ _ _ H2 L2) as (v2 & W2 & B2).
  destruct (won_tallies_meet V v1 v2) as (k & _ & K1 & K2); [|done..|].
  { pose proof (ni_member _ _ _ _ H1). set_solver. }
  specialize (B1 k K1). specialize (B2 k K2). rewrite Ht in B1.
  apply (book_lookup _ _ _ _ Hb) in B1. congruence.
Qed.

(** The votes the nodes start with. *)
Definition init_votes (ns : gmap Z (Raft St)) : list (Z * Z * Z) :=
  omap (fun '(i, r) => if r_votedFor r =? 0 then None else Some ((i, r_term r), r_votedFor r))
    (map_to_list ns).

Lemma elem_of_init_votes ns i t x :
  (i, t, x) ∈ init_votes ns <->
  exists r, ns !! i = Some r /\ t = r_term r /\ x = r_votedFor r /\ r_votedFor r <> 0.
Proof.
  unfold init_votes. rewrite list_elem_of_omap. split.
  - intros ([k r] & Hk & Hx). apply elem_of_map_to_list in Hk.
    destruct (r_votedFor r =? 0) eqn:E; [done|]. to_prop. injection Hx as -> <- <-. by exists r.
  - intros (r & Hi & -> & -> & Hne). exists (i, r). rewrite elem_of_map_to_list. split; [done|].
    by rewrite (proj2 (Z.eqb_neq _ _) Hne).
Qed.

Lemma init_votes_lookup ns i r :
  ns !! i = Some r ->
  let b : book := list_to_map (init_votes ns) in
  (forall t x, b !! (i, t) = Some x -> t = r_term r) /\
  b !! (i, r_term r) = if r_votedFor r =? 0 then None else Some (r_votedFor r).
Proof.
  intros Hi b. assert (forall t x, b !! (i, t) = Some x -> t = r_term r /\ x = r_votedFor r /\ r_votedFor r <> 0) as Hb.
  { intros t x Hx. apply elem_of_list_to_map_2, elem_of_init_votes in Hx as (r' & Hr & ? & ? & ?).
    rewrite Hi in Hr. by injection Hr as <-. }
  split; [intros t x Hx; by apply Hb in Hx as [? _]|].
  destruct (r_votedFor r =? 0) eqn:E; to_prop.
  - apply eq_None_not_Some. intros [x Hx]. by apply Hb in Hx as (_ & _ & ?).
  - apply elem_of_list_to_map_1'.
    + intros y Hy. apply elem_of_init_votes in Hy as (r' & Hr & _ & -> & _). congruence.
    + apply elem_of_init_votes. by exists r.
Qed.

(** A cluster starts with the invariant. *)
Lemma cluster_init_inv V c : cluster_init V c -> exists b, cluster_inv V b c.
Proof.
  intros [Hnet Hns]. exists (list_to_map (init_votes (nodes c))). split.
  2: { rewrite Hnet. intros m Hm. by inversion Hm. }
  intros i r Hi. destruct (init_votes_lookup _ _ _ Hi) as [Hb1 Hb2].
  destruct (Hns i r Hi) as (cfg & st & hs & Hnew & <- & Hid & HV & Hst & Hhs & Hpos).
  assert (r_term r = h_Term hs /\ r_votedFor r = h_VotedFor hs) as [Et Ev].
  { by eapply newRaft_hard. }
  eapply newRaft_inv; eauto.
  - intros t x Hx. rewrite <- Et. apply Hb1 in Hx. lia.
  - by rewrite <- Et, <- Ev.
Qed.

End cluster.

Arguments Cluster St : clear implicits.
Arguments mkCluster {St} _ _.
Arguments nodes {St} _.
Arguments net {St} _.
