(* ===== verification/Scenarios.v ===== *)
(** * Scenarios: concrete nodes and runs

    A concrete runtime, three nodes on fresh [DurableStorage]s, and scripted
    runs of the cluster.  They instantiate the theorems of the other files. *)

From S2P Require Export Cluster DurableSpec RaftInv.

(** Timeouts are drawn minimal and maps are walked in key order. *)
Definition rt0 : Runtime := {|
  choose_int := fun _ _ => 0;
  choose_int_range := fun _ n H => conj (Z.le_refl 0) H;
  visit_order := fun _ m => map_to_list m;
  visit_order_perm := fun _ m => Permutation_refl (map_to_list m)
|}.

Definition is_ok {A : Type} (x : res A) : bool := match x with Ok _ => true | Panic _ => false end.

(** The value of a computation that does not panic. *)
Definition the {A : Type} (x : res A) : is_ok x = true -> A :=
  match x with
  | Ok a => fun _ => a
  | Panic _ => fun H => False_rect A (Bool.diff_false_true H)
  end.

Lemma the_Ok {A : Type} (x : res A) (H : is_ok x = true) : x = Ok (the x H).
Proof. by destruct x. Qed.

Definition empty_durable : DurableStorage :=
  mkDurable (mkSegWal defaultSegmentLimit [segmentName 0] (mkWal (segmentName 0) 0 0 true))
    (mkWal snapFilename 0 0 true) (mkHard 0 0 0) [] (mkSnap 0 0) ∅ DefaultCompactThreshold
    (mkWorld (<[ snapFilename := [] ]> (<[ segmentName 0 := [] ]> ∅)) []).

(** Opening an empty directory. *)
Lemma empty_durable_opens :
  NewDurableStorage (mkWorld ∅ []) = Ok (inr empty_durable, d_world empty_durable).
Proof. vm_compute. reflexivity. Qed.

Definition cfg3 (i : Z) : Config DurableStorage :=
  mkConfig i (List.filter (fun p => negb (p =? i)) [1; 2; 3]) (Some empty_durable) 0 10 1.

Abbreviation DRaft := (Raft DurableStorage).

Definition node1 : DRaft := the (newRaft (RT:=rt0) (cfg3 1)) eq_refl.
Definition node2 : DRaft := the (newRaft (RT:=rt0) (cfg3 2)) eq_refl.
Definition node3 : DRaft := the (newRaft (RT:=rt0) (cfg3 3)) eq_refl.

Definition V3 : MajorityConfig := {[1; 2; 3]}.

Definition cluster3 : Cluster DurableStorage :=
  mkCluster (<[ 1 := node1 ]> (<[ 2 := node2 ]> (<[ 3 := node3 ]> ∅))) [].

Lemma cluster3_init : cluster_init (RT:=rt0) V3 cluster3.
Proof.
  split; [done|]. intros i r H. unfold cluster3 in H. simpl in H.
  apply lookup_insert_Some in H as [[<- <-]|[_ H]];
    [|apply lookup_insert_Some in H as [[<- <-]|[_ H]];
      [|apply lookup_insert_Some in H as [[<- <-]|[_ H]]; [|by rewrite lookup_empty in H]]].
  - exists (cfg3 1), empty_durable, (mkHard 0 0 0). split; [apply the_Ok|]. by vm_compute.
  - exists (cfg3 2), empty_durable, (mkHard 0 0 0). split; [apply the_Ok|]. by vm_compute.
  - exists (cfg3 3), empty_durable, (mkHard 0 0 0). split; [apply the_Ok|]. by vm_compute.
Qed.

(** ** Messages of the scripts *)

Definition hup : Message := mkmsg MsgHup.
Definition vote_msg (t : MessageType) (from to_ term idx logterm : Z) : Message :=
  (mkmsg t) <| m_From := from |> <| m_To := to_ |> <| m_Term := term |>
            <| m_Index := idx |> <| m_LogTerm := logterm |>.
Definition resp_msg (t : MessageType) (from to_ term : Z) : Message :=
  (mkmsg t) <| m_From := from |> <| m_To := to_ |> <| m_Term := term |>.

(** Node [i] is elected in term [term] with the vote of node [k]; both logs end at
    [(idx, logterm)]. *)
Definition elect (i k term idx logterm : Z) : list (action (St:=DurableStorage)) :=
  [ Local i hup; Emit i;
    Deliver k (vote_msg MsgPreVote i k term idx logterm); Emit k;
    Deliver i (resp_msg MsgPreVoteResp k i term); Emit i;
    Deliver k (vote_msg MsgVote i k term idx logterm); Emit k;
    Deliver i (resp_msg MsgVoteResp k i term) ].

Definition leaders (c : Cluster DurableStorage) : list (Z * Z) :=
  omap (fun '(i, r) => if decide (r_state r = Leader) then Some (i, r_term r) else None)
    (map_to_list (nodes c)).

Definition run_leaders (strict : bool) acts : option (list (Z * Z)) :=
  leaders <$> run (RT:=rt0) strict acts cluster3.

(** Node 1 elected by node 2 in term 1. *)
Definition elected : Cluster DurableStorage :=
  default cluster3 (run (RT:=rt0) true (elect 1 2 1 0 0) cluster3).
Definition elected1 : DRaft := default node1 (nodes elected !! 1).

Lemma elected_run : run (RT:=rt0) true (elect 1 2 1 0 0) cluster3 = Some elected.
Proof. vm_compute. reflexivity. Qed.

Lemma elected1_lookup : nodes elected !! 1 = Some elected1.
Proof. vm_compute. reflexivity. Qed.

(** ** An old message makes two leaders

    Node 2 leads term 1; its first append to node 1 is delivered again later. *)
Definition noop1 : Entry := mkEntry 1 1 [].
Definition old_append (to_ : Z) : Message :=
  (mkmsg MsgApp) <| m_From := 2 |> <| m_To := to_ |> <| m_Term := 1 |> <| m_Entries := [noop1] |>.

Definition stale_script : list (action (St:=DurableStorage)) :=
  elect 2 3 1 0 0 ++
  [ Emit 2; Deliver 1 (old_append 1); Deliver 3 (old_append 3);
    (* node 1 campaigns for term 2 and gets node 2's vote, not yet delivered *)
    Local 1 hup; Emit 1; Deliver 3 (vote_msg MsgPreVote 1 3 2 1 1); Emit 3;
    Deliver 1 (resp_msg MsgPreVoteResp 3 1 2); Emit 1;
    Deliver 2 (vote_msg MsgVote 1 2 2 1 1); Emit 2;
    (* the old append: node 1 falls back to term 1 and forgets its vote *)
    Deliver 1 (old_append 1) ] ++
  elect 3 1 2 1 1 ++
  (* again, then node 1 resumes its candidacy and counts node 2's vote *)
  [ Local 1 hup; Deliver 1 (old_append 1); Local 1 hup;
    Deliver 1 (resp_msg MsgPreVoteResp 3 1 2);
    Deliver 1 (resp_msg MsgVoteResp 2 1 2) ].

Definition stale_end : Cluster DurableStorage :=
  default cluster3 (run (RT:=rt0) false stale_script cluster3).

Lemma stale_run : run (RT:=rt0) false stale_script cluster3 = Some stale_end.
Proof. vm_compute. reflexivity. Qed.

(** ** A read answered by a deposed leader

    Node 1 leads term 1 and node 2 acknowledges its first entry; before the
    acknowledgement arrives, node 2 is elected for term 2 and commits a write. *)
Definition app_msg (from to_ term idx logterm commit : Z) (ents : list Entry) : Message :=
  (mkmsg MsgApp) <| m_From := from |> <| m_To := to_ |> <| m_Term := term |>
    <| m_Index := idx |> <| m_LogTerm := logterm |> <| m_Commit := commit |> <| m_Entries := ents |>.
Definition ack_msg (from to_ term idx logterm : Z) : Message :=
  (mkmsg MsgAppResp) <| m_From := from |> <| m_To := to_ |> <| m_Term := term |>
    <| m_Index := idx |> <| m_LogTerm := logterm |>.
Definition propose (data : bytes) : Message := (mkmsg MsgProp) <| m_Entries := [mkEntry 0 0 data] |>.
Definition read_request (ctx : bytes) : Message := (mkmsg MsgReadIndex) <| m_Context := ctx |>.

Definition a_write : bytes := PutUint64 7.

Definition overtake_script : list (action (St:=DurableStorage)) :=
  elect 1 2 1 0 0 ++
  [ Emit 1; Deliver 2 (app_msg 1 2 1 0 0 0 [noop1]); Emit 2; Deliver 3 (app_msg 1 3 1 0 0 0 [noop1]) ] ++
  elect 2 3 2 1 1 ++
  [ Emit 2; Deliver 2 (ack_msg 2 2 2 2 0);
    Deliver 3 (app_msg 2 3 2 1 1 0 [mkEntry 2 2 []]); Emit 3; Deliver 2 (ack_msg 3 2 2 2 2);
    Local 2 (propose a_write); Emit 2; Deliver 2 (ack_msg 2 2 2 3 0);
    Deliver 3 (app_msg 2 3 2 2 2 2 [mkEntry 3 2 a_write]); Emit 3; Deliver 2 (ack_msg 3 2 2 3 2) ].

(** Node 1 is asked to read, then gets the acknowledgements of its first entry. *)
Definition late_read_script (ctx : bytes) : list (action (St:=DurableStorage)) :=
  [ Local 1 (read_request ctx); Deliver 1 (ack_msg 1 1 1 1 0); Deliver 1 (ack_msg 2 1 1 1 1) ].

Definition overtaken : Cluster DurableStorage :=
  default cluster3 (run (RT:=rt0) true overtake_script cluster3).

Lemma overtaken_run : run (RT:=rt0) true overtake_script cluster3 = Some overtaken.
Proof. vm_compute. reflexivity. Qed.

(** ** Two nodes commit different entries *)

(** Node 1 leads term 1 and sends a write that is delayed.  Node 2 is elected for term 2
    and commits a write that node 3 acknowledges.  The delayed append reaches node 3,
    and node 1 is elected for term 3. *)
Definition other_write : bytes := PutUint64 8.

Definition commit_script : list (action (St:=DurableStorage)) :=
  elect 1 2 1 0 0 ++
  [ Emit 1; Deliver 2 (app_msg 1 2 1 0 0 0 [noop1]); Emit 2; Deliver 3 (app_msg 1 3 1 0 0 0 [noop1]);
    Local 1 (propose other_write); Emit 1 ] ++
  elect 2 3 2 1 1 ++
  [ Deliver 1 (vote_msg MsgVote 2 1 2 1 1); Local 2 (propose a_write); Emit 2;
    Deliver 2 (ack_msg 2 2 2 2 0); Deliver 2 (ack_msg 2 2 2 3 0);
    Deliver 3 (app_msg 2 3 2 1 1 0 [mkEntry 2 2 []; mkEntry 3 2 a_write]); Emit 3;
    Deliver 2 (ack_msg 3 2 2 3 2) ].

Definition diverge_script : list (action (St:=DurableStorage)) :=
  Deliver 3 (app_msg 1 3 1 0 0 0 [noop1; mkEntry 2 1 other_write]) ::
  elect 1 3 3 2 1 ++
  [ Emit 1; Deliver 1 (ack_msg 1 1 3 3 0); Deliver 3 (app_msg 1 3 3 2 1 0 [mkEntry 3 3 []]); Emit 3;
    Deliver 1 (ack_msg 3 1 3 3 3) ].

Definition diverged : Cluster DurableStorage :=
  default cluster3 (run (RT:=rt0) true (commit_script ++ diverge_script) cluster3).

Lemma diverged_run : run (RT:=rt0) true (commit_script ++ diverge_script) cluster3 = Some diverged.
Proof. vm_compute. reflexivity. Qed.

(** Within one term: node 1 leads and sends two writes, each with all that came before;
    node 2 gets the longer message first, then the shorter one. *)
Definition reorder_script : list (action (St:=DurableStorage)) :=
  elect 1 2 1 0 0 ++
  [ Local 1 (propose other_write); Emit 1; Local 1 (propose a_write); Emit 1;
    Deliver 1 (ack_msg 1 1 1 1 0); Deliver 1 (ack_msg 1 1 1 2 0); Deliver 1 (ack_msg 1 1 1 3 0);
    Deliver 2 (app_msg 1 2 1 0 0 0 [noop1; mkEntry 2 1 other_write; mkEntry 3 1 a_write]); Emit 2;
    Deliver 1 (ack_msg 2 1 1 3 1);
    Deliver 2 (app_msg 1 2 1 0 0 0 [noop1; mkEntry 2 1 other_write]);
    Deliver 3 (app_msg 1 3 1 0 0 0 [noop1; mkEntry 2 1 other_write]) ] ++
  elect 2 3 2 2 1 ++
  [ Emit 2; Deliver 2 (ack_msg 2 2 2 3 0); Deliver 3 (app_msg 2 3 2 2 1 0 [mkEntry 3 2 []]); Emit 3;
    Deliver 2 (ack_msg 3 2 2 3 2) ].

Definition reordered : Cluster DurableStorage :=
  default cluster3 (run (RT:=rt0) true reorder_script cluster3).

Lemma reordered_run : run (RT:=rt0) true reorder_script cluster3 = Some reordered.
Proof. vm_compute. reflexivity. Qed.

(** ** Deciding the invariants on concrete nodes *)

Fixpoint contigb (start : Z) (l : list Entry) : bool :=
  match l with
  | [] => true
  | e :: l => (e_Index e =? start) && contigb (start + 1) l
  end.

Lemma contigb_spec start l : contigb start l = true -> contig start l.
Proof.
  revert start. induction l as [|e l IH]; intros start; [intros _; apply contig_nil|]. cbn [contigb].
  intros H. to_prop. apply contig_cons. by split; [|apply IH].
Qed.

Definition durable_okb (s : DurableStorage) : bool :=
  contigb (d_boundary s + 1) (d_entries s) && (0 <=? d_boundary s) &&
  (d_boundary s + len (d_entries s) <? MaxIndex).

Definition raftLog_okb (l : raftLog DurableStorage) : bool :=
  durable_okb (l_storage l) &&
  contigb (u_offset (l_unstable l)) (u_entries (l_unstable l)) &&
  (log_base l <? u_offset (l_unstable l)) && (u_offset (l_unstable l) <=? st_last (l_storage l) + 1) &&
  ((0 <? len (u_entries (l_unstable l))) || (u_offset (l_unstable l) =? st_last (l_storage l) + 1)) &&
  (u_offset (l_unstable l) + len (u_entries (l_unstable l)) <=? MaxIndex) &&
  (0 <=? l_applied l) && (l_applied l <=? l_committed l) && (l_committed l <=? log_last l) &&
  (log_base l <=? l_committed l).

Lemma durable_okb_spec s : durable_okb s = true -> durable_ok s.
Proof. unfold durable_okb. intros H. to_prop. split; [by apply contigb_spec|lia]. Qed.

Lemma raftLog_okb_spec l : raftLog_okb l = true -> raftLog_ok l.
Proof.
  unfold raftLog_okb. intros H. to_prop. split; [|lia]. split; [by apply durable_okb_spec|].
  split; [by apply contigb_spec|]. split; [lia|]. split; [|lia]. intros E. rewrite E in *.
  change (len []) with 0 in *. lia.
Qed.

Lemma elected1_log_ok : raftLog_ok (r_raftLog elected1).
Proof. apply raftLog_okb_spec. vm_compute. reflexivity. Qed.

Lemma node1_log_ok : raftLog_ok (r_raftLog node1).
Proof. apply raftLog_okb_spec. vm_compute. reflexivity. Qed.

Ltac closed_goal := vm_compute; repeat split; (reflexivity || discriminate || auto).

Lemma elected1_ok : raft_ok elected1.
Proof.
  split; [split; closed_goal| |closed_goal| |closed_goal|].
  - split; [vm_compute; reflexivity|]. vm_compute. reflexivity.
  - split; [split|split; [|split]]; vm_compute; reflexivity || discriminate.
  - apply readOnly_ok_new.
Qed.

(** ** More nodes at work *)

(** Node 2 after the election of node 1, a follower of term 1. *)
Definition follower2 : DRaft := default node2 (nodes elected !! 2).

(** Node 1 with its first entry acknowledged by itself, and after node 2
    acknowledges it too. *)
Definition acked : Cluster DurableStorage :=
  default cluster3 (run (RT:=rt0) true
    (elect 1 2 1 0 0 ++ [ Emit 1; Deliver 2 (app_msg 1 2 1 0 0 0 [noop1]); Emit 2; Deliver 1 (ack_msg 1 1 1 1 0) ])
    cluster3).
Definition leader1 : DRaft := default node1 (nodes acked !! 1).
(** The node after a step. *)
Definition after_step (m : Message) (r : DRaft) : DRaft :=
  match Raft_Step (RT:=rt0) m r with Ok (r', _) => r' | Panic _ => r end.

Definition leader1_committed : DRaft := after_step (ack_msg 2 1 1 1 1) leader1.

(** The same leader after a read request, which it has acknowledged itself. *)
Definition leader1_read : DRaft := after_step (read_request (BE_PutUint64 5)) leader1_committed.

Definition heartbeat_ack (from to_ term : Z) (ctx : bytes) : Message :=
  (mkmsg MsgHeartbeatResp) <| m_From := from |> <| m_To := to_ |> <| m_Term := term |> <| m_Context := ctx |>.

Ltac prove_raft_ok :=
  split; [split; closed_goal| |closed_goal|split; [split|split; [|split]]; vm_compute; reflexivity || discriminate|closed_goal|];
  [split; vm_compute; reflexivity|].

Lemma leader1_ok : raft_ok leader1.
Proof. prove_raft_ok. apply readOnly_ok_new. Qed.

Lemma leader1_log_ok : raftLog_ok (r_raftLog leader1).
Proof. apply raftLog_okb_spec. vm_compute. reflexivity. Qed.

Lemma leader1_committed_log_ok : raftLog_ok (r_raftLog leader1_committed).
Proof. apply raftLog_okb_spec. vm_compute. reflexivity. Qed.

Lemma follower2_log_ok : raftLog_ok (r_raftLog follower2).
Proof. apply raftLog_okb_spec. vm_compute. reflexivity. Qed.

Lemma leader1_commits : Raft_Step (RT:=rt0) (ack_msg 2 1 1 1 1) leader1 = Ok (leader1_committed, None).
Proof. vm_compute. reflexivity. Qed.

Lemma leader1_reads :
  Raft_Step (RT:=rt0) (read_request (BE_PutUint64 5)) leader1_committed = Ok (leader1_read, None).
Proof. vm_compute. reflexivity. Qed.

Lemma leader1_read_ok : raft_ok leader1_read.
Proof.
  eapply (Step_ok (RT:=rt0)); [exact leader1_reads|].
  eapply (Step_ok (RT:=rt0)); [exact leader1_commits|apply leader1_ok].
Qed.
