(* ===== verification/LogMatching.v ===== *)
(** * LogMatching: logs that share an entry share everything below it

    [reigns] is a ghost register: for each term that had a leader, who led it and
    the log the leader had (has).  A leader only appends, so the log of a term only
    grows; every append message carries a piece of the log of its term; and every
    log of every node is rooted in the register: each entry, with all that is below
    it, is in the log of the entry's term.  Two logs with an entry of one term at
    one index are then both equal to that term's log up to there.

    The argument needs election safety (Cluster), and holds however the network
    reorders appends, old terms included. *)

From S2P Require Export Cluster RaftSafety.

Abbreviation reigns := (gmap Z (Z * list Entry)).

(** Each entry of [L], with everything below it, is in the log of its term. *)
Definition rooted (C : reigns) (L : list Entry) : Prop :=
  forall k e, L !! k = Some e ->
  exists j T, C !! e_Term e = Some (j, T) /\ take (S k) T = take (S k) L.

(** The register grows: node [i] may add its own reigns and extend them. *)
Definition reigns_ext (i : Z) (C C' : reigns) : Prop :=
  (forall t j T, C !! t = Some (j, T) ->
   exists T', C' !! t = Some (j, T') /\ T `prefix_of` T' /\ (j <> i -> T' = T)) /\
  (forall t j T, C' !! t = Some (j, T) -> C !! t = None -> j = i).

(** The term of a log at an index. *)
Definition term_at (T : list Entry) (i : Z) : Z :=
  if i =? 0 then 0 else default 0 (e_Term <$> index T (i - 1)).

(** An append message with entries carries a piece of the log of its term. *)
Definition app_rooted (C : reigns) (m : Message) : Prop :=
  m_Type m = MsgApp -> m_Entries m <> [] ->
  exists j T, C !! m_Term m = Some (j, T) /\ 0 <= m_Index m <= len T /\
    m_LogTerm m = term_at T (m_Index m) /\ m_Entries m `prefix_of` slice_from T (m_Index m).

(** ** The register *)

Lemma reigns_ext_refl i C : reigns_ext i C C.
Proof. split; [by eauto|congruence]. Qed.

Lemma reigns_ext_trans i C1 C2 C3 : reigns_ext i C1 C2 -> reigns_ext i C2 C3 -> reigns_ext i C1 C3.
Proof.
  intros [H1 N1] [H2 N2]. split.
  - intros t j T HT. destruct (H1 _ _ _ HT) as (T1 & HT1 & P1 & E1).
    destruct (H2 _ _ _ HT1) as (T2 & HT2 & P2 & E2). exists T2. split; [done|].
    split; [by etrans|]. intros Hj. by rewrite E2, E1.
  - intros t j T HT Hn. destruct (C2 !! t) as [[j2 T2]|] eqn:E2; [|by eauto].
    destruct (H2 _ _ _ E2) as (T' & HT' & _). assert (j2 = j) as <- by congruence. by eauto.
Qed.

Lemma prefix_take {A : Type} (l k : list A) n :
  l `prefix_of` k -> (n <= length l)%nat -> take n k = take n l.
Proof. intros [x ->] Hn. by rewrite take_app_le. Qed.

(** Equal prefixes have the same entries. *)
Lemma take_S_lookup {A : Type} (l k : list A) n x :
  take (S n) l = take (S n) k -> k !! n = Some x -> l !! n = Some x.
Proof.
  intros E Hk. rewrite <- (lookup_take_lt l (S n) n), E, lookup_take_lt by lia. done.
Qed.

Lemma rooted_ext i C C' L : reigns_ext i C C' -> rooted C L -> rooted C' L.
Proof.
  intros [Hx _] H k e Hk. destruct (H k e Hk) as (j & T & HT & E).
  destruct (Hx _ _ _ HT) as (T' & HT' & HP & _). exists j, T'. split; [done|].
  rewrite (prefix_take T), E; [done|done|].
  pose proof (lookup_lt_Some _ _ _ (take_S_lookup _ _ _ _ E Hk)). lia.
Qed.

Lemma rooted_nil C : rooted C [].
Proof. intros k e H. by rewrite lookup_nil in H. Qed.

Lemma rooted_take C L n : rooted C L -> rooted C (take n L).
Proof.
  intros H k e [Hk Hn]%lookup_take_Some. destruct (H k e Hk) as (j & T & HT & E).
  exists j, T. split; [done|]. rewrite take_take. by replace (Nat.min (S k) n) with (S k) by lia.
Qed.

(** Logs with entries of one term at one place agree up to it. *)
Lemma rooted_agree C L K k e e' :
  rooted C L -> rooted C K -> L !! k = Some e -> K !! k = Some e' -> e_Term e = e_Term e' ->
  take (S k) L = take (S k) K.
Proof.
  intros HL HK Hk Hk' Ht. destruct (HL _ _ Hk) as (j & T & HT & <-).
  destruct (HK _ _ Hk') as (j' & T' & HT' & <-). rewrite Ht in HT. congruence.
Qed.

(** A leader's new entry roots itself. *)
Lemma rooted_snoc C T i e :
  rooted C T -> C !! e_Term e = Some (i, T ++ [e]) -> rooted C (T ++ [e]).
Proof.
  intros H He k x [Hk|[Hlen Hk]]%lookup_app_Some.
  - destruct (H k x Hk) as (j & T' & HT' & E). exists j, T'. split; [done|].
    rewrite take_app_le; [done|]. apply lookup_lt_Some in Hk. lia.
  - apply list_lookup_singleton_Some in Hk as [Hk <-]. by exists i, (T ++ [e]).
Qed.

Lemma term_at_ext T T' i : T `prefix_of` T' -> 0 <= i <= len T -> term_at T' i = term_at T i.
Proof.
  intros [x ->] Hi. unfold term_at. destruct (i =? 0) eqn:E; [done|]. to_prop.
  by rewrite index_app_l by lia.
Qed.

Lemma app_rooted_ext i C C' m : reigns_ext i C C' -> app_rooted C m -> app_rooted C' m.
Proof.
  intros [Hx _] H Ht Hne. destruct (H Ht Hne) as (j & T & HT & Hi & Hl & He).
  destruct (Hx _ _ _ HT) as (T' & HT' & HP & _). exists j, T'. split; [done|].
  split; [destruct HP as [x ->]; rewrite len_app; pose proof (len_nonneg x); lia|].
  split; [by rewrite (term_at_ext T)|]. etrans; [exact He|]. destruct HP as [x ->].
  exists x. unfold slice_from, len in *. rewrite drop_app_le by lia. done.
Qed.

(** What a follower has after it accepts an append that matches is a prefix of the
    log of the append's term. *)
Lemma append_prefix C L m j T :
  rooted C L -> rooted C T -> C !! m_Term m = Some (j, T) ->
  0 <= m_Index m <= len T -> m_Index m <= len L ->
  term_at L (m_Index m) = term_at T (m_Index m) ->
  m_Entries m `prefix_of` slice_from T (m_Index m) ->
  exists n, slice_to L (m_Index m) ++ m_Entries m = take n T.
Proof.
  intros HL HT Hj Hi HiL Htm [x Hx]. exists (Z.to_nat (m_Index m) + length (m_Entries m))%nat.
  assert (slice_to L (m_Index m) = slice_to T (m_Index m)) as ->.
  { unfold slice_to. destruct (decide (m_Index m = 0)) as [-> | Hne]; [done|].
    unfold term_at in Htm. rewrite (proj2 (Z.eqb_neq _ _) Hne) in Htm.
    destruct (index_is_Some L (m_Index m - 1)) as [e He]; [lia|].
    destruct (index_is_Some T (m_Index m - 1)) as [e' He']; [lia|].
    rewrite He, He' in Htm. simpl in Htm. unfold index in He, He'. rewrite decide_True in He, He' by lia.
    replace (Z.to_nat (m_Index m)) with (S (Z.to_nat (m_Index m - 1))) by lia.
    by eapply rooted_agree. }
  rewrite <- take_take_drop. unfold slice_to, slice_from in *. f_equal. by rewrite Hx, take_app_length.
Qed.

(** ** One node *)

Section node.
Context {RT : Runtime} {St : Type} {SS : Storage St} {SP : StorageSpec St}.
Variable V : MajorityConfig.
Implicit Types r : Raft St.
Implicit Types m : Message.
Implicit Types l : raftLog St.

(** Every reign was won with a quorum of recorded votes. *)
Definition won_by (b : book) (t j : Z) : Prop :=
  exists vs, MajorityConfig_VoteResult V vs = VoteWon /\
             forall k, vs !! k = Some true -> b !! (k, t) = Some j.

Record reigns_ok (b : book) (C : reigns) : Prop := {
  rg_won t j T : C !! t = Some (j, T) -> won_by b t j;
  rg_rooted t j T : C !! t = Some (j, T) -> rooted C T;
  rg_contig t j T : C !! t = Some (j, T) -> contig 1 T /\ len T < MaxIndex
}.

(** A log that starts at index 1 and is rooted in the register. *)
Record log_rooted (C : reigns) (l : raftLog St) : Prop := {
  lr_ok : raftLog_ok l;
  lr_base : log_base l = 0;
  lr_rooted : rooted C (log_view l)
}.

Definition next_ok (t : ProgressTracker) : Prop :=
  forall id p, progress t !! id = Some p -> is_u64 (NextIndex p).

Record log_inv (C : reigns) (i : Z) (r : Raft St) : Prop := {
  li_log : log_rooted C (r_raftLog r);
  li_next : next_ok (r_trk r);
  li_lead : r_state r = Leader -> C !! r_term r = Some (i, log_view (r_raftLog r));
  li_led t T : C !! t = Some (i, T) -> t <= r_term r /\ (r_term r = t -> r_state r <> Candidate);
  li_out m : m ∈ r_messages r ++ r_msgsAfterAppend r -> app_rooted C m
}.

(** The register after a transition to [r]: as before, or with the log of [r] as the log
    of the term it leads. *)
Definition reign_step (i : Z) (C C' : reigns) (r : Raft St) : Prop :=
  C' = C \/ (r_state r = Leader /\ C' = <[ r_term r := (i, log_view (r_raftLog r)) ]> C).

(** *** What the register needs of the nodes *)

Lemma log_rooted_ext i C C' l : reigns_ext i C C' -> log_rooted C l -> log_rooted C' l.
Proof. intros Hx []. split; [done..|]. by eapply rooted_ext. Qed.

(** Other nodes' reigns do not disturb a node. *)
Lemma log_inv_ext i j C C' r : i <> j -> reigns_ext i C C' -> log_inv C j r -> log_inv C' j r.
Proof.
  intros Hij Hx []. split.
  - by eapply log_rooted_ext.
  - done.
  - intros Hl. destruct (proj1 Hx _ _ _ (li_lead0 Hl)) as (T' & HT' & _ & E). by rewrite HT', E by done.
  - intros t T HT. destruct (C !! t) as [[j' T']|] eqn:E; [|by specialize (proj2 Hx _ _ _ HT E)].
    destruct (proj1 Hx _ _ _ E) as (T2 & HT2 & _). assert (j' = j) as -> by congruence. by eapply li_led0.
  - intros m Hm. eapply app_rooted_ext; eauto.
Qed.

Lemma won_by_mono b b' t j : b ⊆ b' -> won_by b t j -> won_by b' t j.
Proof. intros Hb (vs & Hw & Hv). exists vs. split; [done|]. intros k Hk. eapply book_lookup; eauto. Qed.

Lemma reigns_ok_mono b b' C : b ⊆ b' -> reigns_ok b C -> reigns_ok b' C.
Proof. intros Hb []. split; [|done..]. intros t j T HT. eapply won_by_mono; eauto. Qed.

Lemma won_by_agree b t i j : V <> ∅ -> won_by b t i -> won_by b t j -> i = j.
Proof.
  intros HV (v1 & W1 & B1) (v2 & W2 & B2).
  destruct (won_tallies_meet V v1 v2) as (k & _ & K1 & K2); [done..|].
  specialize (B1 k K1). specialize (B2 k K2). congruence.
Qed.

(** A leader that takes office in a term nobody has led. *)
Lemma reign_starts b C t i l :
  C !! t = None -> reigns_ok b C -> won_by b t i -> log_rooted C l ->
  let C' := <[ t := (i, log_view l) ]> C in reigns_ext i C C' /\ reigns_ok b C'.
Proof.
  intros Hn Hok Hw [Hl Hb Hr] C'.
  assert (reigns_ext i C C') as Hx.
  { split.
    - intros t' j T HT. exists T. split; [|done]. subst C'. rewrite lookup_insert_ne; [done|]. congruence.
    - intros t' j T [[<- [= <- <-]]|[_ HT]]%lookup_insert_Some Hn'; [done|congruence]. }
  split; [done|]. destruct Hok. split.
  - intros t' j T [[<- [= <- <-]]|[_ HT]]%lookup_insert_Some; eauto.
  - intros t' j T [[<- [= <- <-]]|[_ HT]]%lookup_insert_Some; eapply rooted_ext; eauto.
  - intros t' j T [[<- [= <- <-]]|[_ HT]]%lookup_insert_Some; [|by eauto].
    destruct Hl as (Hwf & _). pose proof (log_view_contig l Hwf) as Hc. rewrite Hb in Hc. split; [done|].
    pose proof (log_last_bounds l Hwf). unfold log_last in *. rewrite Hb in *. lia.
Qed.

(** A leader that appends an entry of its term. *)
Lemma reign_grows b C t i T e :
  C !! t = Some (i, T) -> e_Term e = t -> e_Index e = len T + 1 -> len T + 1 < MaxIndex -> reigns_ok b C ->
  let C' := <[ t := (i, T ++ [e]) ]> C in reigns_ext i C C' /\ reigns_ok b C'.
Proof.
  intros HT He Hi Hmax Hok C'.
  assert (reigns_ext i C C') as Hx.
  { split.
    - intros t' j T' HT'. destruct (decide (t' = t)) as [-> | Hne].
      + assert (j = i /\ T' = T) as [-> ->] by (split; congruence). exists (T ++ [e]).
        subst C'. rewrite lookup_insert_eq. split; [done|]. split; [by exists [e]|done].
      + exists T'. subst C'. by rewrite lookup_insert_ne by done.
    - intros t' j T' [[<- [= <- <-]]|[_ HT']]%lookup_insert_Some Hn; [done|congruence]. }
  split; [done|]. destruct Hok. split.
  - intros t' j T' [[<- [= <- <-]]|[_ HT']]%lookup_insert_Some; eauto.
  - intros t' j T' [[<- [= <- <-]]|[_ HT']]%lookup_insert_Some; [|eapply rooted_ext; eauto].
    eapply rooted_snoc; [eapply rooted_ext; eauto|]. subst C'. rewrite He. apply lookup_insert_eq.
  - intros t' j T' [[<- [= <- <-]]|[_ HT']]%lookup_insert_Some; [|by eauto].
    destruct (rg_contig0 _ _ _ HT) as [Hc _]. rewrite len_app, len_cons, len_nil. split; [|lia].
    apply contig_app. split; [done|]. apply contig_cons. split; [lia|apply contig_nil].
Qed.

(** *** What a follower accepts *)

Lemma view_term_at C l i t :
  log_rooted C l -> 0 <= i -> view_term i l = Some t -> term_at (log_view l) i = t.
Proof.
  intros [_ Hb _] Hi. unfold view_term, term_at. rewrite Hb. destruct (i =? 0); [by intros [= ->]|].
  rewrite Z.sub_0_r. by intros ->.
Qed.

(** [appendEntries] leaves no gap. *)
Lemma append_no_gap m l l' :
  raftLog_ok l -> contig (m_Index m + 1) (m_Entries m) -> m_Entries m <> [] ->
  0 <= m_Index m < MaxIndex -> raftLog_appendEntries (m_Entries m) l = Ok l' -> m_Index m <= log_last l.
Proof.
  intros (Hwf & _ & _ & _) Hc Hne Hi. pose proof (log_last_eq l Hwf) as Hl.
  pose proof (log_base_nonneg l Hwf). destruct Hwf as (_ & _ & Ho & _ & Hmax).
  pose proof (len_nonneg (u_entries (l_unstable l))).
  unfold raftLog_appendEntries, unstable_truncateAndAppend.
  destruct (m_Entries m) as [|e0 es]; [done|]. apply contig_cons in Hc as [He _]. cbn [head].
  destruct (_ <? l_committed l); [done|]. rewrite He. intros (u & Hu & _)%bind_Ok.
  destruct (_ <=? u_offset _) eqn:E1; to_prop; [lia|].
  rewrite (wrap64_id (_ + len _)) in Hu by (unfold is_u64; lia).
  destruct (_ =? _) eqn:E2; to_prop; [lia|]. rewrite wrap64_sub_id in Hu by lia.
  destruct (_ <? _) eqn:E3; to_prop; [done|lia].
Qed.

Lemma append_rooted b C m l l' :
  reigns_ok b C -> log_rooted C l -> m_Type m = MsgApp -> app_rooted C m ->
  raftLog_matchTerm (m_Index m) (m_LogTerm m) l = Ok true ->
  raftLog_appendEntries (m_Entries m) l = Ok l' -> log_rooted C l'.
Proof.
  intros Hg Hl Ht Hm Hmt Ha. destruct (decide (m_Entries m = [])) as [E|Hne].
  { rewrite E in Ha. by injection Ha as <-. }
  destruct (Hm Ht Hne) as (j & T & HT & Hi & Hlt & He).
  destruct (rg_contig _ _ Hg _ _ _ HT) as [Hc Hmax]. pose proof Hl as [Hok Hb Hr].
  assert (contig (m_Index m + 1) (m_Entries m) /\ m_Index m + len (m_Entries m) <= len T) as [Hce Hle].
  { destruct He as [x Hx]. split.
    - assert (contig (1 + Z.of_nat (Z.to_nat (m_Index m))) (m_Entries m ++ x)) as Hcx.
      { rewrite <- Hx. apply contig_drop; [unfold len in *; lia|done]. }
      apply contig_app in Hcx as [Hcx _]. by replace (m_Index m + 1) with (1 + Z.of_nat (Z.to_nat (m_Index m))) by lia.
    - apply (f_equal len) in Hx. rewrite len_app in Hx. unfold slice_from, len in *.
      rewrite length_drop in Hx. lia. }
  pose proof (len_nonneg (m_Entries m)).
  assert (m_Index m <= log_last l) as Hin by (eapply append_no_gap; eauto; lia).
  apply append_log in Ha as (Hok' & Hst & Hv); [|done..|intros _; split_and!; (done || lia)].
  assert (log_base l' = 0) as Hb' by (unfold log_base, log_snap in *; by rewrite Hst).
  split; [done..|]. destruct Hv as [[? _]|[_ Hv]]; [done|]. rewrite Hv, Hb, Z.sub_0_r.
  rewrite raftLog_matchTerm_view in Hmt by (apply Hok || rewrite Hb; lia). injection Hmt as Hmt%bool_decide_eq_true.
  destruct (append_prefix C (log_view l) m j T) as [n ->]; try done.
  - by eapply rg_rooted.
  - unfold log_last in Hin. lia.
  - rewrite <- Hlt. eapply view_term_at; [done|lia|done].
  - apply rooted_take. by eapply rg_rooted.
Qed.

(** *** What a leader sends *)

Lemma append_built_rooted C i r m' :
  log_inv C i r -> r_state r = Leader -> append_built r m' ->
  app_rooted C (m' <| m_Term := r_term r |>).
Proof.
  intros Hi Hl (_ & _ & to_ & p & Hp & Hix & Ht & Hs) _ Hne. simpl in *.
  pose proof (li_next _ _ _ Hi _ _ Hp) as Hn. unfold is_u64 in Hn.
  pose proof (li_log _ _ _ Hi) as Hlr. destruct (lr_ok _ _ Hlr) as (Hwf & _).
  pose proof (lr_base _ _ Hlr) as Hb. pose proof (log_last_bounds _ Hwf) as Hlast. rewrite Hb in Hlast.
  rewrite raftLog_lastIndex_view, wrap64_succ_id in Hs by (done || lia).
  assert (1 <= NextIndex p <= log_last (r_raftLog r) + 1) as Hin.
  { split.
    - destruct (decide (NextIndex p = 0)) as [E|]; [|lia]. exfalso. rewrite Hix, E in Ht.
      change (0 -u 1) with (2 ^ 64 - 1) in Ht. unfold raftLog_term in Ht.
      rewrite maybeTerm_out in Ht by (done || lia). pose proof Hwf as (Hst & _).
      pose proof (st_last_bounds _ Hst). rewrite (st_Term _ _ Hst) in Ht. unfold st_last in *. simpl in Ht.
      rewrite (proj2 (Z.ltb_ge _ _)), (proj2 (Z.ltb_lt _ _)) in Ht by lia. done.
    - destruct (decide (NextIndex p <= log_last (r_raftLog r) + 1)); [done|]. exfalso.
      unfold raftLog_slice in Hs. rewrite (proj2 (Z.leb_le _ _)) in Hs by lia. congruence. }
  rewrite wrap64_pred_id in Hix by lia.
  exists i, (log_view (r_raftLog r)). split; [by apply (li_lead _ _ _ Hi)|].
  assert (log_last (r_raftLog r) = len (log_view (r_raftLog r))) as El by (unfold log_last; lia).
  split; [lia|]. split.
  - destruct (raftLog_term_view (m_Index m') _ Hwf) as (t & Hv & E); [lia|].
    assert (t = m_LogTerm m') as <- by congruence. symmetry. eapply view_term_at; [done|lia|done].
  - rewrite raftLog_slice_view in Hs by (done || lia). injection Hs as <-. rewrite Hb, Hix.
    unfold slice, slice_from. replace (NextIndex p - 0 - 1) with (NextIndex p - 1) by lia.
    rewrite take_ge; [done|]. rewrite length_drop. unfold len in *. lia.
Qed.

(** *** The transitions of a node *)

Lemma Raft_send_append m r r' :
  Raft_send m r = Ok r' ->
  exists mo, m_Type mo = m_Type m /\
    (m_Type m = MsgApp -> m_Term mo = r_term r /\ m_Index mo = m_Index m /\
                          m_LogTerm mo = m_LogTerm m /\ m_Entries mo = m_Entries m) /\
    (r' = r <| r_messages ::= fun q => q ++ [mo] |> \/
     r' = r <| r_msgsAfterAppend ::= fun q => q ++ [mo] |>).
Proof.
  unfold Raft_send. intros (m1 & H1 & H2)%bind_Ok.
  set (m0 := if m_From m =? NoneID then m <| m_From := r_id r |> else m) in *.
  assert (m_Type m0 = m_Type m /\ m_Index m0 = m_Index m /\ m_LogTerm m0 = m_LogTerm m /\
          m_Entries m0 = m_Entries m) as (E1 & E2 & E3 & E4) by (subst m0; by destruct (_ =? _)).
  clearbody m0. rewrite <- E1, <- E2, <- E3, <- E4. exists m1.
  assert (m_Type m1 = m_Type m0 /\ (m_Type m0 = MsgApp -> m1 = m0 <| m_Term := r_term r |>)) as [F1 F2].
  { destruct (is_vote_msg (m_Type m0)) eqn:Ev.
    - destruct (m_Term m0 =? 0); inv_res. split; [done|]. intros E. by rewrite E in Ev.
    - destruct (m_Type m0) eqn:Et; inv_res; by split. }
  split; [done|]. split; [intros Ha; by rewrite (F2 Ha)|].
  destruct (waits_for_append _); inv_res; auto.
Qed.

Lemma coherent_leader r : coherent r -> r_step r = StepLeader -> r_state r = Leader.
Proof. intros [Hc _] Hs. rewrite Hs in Hc. by destruct (r_state r). Qed.

Lemma send_log s0 C i m m' r r' :
  log_inv C i r -> coherent r -> send_ok s0 m r m' -> Raft_send m' r = Ok r' -> log_inv C i r'.
Proof.
  intros Hi Hc (_ & _ & Ha) Hs. apply Raft_send_append in Hs as (mo & Ht & Hf & Hr').
  assert (app_rooted C mo) as Hmo.
  { intros Hm Hne. rewrite Ht in Hm. destruct (Hf Hm) as (F1 & F2 & F3 & F4).
    unfold built in Ha. rewrite Hm in Ha.
    pose proof (append_built_rooted C i r m' Hi (coherent_leader r Hc (proj1 Ha)) Ha) as H.
    unfold app_rooted in H. simpl in H. rewrite F1, F2, F3, F4. rewrite F4 in Hne. by apply H. }
  destruct Hi. destruct Hr' as [-> | ->]; split; try done; simpl.
  - intros mx Hx. rewrite !elem_of_app, list_elem_of_singleton in Hx.
    destruct Hx as [[?| ->]|?]; [|done|]; apply li_out0; set_solver.
  - intros mx Hx. rewrite !elem_of_app, list_elem_of_singleton in Hx.
    destruct Hx as [?|[?| ->]]; [| |done]; apply li_out0; set_solver.
Qed.

(** A transition that adds no message and does not make a leader. *)
Lemma log_inv_keep C i r r' :
  log_inv C i r -> log_rooted C (r_raftLog r') -> next_ok (r_trk r') ->
  r_messages r' = r_messages r -> r_msgsAfterAppend r' = r_msgsAfterAppend r ->
  (r_state r' = Leader -> C !! r_term r' = Some (i, log_view (r_raftLog r'))) ->
  r_term r < r_term r' \/
    (r_term r <= r_term r' /\ (r_state r' = Candidate -> r_state r = Candidate)) ->
  log_inv C i r'.
Proof.
  intros [] Hl Hn Hm Ha Hld Ht. split; [done..| |by rewrite Hm, Ha].
  intros t T HT. destruct (li_led0 t T HT) as [Hle Hc]. split; [lia|].
  intros E Hs. destruct Ht as [?|[? Ht]]; [lia|]. apply Hc; [lia|by apply Ht].
Qed.

(** A transition that leaves term, state, log and outbox alone. *)
Lemma log_inv_same C i r r' :
  log_inv C i r -> r_raftLog r' = r_raftLog r -> next_ok (r_trk r') ->
  r_messages r' = r_messages r -> r_msgsAfterAppend r' = r_msgsAfterAppend r ->
  r_state r' = r_state r -> r_term r' = r_term r -> log_inv C i r'.
Proof.
  intros Hi El Hn Hm Ha Es Et. apply (log_inv_keep C i r); try done.
  - rewrite El. apply Hi.
  - rewrite El, Es, Et. apply Hi.
  - right. rewrite Es, Et. by split.
Qed.

Lemma next_ok_reset r : next_ok (reset_trk r).
Proof.
  intros id p. unfold reset_trk. rewrite Visit_lookup. intros (q & _ & ->)%fmap_Some.
  apply wrap64_range.
Qed.

(** Updates leave the next index alone or compute it in [uint64]. *)
Lemma next_ok_update id f t :
  (forall p, is_u64 (NextIndex p) -> is_u64 (NextIndex (f p))) -> next_ok t -> next_ok (update_progress id f t).
Proof.
  intros Hf Ht k p. simpl. rewrite lookup_alter_Some. intros [(-> & q & Hq & ->)|[_ Hp]]; [|by eauto].
  apply Hf. by eauto.
Qed.

Lemma next_ok_progress m r id f t :
  progress_update m r id f -> next_ok t -> next_ok (update_progress id f t).
Proof.
  intros Hf. apply next_ok_update. intros p Hp. destruct Hf as [Hf|(_ & _ & _ & _ & Hf)].
  - destruct (Hf p) as [_ [-> | ->]]; [done|apply wrap64_range].
  - destruct (Hf p) as [_ ->]. apply wrap64_range.
Qed.

Lemma next_ok_visit f t :
  (forall id p, NextIndex (f id p) = NextIndex p) -> next_ok t -> next_ok (ProgressTracker_Visit f t).
Proof.
  intros Hf Ht k p. rewrite Visit_lookup. intros (q & Hq & ->)%fmap_Some. rewrite Hf. by eauto.
Qed.

Lemma follower_log C i t lead r : log_inv C i r -> r_term r <= t -> log_inv C i (Raft_becomeFollower t lead r).
Proof.
  intros Hi Ht. rewrite Raft_becomeFollower_eq. apply (log_inv_keep C i r); try done; simpl.
  - apply Hi.
  - apply next_ok_reset.
  - by right.
Qed.

(** The same term, state and log view, and a log that is still well formed. *)
Lemma view_kept_log C i r l' :
  log_inv C i r -> raftLog_ok l' -> log_base l' = 0 -> log_view l' = log_view (r_raftLog r) ->
  log_inv C i (r <| r_raftLog := l' |>).
Proof.
  intros Hi Hok Hb Hv. apply (log_inv_keep C i r); try done; simpl.
  - split; [done..|]. rewrite Hv. apply Hi.
  - apply Hi.
  - rewrite Hv. apply Hi.
  - right. by split.
Qed.

Lemma commit_log C i k r l' :
  log_inv C i r -> raftLog_commitTo k (r_raftLog r) = Ok l' -> log_inv C i (r <| r_raftLog := l' |>).
Proof.
  intros Hi Hc. destruct (li_log _ _ _ Hi) as [Hok Hb _].
  pose proof (commitTo_view _ _ _ Hc) as Hv. apply raftLog_commitTo_ok in Hc as (? & _ & Hst & _); [|done].
  apply view_kept_log; try done. unfold log_base, log_snap in *. by rewrite Hst.
Qed.

(** Taking office: nobody has led the term, since two winners share a voter and the
    node itself is still a candidate of it. *)
Lemma leader_log b b' C i r r' :
  reigns_ok b C -> b ⊆ b' -> log_inv C i r -> r_state r = Candidate -> node_inv V b' i r' ->
  r_state r' = Leader -> r_term r' = r_term r -> r_raftLog r' = r_raftLog r ->
  r_messages r' = r_messages r -> r_msgsAfterAppend r' = r_msgsAfterAppend r -> next_ok (r_trk r') ->
  exists C', reign_step i C C' r' /\ reigns_ext i C C' /\ reigns_ok b' C' /\ log_inv C' i r'.
Proof.
  intros Hg Hb Hi Hc Hn Es Et El Em Ea Hnx.
  pose proof (ni_lead _ _ _ _ Hn Es) as Hw. rewrite Et in Hw. apply reigns_ok_mono with (b' := b') in Hg; [|done].
  assert (C !! r_term r = None) as Hnone.
  { apply eq_None_not_Some. intros [[j T] HT]. assert (j = i) as ->.
    { eapply won_by_agree; [|by eapply rg_won|exact Hw]. pose proof (ni_member _ _ _ _ Hn). set_solver. }
    by destruct (li_led _ _ _ Hi _ _ HT) as [_ []]. }
  destruct (reign_starts b' C (r_term r) i (r_raftLog r) Hnone Hg Hw (li_log _ _ _ Hi)) as [Hx Hg'].
  eexists. split; [right; split; [done|by rewrite Et, El]|]. split; [exact Hx|]. split; [exact Hg'|]. split.
  - rewrite El. eapply log_rooted_ext; [exact Hx|apply Hi].
  - done.
  - intros _. rewrite Et, El. apply lookup_insert_eq.
  - intros t T [[<- _]|[_ HT]]%lookup_insert_Some; [split; [lia|by rewrite Es]|].
    rewrite Et, Es. split; [by eapply (li_led _ _ _ Hi)|done].
  - intros m. rewrite Em, Ea. intros Hm. eapply app_rooted_ext; [exact Hx|by apply Hi].
Qed.

Lemma propose_log_inv b C i d r l' :
  reigns_ok b C -> log_inv C i r -> r_state r = Leader -> room (r_raftLog r) ->
  raftLog_appendEntries [mkEntry (raftLog_lastIndex (r_raftLog r) +u 1) (r_term r) d] (r_raftLog r) = Ok l' ->
  let r' := r <| r_raftLog := l' |> in
  exists C', reign_step i C C' r' /\ reigns_ext i C C' /\ reigns_ok b C' /\ log_inv C' i r'.
Proof.
  intros Hg Hi Hl Hrm Ha r'. pose proof (li_log _ _ _ Hi) as [Hok Hb Hr].
  apply propose_log in Ha as (Hok' & Hv & Hst); [|done..]. unfold room, log_last in *. rewrite Hb in *.
  destruct (reign_grows b C (r_term r) i (log_view (r_raftLog r))
    (mkEntry (0 + len (log_view (r_raftLog r)) + 1) (r_term r) d)) as [Hx Hg'];
    [by apply Hi|done|simpl; lia|lia|done|]. rewrite <- Hv in Hx, Hg'.
  eexists. split; [by right|]. split; [exact Hx|]. split; [exact Hg'|]. pose proof (lookup_insert_eq C (r_term r) (i, log_view l')) as HC.
  split; simpl.
  - split; [done|unfold log_base, log_snap in *; by rewrite Hst|]. by eapply rg_rooted.
  - apply Hi.
  - done.
  - intros t T [[<- _]|[_ HT]]%lookup_insert_Some; [split; [lia|by rewrite Hl]|by eapply (li_led _ _ _ Hi)].
  - intros m Hm. eapply app_rooted_ext; [exact Hx|by apply Hi].
Qed.

(** Every atomic transition keeps the invariant, and extends the register only by
    the node's own reigns. *)
Lemma raft_step_log_inv s0 b b' C i m r r' :
  raft_step s0 m r r' -> node_inv V b i r -> b ⊆ b' -> node_inv V b' i r' ->
  calm m r -> bounded m (r_term s0) -> m_Type m <> MsgSnap -> room (r_raftLog s0) ->
  reigns_ok b C -> app_rooted C m -> log_inv C i r ->
  exists C', reign_step i C C' r' /\ reigns_ext i C C' /\ reigns_ok b' C' /\ log_inv C' i r'.
Proof.
  intros H Hn Hb Hn' Hc Hbd Hns Hrm Hg Hm Hi.
  pose proof (ni_coherent _ _ _ _ Hn) as Hco. pose proof (ni_term _ _ _ _ Hn) as Hpos.
  assert (log_inv C i r' ->
    exists C', reign_step i C C' r' /\ reigns_ext i C C' /\ reigns_ok b' C' /\ log_inv C' i r') as Hkeep.
  { intros Hl. exists C. split; [by left|]. split; [apply reigns_ext_refl|]. split; [by eapply reigns_ok_mono|done]. }
  destruct H; try (apply Hkeep; by apply (log_inv_same C i r); try apply Hi).
  - apply Hkeep. by eapply send_log.
  - apply Hkeep, follower_log; [done|lia].
  - apply Hkeep, follower_log; [done|by apply Hc].
  - apply Hkeep, follower_log; [done|lia].
  - apply Hkeep. apply (log_inv_keep C i r); try done; try apply Hi. by right.
  - apply Hkeep. destruct (Hbd H) as [? ?]. unfold self_vote.
    rewrite Raft_becomeCandidate_eq, wrap64_succ_id by lia.
    apply (log_inv_keep C i r); try done; simpl; try apply Hi; [apply next_ok_reset|lia].
  - eapply leader_log; [exact Hg|exact Hb|exact Hi| |exact Hn'|expand_steps; done..|].
    + destruct Hco as [Hco _]. rewrite H in Hco. by destruct (r_state r).
    + expand_steps. apply (next_ok_update _ _ (reset_trk r)); [done|apply next_ok_reset].
  - unfold same_log in *. assert (room (r_raftLog r)) as Hrm' by (by rewrite H0).
    destruct (propose_log_inv b C i data r l' Hg Hi (coherent_leader r Hco H) Hrm' H1) as (C' & ? & ? & ? & ?).
    exists C'. split; [done|]. split; [done|]. split; [by eapply reigns_ok_mono|done].
  - apply Hkeep. assert (log_rooted C l') as Hl by (eapply append_rooted; eauto; apply Hi).
    apply (log_inv_keep C i r); try done; simpl; [apply Hi| |by right].
    destruct Hco as [Hco _]. rewrite H in Hco. intros E. by rewrite E in Hco.
  - apply Hkeep. by eapply commit_log.
  - apply Hkeep. by eapply commit_log.
  - apply Hkeep. apply (log_inv_same C i r); try done. eapply next_ok_progress; [done|apply Hi].
  - apply Hkeep. apply (log_inv_same C i r); try done. apply next_ok_visit; [intros id p; apply H0|apply Hi].
Qed.

(** The election's invariant and the log's, together. *)
Record sound (b : book) (C : reigns) (i : Z) (r : Raft St) : Prop := {
  sd_node : node_inv V b i r;
  sd_reigns : reigns_ok b C;
  sd_log : log_inv C i r
}.

(** [P] holds of some extension of the two registers. *)
Definition extended (i : Z) (b : book) (C : reigns) (P : book -> reigns -> Prop) : Prop :=
  exists b' C', book_ext i b b' /\ reigns_ext i C C' /\ P b' C'.

Lemma extended_refl (i : Z) (b : book) (C : reigns) (P : book -> reigns -> Prop) : P b C -> extended i b C P.
Proof. intros H. exists b, C. split; [apply book_ext_refl|]. split; [apply reigns_ext_refl|done]. Qed.

Lemma extended_bind (i : Z) (b : book) (C : reigns) (P Q : book -> reigns -> Prop) :
  extended i b C P ->
  (forall b' C', book_ext i b b' -> reigns_ext i C C' -> P b' C' -> extended i b' C' Q) ->
  extended i b C Q.
Proof.
  intros (b1 & C1 & Hb & HC & HP) H. destruct (H b1 C1 Hb HC HP) as (b2 & C2 & Hb2 & HC2 & HQ).
  exists b2, C2. split; [by eapply book_ext_trans|]. split; [by eapply reigns_ext_trans|done].
Qed.

Lemma sound_same b C i r r' :
  same_ballot r r' -> r_raftLog r' = r_raftLog r -> r_trk r' = r_trk r -> sound b C i r -> sound b C i r'.
Proof.
  intros Hs Hl Ht [Hn Hg Hi]. split; [by eapply node_inv_same|done|].
  destruct Hs as (_ & Et & Es & _ & _ & _ & Em & Ea & _). apply (log_inv_same C i r); try done.
  rewrite Ht. apply Hi.
Qed.

Lemma raft_steps_sound s0 b C i m r r' :
  rtc (raft_step s0 m) r r' -> msg_inv b i m -> calm m r -> bounded m (r_term s0) ->
  m_Type m <> MsgSnap -> room (r_raftLog s0) -> app_rooted C m -> sound b C i r ->
  extended i b C (fun b' C' => sound b' C' i r').
Proof.
  intros H. revert b C. induction H as [r|r r1 r2 H1 _ IH]; intros b C Hm Hc Hb Hns Hrm Ha Hs.
  { by apply extended_refl. }
  destruct Hs as [Hn Hg Hi]. destruct (raft_step_inv _ _ _ _ _ _ _ H1 Hn Hm Hc Hb) as (b1 & Hb1 & Hn1).
  destruct (raft_step_log_inv s0 b b1 C i m r r1) as (C1 & _ & HC1 & Hg1 & Hi1); try done; [apply Hb1|].
  apply (extended_bind i b C (fun b' C' => b' = b1 /\ C' = C1)).
  { by exists b1, C1. }
  intros b' C' _ _ [-> ->]. apply IH; try done.
  - eapply msg_inv_mono; [apply Hb1|done].
  - by eapply calm_step.
  - by eapply app_rooted_ext.
Qed.

Lemma Step_sound b C i m r r' e :
  Raft_Step m r = Ok (r', e) -> msg_inv b i m -> calm m r -> bounded m (r_term r) ->
  m_Type m <> MsgSnap -> room (r_raftLog r) -> app_rooted C m -> sound b C i r ->
  extended i b C (fun b' C' => sound b' C' i r').
Proof. intros H%Step_steps. by apply raft_steps_sound. Qed.

Lemma local_sound b C i m r r' e :
  Raft_Step m r = Ok (r', e) -> local_msg m = true -> bounded m (r_term r) -> room (r_raftLog r) ->
  sound b C i r -> extended i b C (fun b' C' => sound b' C' i r').
Proof.
  intros H Hl Hb Hrm Hs. destruct (local_msg_inv b i m r Hl) as [Hm Hc].
  assert (m_Type m <> MsgSnap /\ m_Type m <> MsgApp) as [? ?].
  { unfold local_msg in Hl. to_prop. by destruct (m_Type m). }
  eapply Step_sound; try done. by intros ?.
Qed.

Lemma CheckQuorum_log r r' e :
  Raft_Step (mkmsg MsgCheckQuorum) r = Ok (r', e) -> r_raftLog r' = r_raftLog r.
Proof.
  unfold Raft_Step, Raft_checkTerm. simpl. unfold Raft_step, stepFollower, stepCandidate, stepLeader. simpl.
  destruct (r_step r); [intros; by inv_res..|]. unfold stepLeader_CheckQuorum.
  destruct (negb _); intros; inv_res; by rewrite ?Raft_becomeFollower_eq.
Qed.

Lemma tickHeartbeat_sound b C i r r' :
  Raft_tickHeartbeat r = Ok r' -> room (r_raftLog r) -> sound b C i r ->
  extended i b C (fun b' C' => sound b' C' i r').
Proof.
  unfold Raft_tickHeartbeat. intros (r1 & H1 & H2)%bind_Ok Hrm Hs.
  apply (extended_bind i b C (fun b' C' => sound b' C' i r1 /\ room (r_raftLog r1))).
  - destruct (_ <=? _).
    2: { inv_res. apply extended_refl. split; [|done]. by eapply sound_same; [..|exact Hs]. }
    apply bind_Ok in H1 as ([r2 e] & H1 & H3). pose proof (CheckQuorum_log _ _ _ H1) as Hl.
    eapply local_sound in H1; [|done|intros ?; inv_list; done|done|by eapply sound_same; [..|exact Hs]].
    eapply extended_bind; [exact H1|]. intros b' C' _ _ Hs'. apply extended_refl. simpl in Hl.
    destruct (_ && _); inv_res; simpl; rewrite Hl; (split; [|done]); [by eapply sound_same; [..|exact Hs']|done].
  - clear H1 Hs Hrm. intros b' C' _ _ [Hs Hrm]. destruct (_ <=? _); [|inv_res; by apply extended_refl].
    apply bind_Ok in H2 as ([r3 e] & H2 & H3). inv_res.
    eapply local_sound in H2; [exact H2|done|intros ?; inv_list; done|done|by eapply sound_same; [..|exact Hs]].
Qed.

Lemma Tick_sound b C i r r' :
  Raft_Tick r = Ok r' -> r_term r < MaxUint64 -> room (r_raftLog r) -> sound b C i r ->
  extended i b C (fun b' C' => sound b' C' i r').
Proof.
  unfold Raft_Tick. intros H Hlt Hrm Hs. destruct (r_tick r); [|by eapply tickHeartbeat_sound].
  unfold Raft_tickElection in H. destruct (Raft_pastElectionTimeout _).
  2: { inv_res. apply extended_refl. by eapply sound_same; [..|exact Hs]. }
  apply bind_Ok in H as ([r1 e] & H1 & H). inv_res.
  eapply local_sound in H1; [exact H1|done|intros _; by split|done|by eapply sound_same; [..|exact Hs]].
Qed.

End node.

(** ** The cluster *)

Section matching.
Context {RT : Runtime} {St : Type} {SS : Storage St} {SP : StorageSpec St}.
Variable V : MajorityConfig.
Implicit Types r : Raft St.
Implicit Types c : Cluster St.

(** The logs the nodes have had, each with the node that had it. *)
Abbreviation history := (list (Z * list Entry)).

(** A log that starts at index 1. *)
Definition from_one (l : raftLog St) : Prop := raftLog_ok l /\ log_base l = 0.

(** What the log needs of an action that takes node [r] to [r']: indices do not
    overflow and no snapshot is delivered; storing entries and [Advance] leave the log
    as it is (the host stores what was unstable before it calls [Advance]); a node that
    restarts has a log it had before. *)
Definition orderly (past : history) (a : action (St:=St)) (r r' : Raft St) : Prop :=
  match a with
  | Deliver _ m => m_Type m <> MsgSnap /\ room (r_raftLog r)
  | Local _ _ | DoTick _ => room (r_raftLog r)
  | Emit _ => True
  | DoAdvance _ _ | Persist _ _ =>
      from_one (r_raftLog r') /\ log_view (r_raftLog r') = log_view (r_raftLog r)
  | Restart i _ => from_one (r_raftLog r') /\ (i, log_view (r_raftLog r')) ∈ past
  end.

Definition logs (c : Cluster St) : history :=
  (fun p => (p.1, log_view (r_raftLog p.2))) <$> map_to_list (nodes c).

(** Runs of a cluster that starts with empty logs, with their history. *)
Inductive log_run : history -> Cluster St -> Prop :=
| log_run_init c :
    cluster_init V c ->
    (forall i r, nodes c !! i = Some r -> from_one (r_raftLog r) /\ log_view (r_raftLog r) = []) ->
    log_run (logs c) c
| log_run_step past c a c' r r' :
    log_run past c -> exec true a c = Some c' ->
    nodes c !! actor a = Some r -> nodes c' !! actor a = Some r' -> orderly past a r r' ->
    log_run ((actor a, log_view (r_raftLog r')) :: past) c'.

Record cluster_sound (b : book) (C : reigns) (past : history) (c : Cluster St) : Prop := {
  cs_election : cluster_inv V b c;
  cs_reigns : reigns_ok V b C;
  cs_logs i r : nodes c !! i = Some r -> log_inv C i r;
  cs_net m : m ∈ net c -> app_rooted C m;
  cs_past i L : (i, L) ∈ past -> rooted C L;
  cs_now i r : nodes c !! i = Some r -> (i, log_view (r_raftLog r)) ∈ past
}.

Lemma elem_of_logs c i r : nodes c !! i = Some r -> (i, log_view (r_raftLog r)) ∈ logs c.
Proof.
  intros Hi. apply list_elem_of_fmap. exists (i, r). split; [done|]. by apply elem_of_map_to_list.
Qed.

(** What the host does to a node: the outbox may shrink, the log stays. *)
Lemma log_inv_host C i r r' :
  log_inv C i r -> from_one (r_raftLog r') -> log_view (r_raftLog r') = log_view (r_raftLog r) ->
  r_state r' = r_state r -> r_term r' = r_term r -> r_trk r' = r_trk r ->
  (forall m, m ∈ r_messages r' ++ r_msgsAfterAppend r' -> m ∈ r_messages r ++ r_msgsAfterAppend r) ->
  log_inv C i r'.
Proof.
  intros [] [Hok Hb] Hv Es Et Ek Hout. split.
  - split; [done..|]. rewrite Hv. apply li_log0.
  - by rewrite Ek.
  - by rewrite Es, Et, Hv.
  - by rewrite Es, Et.
  - intros m Hm. by apply li_out0, Hout.
Qed.

(** A new node is a follower with nothing to send. *)
Lemma newRaft_shape cfg r :
  newRaft cfg = Ok r ->
  r_state r = Follower /\ r_messages r = [] /\ r_msgsAfterAppend r = [] /\ next_ok (r_trk r) /\ tracker_ok (r_trk r).
Proof.
  intros H. assert (exists r0, r = Raft_becomeFollower (r_term r0) NoneID r0 /\
    r_messages r0 = [] /\ r_msgsAfterAppend r0 = [] /\ tracker_ok (r_trk r0)) as (r0 & -> & Em & Ea & Ht).
  { unfold newRaft in H. destruct (validate cfg), (c_Storage cfg) as [st|]; try done.
    destruct (InitialState st) as [|hs]; [done|]. set (trk := foldl _ _ _) in H.
    destruct (InitProgress_tracker (c_Peers cfg) (NewTracker (c_ID cfg) (buildMajorityConfig (c_ID cfg) (c_Peers cfg))))
      as [Htrk _]; [unfold buildMajorityConfig; simpl; by rewrite dom_singleton_L|unfold buildMajorityConfig; simpl; set_solver|].
    fold trk in Htrk. clearbody trk. set (r1 := if negb _ then _ else _) in H.
    assert (r_messages r1 = [] /\ r_msgsAfterAppend r1 = [] /\ r_trk r1 = trk) as (? & ? & ?)
      by (subst r1; by destruct (negb _)).
    clearbody r1. destruct (_ <? c_Applied cfg); [done|]. destruct (_ && _ && _); [done|].
    injection H as <-. set (l := raftLog_appliedTo _). exists (r1 <| r_raftLog ::= l |>). by subst trk. }
  rewrite Raft_becomeFollower_eq. split_and!; try done; [apply next_ok_reset|by apply tracker_ok_reset].
Qed.

(** A new node: a follower in its persisted term. *)
Lemma newRaft_log C cfg i t r :
  newRaft cfg = Ok r -> r_term r = t -> from_one (r_raftLog r) -> rooted C (log_view (r_raftLog r)) ->
  (forall t' T, C !! t' = Some (i, T) -> t' <= t) -> log_inv C i r.
Proof.
  intros (Es & Em & Ea & Hnx & _)%newRaft_shape Et [Hok Hb] Hr Hled.
  split; [done|done|by rewrite Es| |].
  - intros t' T HT. rewrite Es, Et. split; [by eapply Hled|done].
  - rewrite Em, Ea. intros m Hm. by inversion Hm.
Qed.

Lemma restart_log C c i cfg r r' out :
  log_inv C i r -> exec_node true c (Restart i cfg) r = Some (r', out) ->
  from_one (r_raftLog r') -> rooted C (log_view (r_raftLog r')) -> log_inv C i r' /\ out = [].
Proof.
  intros Hi Hx Hf Hr. simpl in Hx. destruct (c_Storage cfg) as [st|] eqn:Est; [|done].
  destruct (InitialState st) as [|hs] eqn:Ehs; [done|]. destruct (_ && _) eqn:E; [|done]. to_prop.
  apply bind_Some in Hx as (r1 & HS%ok_of_Some & [= <- <-]). split; [|done].
  destruct (newRaft_hard _ _ _ _ HS Est Ehs) as [Et _].
  apply (newRaft_log C cfg i (h_Term hs)); try done. intros t' T HT.
  apply (li_led _ _ _ Hi) in HT as [Hle _]. lia.
Qed.

(** What a [Ready] hands out was in the outbox. *)
Lemma Ready_out rd r m :
  Raft_Ready r = Ok rd ->
  m ∈ rd_Messages rd ++ List.filter (fun m => m_To m =? r_id r) (r_msgsAfterAppend r) ->
  m ∈ r_messages r ++ r_msgsAfterAppend r.
Proof.
  unfold Raft_Ready. intros (ces & _ & HS)%bind_Ok Hm. inv_res. simpl in Hm.
  rewrite !elem_of_app in Hm. rewrite elem_of_app.
  destruct Hm as [[?|Hm]|Hm]; [by left|right..];
    apply list_elem_of_In, filter_In in Hm as [Hm _]; by apply list_elem_of_In.
Qed.

(** The step of one node, inside the cluster. *)
Lemma exec_node_sound b C past c a r r' out :
  cluster_sound b C past c -> nodes c !! actor a = Some r -> exec_node true c a r = Some (r', out) ->
  orderly past a r r' ->
  extended (actor a) b C (fun b' C' => sound V b' C' (actor a) r' /\
    forall m, m ∈ out -> vote_ok b' m /\ app_rooted C' m).
Proof.
  intros Hc Hr Hx Ho. pose proof (proj1 (cs_election _ _ _ _ Hc) _ _ Hr) as Hn.
  assert (sound V b C (actor a) r) as Hs by (split; [done|apply Hc|by apply Hc]).
  assert (forall m b' C', m ∈ @nil Message -> vote_ok b' m /\ app_rooted C' m) as Hnil
    by (intros m b' C' Hm; by inversion Hm).
  assert (forall P : book -> reigns -> Prop, extended (actor a) b C P ->
    extended (actor a) b C (fun b' C' => P b' C' /\
      forall m, m ∈ @nil Message -> vote_ok b' m /\ app_rooted C' m)) as Hext.
  { intros P HP. eapply extended_bind; [exact HP|]. intros b' C' _ _ H. by apply extended_refl; eauto. }
  destruct a as [i m|i m|i|i|i rd|i st|i cfg]; simpl in *.
  - destruct (_ && _) eqn:E; [|done]. to_prop. apply bind_Some in Hx as ([r1 e] & HS%ok_of_Some & [= <- <-]).
    match goal with H : bool_decide (m ∈ _) = true |- _ => apply bool_decide_eq_true in H as Hin end.
    destruct Ho as [Hns Hrm]. apply Hext. eapply Step_sound in HS; [exact HS|..]; try done.
    + destruct (proj2 (cs_election _ _ _ _ Hc) m Hin) as [Hf Hv]. split; [done|]. subst i. done.
    + by apply calmb_calm.
    + by apply no_overflow_bounded.
    + by apply (cs_net _ _ _ _ Hc).
  - destruct (_ && _) eqn:E; [|done]. to_prop. apply bind_Some in Hx as ([r1 e] & HS%ok_of_Some & [= <- <-]).
    apply Hext. eapply local_sound in HS; [exact HS|done|by apply no_overflow_bounded|done|done].
  - destruct (no_overflow _ _) eqn:E; [|done]. apply bind_Some in Hx as (r1 & HS%ok_of_Some & [= <- <-]).
    unfold no_overflow in E. to_prop. apply Hext. by eapply Tick_sound.
  - apply bind_Some in Hx as (rd & HS%ok_of_Some & [= <- <-]). apply extended_refl.
    pose proof (cs_logs _ _ _ _ Hc _ _ Hr) as Hi. destruct (li_log _ _ _ Hi) as [Hok Hb _]. split.
    + split; [by eapply Emit_inv|apply Hc|]. apply (log_inv_host C i r); try done. simpl. set_solver.
    + intros m Hm. split; [by eapply (Emit_inv V); [exact HS|exact Hn|]|]. by eapply (li_out _ _ _ Hi), Ready_out.
  - apply bind_Some in Hx as (r1 & HS%ok_of_Some & [= <- <-]). destruct Ho as [Hf Hv].
    apply Hext, extended_refl. pose proof (Advance_same _ _ _ HS) as Hsame. split; [|apply Hc|].
    + eapply node_inv_same; [exact Hsame|]. by apply clear_messages_inv.
    + destruct Hsame as (_ & Et & Es & _ & _ & _ & Em & Ea & _). simpl in *.
      apply (log_inv_host C i r); try done; [by apply Hc| |].
      * unfold Raft_Advance in HS. apply bind_Ok in HS as (l & _ & HS). by inv_res.
      * rewrite Em, Ea. set_solver.
  - injection Hx as <- <-. destruct Ho as [Hf Hv]. apply Hext, extended_refl. split; [|apply Hc|].
    + by eapply node_inv_same; [|exact Hn].
    + apply (log_inv_host C i r); try done. by apply Hc.
  - destruct Ho as [Hf Hp]. apply (cs_past _ _ _ _ Hc) in Hp as Hro.
    destruct (exec_node_inv _ _ _ (Restart i cfg) _ _ _ (cs_election _ _ _ _ Hc) Hr Hx) as (b' & Hb & Hn' & _).
    destruct (restart_log C c i cfg r r' out) as [Hi ->]; [by apply Hc|done..|].
    exists b', C. split; [done|]. split; [apply reigns_ext_refl|]. split; [|by eauto].
    split; [done| |done]. eapply reigns_ok_mono; [apply Hb|apply Hc].
Qed.

Lemma exec_sound b C past c a c' r r' :
  cluster_sound b C past c -> exec true a c = Some c' ->
  nodes c !! actor a = Some r -> nodes c' !! actor a = Some r' -> orderly past a r r' ->
  exists b' C', cluster_sound b' C' ((actor a, log_view (r_raftLog r')) :: past) c'.
Proof.
  intros Hc Hx Hr Hr' Ho. pose proof Hx as Hx0. unfold exec in Hx. rewrite Hr in Hx. simpl in Hx.
  apply bind_Some in Hx as ([r1 out] & Hx & Hc'). injection Hc' as <-. simpl in Hr'.
  rewrite lookup_insert_eq in Hr'. injection Hr' as ->.
  destruct (exec_node_sound _ _ _ _ _ _ _ _ Hc Hr Hx Ho) as (b' & C' & Hb & HC & Hs & Hout).
  exists b', C'. destruct Hs as [Hn Hg Hi]. destruct Hc as [[Hns Hnet] _ Hlog Happ Hpast Hnow].
  split; simpl; [split; simpl|done|..].
  - intros i r0 [[<- <-]|[Hne H]]%lookup_insert_Some; [done|]. by eapply node_inv_ext; eauto.
  - intros m [Hm|Hm]%elem_of_app; [|by apply Hout]. eapply vote_ok_mono; [apply Hb|by apply Hnet].
  - intros i r0 [[<- <-]|[Hne H]]%lookup_insert_Some; [done|]. by eapply log_inv_ext; eauto.
  - intros m [Hm|Hm]%elem_of_app; [|by apply Hout]. by eapply app_rooted_ext; eauto.
  - intros i L [[= -> ->]|H]%elem_of_cons; [apply (li_log _ _ _ Hi)|]. by eapply rooted_ext; eauto.
  - intros i r0 [[<- <-]|[Hne H]]%lookup_insert_Some; [left|]. right. by apply Hnow.
Qed.

Lemma init_sound c :
  cluster_init V c ->
  (forall i r, nodes c !! i = Some r -> from_one (r_raftLog r) /\ log_view (r_raftLog r) = []) ->
  exists b, cluster_sound b ∅ (logs c) c.
Proof.
  intros Hc Hl. destruct (cluster_init_inv _ _ Hc) as (b & Hb). exists b. destruct Hc as [Hnet Hns]. split.
  - done.
  - split; intros t j T HT; by rewrite lookup_empty in HT.
  - intros i r Hr. destruct (Hns i r Hr) as (cfg & _ & _ & Hnew & _). destruct (Hl i r Hr) as [Hf Hv].
    apply (newRaft_log ∅ cfg i (r_term r)); try done. rewrite Hv. apply rooted_nil.
  - rewrite Hnet. intros m Hm. by inversion Hm.
  - intros i L ([k r] & [= -> ->] & Hk)%list_elem_of_fmap. apply elem_of_map_to_list in Hk. simpl.
    destruct (Hl k r Hk) as [_ ->]. apply rooted_nil.
  - intros i r. apply elem_of_logs.
Qed.

Lemma log_run_sound past c : log_run past c -> exists b C, cluster_sound b C past c.
Proof.
  induction 1 as [c Hi Hl|past c a c' r r' _ (b & C & IH) Hx Hr Hr' Ho].
  - destruct (init_sound c Hi Hl) as [b Hb]. by exists b, ∅.
  - by eapply exec_sound.
Qed.

End matching.
