(* ===== verification/Completeness.v ===== *)
(** * Completeness: what is committed is in the log of every later leader

    The argument of Raft on the ghost registers alone.  Besides the book of votes and
    the [reigns] of LogMatching there are the [ballots], the log each voter had when it
    voted, and for each term the [coronation]: the log its leader started with and a
    majority that had elected it.  Acknowledgements are the responses on the network.
    An entry is committed in its leader's term when a majority has acknowledged it.  The
    majority that elects a later leader contains one of these nodes; its log still held
    the entry when it voted, and the new leader's log is at least as up to date. *)

From S2P Require Export LogMatching.

Abbreviation ballots := (gmap (Z * Z) (list Entry)).
Abbreviation coronations := (gmap Z (list Entry * gset Z)).

Definition majority (V Q : gset Z) : Prop := Q ⊆ V /\ quorum V <= Z.of_nat (size Q).

(** Node [n] acknowledges the log of term [t] up to index [k]. *)
Definition is_ack (n t : Z) (k : nat) (m : Message) : Prop :=
  m_Type m = MsgAppResp /\ m_Reject m = false /\ m_From m = n /\ m_Term m = t /\ Z.of_nat k <= m_Index m.

Definition acked (N : list Message) (n t : Z) (k : nat) : Prop := exists m, m ∈ N /\ is_ack n t k m.

Definition last_term (L : list Entry) : Z := term_at L (len L).

(** [K] is at least as up to date as [L]. *)
Definition newer (K L : list Entry) : Prop :=
  last_term L < last_term K \/ last_term L = last_term K /\ len L <= len K.

(** Terms do not go back in a log. *)
Definition ordered (L : list Entry) : Prop :=
  forall a b x y, (a <= b)%nat -> L !! a = Some x -> L !! b = Some y -> e_Term x <= e_Term y.

(** All entries are of terms below [t]. *)
Definition below (t : Z) (L : list Entry) : Prop := forall e, e ∈ L -> e_Term e < t.

(** [L] has the first [k] entries of the log [T] of term [t], unless a leader of a term
    in [(t, u]] started without them. *)
Definition holds (E : coronations) (T : list Entry) (t u : Z) (k : nat) (L : list Entry) : Prop :=
  take k L = take k T \/
  exists t' s Q, t < t' <= u /\ E !! t' = Some (s, Q) /\ take k s <> take k T.

(** The log [L] of node [n] has what [n] acknowledged in terms below [t], as far as the
    leaders up to term [u] had it. *)
Definition kept (N : list Message) (C : reigns) (E : coronations) (n t u : Z) (L : list Entry) : Prop :=
  forall t' k j T, t' < t -> acked N n t' k -> C !! t' = Some (j, T) -> holds E T t' u k L.

(** What node [n] acknowledges is in the log of a term. *)
Definition acks_ok (N : list Message) (C : reigns) (n : Z) : Prop :=
  forall t k, acked N n t k -> k <> 0%nat -> exists j T, C !! t = Some (j, T) /\ (k <= length T)%nat.

Section completeness.
Variable V : MajorityConfig.
Implicit Types (N : list Message) (b : book) (C : reigns) (E : coronations) (D : ballots).

(** The entry at index [k] of term [t]'s log is of that term and a majority has
    acknowledged it. *)
Definition committed_at N C (t : Z) (k : nat) : Prop :=
  exists j T e Q, C !! t = Some (j, T) /\ T !! pred k = Some e /\ k <> 0%nat /\ e_Term e = t /\
    majority V Q /\ forall n, n ∈ Q -> acked N n t k.

(** How a term began: the leader's log was a prefix of what it is now, older than the
    term and at least as up to date as the logs of its voters, and these still held what
    they had acknowledged. *)
Record crowned N C E D (t j : Z) (T s : list Entry) (Q : gset Z) : Prop := {
  cr_prefix : s `prefix_of` T;
  cr_below : below t s;
  cr_own e k : T !! k = Some e -> (length s <= k)%nat -> e_Term e = t;
  cr_majority : majority V Q;
  cr_voter n : n ∈ Q ->
    exists L, D !! (n, t) = Some L /\ newer s L /\ rooted C L /\ kept N C E n t (t - 1) L
}.

(** The registers fit together: votes are for candidates whose log was at least as up to
    date as the voter's, and the voter still held what it had acknowledged. *)
Record history_ok N b C E D : Prop := {
  ho_pos t j T : C !! t = Some (j, T) -> 0 < t;
  ho_rooted t j T : C !! t = Some (j, T) -> rooted C T;
  ho_ordered t j T : C !! t = Some (j, T) -> ordered T;
  ho_crowned t j T : C !! t = Some (j, T) -> exists s Q, E !! t = Some (s, Q) /\ crowned N C E D t j T s Q;
  ho_reign t s Q : E !! t = Some (s, Q) -> exists j T, C !! t = Some (j, T);
  ho_acked n : acks_ok N C n;
  ho_cast n t L : D !! (n, t) = Some L -> rooted C L /\ is_Some (b !! (n, t)) /\ kept N C E n t t L;
  ho_vote n t x : b !! (n, t) = Some x -> exists K L,
    b !! (x, t) = Some x /\ D !! (x, t) = Some K /\ below t K /\ D !! (n, t) = Some L /\ newer K L
}.

(** ** Logs *)

Lemma majority_meet Q1 Q2 : majority V Q1 -> majority V Q2 -> exists n, n ∈ Q1 /\ n ∈ Q2.
Proof.
  intros [S1 M1] [S2 M2]. apply (majorities_meet V); [done..|]. pose proof (quorum_double V). lia.
Qed.

Lemma take_le {A : Type} (l k : list A) (m n : nat) :
  (m <= n)%nat -> take n l = take n k -> take m l = take m k.
Proof. intros Hm E. rewrite <- (Nat.min_l m n Hm), <- !take_take, E. done. Qed.

Lemma take_same_length {A : Type} (l k : list A) (n : nat) :
  take n l = take n k -> (n <= length k)%nat -> (n <= length l)%nat.
Proof. intros E Hn. apply (f_equal length) in E. rewrite !length_take in E. lia. Qed.

Lemma term_at_last L e : last L = Some e -> last_term L = e_Term e.
Proof.
  intros He. rewrite last_lookup in He. pose proof (lookup_lt_Some _ _ _ He) as Hl.
  unfold last_term, term_at, len. destruct (_ =? 0) eqn:E; to_prop; [lia|].
  unfold index. rewrite decide_True by lia.
  replace (Z.to_nat (Z.of_nat (length L) - 1)) with (pred (length L)) by lia. by rewrite He.
Qed.

(** Terms of rooted logs. *)
Lemma rooted_ordered C L :
  (forall t j T, C !! t = Some (j, T) -> ordered T) -> rooted C L -> ordered L.
Proof.
  intros Ho Hr x y ex ey Hxy Hx Hy. destruct (Hr y ey Hy) as (j & T & HT & E).
  apply (Ho _ _ _ HT x y); [done|..].
  - rewrite <- Hx. rewrite <- (lookup_take_lt T (S y) x), E by lia. apply lookup_take_lt. lia.
  - by eapply take_S_lookup.
Qed.

(** A rooted log is the log of its last term, up to its length. *)
Lemma rooted_last C L e :
  rooted C L -> last L = Some e -> exists j T, C !! e_Term e = Some (j, T) /\ take (length L) T = L.
Proof.
  intros Hr He. rewrite last_lookup in He. pose proof (lookup_lt_Some _ _ _ He) as Hl.
  destruct (Hr _ _ He) as (j & T & HT & E). exists j, T. split; [done|].
  replace (S (pred (length L))) with (length L) in E by lia. by rewrite E, firstn_all.
Qed.

Lemma newer_refl L : newer L L.
Proof. by right. Qed.

(** A log that is as up to date as one with the first [k] entries of [T], the last of
    them of term [t], and whose own later terms started with them, has them too. *)
Lemma newer_keeps N b C E D t j T (k : nat) e s L u :
  history_ok N b C E D -> C !! t = Some (j, T) -> T !! pred k = Some e -> k <> 0%nat -> e_Term e = t ->
  take k L = take k T -> rooted C L -> rooted C s -> below u s -> newer s L ->
  (forall t' s' Q, t < t' < u -> E !! t' = Some (s', Q) -> take k s' = take k T) ->
  take k s = take k T.
Proof.
  intros Hh HT He Hk0 Het HL HrL Hrs Hbl Hnew IH. unfold newer in Hnew.
  assert (k <= length T)%nat as HkT by (apply lookup_lt_Some in He; lia).
  pose proof (take_same_length _ _ _ HL HkT) as HkL.
  assert (L !! pred k = Some e) as HLe.
  { apply (take_S_lookup _ T); [|done]. by replace (S (pred k)) with k by lia. }
  destruct (last L) as [eL|] eqn:EL; [|apply last_None in EL; rewrite EL in HkL; simpl in HkL; lia].
  rewrite (term_at_last _ _ EL) in Hnew. pose proof EL as EL'. rewrite last_lookup in EL'.
  assert (t <= e_Term eL) as HtL.
  { rewrite <- Het. eapply (rooted_ordered C L); [apply Hh|done| |exact HLe|exact EL']. lia. }
  destruct (last s) as [es|] eqn:Es.
  2: { apply last_None in Es. subst s. destruct Hnew as [Hn|[Hn Hl]].
       - change (last_term []) with 0 in Hn. pose proof (ho_pos _ _ _ _ _ Hh _ _ _ HT). lia.
       - change (len []) with 0 in Hl. unfold len in Hl. lia. }
  rewrite (term_at_last _ _ Es) in Hnew. destruct (rooted_last C s es Hrs Es) as (js & Ts & HTs & Hs).
  destruct Hnew as [Hlt|[Heq Hlen]].
  - destruct (ho_crowned _ _ _ _ _ Hh _ _ _ HTs) as (ss & Q & HE & Hc).
    assert (e_Term es < u) as Hu by (apply Hbl; by apply last_Some_elem_of).
    pose proof (IH _ _ _ (conj (Z.le_lt_trans _ _ _ HtL Hlt) Hu) HE) as Hss.
    pose proof (take_same_length _ _ _ Hss HkT) as Hkss.
    assert (length ss < length s)%nat as Hl.
    { pose proof Es as Es'. rewrite last_lookup in Es'. pose proof (lookup_lt_Some _ _ _ Es').
      destruct (decide (length s <= length ss)%nat) as [Hle|]; [|lia]. exfalso.
      assert (ss !! pred (length s) = Some es) as Hin.
      { assert (Ts !! pred (length s) = Some es) as HTe.
        { apply (take_S_lookup _ s); [|done]. replace (S (pred (length s))) with (length s) by lia.
          by rewrite Hs, firstn_all. }
        destruct (cr_prefix _ _ _ _ _ _ _ _ _ Hc) as [x Hx]. rewrite Hx, lookup_app_l in HTe by lia. done. }
      apply list_elem_of_lookup_2 in Hin. apply (cr_below _ _ _ _ _ _ _ _ _ Hc) in Hin. lia. }
    rewrite <- Hs, take_take, Nat.min_l by lia. rewrite <- Hss.
    apply prefix_take; [apply Hc|done].
  - rewrite <- Heq in HTs. destruct (rooted_last C L eL HrL EL) as (jL & TL & HTL & HLl).
    assert (TL = Ts) as -> by congruence. unfold len in Hlen.
    rewrite <- HL, <- Hs, <- HLl, !take_take, !Nat.min_l by lia. done.
Qed.

(** Leader completeness: every later leader started with what is committed. *)
Lemma leader_complete N b C E D t j T k :
  history_ok N b C E D -> C !! t = Some (j, T) -> committed_at N C t k ->
  forall t' s Q, t < t' -> E !! t' = Some (s, Q) -> take k s = take k T.
Proof.
  intros Hh HT (j0 & T0 & e & Q & HT0 & He & Hk & Het & HQ & Hack).
  assert (T0 = T) as -> by congruence. clear j0 HT0.
  intros t'. induction (Z.lt_wf 0 t') as [t' _ IH]. intros s Q' Hlt HE.
  destruct (ho_reign _ _ _ _ _ Hh _ _ _ HE) as (j' & T' & HT').
  destruct (ho_crowned _ _ _ _ _ Hh _ _ _ HT') as (s' & Q2 & HE' & Hc).
  assert (s' = s /\ Q2 = Q') as [-> ->] by (split; congruence).
  pose proof (ho_pos _ _ _ _ _ Hh _ _ _ HT) as Hpos.
  destruct (majority_meet Q Q' HQ (cr_majority _ _ _ _ _ _ _ _ _ Hc)) as (n & Hn & Hn').
  destruct (cr_voter _ _ _ _ _ _ _ _ _ Hc n Hn') as (L & HD & Hnew & HrL & Hh').
  assert (forall u su Qu, t < u < t' -> E !! u = Some (su, Qu) -> take k su = take k T) as IH'.
  { intros u su Qu Hu HEu. eapply (IH u); [lia|lia|exact HEu]. }
  assert (rooted C s) as Hrs.
  { destruct (cr_prefix _ _ _ _ _ _ _ _ _ Hc) as [x Hx].
    assert (s = take (length s) T') as -> by (by rewrite Hx, take_app_length).
    apply rooted_take. by eapply (ho_rooted _ _ _ _ _ Hh). }
  destruct (Hh' t k j T Hlt (Hack n Hn) HT) as [HL|(u & su & Qu & Hu & HEu & Hne)].
  - eapply newer_keeps; try done. apply Hc.
  - exfalso. apply Hne. eapply (IH' u); [lia|done].
Qed.

(** The logs of later terms contain what is committed. *)
Lemma committed_in_later N b C E D t j T k t' j' T' :
  history_ok N b C E D -> committed_at N C t k -> C !! t = Some (j, T) -> C !! t' = Some (j', T') ->
  t <= t' -> take k T' = take k T.
Proof.
  intros Hh Hk HT HT' Hle. destruct (decide (t = t')) as [-> | Hne]; [congruence|].
  destruct (ho_crowned _ _ _ _ _ Hh _ _ _ HT') as (s & Q & HE & Hc).
  pose proof (leader_complete _ _ _ _ _ _ _ _ _ Hh HT Hk t' s Q ltac:(lia) HE) as Es. rewrite <- Es.
  apply prefix_take; [apply Hc|]. eapply take_same_length; [exact Es|].
  destruct Hk as (? & T0 & e & ? & HT0 & He & ? & _). assert (T0 = T) as -> by congruence.
  apply lookup_lt_Some in He. lia.
Qed.

(** A prefix of a log that is committed: [c] entries, as in the log of some term [t] no
    later than [u] in which at least as many are committed. *)
Definition committed_prefix N C (u : Z) (c : nat) (L : list Entry) : Prop :=
  c = 0%nat \/
  exists t j T k, t <= u /\ C !! t = Some (j, T) /\ committed_at N C t k /\ (c <= k)%nat /\ take c L = take c T.

(** Committed prefixes agree. *)
Lemma committed_agree N b C E D u1 c1 L1 u2 c2 L2 :
  history_ok N b C E D -> committed_prefix N C u1 c1 L1 -> committed_prefix N C u2 c2 L2 ->
  take (Nat.min c1 c2) L1 = take (Nat.min c1 c2) L2.
Proof.
  intros Hh H1 H2.
  assert (Nat.min c1 c2 = 0%nat \/ Nat.min c1 c2 <> 0%nat) as [-> | Hne] by lia; [done|].
  destruct H1 as [-> | (t1 & j1 & T1 & k1 & _ & HT1 & Hk1 & Hc1 & E1)]; [done|].
  destruct H2 as [-> | (t2 & j2 & T2 & k2 & _ & HT2 & Hk2 & Hc2 & E2)]; [lia|].
  rewrite (take_le L1 T1 _ c1) by (done || lia). rewrite (take_le L2 T2 _ c2) by (done || lia).
  destruct (Z.le_ge_cases t1 t2) as [Hle|Hle].
  - symmetry. eapply (take_le _ _ _ k1); [lia|]. by eapply committed_in_later.
  - eapply (take_le _ _ _ k2); [lia|]. by eapply committed_in_later.
Qed.

End completeness.
