(* ===== verification/Registers.v ===== *)
(** * Registers: how the ghost registers of Completeness grow

    One lemma for each way a node adds to the history: it votes, takes office, appends
    to its log as leader, or hands messages to the network. *)

From S2P Require Export Completeness.

(** ** What was acknowledged stays so *)

Lemma holds_zero E T t u L : holds E T t u 0 L.
Proof. by left. Qed.

Lemma holds_mono (E E' : coronations) T T' t u u' k L :
  E ⊆ E' -> T `prefix_of` T' -> (k <= length T)%nat -> u <= u' ->
  holds E T t u k L -> holds E' T' t u' k L.
Proof.
  intros HE HT Hk Hu. unfold holds. rewrite (prefix_take T T') by done.
  intros [?|(t1 & s & Q & Ht1 & Hs & Hne)]; [by left|right].
  exists t1, s, Q. split; [lia|]. split; [by eapply lookup_weaken|done].
Qed.

(** The last term of the range had no leader yet. *)
Lemma holds_strict (E : coronations) T t u k L : E !! u = None -> holds E T t u k L -> holds E T t (u - 1) k L.
Proof.
  intros HE [?|(t1 & s & Q & Ht1 & Hs & Hne)]; [by left|right].
  exists t1, s, Q. split; [|done]. assert (t1 <> u) by congruence. lia.
Qed.

Lemma acked_app N M n t k : acked (N ++ M) n t k <-> acked N n t k \/ acked M n t k.
Proof. unfold acked. setoid_rewrite elem_of_app. naive_solver. Qed.

Lemma acked_mono N M n t k : (forall m, m ∈ N -> m ∈ M) -> acked N n t k -> acked M n t k.
Proof. intros H (m & Hm & Ha). exists m. eauto. Qed.

Lemma acked_le N n t (k k' : nat) : (k' <= k)%nat -> acked N n t k -> acked N n t k'.
Proof. intros Hk (m & Hm & ? & ? & ? & ? & Hi). exists m. split; [done|]. split_and!; try done. lia. Qed.

Lemma kept_mono i N C C' (E E' : coronations) n t u u' L :
  acks_ok N C n -> reigns_ext i C C' -> E ⊆ E' -> u <= u' -> kept N C E n t u L -> kept N C' E' n t u' L.
Proof.
  intros Ha Hx HE Hu H t' k j T Ht Hk HT. destruct (decide (k = 0%nat)) as [-> | Hk0]; [apply holds_zero|].
  destruct (Ha t' k Hk Hk0) as (j0 & T0 & HT0 & Hlen).
  destruct (proj1 Hx _ _ _ HT0) as (T1 & HT1 & HP & _). assert (T1 = T) as -> by congruence.
  eapply holds_mono; [exact HE|exact HP|exact Hlen|exact Hu|]. by eapply H.
Qed.

Lemma kept_strict N C (E : coronations) n t u L : E !! u = None -> kept N C E n t u L -> kept N C E n t (u - 1) L.
Proof. intros HE H t' k j T Ht Hk HT. apply holds_strict; [done|]. by eapply H. Qed.

Lemma kept_less N C (E : coronations) n t t' u L : t' <= t -> kept N C E n t u L -> kept N C E n t' u L.
Proof. intros Ht H t1 k j T Ht1. apply H. lia. Qed.

Lemma kept_app N M C (E : coronations) n t u L :
  kept (N ++ M) C E n t u L <-> kept N C E n t u L /\ kept M C E n t u L.
Proof.
  unfold kept. setoid_rewrite acked_app. split; [intros H; split; naive_solver|].
  intros [H1 H2] t' k j T Ht [?|?]; eauto.
Qed.

Lemma acks_ok_ext i N C C' n : reigns_ext i C C' -> acks_ok N C n -> acks_ok N C' n.
Proof.
  intros Hx H t k Hk Hk0. destruct (H t k Hk Hk0) as (j & T & HT & Hl).
  destruct (proj1 Hx _ _ _ HT) as (T' & HT' & HP & _). exists j, T'. split; [done|].
  apply prefix_length in HP. lia.
Qed.

Section registers.
Variable V : MajorityConfig.
Implicit Types (N : list Message) (b : book) (C : reigns) (E : coronations) (D : ballots).

Lemma crowned_mono i N b C C' E E' D D' t j T T' s Q :
  history_ok V N b C E D -> reigns_ext i C C' -> E ⊆ E' -> D ⊆ D' -> T `prefix_of` T' ->
  (forall e k, T' !! k = Some e -> (length T <= k)%nat -> e_Term e = t) ->
  crowned V N C E D t j T s Q -> crowned V N C' E' D' t j T' s Q.
Proof.
  intros Hh Hx HE HD HT Hown []. split; try done.
  - by etrans.
  - intros e k Hk Hs. destruct (decide (length T <= k)%nat); [by eapply Hown|].
    destruct HT as [x ->]. rewrite lookup_app_l in Hk by lia. by eapply cr_own.
  - intros n Hn. destruct (cr_voter n Hn) as (L & HL & Hnew & Hr & Hk). exists L.
    split; [by eapply lookup_weaken|]. split; [done|]. split; [by eapply rooted_ext|].
    eapply kept_mono; [apply Hh|exact Hx|exact HE|done|done].
Qed.

(** ** A vote *)

Lemma history_vote N b C E D i t x L :
  history_ok V N b C E D -> b !! (i, t) = None -> D !! (i, t) = None ->
  rooted C L -> kept N C E i t t L ->
  x = i /\ below t L \/
    x <> i /\ (exists K, b !! (x, t) = Some x /\ D !! (x, t) = Some K /\ newer K L) ->
  history_ok V N (<[ (i, t) := x ]> b) C E (<[ (i, t) := L ]> D).
Proof.
  intros Hh Hb HD Hr Hk Hx.
  assert (b ⊆ <[ (i, t) := x ]> b) as Hbs by by apply insert_subseteq.
  assert (D ⊆ <[ (i, t) := L ]> D) as HDs by by apply insert_subseteq.
  pose proof Hh as []. split; try done.
  - intros t1 j T HT. destruct (ho_crowned _ _ _ HT) as (s & Q & HE & Hc). exists s, Q. split; [done|].
    eapply (crowned_mono i); [exact Hh|apply reigns_ext_refl|done|exact HDs|done| |exact Hc].
    intros e k He Hlen. apply lookup_lt_Some in He. lia.
  - intros n t1 L1 [[[= <- <-] <-]|[Hne HL1]]%lookup_insert_Some.
    + split; [done|]. split; [by rewrite lookup_insert_eq|done].
    + destruct (ho_cast _ _ _ HL1) as (? & [y Hy] & ?). split; [done|]. split; [|done].
      exists y. by eapply lookup_weaken.
  - intros n t1 y [[[= <- <-] <-]|[Hne Hy]]%lookup_insert_Some.
    + destruct Hx as [[-> Hbl]|(Hxi & K & HK & HDK & Hnew)].
      * exists L, L. rewrite !lookup_insert_eq. split_and!; try done. apply newer_refl.
      * destruct (ho_vote _ _ _ HK) as (K' & L' & _ & HK' & Hbl & _). assert (K' = K) as -> by congruence.
        exists K, L. rewrite !lookup_insert_eq, !(lookup_insert_ne _ (i, t) (x, t)) by congruence. done.
    + destruct (ho_vote _ _ _ Hy) as (K & L1 & H1 & H2 & H3 & H4 & H5). exists K, L1.
      split_and!; try done; by eapply lookup_weaken.
Qed.

(** ** Taking office *)

Lemma history_crown N b C E D i t T Q :
  history_ok V N b C E D -> 0 < t -> C !! t = None -> rooted C T ->
  D !! (i, t) = Some T -> b !! (i, t) = Some i -> majority V Q -> (forall n, n ∈ Q -> b !! (n, t) = Some i) ->
  reigns_ext i C (<[ t := (i, T) ]> C) ->
  history_ok V N b (<[ t := (i, T) ]> C) (<[ t := (T, Q) ]> E) D.
Proof.
  intros Hh Ht HC Hr HD Hi HQ Hv Hx. pose proof Hh as [].
  assert (E !! t = None) as HE.
  { apply eq_None_not_Some. intros [[s Q'] HE]. destruct (ho_reign _ _ _ HE) as (j & T' & HT'). congruence. }
  assert (E ⊆ <[ t := (T, Q) ]> E) as HEs by by apply insert_subseteq.
  assert (below t T) as Hbl.
  { destruct (ho_vote _ _ _ Hi) as (K & L & _ & HK & Hbl & _). by assert (K = T) as <- by congruence. }
  split; try done.
  - intros t1 j T1 [[<- _]|[_ HT1]]%lookup_insert_Some; eauto.
  - intros t1 j T1 [[<- [= <- <-]]|[_ HT1]]%lookup_insert_Some; eapply rooted_ext; eauto.
  - intros t1 j T1 [[<- [= <- <-]]|[_ HT1]]%lookup_insert_Some; [by eapply rooted_ordered|eauto].
  - intros t1 j T1 [[<- [= <- <-]]|[Hne HT1]]%lookup_insert_Some.
    + exists T, Q. rewrite lookup_insert_eq. split; [done|]. split; try done.
      * intros e k He Hlen. apply lookup_lt_Some in He. lia.
      * intros n Hn. destruct (ho_vote _ _ _ (Hv n Hn)) as (K & L & _ & HK & _ & HL & Hnew).
        assert (K = T) as -> by congruence. exists L. destruct (ho_cast _ _ _ HL) as (HrL & _ & Hk).
        split_and!; try done; [by eapply rooted_ext|].
        eapply kept_mono; [apply ho_acked|exact Hx|exact HEs|done|by apply kept_strict].
    + destruct (ho_crowned _ _ _ HT1) as (s & Q1 & HE1 & Hc). exists s, Q1.
      rewrite lookup_insert_ne by done. split; [done|].
      eapply (crowned_mono i); [exact Hh|exact Hx|exact HEs|done|done| |exact Hc].
      intros e k He Hlen. apply lookup_lt_Some in He. lia.
  - intros t1 s Q1 [[<- [= <- <-]]|[Hne HE1]]%lookup_insert_Some; [exists i, T; apply lookup_insert_eq|].
    destruct (ho_reign _ _ _ HE1) as (j & T1 & HT1). exists j, T1. by rewrite lookup_insert_ne.
  - intros n. by eapply acks_ok_ext.
  - intros n t1 L HL. destruct (ho_cast _ _ _ HL) as (HrL & Hb & Hk). split; [by eapply rooted_ext|]. split; [done|].
    eapply kept_mono; [apply ho_acked|exact Hx|exact HEs|done|done].
Qed.

(** ** A leader appends *)

Lemma crowned_terms N C E D t j T s Q e :
  crowned V N C E D t j T s Q -> e ∈ T -> e_Term e <= t.
Proof.
  intros Hc (k & Hk)%list_elem_of_lookup. destruct (decide (length s <= k)%nat).
  - by rewrite (cr_own _ _ _ _ _ _ _ _ _ _ Hc _ _ Hk).
  - destruct (cr_prefix _ _ _ _ _ _ _ _ _ _ Hc) as [x ->]. rewrite lookup_app_l in Hk by lia.
    apply list_elem_of_lookup_2, (cr_below _ _ _ _ _ _ _ _ _ _ Hc) in Hk. lia.
Qed.

Lemma ordered_snoc T e : ordered T -> (forall x, x ∈ T -> e_Term x <= e_Term e) -> ordered (T ++ [e]).
Proof.
  intros Ho He a c x y Hac Hx [Hy|[Hl Hy]]%lookup_app_Some.
  - rewrite lookup_app_l in Hx by (apply lookup_lt_Some in Hy; lia). by eapply Ho.
  - apply list_lookup_singleton_Some in Hy as [Hc <-].
    apply lookup_app_Some in Hx as [Hx|[_ Hx]]; [by eapply He, list_elem_of_lookup_2|].
    by apply list_lookup_singleton_Some in Hx as [_ <-].
Qed.

Lemma history_grow N b C E D i t T e :
  history_ok V N b C E D -> C !! t = Some (i, T) -> e_Term e = t ->
  reigns_ext i C (<[ t := (i, T ++ [e]) ]> C) ->
  history_ok V N b (<[ t := (i, T ++ [e]) ]> C) E D.
Proof.
  intros Hh HT He Hx. pose proof Hh as [].
  split; try done.
  - intros t1 j T1 [[<- _]|[_ HT1]]%lookup_insert_Some; eauto.
  - intros t1 j T1 [[<- [= <- <-]]|[_ HT1]]%lookup_insert_Some; [|eapply rooted_ext; eauto].
    eapply rooted_snoc; [eapply rooted_ext; eauto|]. rewrite He. apply lookup_insert_eq.
  - intros t1 j T1 [[<- [= <- <-]]|[_ HT1]]%lookup_insert_Some; [|eauto].
    destruct (ho_crowned _ _ _ HT) as (s & Q & _ & Hc). apply ordered_snoc; [by eauto|].
    intros x Hin. rewrite He. by eapply crowned_terms.
  - intros t1 j T1 [[<- [= <- <-]]|[Hne HT1]]%lookup_insert_Some.
    + destruct (ho_crowned _ _ _ HT) as (s & Q & HE & Hc). exists s, Q. split; [done|].
      eapply (crowned_mono i); [exact Hh|exact Hx|done|done|by exists [e]| |exact Hc].
      intros x k Hk Hlen. apply lookup_app_Some in Hk as [Hk|[_ Hk]]; [apply lookup_lt_Some in Hk; lia|].
      by apply list_lookup_singleton_Some in Hk as [_ <-].
    + destruct (ho_crowned _ _ _ HT1) as (s & Q & HE & Hc). exists s, Q. split; [done|].
      eapply (crowned_mono i); [exact Hh|exact Hx|done|done|done| |exact Hc].
      intros x k Hk Hlen. apply lookup_lt_Some in Hk. lia.
  - intros t1 s Q HE. destruct (ho_reign _ _ _ HE) as (j & T1 & HT1).
    destruct (proj1 Hx _ _ _ HT1) as (T2 & HT2 & _). by exists j, T2.
  - intros n. by eapply acks_ok_ext.
  - intros n t1 L HL. destruct (ho_cast _ _ _ HL) as (HrL & Hb & Hk). split; [by eapply rooted_ext|]. split; [done|].
    eapply kept_mono; [apply ho_acked|exact Hx|done|done|done].
Qed.

(** ** Messages reach the network *)

(** New messages [M], whose acknowledgements are all by node [i]. *)
Lemma acked_other N M i n t k :
  (forall m, m ∈ M -> m_Type m = MsgAppResp -> m_From m = i) -> n <> i -> acked (N ++ M) n t k -> acked N n t k.
Proof.
  intros HM Hn [?|(m & Hm & Ht & _ & Hf & _)]%acked_app; [done|]. specialize (HM m Hm Ht). congruence.
Qed.

Lemma history_emit N M b C E D i :
  history_ok V N b C E D -> (forall m, m ∈ M -> m_Type m = MsgAppResp -> m_From m = i) ->
  acks_ok M C i ->
  (forall t L, D !! (i, t) = Some L -> kept M C E i t t L) ->
  (forall t s Q L, E !! t = Some (s, Q) -> i ∈ Q -> D !! (i, t) = Some L -> kept M C E i t (t - 1) L) ->
  history_ok V (N ++ M) b C E D.
Proof.
  intros Hh HM Ha Hcast Hvote. pose proof Hh as [].
  assert (forall n t u L, kept N C E n t u L -> (n = i -> kept M C E i t u L) -> kept (N ++ M) C E n t u L) as Hk.
  { intros n t u L H1 H2. destruct (decide (n = i)) as [-> | Hne]; [apply kept_app; auto|].
    intros t' k j T Ht Hk HT. apply (acked_other N M i) in Hk; [|done..]. by eapply H1. }
  split; try done.
  - intros t j T HT. destruct (ho_crowned _ _ _ HT) as (s & Q & HE & []). exists s, Q. split; [done|].
    split; try done. intros n Hn. destruct (cr_voter n Hn) as (L & HL & Hnew & Hr & Hkp). exists L.
    split_and!; try done. apply Hk; [done|]. intros ->. by eapply Hvote.
  - intros n t k Hkk Hk0. apply acked_app in Hkk as [Hkk|Hkk]; [by eapply ho_acked|].
    destruct Hkk as (m & Hm & Ht & Hrest). pose proof (HM m Hm Ht) as Hf.
    assert (n = i) as -> by (destruct Hrest as (_ & ? & _); congruence). apply (Ha t k); [by exists m|done].
  - intros n t L HL. destruct (ho_cast _ _ _ HL) as (HrL & Hb & Hkp). split; [done|]. split; [done|].
    apply Hk; [done|]. intros ->. by eapply Hcast.
Qed.

End registers.
