(* ===== verification/CommitInv.v ===== *)
(** * CommitInv: what a node's log, votes and messages have to do with commitment

    [commit_inv] ties a node to the registers of Completeness: what it has acknowledged
    is still in its log unless a later leader lacked it, its votes recorded the log it
    had, a leader counts only acknowledgements that exist, and its commit index is backed
    by a majority.  Every atomic transition keeps it, provided the messages handled are
    not of older terms ([fresh]), appends do not cut off entries they agree with
    ([keeps_tail]), and storage holds nothing beyond the end of the log ([trimmed]). *)

From S2P Require Export Registers.

Section node.
Context {RT : Runtime} {St : Type} {SS : Storage St} {SP : StorageSpec St}.
Variable V : MajorityConfig.
Implicit Types r : Raft St.
Implicit Types m : Message.
Implicit Types l : raftLog St.
Implicit Types (N : list Message) (b : book) (C : reigns) (E : coronations) (D : ballots).

(** ** The discipline *)

(** [m] is not an append, a heartbeat or a response of an older term. *)
Definition fresh (m : Message) (r : Raft St) : Prop :=
  m_Type m ∈ [MsgApp; MsgHeartbeat; MsgAppResp] -> m_Term m = 0 \/ r_term r <= m_Term m.

(** Handling the append [m] only removes entries if one of them conflicts. *)
Definition keeps_tail (m : Message) (l : raftLog St) : Prop :=
  m_Type m = MsgApp -> m_Entries m <> [] ->
  log_last l <= m_Index m + len (m_Entries m) \/
  exists k e e', index (m_Entries m) k = Some e /\ index (log_view l) (m_Index m + k - log_base l) = Some e' /\
    e_Term e <> e_Term e'.

Definition trimmed (l : raftLog St) : Prop := st_last (l_storage l) <= log_last l.

(** ** The invariant *)

Definition outbox (r : Raft St) : list Message := r_messages r ++ r_msgsAfterAppend r.

(** The commit index [c] is known in term [u]. *)
Definition claim N C (u c : Z) : Prop :=
  c <= 0 \/ exists t j T k, t <= u /\ C !! t = Some (j, T) /\ committed_at V N C t k /\ c <= Z.of_nat k.

Definition msg_sound N b C E D m : Prop :=
  match m_Type m with
  | MsgVote =>
      b !! (m_From m, m_Term m) = Some (m_From m) /\
      exists L, D !! (m_From m, m_Term m) = Some L /\ m_Index m = len L /\ m_LogTerm m = last_term L
  | MsgApp =>
      exists j T s Q, C !! m_Term m = Some (j, T) /\ E !! m_Term m = Some (s, Q) /\
        0 <= m_Index m <= len T /\ m_LogTerm m = term_at T (m_Index m) /\
        m_Entries m `prefix_of` slice_from T (m_Index m) /\
        (m_Entries m = [] -> m_Commit m <= m_Index m) /\
        (m_Entries m <> [] -> len s <= m_Index m + len (m_Entries m)) /\
        claim N C (m_Term m) (m_Commit m)
  | MsgHeartbeat =>
      claim N C (m_Term m) (m_Commit m) /\
      (0 < m_Commit m -> exists k, m_Commit m <= Z.of_nat k /\ acked N (m_To m) (m_Term m) k)
  | _ => True
  end.

(** What the leader [i] of term [t], who started with [s], knows of member [id]. *)
Definition matched N (t i : Z) (s : list Entry) (id : Z) (p : Progress) : Prop :=
  MatchIndex p <= 0 \/ (id = i /\ MatchIndex p <= len s) \/ acked N id t (Z.to_nat (MatchIndex p)).

Record commit_inv N b C E D (i : Z) (r : Raft St) : Prop := {
  cm_tracker : tracker_ok (r_trk r);
  cm_from m : m ∈ outbox r -> m_Type m = MsgAppResp -> m_From m = i;
  cm_msgs m : m ∈ outbox r -> msg_sound N b C E D m;
  cm_acks t k : acked (N ++ outbox r) i t k -> k <> 0%nat ->
    t <= r_term r /\ exists j T, C !! t = Some (j, T) /\ (k <= length T)%nat;
  cm_kept : kept (N ++ outbox r) C E i (r_term r + 1) (r_term r) (log_view (r_raftLog r));
  cm_cast t L : D !! (i, t) = Some L -> kept (outbox r) C E i t t L;
  cm_voter t s Q L : E !! t = Some (s, Q) -> i ∈ Q -> D !! (i, t) = Some L ->
    kept (outbox r) C E i t (t - 1) L;
  cm_terms e : e ∈ log_view (r_raftLog r) -> e_Term e <= r_term r;
  cm_cand : r_state r = Candidate ->
    0 < r_term r /\ b !! (i, r_term r) = Some i /\ D !! (i, r_term r) = Some (log_view (r_raftLog r));
  cm_lead : r_state r = Leader ->
    exists s Q, E !! r_term r = Some (s, Q) /\
      forall id p, progress (r_trk r) !! id = Some p -> matched N (r_term r) i s id p;
  cm_commit : committed_prefix V N C (r_term r) (Z.to_nat (l_committed (r_raftLog r))) (log_view (r_raftLog r))
}.

(** The registers grow, by what node [i] does. *)
Record ghost_ext (i : Z) b C E D b' C' E' D' : Prop := {
  ge_book : book_ext i b b';
  ge_reigns : reigns_ext i C C';
  ge_crowns : E ⊆ E';
  ge_ballots : D ⊆ D';
  ge_others j t : j <> i -> D' !! (j, t) = D !! (j, t)
}.

Lemma ghost_ext_refl i b C E D : ghost_ext i b C E D b C E D.
Proof. split; [apply book_ext_refl|apply reigns_ext_refl|done..]. Qed.

Lemma ghost_ext_trans i b1 C1 E1 D1 b2 C2 E2 D2 b3 C3 E3 D3 :
  ghost_ext i b1 C1 E1 D1 b2 C2 E2 D2 -> ghost_ext i b2 C2 E2 D2 b3 C3 E3 D3 ->
  ghost_ext i b1 C1 E1 D1 b3 C3 E3 D3.
Proof.
  intros [] []. split; [by eapply book_ext_trans|by eapply reigns_ext_trans|by etrans|by etrans|].
  intros j t Hj. rewrite ge_others1 by done. auto.
Qed.

(** ** More registers *)

Lemma committed_at_ext i N C C' t k : reigns_ext i C C' -> committed_at V N C t k -> committed_at V N C' t k.
Proof.
  intros Hx (j & T & e & Q & HT & He & Hk & Het & HQ & Ha).
  destruct (proj1 Hx _ _ _ HT) as (T' & HT' & HP & _). exists j, T', e, Q. split_and!; try done.
  by eapply prefix_lookup_Some.
Qed.

Lemma committed_at_mono N N' C t k :
  (forall m, m ∈ N -> m ∈ N') -> committed_at V N C t k -> committed_at V N' C t k.
Proof.
  intros HN (j & T & e & Q & HT & He & Hk & Het & HQ & Ha). exists j, T, e, Q. split_and!; try done.
  intros n Hn. eapply acked_mono; eauto.
Qed.

Lemma committed_at_length N C t j T k : committed_at V N C t k -> C !! t = Some (j, T) -> (k <= length T)%nat.
Proof.
  intros (j' & T' & e & Q & HT' & He & Hk & _) HT. assert (T' = T) as -> by congruence.
  apply lookup_lt_Some in He. lia.
Qed.

Lemma claim_ext i N C C' u c : reigns_ext i C C' -> claim N C u c -> claim N C' u c.
Proof.
  intros Hx [?|(t & j & T & k & Ht & HT & Hk & Hc)]; [by left|right].
  destruct (proj1 Hx _ _ _ HT) as (T' & HT' & _). exists t, j, T', k. split_and!; try done.
  by eapply committed_at_ext.
Qed.

Lemma claim_mono N N' C u c : (forall m, m ∈ N -> m ∈ N') -> claim N C u c -> claim N' C u c.
Proof.
  intros HN [?|(t & j & T & k & Ht & HT & Hk & Hc)]; [by left|right]. exists t, j, T, k.
  split_and!; try done. by eapply committed_at_mono.
Qed.

Lemma committed_prefix_ext i N C C' u u' c L :
  reigns_ext i C C' -> u <= u' -> committed_prefix V N C u c L -> committed_prefix V N C' u' c L.
Proof.
  intros Hx Hu [?|(t & j & T & k & Ht & HT & Hk & Hc & E)]; [by left|right].
  destruct (proj1 Hx _ _ _ HT) as (T' & HT' & HP & _). exists t, j, T', k.
  split_and!; try done; [lia|by eapply committed_at_ext|].
  rewrite E. symmetry. apply prefix_take; [done|]. pose proof (committed_at_length _ _ _ _ _ _ Hk HT). lia.
Qed.

Lemma committed_prefix_mono N N' C u c L :
  (forall m, m ∈ N -> m ∈ N') -> committed_prefix V N C u c L -> committed_prefix V N' C u c L.
Proof.
  intros HN [?|(t & j & T & k & Ht & HT & Hk & Hc & E)]; [by left|right]. exists t, j, T, k.
  split_and!; try done. by eapply committed_at_mono.
Qed.

Lemma msg_sound_ext i N b C E D b' C' E' D' m :
  ghost_ext i b C E D b' C' E' D' -> msg_sound N b C E D m -> msg_sound N b' C' E' D' m.
Proof.
  intros []. unfold msg_sound. destruct (m_Type m); try done.
  - intros (j & T & s & Q & HT & HE & Hi & Hl & He & Hc & Hs & Hcl).
    destruct (proj1 ge_reigns0 _ _ _ HT) as (T' & HT' & HP & _). exists j, T', s, Q. pose proof HP as [x HP'].
    split; [done|]. split; [by eapply lookup_weaken|].
    split; [rewrite HP', len_app; pose proof (len_nonneg x); lia|]. split; [by rewrite (term_at_ext T)|].
    split; [|split; [done|split; [done|by eapply claim_ext]]].
    etrans; [exact He|]. rewrite HP'. exists x. unfold slice_from, len in *. by rewrite drop_app_le by lia.
  - intros (Hb & L & HL & ?). split; [by eapply book_lookup; [apply ge_book0|]|]. exists L.
    split; [by eapply lookup_weaken|done].
  - intros (Hc & Ha). split; [by eapply claim_ext|done].
Qed.

Lemma msg_sound_mono N N' b C E D m :
  (forall m, m ∈ N -> m ∈ N') -> msg_sound N b C E D m -> msg_sound N' b C E D m.
Proof.
  intros HN. unfold msg_sound. destruct (m_Type m); try done.
  - intros (j & T & s & Q & HT & HE & Hi & Hl & He & Hc & Hs & Hcl). exists j, T, s, Q.
    split_and!; try done; [lia..|by eapply claim_mono].
  - intros (Hc & Ha). split; [by eapply claim_mono|]. intros Hp. destruct (Ha Hp) as (k & Hk & Hk').
    exists k. split; [done|by eapply acked_mono].
Qed.

Lemma matched_mono N N' t i s id p :
  (forall m, m ∈ N -> m ∈ N') -> matched N t i s id p -> matched N' t i s id p.
Proof. intros HN [?|[?|Ha]]; [by left|by right; left|right; right]. by eapply acked_mono. Qed.

(** ** Logs and registers grow *)

Lemma outbox_acks N b C E D i r : commit_inv N b C E D i r -> acks_ok (N ++ outbox r) C i.
Proof. intros [] t k Ha Hk. by destruct (cm_acks0 t k Ha Hk) as [_ ?]. Qed.

Lemma acks_ok_app N M C n : acks_ok (N ++ M) C n -> acks_ok N C n /\ acks_ok M C n.
Proof. intros H. split; intros t k Ha; apply H, acked_app; auto. Qed.

(** Terms without acknowledgements, and a longer log, change nothing. *)
Lemma kept_longer N C E n t t' u u' L L' :
  acks_ok N C n -> (forall x k, acked N n x k -> k <> 0%nat -> x < t) -> u <= u' -> L `prefix_of` L' ->
  kept N C E n t u L -> kept N C E n t' u' L'.
Proof.
  intros Ha Ht Hu HL H x k j T _ Hk HT. destruct (decide (k = 0%nat)) as [-> | Hk0]; [apply holds_zero|].
  destruct (Ha x k Hk Hk0) as (j' & T' & HT' & Hlen). assert (T' = T) as -> by congruence.
  destruct (H x k j T (Ht x k Hk Hk0) Hk HT) as [Ek|(t1 & s & Q & Ht1 & Hs & Hne)].
  - left. rewrite <- Ek. apply prefix_take; [done|]. by eapply take_same_length.
  - right. exists t1, s, Q. split; [lia|done].
Qed.

Lemma committed_prefix_longer N C u c L L' :
  L `prefix_of` L' -> committed_prefix V N C u c L -> committed_prefix V N C u c L'.
Proof.
  intros HL [?|(t & j & T & k & Ht & HT & Hk & Hc & E)]; [by left|right]. exists t, j, T, k.
  split_and!; try done. rewrite <- E. apply prefix_take; [done|]. eapply take_same_length; [exact E|].
  pose proof (committed_at_length _ _ _ _ _ _ Hk HT). lia.
Qed.

(** A node under larger registers: what others do, or what it does itself other than
    voting. *)
Lemma commit_inv_ext i j N b C E D b' C' E' D' r :
  ghost_ext i b C E D b' C' E' D' -> (forall t, D' !! (j, t) = D !! (j, t)) ->
  commit_inv N b C E D j r -> commit_inv N b' C' E' D' j r.
Proof.
  intros Hg HD Hc. pose proof (outbox_acks _ _ _ _ _ _ _ Hc) as Hacks.
  destruct (acks_ok_app _ _ _ _ Hacks) as [_ Hout]. pose proof Hg as []. pose proof Hc as []. split; try done.
  - intros m Hm. eapply msg_sound_ext; eauto.
  - intros t k Ha Hk. destruct (cm_acks0 t k Ha Hk) as (Ht & _). split; [done|].
    by apply (acks_ok_ext i _ _ _ _ ge_reigns0 Hacks).
  - by eapply kept_mono; [|done|done|done|].
  - intros t L. rewrite HD. intros HL. eapply kept_mono; [done..|by apply cm_cast0].
  - intros t s Q L HE Hj. rewrite HD. intros HL. destruct (E !! t) as [[s0 Q0]|] eqn:Et.
    + pose proof (lookup_weaken _ _ _ _ Et ge_crowns0) as Et'. assert (s0 = s /\ Q0 = Q) as [-> ->] by (split; congruence).
      eapply kept_mono; [done..|by eapply cm_voter0].
    + eapply kept_mono; [done..|]. apply kept_strict; [done|]. by apply cm_cast0.
  - intros Hs. destruct (cm_cand0 Hs) as (Hp & Hb & HL). rewrite HD. split; [done|]. split; [|done].
    by eapply book_lookup; [apply ge_book0|].
  - intros Hs. destruct (cm_lead0 Hs) as (s & Q & HE & Hp). exists s, Q. split; [by eapply lookup_weaken|done].
  - eapply committed_prefix_ext; [exact ge_reigns0|reflexivity|done].
Qed.

(** A transition that sends nothing and only adds to the log. *)
Lemma commit_inv_next N b C E D i r r' :
  commit_inv N b C E D i r -> tracker_ok (r_trk r') -> outbox r' = outbox r -> r_term r <= r_term r' ->
  log_view (r_raftLog r) `prefix_of` log_view (r_raftLog r') ->
  (forall e, e ∈ log_view (r_raftLog r') -> e_Term e <= r_term r') ->
  (r_state r' = Candidate ->
    0 < r_term r' /\ b !! (i, r_term r') = Some i /\ D !! (i, r_term r') = Some (log_view (r_raftLog r'))) ->
  (r_state r' = Leader ->
    exists s Q, E !! r_term r' = Some (s, Q) /\
      forall id p, progress (r_trk r') !! id = Some p -> matched N (r_term r') i s id p) ->
  committed_prefix V N C (r_term r') (Z.to_nat (l_committed (r_raftLog r'))) (log_view (r_raftLog r')) ->
  commit_inv N b C E D i r'.
Proof.
  intros Hc Htr Ho Ht HL He Hcand Hlead Hcm. pose proof (outbox_acks _ _ _ _ _ _ _ Hc) as Hacks.
  pose proof Hc as []. split; rewrite ?Ho; try done.
  - intros t k Ha Hk. destruct (cm_acks0 t k Ha Hk) as (Hle & ?). split; [lia|done].
  - eapply kept_longer; [exact Hacks| |exact Ht|exact HL|exact cm_kept0].
    intros x k Ha Hk. destruct (cm_acks0 x k Ha Hk) as [? _]. lia.
Qed.

(** ... and leaves the log and the commit index alone. *)
Lemma commit_inv_keep N b C E D i r r' :
  commit_inv N b C E D i r -> tracker_ok (r_trk r') -> outbox r' = outbox r -> r_term r <= r_term r' ->
  r_raftLog r' = r_raftLog r ->
  (r_state r' = Candidate ->
    0 < r_term r' /\ b !! (i, r_term r') = Some i /\ D !! (i, r_term r') = Some (log_view (r_raftLog r'))) ->
  (r_state r' = Leader ->
    exists s Q, E !! r_term r' = Some (s, Q) /\
      forall id p, progress (r_trk r') !! id = Some p -> matched N (r_term r') i s id p) ->
  commit_inv N b C E D i r'.
Proof.
  intros Hc Htr Ho Ht HL Hcand Hlead. apply (commit_inv_next N b C E D i r); try done; rewrite HL; [done|..].
  - intros e He%(cm_terms _ _ _ _ _ _ _ Hc). lia.
  - eapply committed_prefix_ext; [apply (reigns_ext_refl i)|exact Ht|apply Hc].
Qed.

(** Nothing that matters changes. *)
Lemma commit_inv_same N b C E D i r r' :
  commit_inv N b C E D i r -> tracker_ok (r_trk r') -> outbox r' = outbox r -> r_term r' = r_term r ->
  r_raftLog r' = r_raftLog r -> r_state r' = r_state r -> 
  (forall id p, progress (r_trk r') !! id = Some p -> exists p0, progress (r_trk r) !! id = Some p0 /\ MatchIndex p = MatchIndex p0) ->
  commit_inv N b C E D i r'.
Proof.
  intros Hc Htr Ho Ht HL Hs Hp. apply (commit_inv_keep N b C E D i r); try done; rewrite ?Ht, ?HL, ?Hs; [done|apply Hc|].
  intros Hl. destruct (cm_lead _ _ _ _ _ _ _ Hc Hl) as (s & Q & HE & Hm). exists s, Q. split; [done|].
  intros id p Hi. destruct (Hp id p Hi) as (p0 & Hp0 & E0). unfold matched. rewrite E0. by apply Hm.
Qed.

(** The register of ballots records the log of a node that votes. *)
Lemma commit_inv_vote N b C E D i t x r :
  history_ok V N b C E D -> commit_inv N b C E D i r ->
  b !! (i, t) = None -> D !! (i, t) = None -> r_term r <= t <= r_term r + 1 ->
  commit_inv N (<[ (i, t) := x ]> b) C E (<[ (i, t) := log_view (r_raftLog r) ]> D) i r.
Proof.
  intros Hh Hc Hb HD Ht. pose proof (outbox_acks _ _ _ _ _ _ _ Hc) as Hacks.
  destruct (acks_ok_app _ _ _ _ Hacks) as [_ Hout].
  assert (D ⊆ <[ (i, t) := log_view (r_raftLog r) ]> D) as HDs by by apply insert_subseteq.
  assert (ghost_ext i b C E D (<[ (i, t) := x ]> b) C E (<[ (i, t) := log_view (r_raftLog r) ]> D)) as Hg.
  { split; [by apply book_ext_insert|apply reigns_ext_refl|done..|].
    intros j t' Hj. rewrite lookup_insert_ne; [done|congruence]. }
  pose proof Hc as []. split; try done.
  - intros m Hm. eapply msg_sound_ext; eauto.
  - intros t' L [[[= <-] <-]|[_ HL]]%lookup_insert_Some; [|by apply cm_cast0].
    apply kept_app in cm_kept0 as [_ Hk].
    eapply (kept_mono i); [exact Hout|apply reigns_ext_refl|done| |eapply kept_less; [|exact Hk]]; lia.
  - intros t' s Q L HE Hi [[[= <-] <-]|[_ HL]]%lookup_insert_Some; [|by eapply cm_voter0].
    exfalso. destruct (ho_reign _ _ _ _ _ _ Hh _ _ _ HE) as (j & T & HT).
    destruct (ho_crowned _ _ _ _ _ _ Hh _ _ _ HT) as (s' & Q' & HE' & Hcr).
    assert (s' = s /\ Q' = Q) as [-> ->] by (split; congruence).
    destruct (cr_voter _ _ _ _ _ _ _ _ _ _ Hcr _ Hi) as (L & HL & _). congruence.
  - intros Hs. destruct (cm_cand0 Hs) as (Hp & Hb' & HL). split; [done|]. split; [|by eapply lookup_weaken].
    by eapply book_lookup; [apply Hg|].
Qed.

End node.
