(* ===== verification/CommitSteps.v ===== *)
(** * CommitSteps: every transition of a node keeps [commit_inv]

    One lemma for each kind of transition of RaftSteps that matters for commitment:
    sending, voting, taking office, proposing, accepting an append and advancing the
    commit index as leader and as follower. *)

From S2P Require Export CommitInv.

Section steps.
Context {RT : Runtime} {St : Type} {SS : Storage St} {SP : StorageSpec St}.
Variable V : MajorityConfig.
Implicit Types r : Raft St.
Implicit Types m : Message.
Implicit Types l : raftLog St.
Implicit Types (N : list Message) (b : book) (C : reigns) (E : coronations) (D : ballots).

(** ** Reading the log *)

(** Storage holds nothing beyond the log, so [raftLog.term] does not find it there. *)
Lemma term_in_range i t l :
  raftLog_wf l -> trimmed l -> 0 <= i -> raftLog_term i l = Ok (inr t) -> i <= log_last l.
Proof.
  intros Hwf Htr Hi Ht. destruct (decide (i <= log_last l)); [done|]. exfalso.
  pose proof (log_last_bounds l Hwf). pose proof (log_base_nonneg l Hwf).
  unfold raftLog_term in Ht. rewrite (proj2 (Z.eqb_neq i 0)), maybeTerm_out in Ht by (done || lia).
  pose proof Hwf as (Hst & _). pose proof (st_last_bounds _ Hst). unfold trimmed in Htr.
  rewrite (st_Term _ _ Hst) in Ht. unfold st_last in *.
  rewrite (proj2 (Z.ltb_ge _ _)), (proj2 (Z.ltb_lt _ _)) in Ht by lia. done.
Qed.

Lemma match_in_range i t l :
  raftLog_wf l -> trimmed l -> 0 <= i -> raftLog_matchTerm i t l = Ok true ->
  i <= log_last l /\ raftLog_term i l = Ok (inr t).
Proof.
  intros Hwf Htr Hi H. unfold raftLog_matchTerm in H. apply bind_Ok in H as ([?|t'] & Ht & H); [done|].
  injection H as H. to_prop. subst t'. split; [by eapply term_in_range|done].
Qed.

Lemma log_rooted_last C l : log_rooted C l -> log_last l = len (log_view l).
Proof. intros []. unfold log_last. lia. Qed.

Lemma term_view C i t l :
  log_rooted C l -> 0 <= i <= log_last l -> raftLog_term i l = Ok (inr t) -> term_at (log_view l) i = t.
Proof.
  intros Hl Hi Ht. pose proof Hl as [[Hwf _] Hb _].
  destruct (raftLog_term_view i l Hwf) as (t' & Hv & E); [lia|].
  assert (t' = t) as -> by congruence. eapply view_term_at; [done|lia|done].
Qed.

Lemma lastEntryID_view C l i t :
  log_rooted C l -> raftLog_lastEntryID l = Ok (i, t) -> i = len (log_view l) /\ t = last_term (log_view l).
Proof.
  intros Hl H. pose proof Hl as [[Hwf _] Hb _]. rewrite <- (log_rooted_last C) by done.
  destruct (raftLog_lastEntryID_view l Hwf) as (t' & Hv & E). rewrite H in E. injection E as -> ->.
  split; [done|]. unfold last_term. rewrite <- (log_rooted_last C) by done. symmetry.
  eapply view_term_at; [done| |done]. pose proof (log_last_bounds l Hwf). lia.
Qed.

(** Logs with the same term at an index agree up to it. *)
Lemma rooted_take_agree C L K i :
  rooted C L -> rooted C K -> 0 <= i <= len L -> i <= len K -> term_at L i = term_at K i ->
  take (Z.to_nat i) L = take (Z.to_nat i) K.
Proof.
  intros HL HK Hi HiK Ht. destruct (decide (i = 0)) as [-> | Hne]; [done|].
  unfold term_at in Ht. rewrite (proj2 (Z.eqb_neq _ _) Hne) in Ht.
  destruct (index_is_Some L (i - 1)) as [e He]; [lia|]. destruct (index_is_Some K (i - 1)) as [e' He']; [lia|].
  rewrite He, He' in Ht. simpl in Ht. unfold index in He, He'. rewrite decide_True in He, He' by lia.
  replace (Z.to_nat i) with (S (Z.to_nat (i - 1))) by lia. by eapply rooted_agree.
Qed.

(** ** Messages *)

Lemma msg_sound_rooted N b C E D m : msg_sound V N b C E D m -> app_rooted C m.
Proof.
  intros H Ht _. unfold msg_sound in H. rewrite Ht in H.
  destruct H as (j & T & s & Q & HT & _ & Hi & Hl & He & _). by exists j, T.
Qed.

(** What an accepted append leaves: nothing new, or a prefix of the log of its term that
    has at least what its leader started with. *)
Definition append_result C E m l l' : Prop :=
  exists j T s Q, C !! m_Term m = Some (j, T) /\ E !! m_Term m = Some (s, Q) /\
  0 <= m_Index m <= len (log_view l) /\
  take (Z.to_nat (m_Index m)) (log_view l) = take (Z.to_nat (m_Index m)) T /\
  m_Entries m `prefix_of` slice_from T (m_Index m) /\
  ((m_Entries m = [] /\ l' = l /\ m_Commit m <= m_Index m) \/
   (m_Entries m <> [] /\ let n := (Z.to_nat (m_Index m) + length (m_Entries m))%nat in
    log_view l' = take n T /\ (n <= length T)%nat /\ (length s <= n)%nat /\
    l_committed l' = l_committed l /\ l_committed l <= m_Index m /\
    l_storage l' = l_storage l)).

Lemma piece_contig T m :
  contig 1 T -> 0 <= m_Index m <= len T -> m_Entries m `prefix_of` slice_from T (m_Index m) ->
  contig (m_Index m + 1) (m_Entries m) /\ m_Index m + len (m_Entries m) <= len T.
Proof.
  intros Hc Hi [x Hx]. split.
  - assert (contig (1 + Z.of_nat (Z.to_nat (m_Index m))) (m_Entries m ++ x)) as Hcx.
    { rewrite <- Hx. apply contig_drop; [unfold len in *; lia|done]. }
    apply contig_app in Hcx as [Hcx _]. by replace (m_Index m + 1) with (1 + Z.of_nat (Z.to_nat (m_Index m))) by lia.
  - apply (f_equal len) in Hx. rewrite len_app in Hx. unfold slice_from, len in *.
    rewrite length_drop in Hx. lia.
Qed.

Lemma append_view N b C E D m l l' :
  reigns_ok V b C -> log_rooted C l -> trimmed l -> m_Type m = MsgApp -> msg_sound V N b C E D m ->
  raftLog_matchTerm (m_Index m) (m_LogTerm m) l = Ok true ->
  raftLog_appendEntries (m_Entries m) l = Ok l' -> append_result C E m l l'.
Proof.
  intros Hg Hl Htr Ht Hm Hmt Ha. unfold msg_sound in Hm. rewrite Ht in Hm.
  destruct Hm as (j & T & s & Q & HT & HE & Hi & Hlt & He & Hc & Hs & _).
  pose proof Hl as [Hok Hb Hr]. pose proof Hok as (Hwf & _). pose proof (log_rooted_last C l Hl) as Hlast.
  destruct (match_in_range _ _ _ Hwf Htr (proj1 Hi) Hmt) as [Hin Hterm].
  destruct (rg_contig _ _ _ Hg _ _ _ HT) as [Hct Hmax].
  destruct (piece_contig T m Hct Hi He) as [Hce Hle].
  assert (take (Z.to_nat (m_Index m)) (log_view l) = take (Z.to_nat (m_Index m)) T) as Ht'.
  { apply (rooted_take_agree C); [done|by eapply rg_rooted|lia|lia|]. rewrite <- Hlt. eapply term_view; [done|lia|done]. }
  exists j, T, s, Q. split_and!; try done; try lia. destruct (decide (m_Entries m = [])) as [En|Hne].
  { left. rewrite En in Ha. injection Ha as <-. auto. }
  right. split; [done|]. intros n. pose proof (appendEntries_committed _ _ _ Ha) as Hcm.
  apply append_log in Ha as (_ & Hst & Hv); [|done..|intros _; split_and!; (done || lia)].
  destruct Hv as [[? _]|[Happ Hv]]; [done|].
  assert (l_committed l <= m_Index m) as Hcl.
  { destruct Happ as (_ & _ & Hf & _). unfold first_of in Hf. destruct (m_Entries m) as [|e es]; [done|].
    apply contig_cons in Hce as [He1 _]. simpl in Hf. lia. }
  specialize (Hs Hne). unfold len in *. split_and!; try done; try lia.
  rewrite Hv, Hb, Z.sub_0_r. unfold slice_to. rewrite Ht'. destruct He as [x Hx]. subst n.
  rewrite <- take_take_drop. f_equal. unfold slice_from in Hx. by rewrite Hx, take_app_length.
Qed.

(** ** Accepting an append *)

Lemma kept_append M C E n t L j T s Q x :
  acks_ok M C n -> C !! t = Some (j, T) -> E !! t = Some (s, Q) -> s `prefix_of` T ->
  (length s <= x <= length T)%nat ->
  (length L <= x)%nat \/
    (exists k e e', (k < x)%nat /\ T !! k = Some e /\ L !! k = Some e' /\ e_Term e <> e_Term e') ->
  kept M C E n (t + 1) t L -> kept M C E n (t + 1) t (take x T).
Proof.
  intros Ha HT HE Hs Hx Htail H t' k j' T' Ht Hk HT'.
  destruct (decide (k = 0%nat)) as [-> | Hk0]; [apply holds_zero|].
  destruct (Ha t' k Hk Hk0) as (j0 & T0 & HT0 & Hlen). assert (T0 = T') as -> by congruence.
  destruct (decide (t' = t)) as [-> | Hne].
  - assert (T' = T) as -> by congruence. destruct (H t k j T Ht Hk HT) as [HL|(u & ? & ? & Hu & _)]; [|lia].
    left. rewrite take_take. replace (Nat.min k x) with k; [done|].
    pose proof (take_same_length _ _ _ HL Hlen). destruct Htail as [?|(p & e & e' & Hp & He & He' & Hne)]; [lia|].
    destruct (decide (k <= x)%nat); [lia|]. exfalso. apply Hne.
    rewrite <- (lookup_take_lt L k p), HL, lookup_take_lt in He' by lia. congruence.
  - destruct (decide (take k s = take k T')) as [Es|Es]; [left|right; exists t, s, Q; split; [lia|done]].
    pose proof (take_same_length _ _ _ Es Hlen). rewrite take_take, Nat.min_l, <- Es by lia.
    by apply prefix_take.
Qed.

Lemma committed_append N b C E D t c L j T x :
  history_ok V N b C E D -> C !! t = Some (j, T) -> (c <= x)%nat ->
  committed_prefix V N C t c L -> committed_prefix V N C t c (take x T).
Proof.
  intros Hh HT Hc [?|(t' & j' & T' & k & Ht & HT' & Hk & Hck & _)]; [by left|right].
  exists t', j', T', k. split_and!; try done. rewrite take_take, Nat.min_l by done.
  apply (take_le _ _ _ k); [done|]. eapply (committed_in_later V); [exact Hh|exact Hk|done..].
Qed.

Lemma tail_conflict T m l (k : Z) e e' :
  log_base l = 0 -> 0 <= m_Index m -> m_Entries m `prefix_of` slice_from T (m_Index m) ->
  index (m_Entries m) k = Some e -> index (log_view l) (m_Index m + k - log_base l) = Some e' ->
  exists p, (p < Z.to_nat (m_Index m) + length (m_Entries m))%nat /\ T !! p = Some e /\ log_view l !! p = Some e'.
Proof.
  intros Hb Hi [x Hx] Hk Hk'. unfold index in Hk, Hk'. destruct (decide (0 <= k)) as [Hp|]; [|done].
  rewrite Hb, decide_True in Hk' by lia. exists (Z.to_nat (m_Index m) + Z.to_nat k)%nat.
  pose proof (lookup_lt_Some _ _ _ Hk). split; [lia|]. split.
  - rewrite <- lookup_drop. unfold slice_from in Hx. rewrite Hx. by apply lookup_app_l_Some.
  - rewrite <- Hk'. f_equal. lia.
Qed.

Lemma append_commit N b C E D i m r l' :
  history_ok V N b C E D -> sound V b C i r -> commit_inv V N b C E D i r -> r_step r = StepFollower ->
  m_Type m = MsgApp -> m_Term m = r_term r -> keeps_tail m (r_raftLog r) ->
  append_result C E m (r_raftLog r) l' -> commit_inv V N b C E D i (r <| r_raftLog := l' |>).
Proof.
  intros Hh Hs Hc Hst Ht Htm Htail (j & T & s & Q & HT & HE & Hi & _ & Hp & Hres).
  destruct Hres as [(_ & -> & _)|(Hne & Hv & HnT & Hsn & Hcm & Hci & _)].
  { apply (commit_inv_same V N b C E D i r); try done; [by apply Hc|]. simpl. eauto. }
  set (n := (Z.to_nat (m_Index m) + length (m_Entries m))%nat) in *. rewrite Htm in HT, HE.
  destruct (ho_crowned _ _ _ _ _ _ Hh _ _ _ HT) as (s' & Q' & HE' & Hcr).
  assert (s' = s) as -> by congruence.
  pose proof (li_log _ _ _ (sd_log _ _ _ _ _ Hs)) as Hl. pose proof (lr_base _ _ Hl) as Hb.
  pose proof (outbox_acks _ _ _ _ _ _ _ _ Hc) as Hacks. pose proof Hc as []. split; simpl; try done.
  - rewrite Hv. eapply kept_append; [exact Hacks|done..|apply Hcr|done| |done].
    destruct (Htail Ht Hne) as [Hlen|(k & e & e' & Hk & Hk' & Hd)].
    + left. rewrite (log_rooted_last C) in Hlen by done. subst n. unfold len in Hlen. lia.
    + right. destruct (tail_conflict T m _ k e e' Hb (proj1 Hi) Hp Hk Hk') as (p & ? & ? & ?). by exists p, e, e'.
  - intros e. rewrite Hv. intros He%elem_of_take. destruct He as (k & Hk & _).
    eapply crowned_terms; [exact Hcr|by eapply list_elem_of_lookup_2].
  - destruct (sd_node _ _ _ _ _ Hs). destruct ni_coherent as [Hco _]. rewrite Hst in Hco. intros E0. by rewrite E0 in Hco.
  - rewrite Hv, Hcm. eapply committed_append; [done|done| |done]. subst n. lia.
Qed.

(** ** Advancing the commit index *)

Lemma commit_to N b C E D i k r l' :
  sound V b C i r -> commit_inv V N b C E D i r -> raftLog_commitTo k (r_raftLog r) = Ok l' ->
  (l_committed (r_raftLog r) < k <= len (log_view (r_raftLog r)) ->
   committed_prefix V N C (r_term r) (Z.to_nat k) (log_view (r_raftLog r))) ->
  commit_inv V N b C E D i (r <| r_raftLog := l' |>).
Proof.
  intros Hs Hc Hto Hk. pose proof (commitTo_view _ _ _ Hto) as Hv.
  pose proof (li_log _ _ _ (sd_log _ _ _ _ _ Hs)) as Hl. pose proof (lr_ok _ _ Hl) as Hok.
  apply raftLog_commitTo_ok in Hto as (Hok' & Hcm & Hst & _); [|done].
  apply (commit_inv_next V N b C E D i r); try done; simpl; rewrite ?Hv; try done; try apply Hc.
  rewrite Hcm. destruct (Z.max_spec (l_committed (r_raftLog r)) k) as [[Hlt ->]|[_ ->]]; [|apply Hc].
  apply Hk. split; [done|]. destruct Hok' as (_ & _ & Hle & _). rewrite Hcm in Hle.
  rewrite <- (log_rooted_last C) by done.
  replace (log_last l') with (log_last (r_raftLog r)) in Hle; [lia|].
  unfold log_last, log_base, log_snap. by rewrite Hv, Hst.
Qed.

(** The members whose match index reaches the committed index have acknowledged it. *)
Lemma tracker_majority N b C E D i r s Q q :
  sound V b C i r -> commit_inv V N b C E D i r ->
  (forall id p, progress (r_trk r) !! id = Some p -> matched N (r_term r) i s id p) ->
  E !! r_term r = Some (s, Q) -> q = ProgressTracker_Committed (r_trk r) -> len s < q ->
  exists Q', majority V Q' /\ forall n, n ∈ Q' -> acked N n (r_term r) (Z.to_nat q).
Proof.
  intros Hs Hc Hm HE -> Hlt. pose proof (Committed_quorum (r_trk r) (cm_tracker _ _ _ _ _ _ _ _ Hc)) as Hq.
  rewrite (ni_voters _ _ _ _ (sd_node _ _ _ _ _ Hs)) in Hq. pose proof (len_nonneg s).
  eexists. split; [split; [|exact Hq]|].
  - intros n. rewrite elem_of_filter. tauto.
  - intros n. rewrite elem_of_filter. intros [Hn _]. destruct (progress (r_trk r) !! n) as [p|] eqn:Hp; simpl in Hn; [|lia].
    destruct (Hm n p Hp) as [?|[[_ ?]|Ha]]; [lia|lia|]. eapply acked_le; [|exact Ha]. lia.
Qed.

Lemma leader_commit N b C E D i r l' :
  history_ok V N b C E D -> sound V b C i r -> commit_inv V N b C E D i r -> r_state r = Leader ->
  trimmed (r_raftLog r) -> l_committed (r_raftLog r) < ProgressTracker_Committed (r_trk r) ->
  raftLog_matchTerm (ProgressTracker_Committed (r_trk r)) (r_term r) (r_raftLog r) = Ok true ->
  raftLog_commitTo (ProgressTracker_Committed (r_trk r)) (r_raftLog r) = Ok l' ->
  commit_inv V N b C E D i (r <| r_raftLog := l' |>).
Proof.
  intros Hh Hs Hc Hld Htr Hlt Hmt Hto. eapply commit_to; [done..|]. intros [_ Hlen].
  set (q := ProgressTracker_Committed (r_trk r)) in *.
  pose proof (li_log _ _ _ (sd_log _ _ _ _ _ Hs)) as Hl. pose proof (lr_ok _ _ Hl) as (Hwf & ? & _).
  pose proof (li_lead _ _ _ (sd_log _ _ _ _ _ Hs) Hld) as HT. set (T := log_view (r_raftLog r)) in *.
  destruct (match_in_range q _ _ Hwf Htr ltac:(lia) Hmt) as [Hin Hterm].
  apply (term_view C) in Hterm; [|done|lia]. fold T in Hterm.
  destruct (cm_lead _ _ _ _ _ _ _ _ Hc Hld) as (s & Q & HE & Hm).
  destruct (ho_crowned _ _ _ _ _ _ Hh _ _ _ HT) as (s' & Q' & HE' & Hcr). assert (s' = s) as -> by congruence.
  unfold term_at in Hterm. rewrite (proj2 (Z.eqb_neq q 0)) in Hterm by lia.
  destruct (index_is_Some T (q - 1)) as [e He]; [lia|]. rewrite He in Hterm. simpl in Hterm.
  unfold index in He. rewrite decide_True in He by lia.
  assert (len s < q) as Hsq.
  { destruct (decide (len s < q)); [done|]. exfalso. destruct (cr_prefix _ _ _ _ _ _ _ _ _ _ Hcr) as [x Hx].
    rewrite Hx, lookup_app_l in He by (unfold len in *; lia). apply list_elem_of_lookup_2 in He.
    apply (cr_below _ _ _ _ _ _ _ _ _ _ Hcr) in He. lia. }
  destruct (tracker_majority N b C E D i r s Q q Hs Hc Hm HE eq_refl Hsq) as (M & HM & Hack).
  right. exists (r_term r), i, T, (Z.to_nat q). split_and!; try done.
  exists i, T, e, M. split_and!; try done; [|lia]. rewrite <- He. f_equal. lia.
Qed.

(** A claim about the commit index, against the log of its term. *)
Lemma claim_prefix N b C E D t j T k c L :
  history_ok V N b C E D -> C !! t = Some (j, T) -> claim V N C t c -> k <= c ->
  take (Z.to_nat k) L = take (Z.to_nat k) T -> committed_prefix V N C t (Z.to_nat k) L.
Proof.
  intros Hh HT [Hc|(t' & j' & T' & x & Ht & HT' & Hx & Hcx)] Hk HL; [left; lia|right].
  exists t', j', T', x. split_and!; try done; [lia|]. rewrite HL. apply (take_le _ _ _ x); [lia|].
  eapply (committed_in_later V); [exact Hh|exact Hx|done..].
Qed.

Lemma follower_commit_app N b C E D i m k r l l' :
  history_ok V N b C E D -> sound V b C i r -> commit_inv V N b C E D i r ->
  m_Type m = MsgApp -> msg_sound V N b C E D m -> m_Term m = r_term r ->
  append_result C E m l (r_raftLog r) -> k <= m_Commit m ->
  raftLog_commitTo k (r_raftLog r) = Ok l' -> commit_inv V N b C E D i (r <| r_raftLog := l' |>).
Proof.
  intros Hh Hs Hc Ht Hm Htm (j & T & s & Q & HT & _ & Hi & Hix & _ & Hres) Hk Hto.
  eapply commit_to; [done..|]. intros [_ Hlen].
  unfold msg_sound in Hm. rewrite Ht in Hm. destruct Hm as (? & ? & ? & ? & _ & _ & _ & _ & _ & _ & _ & Hcl).
  rewrite Htm in *. eapply claim_prefix; [done|exact HT|exact Hcl|done|].
  destruct Hres as [(_ & -> & Hle)|(_ & Hv & _)].
  - apply (take_le _ _ _ (Z.to_nat (m_Index m))); [lia|done].
  - rewrite Hv, take_take. rewrite Hv in Hlen. unfold len in Hlen. rewrite length_take in Hlen. f_equal. lia.
Qed.

Lemma acked_term N b C E D n t k :
  history_ok V N b C E D -> acked N n t k -> k <> 0%nat -> t <> 0 /\ exists j T, C !! t = Some (j, T) /\ (k <= length T)%nat.
Proof.
  intros Hh Ha Hk. destruct (ho_acked _ _ _ _ _ _ Hh n t k Ha Hk) as (j & T & HT & Hl).
  pose proof (ho_pos _ _ _ _ _ _ Hh _ _ _ HT). split; [lia|by eauto].
Qed.

Lemma follower_commit_beat N b C E D i m k r l' :
  history_ok V N b C E D -> sound V b C i r -> commit_inv V N b C E D i r ->
  m_Type m = MsgHeartbeat -> m_To m = i -> msg_sound V N b C E D m -> m_Term m = 0 \/ m_Term m = r_term r ->
  k <= m_Commit m -> raftLog_commitTo k (r_raftLog r) = Ok l' ->
  commit_inv V N b C E D i (r <| r_raftLog := l' |>).
Proof.
  intros Hh Hs Hc Ht Hto Hm Htm Hk Hcm. eapply commit_to; [done..|]. intros [Hlt Hlen].
  pose proof (li_log _ _ _ (sd_log _ _ _ _ _ Hs)) as Hl. pose proof (lr_ok _ _ Hl) as (_ & ? & _).
  unfold msg_sound in Hm. rewrite Ht in Hm. destruct Hm as [Hcl Ha].
  destruct Ha as (x & Hx & Ha); [lia|]. rewrite Hto in Ha.
  destruct (acked_term _ _ _ _ _ _ _ _ Hh Ha) as (Hnz & j & T & HT & Hlx); [lia|].
  destruct Htm as [?|Htm]; [done|]. rewrite Htm in *.
  eapply claim_prefix; [done|exact HT|exact Hcl|done|]. apply (take_le _ _ _ x); [lia|].
  destruct (cm_kept _ _ _ _ _ _ _ _ Hc (r_term r) x j T) as [?|(u & ? & ? & ? & _)]; [lia| |done|done|lia].
  apply acked_app. by left.
Qed.

End steps.
