(* ===== verification/CommitNode.v ===== *)
(** * CommitNode: handling a message keeps [commit_inv]

    What a node sends is sound: appends carry the log of their term and a backed commit
    index, heartbeats a commit index the receiver has acknowledged, vote requests the end
    of the candidate's log, and acknowledgements name what the node's log has.  Together
    with the transitions of CommitSteps: every atomic transition, every [Step] and every
    [Tick] keeps the invariant of the node, under registers that only grow by what the
    node itself does. *)

From S2P Require Export CommitSteps.

(** ** What is sent *)

Section send.
Context {RT : Runtime} {St : Type} {SS : Storage St} {SP : StorageSpec St}.
Variable V : MajorityConfig.
Implicit Types r : Raft St.
Implicit Types m : Message.
Implicit Types (N : list Message) (b : book) (C : reigns) (E : coronations) (D : ballots).

(** The message as [send] puts it in the outbox. *)
Definition stamped (r : Raft St) (m : Message) : Message :=
  let m := if m_From m =? NoneID then m <| m_From := r_id r |> else m in
  if is_vote_msg (m_Type m) then m
  else match m_Type m with MsgProp => m | _ => m <| m_Term := r_term r |> end.

Lemma Raft_send_stamped m r r' :
  Raft_send m r = Ok r' ->
  r' = r <| r_messages ::= fun q => q ++ [stamped r m] |> \/
  r' = r <| r_msgsAfterAppend ::= fun q => q ++ [stamped r m] |>.
Proof.
  unfold Raft_send, stamped. set (m0 := if m_From m =? NoneID then _ else m). clearbody m0.
  intros (m1 & H1 & H2)%bind_Ok.
  assert (m1 = (if is_vote_msg (m_Type m0) then m0
    else match m_Type m0 with MsgProp => m0 | _ => m0 <| m_Term := r_term r |> end)) as <-.
  { destruct (is_vote_msg (m_Type m0)); [destruct (m_Term m0 =? 0); by inv_res|].
    destruct (m_Type m0); by inv_res. }
  destruct (waits_for_append _); inv_res; auto.
Qed.

Lemma stamped_body r m :
  m_Type (stamped r m) = m_Type m /\ m_To (stamped r m) = m_To m /\ m_Index (stamped r m) = m_Index m /\
  m_LogTerm (stamped r m) = m_LogTerm m /\ m_Entries (stamped r m) = m_Entries m /\
  m_Commit (stamped r m) = m_Commit m /\ m_Reject (stamped r m) = m_Reject m.
Proof.
  unfold stamped. destruct (m_From m =? NoneID); destruct m as [[] ? ? ? ? ? ? ? ? ? ? ?]; simpl; by split_and!.
Qed.

Lemma stamped_term r m :
  m_Term (stamped r m) = if is_vote_msg (m_Type m) then m_Term m
                         else match m_Type m with MsgProp => m_Term m | _ => r_term r end.
Proof.
  unfold stamped. destruct (m_From m =? NoneID); destruct m as [[] ? ? ? ? ? ? ? ? ? ? ?]; done.
Qed.

Lemma stamped_from r m : m_From m = 0 -> m_From (stamped r m) = r_id r.
Proof.
  intros E. unfold stamped. rewrite E. simpl. destruct m as [[] ? ? ? ? ? ? ? ? ? ? ?]; done.
Qed.

(** ** Appends, heartbeats and vote requests *)

Lemma committed_claim N C u L c : committed_prefix V N C u (Z.to_nat c) L -> claim V N C u c.
Proof.
  intros [?|(t & j & T & k & Ht & HT & Hk & Hc & _)]; [left; lia|right]. exists t, j, T, k. split_and!; try done. lia.
Qed.

Lemma append_sound N b C E D i r m mo :
  history_ok V N b C E D -> sound V b C i r -> commit_inv V N b C E D i r -> trimmed (r_raftLog r) ->
  append_built r m -> m_Type mo = MsgApp -> m_Term mo = r_term r -> m_Index mo = m_Index m ->
  m_LogTerm mo = m_LogTerm m -> m_Entries mo = m_Entries m -> m_Commit mo = m_Commit m ->
  msg_sound V N b C E D mo.
Proof.
  intros Hh Hs Hc Htr (Hst & Hcm & to_ & p & Hp & Hix & Ht & Hsl) Ety Etm Ei El Ee Ec.
  pose proof (sd_log _ _ _ _ _ Hs) as Hlog. pose proof (li_log _ _ _ Hlog) as Hl.
  pose proof (lr_base _ _ Hl) as Hb0. pose proof (lr_ok _ _ Hl) as (Hwf & _ & Hcl & _). pose proof (log_rooted_last C _ Hl) as Hlast.
  pose proof (coherent_leader r (ni_coherent _ _ _ _ (sd_node _ _ _ _ _ Hs)) Hst) as Hld.
  pose proof (li_lead _ _ _ Hlog Hld) as HT. set (T := log_view (r_raftLog r)) in *.
  destruct (cm_lead _ _ _ _ _ _ _ _ Hc Hld) as (s & Q & HE & _).
  destruct (ho_crowned _ _ _ _ _ _ Hh _ _ _ HT) as (s' & Q' & HE' & Hcr). assert (s' = s) as -> by congruence.
  pose proof (li_next _ _ _ Hlog _ _ Hp) as Hn. unfold is_u64 in Hn.
  assert (0 <= m_Index m) as Hpos by (rewrite Hix; apply wrap64_range).
  pose proof (term_in_range _ _ _ Hwf Htr Hpos Ht) as Hin. pose proof (log_last_bounds _ Hwf) as Hlb.
  assert (NextIndex p = m_Index m + 1) as Hnext.
  { destruct (decide (NextIndex p = 0)) as [E0|]; [|rewrite Hix, wrap64_pred_id; lia].
    rewrite E0 in Hix. change (0 -u 1) with (2 ^ 64 - 1) in Hix. lia. }
  rewrite raftLog_lastIndex_view, wrap64_succ_id in Hsl by (done || lia).
  rewrite raftLog_slice_view in Hsl by (done || lia). injection Hsl as Hsl.
  rewrite Hb0, Hnext, Hlast in Hsl.
  assert (m_Entries m = slice_from T (m_Index m)) as Hes.
  { rewrite <- Hsl. unfold slice, slice_from. replace (m_Index m + 1 - 0 - 1) with (m_Index m) by lia.
    rewrite take_ge; [done|]. rewrite length_drop. fold T. unfold len in *. lia. }
  assert (len (m_Entries m) = len T - m_Index m) as Hle.
  { rewrite Hes. unfold slice_from, len in *. rewrite length_drop. lia. }
  unfold msg_sound. rewrite Ety, Etm, Ei, El, Ee, Ec. exists i, T, s, Q. split_and!; try done; try lia.
  - symmetry. eapply term_view; [done|lia|done].
  - by rewrite Hes.
  - intros E0. rewrite E0 in Hle. unfold len in Hle at 1. simpl in Hle. lia.
  - intros _. destruct (cr_prefix _ _ _ _ _ _ _ _ _ _ Hcr) as [x Hx]. rewrite Hle, Hx, len_app.
    pose proof (len_nonneg x). lia.
  - rewrite Hcm. eapply committed_claim, Hc.
Qed.

Lemma heartbeat_sound N b C E D i r m mo :
  sound V b C i r -> commit_inv V N b C E D i r -> heartbeat_built r m ->
  m_Type mo = MsgHeartbeat -> m_Term mo = r_term r -> m_To mo = m_To m -> m_Commit mo = m_Commit m ->
  msg_sound V N b C E D mo.
Proof.
  intros Hs Hc (Hst & Hne & p & Hp & Hcm) Ety Etm Eto Ec.
  pose proof (coherent_leader r (ni_coherent _ _ _ _ (sd_node _ _ _ _ _ Hs)) Hst) as Hld.
  destruct (cm_lead _ _ _ _ _ _ _ _ Hc Hld) as (s & Q & _ & Hm). rewrite (ni_id _ _ _ _ (sd_node _ _ _ _ _ Hs)) in Hne.
  assert (m_Commit m <= MatchIndex p /\ m_Commit m <= l_committed (r_raftLog r)) as [Hc1 Hc2].
  { rewrite Hcm. lia. }
  unfold msg_sound. rewrite Ety, Etm, Eto, Ec. split.
  - destruct (committed_claim _ _ _ _ _ (cm_commit _ _ _ _ _ _ _ _ Hc)) as [?|(t & j & T & k & ? & ? & ? & ?)];
      [left; lia|right]. exists t, j, T, k. split_and!; try done. lia.
  - intros Hpos. destruct (Hm _ _ Hp) as [?|[[? _]|Ha]]; [lia|done|].
    exists (Z.to_nat (MatchIndex p)). split; [lia|done].
Qed.

Lemma vote_sound N b C E D i r m mo :
  sound V b C i r -> commit_inv V N b C E D i r -> vote_built r m ->
  m_Type mo = MsgVote -> m_Term mo = m_Term m -> m_From mo = i -> m_Index mo = m_Index m ->
  m_LogTerm mo = m_LogTerm m -> msg_sound V N b C E D mo.
Proof.
  intros Hs Hc (Hst & Htm & Hlast) Ety Etm Ef Ei El. destruct (cm_cand _ _ _ _ _ _ _ _ Hc Hst) as (_ & Hb & HD).
  unfold msg_sound. rewrite Ety, Etm, Htm, Ef, Ei, El. split; [done|]. eexists. split; [exact HD|].
  apply (lastEntryID_view C); [apply Hs|done].
Qed.

(** ** Acknowledgements *)

Lemma ack_sound s0 N b C E D i r m m' k :
  history_ok V N b C E D -> sound V b C i r -> log_rooted C (r_raftLog s0) -> trimmed (r_raftLog s0) ->
  msg_sound V N b C E D m -> fresh m r -> ack_built s0 m r m' -> m_Reject m' = false ->
  Z.of_nat k <= m_Index m' -> k <> 0%nat ->
  exists j T, C !! r_term r = Some (j, T) /\ (k <= length T)%nat /\
    take k (log_view (r_raftLog r)) = take k T.
Proof.
  intros Hh Hs Hl0 Htr Hm Hfr Hb Hrj Hk Hk0. destruct (Hb Hrj) as [?|[[Hst Hix]|Hb']]; [lia|..].
  - pose proof (coherent_leader r (ni_coherent _ _ _ _ (sd_node _ _ _ _ _ Hs)) Hst) as Hld.
    pose proof (li_log _ _ _ (sd_log _ _ _ _ _ Hs)) as Hl. pose proof (lr_ok _ _ Hl) as (Hwf & _).
    rewrite raftLog_lastIndex_view, (log_rooted_last C) in Hix by done. eexists _, _.
    split; [by apply Hs|]. split; [unfold len in Hix; lia|done].
  - destruct Hb' as (_ & Ht & Hchk & e & l & Hlast & Hie & [Hmt Ha] & Hl).
    assert (log_view (r_raftLog r) = log_view l) as Hv.
    { destruct Hl as [-> | [k' Hto]]; [done|]. by eapply commitTo_view. }
    destruct (append_view V N b C E D m (r_raftLog s0) l) as (j & T & s & Q & HT & _ & Hi & _ & Hp & Hres);
      try done; [apply Hs|].
    pose proof (ho_pos _ _ _ _ _ _ Hh _ _ _ HT). assert (m_Term m = r_term r) as Htm.
    { unfold fresh in Hfr. rewrite Ht in Hfr. unfold term_checked in Hchk. destruct Hfr; [set_solver|lia..]. }
    destruct (rg_contig _ _ _ (sd_reigns _ _ _ _ _ Hs) _ _ _ HT) as [Hct _].
    destruct Hres as [(En & _)|(_ & Hv' & Hn & _)]; [by rewrite En in Hlast|].
    assert (0 <= m_Index m <= len T) as Hir.
    { unfold msg_sound in Hm. rewrite Ht in Hm. destruct Hm as (j2 & T2 & s2 & Q2 & HT2 & _ & Hi2 & _).
      assert (T2 = T) as -> by congruence. done. }
    destruct (piece_contig T m Hct Hir Hp) as [Hce _].
    rewrite last_lookup in Hlast. pose proof (Hce _ _ Hlast) as Hei. pose proof (lookup_lt_Some _ _ _ Hlast).
    exists j, T. rewrite <- Htm. split; [done|]. split; [lia|]. rewrite Hv, Hv', take_take. f_equal. lia.
Qed.

(** ** Sending *)

Lemma built_sound s0 N b C E D i m m' r :
  history_ok V N b C E D -> sound V b C i r -> commit_inv V N b C E D i r ->
  (r_step r = StepLeader -> trimmed (r_raftLog r)) -> send_ok s0 m r m' ->
  msg_sound V N b C E D (stamped r m').
Proof.
  intros Hh Hs Hc Htr (Hf & _ & Hb). pose proof (stamped_body r m') as (E1 & E2 & E3 & E4 & E5 & E6 & _).
  pose proof (stamped_term r m') as Et. unfold built in Hb. destruct (m_Type m') eqn:Ty;
    try (unfold msg_sound; rewrite E1; done); simpl in Et.
  - eapply append_sound; try done. apply Htr, Hb.
  - eapply vote_sound; try done. rewrite stamped_from; [apply Hs|].
    destruct Hf as [?|[-> Hf]]; [done|]. simpl in Ty. rewrite Ty in Hf. set_solver.
  - by eapply heartbeat_sound.
Qed.

Lemma stamped_ack s0 i m m' r n t k :
  r_id r = i -> send_ok s0 m r m' -> is_ack n t k (stamped r m') ->
  n = i /\ t = r_term r /\ m_Reject m' = false /\ Z.of_nat k <= m_Index m' /\ ack_built s0 m r m'.
Proof.
  intros Hid (Hf & _ & Hb) (Ty & Hr & Hn & Ht & Hk).
  pose proof (stamped_body r m') as (E1 & _ & E3 & _ & _ & _ & E7). rewrite E1 in Ty.
  unfold built in Hb. rewrite Ty in Hb. rewrite stamped_term, Ty in Ht. simpl in Ht.
  rewrite stamped_from in Hn; [|destruct Hf as [?|[-> Hf]]; [done|simpl in Ty; rewrite Ty in Hf; set_solver]].
  split_and!; try done; congruence.
Qed.

End send.

(** ** Handling *)

Section node.
Context {RT : Runtime} {St : Type} {SS : Storage St} {SP : StorageSpec St}.
Variable V : MajorityConfig.
Implicit Types r : Raft St.
Implicit Types m : Message.
Implicit Types (N : list Message) (b : book) (C : reigns) (E : coronations) (D : ballots).

(** ** Sending *)

Lemma outbox_send m r r' x :
  Raft_send m r = Ok r' -> x ∈ outbox r' <-> x ∈ outbox r \/ x = stamped r m.
Proof.
  intros [-> | ->]%Raft_send_stamped; unfold outbox; simpl;
    rewrite !elem_of_app, list_elem_of_singleton; tauto.
Qed.

Lemma acked_send m r r' n t k :
  Raft_send m r = Ok r' -> acked (outbox r') n t k -> acked (outbox r) n t k \/ is_ack n t k (stamped r m).
Proof.
  intros Hs (x & Hx & Ha). apply (outbox_send _ _ _ _ Hs) in Hx as [Hx | ->]; [left; by exists x|by right].
Qed.

Lemma ballot_term N b C E D i t L r :
  history_ok V N b C E D -> node_inv V b i r -> D !! (i, t) = Some L -> t <= r_term r.
Proof.
  intros Hh Hn HD. destruct (ho_cast _ _ _ _ _ _ Hh _ _ _ HD) as (_ & [x Hx] & _).
  by eapply (ni_book _ _ _ _ Hn).
Qed.

Lemma send_commit s0 N b C E D i m m' r r' :
  history_ok V N b C E D -> sound V b C i r -> commit_inv V N b C E D i r ->
  log_rooted C (r_raftLog s0) -> trimmed (r_raftLog s0) -> (r_step r = StepLeader -> trimmed (r_raftLog r)) ->
  msg_sound V N b C E D m -> fresh m r -> send_ok s0 m r m' -> Raft_send m' r = Ok r' ->
  commit_inv V N b C E D i r'.
Proof.
  intros Hh Hs Hc Hl0 Htr0 Htr Hm Hfr Hok Hsend. pose proof (ni_id _ _ _ _ (sd_node _ _ _ _ _ Hs)) as Hid.
  assert (forall n t k, acked (outbox r') n t k -> acked (outbox r) n t k \/
    (n = i /\ t = r_term r /\ (k <> 0%nat -> exists j T, C !! r_term r = Some (j, T) /\ (k <= length T)%nat /\
      take k (log_view (r_raftLog r)) = take k T))) as Hack.
  { intros n t k [?|Ha]%(acked_send _ _ _ _ _ _ Hsend); [by left|right].
    destruct (stamped_ack s0 i m m' r n t k Hid Hok Ha) as (-> & -> & Hrj & Hk & Hb).
    split_and!; [done..|]. intros Hk0. by eapply ack_sound. }
  assert (forall t u L, t <= r_term r -> kept (outbox r) C E i t u L -> kept (outbox r') C E i t u L) as Hold.
  { intros t u L Ht H t' k j T Ht' [Ha|(_ & -> & _)]%Hack HT; [by eapply H|lia]. }
  assert (r_term r' = r_term r /\ r_raftLog r' = r_raftLog r /\ r_trk r' = r_trk r /\ r_state r' = r_state r)
    as (Et & El & Ek & Es) by (by apply Raft_send_stamped in Hsend as [-> | ->]).
  pose proof Hc as []. split; rewrite ?Et, ?El, ?Ek, ?Es; try done.
  - intros x [Hx| ->]%(outbox_send _ _ _ _ Hsend) Hx2; [by apply cm_from|].
    destruct Hok as (Hf & _). rewrite stamped_from; [done|]. rewrite (proj1 (stamped_body r m')) in Hx2.
    destruct Hf as [?|[-> Hf]]; [done|]. simpl in Hx2. rewrite Hx2 in Hf. set_solver.
  - intros x [Hx| ->]%(outbox_send _ _ _ _ Hsend); [by apply cm_msgs|]. by eapply built_sound.
  - intros t k [Ha|[Ha|(_ & -> & Ha)]%Hack]%acked_app Hk; [apply cm_acks; [|done]; apply acked_app; auto..|].
    split; [done|]. destruct (Ha Hk) as (j & T & ? & ? & _). by exists j, T.
  - intros t k j T Ht [Ha|[Ha|(_ & -> & Ha)]%Hack]%acked_app HT; [eapply cm_kept; [done| |done]; apply acked_app; auto..|].
    destruct (decide (k = 0%nat)) as [-> | Hk]; [apply holds_zero|].
    destruct (Ha Hk) as (j' & T' & HT' & _ & ?). assert (T' = T) as -> by congruence. by left.
  - intros t L HL. apply Hold; [|by apply cm_cast]. eapply ballot_term; [done|apply Hs|done].
  - intros t s Q L HE Hi HL. apply Hold; [|by eapply cm_voter]. eapply ballot_term; [done|apply Hs|done].
Qed.

(** ** Voting *)

Lemma vote_ghosts N b C E D i t x r :
  history_ok V N b C E D -> sound V b C i r -> commit_inv V N b C E D i r ->
  b !! (i, t) = None -> r_term r <= t <= r_term r + 1 ->
  x = i /\ below t (log_view (r_raftLog r)) \/
    x <> i /\ (exists K, b !! (x, t) = Some x /\ D !! (x, t) = Some K /\ newer K (log_view (r_raftLog r))) ->
  let b' := <[ (i, t) := x ]> b in let D' := <[ (i, t) := log_view (r_raftLog r) ]> D in
  ghost_ext i b C E D b' C E D' /\ history_ok V N b' C E D' /\ commit_inv V N b' C E D' i r.
Proof.
  intros Hh Hs Hc Hb Ht Hx b' D'. assert (D !! (i, t) = None) as HD.
  { apply eq_None_not_Some. intros [L HL]. destruct (ho_cast _ _ _ _ _ _ Hh _ _ _ HL) as (_ & [y Hy] & _). congruence. }
  split; [|split].
  - split; [by apply book_ext_insert|apply reigns_ext_refl|done|by apply insert_subseteq|].
    intros j t' Hj. subst D'. rewrite lookup_insert_ne; [done|congruence].
  - apply history_vote; try done; [apply Hs|]. pose proof (cm_kept _ _ _ _ _ _ _ _ Hc) as [Hk _]%kept_app.
    eapply (kept_mono i); [apply Hh|apply reigns_ext_refl|done| |eapply kept_less; [|exact Hk]]; lia.
  - by apply commit_inv_vote.
Qed.

Lemma candidate_commit N b C E D i r :
  history_ok V N b C E D -> sound V b C i r -> commit_inv V N b C E D i r -> r_term r < MaxUint64 ->
  let r' := self_vote (Raft_becomeCandidate r) in
  exists D', let b' := <[ (i, r_term r') := r_votedFor r' ]> b in
    ghost_ext i b C E D b' C E D' /\ history_ok V N b' C E D' /\ commit_inv V N b' C E D' i r'.
Proof.
  intros Hh Hs Hc Hlt r'. pose proof (sd_node _ _ _ _ _ Hs) as Hn. pose proof (ni_term _ _ _ _ Hn) as Hpos.
  assert (r_term r' = r_term r + 1 /\ r_votedFor r' = i /\ r_raftLog r' = r_raftLog r /\ outbox r' = outbox r /\
    r_state r' = Candidate /\ tracker_ok (r_trk r')) as (Et & Ev & El & Eo & Es & Htr).
  { subst r'. unfold self_vote. rewrite Raft_becomeCandidate_eq, wrap64_succ_id by lia. simpl.
    split_and!; try done; [apply Hn|]. apply tracker_ok_RecordVote, tracker_ok_reset, Hc. }
  clearbody r'. rewrite Et, Ev. eexists. simpl.
  destruct (vote_ghosts N b C E D i (r_term r + 1) i r Hh Hs Hc) as (Hg & Hh' & Hc'); [|lia| |].
  - apply eq_None_not_Some. intros [x Hx]. pose proof (ni_book _ _ _ _ Hn _ _ Hx). lia.
  - left. split; [done|]. intros e He%(cm_terms _ _ _ _ _ _ _ _ Hc). lia.
  - split; [exact Hg|]. split; [exact Hh'|]. apply (commit_inv_keep V _ _ _ _ _ i r); try done; [lia| |by rewrite Es].
    intros _. rewrite Et, El. split; [lia|]. split; apply lookup_insert_eq.
Qed.

Lemma grants_newer C m r K :
  log_rooted C (r_raftLog r) -> Raft_grants m r = Ok true -> m_Index m = len K -> m_LogTerm m = last_term K ->
  newer K (log_view (r_raftLog r)).
Proof.
  intros Hl Hg Hi Ht. unfold Raft_grants in Hg. destruct (Raft_canVoteFor m r); [|done].
  unfold Raft_isCandidateUpToDate, raftLog_isUpToDate in Hg. apply bind_Ok in Hg as ([i t] & He & Hg).
  apply (lastEntryID_view C) in He as [-> ->]; [|done]. injection Hg as Hg. rewrite Hi, Ht in Hg.
  unfold newer. apply orb_true_iff in Hg as [Hg|Hg]; to_prop; lia.
Qed.

Lemma grant_commit N b C E D i m r :
  history_ok V N b C E D -> sound V b C i r -> commit_inv V N b C E D i r ->
  m_Type m = MsgVote -> msg_sound V N b C E D m -> term_checked m r -> Raft_grants m r = Ok true ->
  b !! (i, r_term r) = None ->
  exists D', let b' := <[ (i, r_term r) := m_From m ]> b in
    ghost_ext i b C E D b' C E D' /\ history_ok V N b' C E D' /\
    commit_inv V N b' C E D' i (r <| r_votedFor := m_From m |>).
Proof.
  intros Hh Hs Hc Ht Hm Hchk Hg Hb. pose proof (sd_node _ _ _ _ _ Hs) as Hn. pose proof (ni_term _ _ _ _ Hn) as Hpos.
  unfold msg_sound in Hm. rewrite Ht in Hm. destruct Hm as (Hbx & K & HK & Hi & Hlt).
  assert (m_Term m = r_term r) as Etm.
  { unfold Raft_grants, Raft_canVoteFor in Hg. destruct (m_Term m <? r_term r) eqn:E1; to_prop; [done|].
    unfold term_checked in Hchk. lia. }
  rewrite Etm in *. eexists. simpl.
  destruct (vote_ghosts N b C E D i (r_term r) (m_From m) r Hh Hs Hc Hb) as (Hge & Hh' & Hc'); [lia| |].
  - right. split; [congruence|]. exists K. split_and!; try done. eapply grants_newer; [apply Hs|done..].
  - split; [exact Hge|]. split; [exact Hh'|]. apply (commit_inv_same V _ _ _ _ _ i r); try done; [apply Hc|]. simpl. eauto.
Qed.

(** ** Leading *)

Lemma crown_commit N b C C' E D i r r' :
  history_ok V N b C E D -> sound V b C i r -> commit_inv V N b C E D i r -> r_state r = Candidate ->
  ProgressTracker_TallyVotes (r_trk r) = VoteWon ->
  reigns_ext i C C' -> C' = <[ r_term r := (i, log_view (r_raftLog r)) ]> C ->
  r_state r' = Leader -> r_term r' = r_term r -> r_raftLog r' = r_raftLog r -> outbox r' = outbox r ->
  tracker_ok (r_trk r') ->
  (forall id p, progress (r_trk r') !! id = Some p ->
    MatchIndex p = 0 \/ (id = i /\ MatchIndex p = len (log_view (r_raftLog r)))) ->
  exists E', ghost_ext i b C E D b C' E' D /\ history_ok V N b C' E' D /\ commit_inv V N b C' E' D i r'.
Proof.
  intros Hh Hs Hc Hcd Hw Hx HC' Es Et El Eo Htr Hp. pose proof (sd_node _ _ _ _ _ Hs) as Hn.
  destruct (cm_cand _ _ _ _ _ _ _ _ Hc Hcd) as (Hpos & Hb & HD). set (T := log_view (r_raftLog r)) in *.
  assert (C !! r_term r = None) as Hnone.
  { apply eq_None_not_Some. intros [[j T'] HT]. destruct (proj1 Hx _ _ _ HT) as (T2 & HT2 & _).
    rewrite HC', lookup_insert_eq in HT2. injection HT2 as <- <-.
    by destruct (li_led _ _ _ (sd_log _ _ _ _ _ Hs) _ _ HT) as [_ []]. }
  assert (E !! r_term r = None) as HE.
  { apply eq_None_not_Some. intros [[s Q] HE]. destruct (ho_reign _ _ _ _ _ _ Hh _ _ _ HE) as (j & T' & ?). congruence. }
  set (Q := granted_by V (votes (r_trk r))). exists (<[ r_term r := (T, Q) ]> E).
  assert (ghost_ext i b C E D b C' (<[ r_term r := (T, Q) ]> E) D) as Hg.
  { split; [apply book_ext_refl|done|by apply insert_subseteq|done..]. }
  split; [done|]. split.
  - rewrite HC' in *. apply history_crown; try done; [apply Hs| |].
    + split; [apply granted_by_subset|]. apply VoteResult_won_iff; [pose proof (ni_member _ _ _ _ Hn); set_solver|].
      rewrite <- (ni_voters _ _ _ _ Hn). exact Hw.
    + intros n Hq. apply (ni_cand _ _ _ _ Hn Hcd). unfold Q, granted_by in Hq. by apply elem_of_filter in Hq as [? _].
  - pose proof (commit_inv_ext V i i N b C E D b C' _ D r Hg (fun t => eq_refl) Hc) as Hc'.
    apply (commit_inv_keep V _ _ _ _ _ i r); try done; [lia|by rewrite Es|].
    intros _. rewrite Et. exists T, Q. split; [apply lookup_insert_eq|]. intros id p Hi.
    destruct (Hp id p Hi) as [?|[? ?]]; [left; lia|right; left; split; [done|lia]].
Qed.

Lemma reset_match r id p :
  progress (reset_trk r) !! id = Some p ->
  MatchIndex p = 0 \/ (id = r_id r /\ MatchIndex p = raftLog_lastIndex (r_raftLog r)).
Proof.
  unfold reset_trk. rewrite Visit_lookup. intros (q & _ & ->)%fmap_Some. simpl.
  destruct (id =? r_id r) eqn:E; to_prop; auto.
Qed.

Lemma grow_commit N b C C' E D i d r l' :
  history_ok V N b C E D -> sound V b C i r -> commit_inv V N b C E D i r -> r_state r = Leader ->
  room (r_raftLog r) -> reigns_ext i C C' -> C' = <[ r_term r := (i, log_view l') ]> C ->
  raftLog_appendEntries [mkEntry (raftLog_lastIndex (r_raftLog r) +u 1) (r_term r) d] (r_raftLog r) = Ok l' ->
  ghost_ext i b C E D b C' E D /\ history_ok V N b C' E D /\ commit_inv V N b C' E D i (r <| r_raftLog := l' |>).
Proof.
  intros Hh Hs Hc Hld Hrm Hx HC' Ha. pose proof (li_log _ _ _ (sd_log _ _ _ _ _ Hs)) as Hl.
  pose proof (appendEntries_committed _ _ _ Ha) as Hcm. apply propose_log in Ha as (_ & Hv & _); [|apply Hl|done].
  pose proof (li_lead _ _ _ (sd_log _ _ _ _ _ Hs) Hld) as HT.
  assert (ghost_ext i b C E D b C' E D) as Hg by (split; [apply book_ext_refl|done..]).
  split; [done|]. split; [rewrite HC', Hv in *; by apply history_grow|].
  pose proof (commit_inv_ext V i i N b C E D b C' _ D r Hg (fun t => eq_refl) Hc) as Hc'.
  apply (commit_inv_next V _ _ _ _ _ i r); try done; simpl.
  - apply Hc.
  - rewrite Hv. by apply prefix_app_r.
  - intros e. rewrite Hv. intros [He%(cm_terms _ _ _ _ _ _ _ _ Hc)| ->%list_elem_of_singleton]%elem_of_app; done.
  - by rewrite Hld.
  - intros _. by apply Hc'.
  - rewrite Hcm. eapply committed_prefix_longer; [|apply Hc']. rewrite Hv. by apply prefix_app_r.
Qed.

(** A response the leader records. *)
Lemma progress_commit N b C E D i m f id r :
  history_ok V N b C E D -> commit_inv V N b C E D i r -> r_state r = Leader ->
  progress_update m r id f -> (m_Type m = MsgAppResp -> m ∈ N) -> fresh m r ->
  commit_inv V N b C E D i (r <| r_trk ::= update_progress id f |>).
Proof.
  intros Hh Hc Hld Hf HN Hfr. apply (commit_inv_keep V _ _ _ _ _ i r); try done; simpl.
  - apply tracker_ok_update, Hc.
  - by rewrite Hld.
  - intros _. destruct (cm_lead _ _ _ _ _ _ _ _ Hc Hld) as (s & Q & HE & Hm). exists s, Q. split; [done|].
    intros n p. rewrite lookup_alter_Some. intros [(-> & q & Hq & ->)|[_ Hp]]; [|by apply Hm].
    destruct Hf as [Hf|(Ht & Hr & -> & Hchk & Hf)].
    + destruct (Hf q) as [E0 _]. unfold matched. rewrite E0. by apply Hm.
    + destruct (Hf q) as [E0 _]. unfold matched. rewrite E0.
      destruct (decide (m_Index m <= 0)) as [?|Hpos]; [by left|right; right].
      assert (acked N (m_From m) (m_Term m) (Z.to_nat (m_Index m))) as Ha.
      { exists m. split; [by apply HN|]. split_and!; try done. lia. }
      destruct (acked_term V _ _ _ _ _ _ _ _ Hh Ha) as [Hnz _]; [lia|].
      unfold fresh in Hfr. rewrite Ht in Hfr. unfold term_checked in Hchk.
      assert (m_Term m = r_term r) as <- by (destruct Hfr; [set_solver|lia..]). done.
Qed.

(** ** Every transition *)

(** What handling [m] needs: [s0] is the node when [Step] was called, [r] the node now. *)
Record handling N b C E D (i : Z) (s0 : Raft St) (m : Message) (r : Raft St) : Prop := {
  hd_inv : msg_inv b i m;
  hd_calm : calm m r;
  hd_bounded : bounded m (r_term s0);
  hd_snap : m_Type m <> MsgSnap;
  hd_room : room (r_raftLog s0);
  hd_sound : msg_sound V N b C E D m;
  hd_resp : m_Type m = MsgAppResp -> m ∈ N;
  hd_beat : m_Type m = MsgHeartbeat -> m_To m = i;
  hd_fresh : fresh m r;
  hd_tail : keeps_tail m (r_raftLog s0);
  hd_start : log_rooted C (r_raftLog s0);
  hd_trimmed : trimmed (r_raftLog s0);
  hd_tidy : trimmed (r_raftLog r) \/ (m_Type m = MsgApp /\ r_step r = StepFollower)
}.

(** The node is [r'] now, and larger registers account for it. *)
Definition advanced N b C E D (i : Z) (r' : Raft St) : Prop :=
  exists b' C' E' D', ghost_ext i b C E D b' C' E' D' /\ sound V b' C' i r' /\
    history_ok V N b' C' E' D' /\ commit_inv V N b' C' E' D' i r'.

(** A transition neither votes nor leads anew. *)
Definition steady (r r' : Raft St) : Prop :=
  (r_votedFor r' = 0 \/ r_term r' = r_term r /\ r_votedFor r' = r_votedFor r) /\
  (r_state r' = Leader -> r_state r = Leader /\ r_term r' = r_term r /\ log_view (r_raftLog r') = log_view (r_raftLog r)).

Lemma steady_book b b' i r r' :
  r_votedFor r' = 0 \/ r_term r' = r_term r /\ r_votedFor r' = r_votedFor r -> node_inv V b i r -> node_inv V b' i r' -> book_step i b b' r' -> b' = b.
Proof.
  intros Hv Hn Hn' [-> | [Hnone Hb']]; [done|]. exfalso.
  pose proof (ni_vote _ _ _ _ Hn') as Hv'. rewrite Hb', lookup_insert_eq in Hv'.
  destruct Hv as [Hz|[Et Ev]]; [by rewrite Hz in Hv'|]. rewrite Et in Hnone.
  rewrite (ni_vote _ _ _ _ Hn) in Hnone. rewrite Ev in Hv'. by destruct (r_votedFor r =? 0).
Qed.

Lemma steady_reigns C C' i r r' : steady r r' -> log_inv C i r -> reign_step i C C' r' -> C' = C.
Proof.
  intros [_ Hl] Hi [-> | [Hs ->]]; [done|]. destruct (Hl Hs) as (Hs' & -> & ->).
  apply insert_id. by apply (li_lead _ _ _ Hi).
Qed.

Lemma trimmed_grow l l' :
  l_storage l' = l_storage l -> log_view l `prefix_of` log_view l' -> trimmed l -> trimmed l'.
Proof.
  unfold trimmed, log_last, log_base, log_snap. intros -> [x ->]. rewrite len_app. pose proof (len_nonneg x). lia.
Qed.

Lemma tidy_step s0 b C i m r r' :
  raft_step s0 m r r' -> sound V b C i r -> m_Type m <> MsgSnap -> room (r_raftLog s0) ->
  trimmed (r_raftLog r) \/ (m_Type m = MsgApp /\ r_step r = StepFollower) ->
  trimmed (r_raftLog r') \/ (m_Type m = MsgApp /\ r_step r' = StepFollower).
Proof.
  intros H Hs Hns Hrm Ht. pose proof (li_log _ _ _ (sd_log _ _ _ _ _ Hs)) as Hl. pose proof (lr_ok _ _ Hl) as Hok.
  destruct H; expand_steps; simpl in *; try tauto.
  - by apply Raft_send_quiet in H0 as (?&?&?&?&->).
  - destruct Ht as [?|[? _]]; [by left|congruence].
  - destruct Ht as [?|[Ht _]]; [by left|rewrite Ht in H; set_solver].
  - destruct Ht as [?|[_ ?]]; [by left|congruence].
  - destruct Ht as [?|[_ ?]]; [left|congruence]. unfold same_log in *. rewrite <- H0 in Hrm.
    apply propose_log in H1 as (_ & Hv & Hst); [|done..]. eapply trimmed_grow; [done| |done].
    rewrite Hv. by apply prefix_app_r.
  - pose proof (commitTo_view _ _ _ H4) as Hv. apply raftLog_commitTo_ok in H4 as (_ & _ & Hst & _); [|done].
    destruct Ht as [?|[_ ?]]; [left|congruence]. eapply trimmed_grow; [done|by rewrite Hv|done].
  - pose proof (commitTo_view _ _ _ H4) as Hv. apply raftLog_commitTo_ok in H4 as (_ & _ & Hst & _); [|done].
    destruct Ht as [?|?]; [left|by right]. eapply trimmed_grow; [done|by rewrite Hv|done].
Qed.

Lemma fresh_step s0 m r r' : raft_step s0 m r r' -> calm m r -> fresh m r -> fresh m r'.
Proof.
  intros H Hc Hf Ht. specialize (Hf Ht). destruct H; expand_steps; simpl in *; try done.
  - by apply Raft_send_quiet in H0 as (?&?&?&?&->).
  - lia.
  - lia.
  - inv_list; congruence.
Qed.

Lemma handling_step s0 N b C E D b' C' E' D' i m r r' :
  raft_step s0 m r r' -> sound V b C i r -> ghost_ext i b C E D b' C' E' D' ->
  handling N b C E D i s0 m r -> handling N b' C' E' D' i s0 m r'.
Proof.
  intros H Hs Hg []. split; try done.
  - eapply msg_inv_mono; [apply Hg|done].
  - by eapply calm_step.
  - by eapply msg_sound_ext.
  - by eapply fresh_step.
  - eapply log_rooted_ext; [apply Hg|done].
  - by eapply tidy_step.
Qed.

(** Following sends nothing and keeps the log. *)
Lemma follower_keeps_commit N b C E D i t lead r :
  commit_inv V N b C E D i r -> r_term r <= t -> commit_inv V N b C E D i (Raft_becomeFollower t lead r).
Proof.
  intros Hc Ht. rewrite Raft_becomeFollower_eq. apply (commit_inv_keep V _ _ _ _ _ i r); try done.
  apply tracker_ok_reset, Hc.
Qed.

Lemma follow_steady t lead r : steady r (Raft_becomeFollower t lead r).
Proof.
  rewrite Raft_becomeFollower_eq. split; simpl; [|done]. unfold kept_vote.
  destruct (r_term r =? t) eqn:E; to_prop; auto.
Qed.

Lemma same_ballot_steady r r' :
  r_term r' = r_term r -> r_votedFor r' = r_votedFor r -> r_state r' = r_state r ->
  (r_state r = Leader -> log_view (r_raftLog r') = log_view (r_raftLog r)) -> steady r r'.
Proof. intros Et Ev Es El. split; [by right|]. rewrite Es. auto. Qed.

(** Taking an append or a commit index from the leader. *)
Lemma follower_steps s0 N b C E D i m r l' :
  handling N b C E D i s0 m r -> sound V b C i r -> history_ok V N b C E D -> commit_inv V N b C E D i r ->
  r_step r = StepFollower -> term_checked m r ->
  (m_Type m = MsgApp /\ same_log s0 r /\ accepted s0 m l' \/
   exists k, m_Type m ∈ [MsgApp; MsgHeartbeat] /\ k <= m_Commit m /\
     (m_Type m = MsgApp -> accepted s0 m (r_raftLog r)) /\ raftLog_commitTo k (r_raftLog r) = Ok l') ->
  commit_inv V N b C E D i (r <| r_raftLog := l' |>).
Proof.
  intros [] Hs Hh Hc Hst Hchk Hcase. unfold term_checked in Hchk. unfold fresh in hd_fresh0.
  assert (m_Type m = MsgApp -> m_Term m = r_term r) as Htm.
  { intros Ht. pose proof hd_sound0 as Hm. unfold msg_sound in Hm. rewrite Ht in Hm, hd_fresh0.
    destruct Hm as (j & T & s & Q & HT & _). pose proof (ho_pos _ _ _ _ _ _ Hh _ _ _ HT).
    destruct hd_fresh0; [set_solver|lia..]. }
  assert (forall l, m_Type m = MsgApp -> accepted s0 m l -> append_result C E m (r_raftLog s0) l) as Hres.
  { intros l Ht [Hmt Ha]. eapply append_view; try done. apply Hs. }
  destruct Hcase as [(Ht & Hsl & Ha)|(k & Ht & Hk & Ha & Hto)].
  - unfold same_log in Hsl. eapply append_commit; try done; [by apply Htm|by rewrite Hsl|rewrite Hsl; by apply Hres].
  - rewrite !elem_of_cons in Ht. destruct Ht as [Ht|[Ht|Ht]]; [| |by inversion Ht].
    + eapply follower_commit_app; try done; [by apply Htm|by apply Hres, Ha].
    + eapply follower_commit_beat; try done; [by apply hd_beat0|]. rewrite Ht in hd_fresh0.
      destruct hd_fresh0; [set_solver|by left|lia].
Qed.

(** Becoming a candidate. *)
Lemma candidate_advanced N b b1 C C1 E D i r :
  sound V b C i r -> history_ok V N b C E D -> commit_inv V N b C E D i r -> r_term r < MaxUint64 ->
  let r' := self_vote (Raft_becomeCandidate r) in
  book_step i b b1 r' -> reign_step i C C1 r' -> sound V b1 C1 i r' -> advanced N b C E D i r'.
Proof.
  intros Hs Hh Hc Hlt r' Hb1 Hr1 Hs1. pose proof (sd_node _ _ _ _ _ Hs) as Hn.
  pose proof (ni_term _ _ _ _ Hn). destruct (candidate_commit N b C E D i r Hh Hs Hc Hlt) as (D' & Hge & Hh' & Hc').
  fold r' in Hge, Hh', Hc'.
  assert (C1 = C) as ->.
  { destruct Hr1 as [-> | [Hl _]]; [done|]. exfalso. revert Hl. subst r'. expand_steps. done. }
  destruct Hb1 as [-> | [_ ->]]; [|eexists _, C, E, D'; by split_and!].
  exfalso. pose proof (ni_vote _ _ _ _ (sd_node _ _ _ _ _ Hs1)) as Hv. revert Hv. subst r'. unfold self_vote.
  rewrite Raft_becomeCandidate_eq, wrap64_succ_id by lia. simpl. rewrite (ni_id _ _ _ _ Hn).
  rewrite (proj2 (Z.eqb_neq i 0) (ni_pos _ _ _ _ Hn)). intros Hv. pose proof (ni_book _ _ _ _ Hn _ _ Hv). lia.
Qed.

(** Granting a vote. *)
Lemma grant_advanced N b b1 C C1 E D i m r :
  sound V b C i r -> history_ok V N b C E D -> commit_inv V N b C E D i r ->
  m_Type m = MsgVote -> msg_sound V N b C E D m -> term_checked m r -> Raft_grants m r = Ok true ->
  let r' := r <| r_votedFor := m_From m |> in
  book_step i b b1 r' -> reign_step i C C1 r' -> sound V b1 C1 i r' -> advanced N b C E D i r'.
Proof.
  intros Hs Hh Hc Ht Hm Hchk Hg r' Hb1 Hr1 Hs1.
  assert (C1 = C) as ->.
  { destruct Hr1 as [-> | [Hl ->]]; [done|]. apply insert_id. by apply (li_lead _ _ _ (sd_log _ _ _ _ _ Hs)). }
  destruct Hb1 as [-> | [Hnone ->]].
  - exists b, C, E, D. split; [apply ghost_ext_refl|]. split; [done|]. split; [done|].
    apply (commit_inv_same V _ _ _ _ _ i r); try done; [apply Hc|]. simpl. eauto.
  - destruct (grant_commit N b C E D i m r) as (D' & Hge & Hh' & Hc'); try done. eexists _, C, E, D'. by split_and!.
Qed.

(** Taking office. *)
Lemma leader_advanced N b b1 C C1 E D i r :
  sound V b C i r -> history_ok V N b C E D -> commit_inv V N b C E D i r ->
  r_step r = StepCandidate -> r_state r <> PreCandidate -> ProgressTracker_TallyVotes (r_trk r) = VoteWon ->
  let r' := mark_active (r_id (leader_init r)) (leader_init r) in
  b1 = b -> reigns_ext i C C1 -> reign_step i C C1 r' -> sound V b1 C1 i r' -> advanced N b C E D i r'.
Proof.
  intros Hs Hh Hc Hst Hnp Hw r' -> Hx Hr1 Hs1. pose proof (sd_node _ _ _ _ _ Hs) as Hn.
  assert (r_state r = Candidate) as Hcd.
  { destruct (ni_coherent _ _ _ _ Hn) as [Hco _]. rewrite Hst in Hco. by destruct (r_state r). }
  pose proof (li_log _ _ _ (sd_log _ _ _ _ _ Hs)) as Hl. pose proof (lr_ok _ _ Hl) as (Hwf & _).
  assert (r_state r' = Leader /\ r_term r' = r_term r /\ r_raftLog r' = r_raftLog r /\ outbox r' = outbox r /\
    tracker_ok (r_trk r') /\ forall id p, progress (r_trk r') !! id = Some p ->
    MatchIndex p = 0 \/ (id = i /\ MatchIndex p = len (log_view (r_raftLog r)))) as (Es & Et & El & Eo & Htr & Hp).
  { rewrite <- (log_rooted_last C), <- raftLog_lastIndex_view, <- (ni_id _ _ _ _ Hn) by done. subst r'. expand_steps. split_and!; try done.
    - apply tracker_ok_update, tracker_ok_reset, Hc.
    - intros id p. simpl. rewrite lookup_alter_Some.
      intros [(Ei & q & Hq & ->)|[_ Hp]]; [exact (reset_match r id q Hq)|exact (reset_match r id p Hp)]. }
  clearbody r'. destruct Hr1 as [-> | [_ HC1]].
  - exfalso. pose proof (li_lead _ _ _ (sd_log _ _ _ _ _ Hs1) Es) as HT. rewrite Et in HT.
    by destruct (li_led _ _ _ (sd_log _ _ _ _ _ Hs) _ _ HT) as [_ []].
  - rewrite Et, El in HC1. destruct (crown_commit N b C C1 E D i r r') as (E' & Hge & Hh' & Hc'); try done.
    exists b, C1, E', D. by split_and!.
Qed.

(** Proposing. *)
Lemma propose_advanced N b C C1 E D i d r l' :
  sound V b C i r -> history_ok V N b C E D -> commit_inv V N b C E D i r -> r_state r = Leader ->
  room (r_raftLog r) ->
  raftLog_appendEntries [mkEntry (raftLog_lastIndex (r_raftLog r) +u 1) (r_term r) d] (r_raftLog r) = Ok l' ->
  let r' := r <| r_raftLog := l' |> in
  reigns_ext i C C1 -> sound V b C1 i r' -> reign_step i C C1 r' -> advanced N b C E D i r'.
Proof.
  intros Hs Hh Hc Hld Hrm Ha r' Hx Hs1 [-> | [_ HC1]].
  - exfalso. pose proof (li_lead _ _ _ (sd_log _ _ _ _ _ Hs1) Hld) as HT. simpl in HT.
    rewrite (li_lead _ _ _ (sd_log _ _ _ _ _ Hs) Hld) in HT. injection HT as HT.
    apply propose_log in Ha as (_ & Hv & _); [|apply Hs|done]. rewrite Hv in HT.
    apply (f_equal length) in HT. rewrite length_app in HT. simpl in HT. lia.
  - destruct (grow_commit N b C C1 E D i d r l') as (Hge & Hh' & Hc'); try done. exists b, C1, E, D. by split_and!.
Qed.

(** Every atomic transition keeps the invariant. *)
Lemma raft_step_advanced s0 N b C E D i m r r' :
  raft_step s0 m r r' -> handling N b C E D i s0 m r -> sound V b C i r -> history_ok V N b C E D ->
  commit_inv V N b C E D i r -> advanced N b C E D i r'.
Proof.
  intros H Hd Hs Hh Hc. pose proof Hd as []. pose proof Hs as [Hn Hg Hi].
  pose proof (coherent_leader r (ni_coherent _ _ _ _ Hn)) as Hld.
  destruct (raft_step_book _ _ _ _ _ _ _ H Hn) as (b1 & Hb1 & Hn1); [done..|].
  destruct (raft_step_log_inv V s0 b b1 C i m r r') as (C1 & Hr1 & Hx1 & Hg1 & Hi1); try done;
    [by apply (book_step_ext i b b1 r')|by eapply msg_sound_rooted|].
  assert (sound V b1 C1 i r') as Hs1 by done.
  assert (steady r r' -> commit_inv V N b C E D i r' -> advanced N b C E D i r') as Hkeep.
  { intros Hst Hc'. exists b, C, E, D. pose proof (steady_book _ _ _ _ _ (proj1 Hst) Hn Hn1 Hb1) as ->.
    pose proof (steady_reigns _ _ _ _ _ Hst Hi Hr1) as ->. split; [apply ghost_ext_refl|done]. }
  destruct H; try (apply Hkeep; [by apply same_ballot_steady|];
    apply (commit_inv_same V _ _ _ _ _ i r); try done; [apply Hc|simpl; by eauto]).
  - apply Hkeep; [apply Raft_send_quiet in H0 as (?&?&?&?&->); by apply same_ballot_steady|].
    eapply send_commit; try done. intros Hl. destruct hd_tidy0 as [?|[_ ?]]; [done|congruence].
  - apply Hkeep; [apply follow_steady|]. apply follower_keeps_commit; [done|lia].
  - apply Hkeep; [apply follow_steady|]. apply follower_keeps_commit; [done|by apply hd_calm0].
  - apply Hkeep; [apply follow_steady|]. by apply follower_keeps_commit.
  - apply Hkeep; [by split; [right|]|]. apply (commit_inv_keep V _ _ _ _ _ i r); try done. apply Hc.
  - destruct (hd_bounded0 H) as [? ?]. eapply candidate_advanced; try done. lia.
  - assert (b1 = b) as -> by (eapply steady_book; [|exact Hn|exact Hn1|exact Hb1]; right; by expand_steps).
    by eapply leader_advanced.
  - by eapply grant_advanced.
  - assert (b1 = b) as -> by (eapply steady_book; [|exact Hn|exact Hn1|exact Hb1]; by right).
    eapply propose_advanced; try done; [by apply Hld|]. unfold same_log in *. by rewrite H0.
  - apply Hkeep; [apply same_ballot_steady; try done; intros El; destruct (ni_coherent _ _ _ _ Hn) as [Hco _]; by rewrite El, H in Hco|].
    eapply follower_steps; try done. left. unfold accepted, same_log in *. by rewrite H1 in *.
  - apply Hkeep; [apply same_ballot_steady; try done; intros _; by eapply commitTo_view|].
    eapply leader_commit; try done; [by apply Hld|]. destruct hd_tidy0 as [?|[_ ?]]; [done|congruence].
  - apply Hkeep; [apply same_ballot_steady; try done; intros _; by eapply commitTo_view|].
    eapply follower_steps; try done. right. by exists i0.
  - done.
  - apply Hkeep; [by apply same_ballot_steady|]. eapply progress_commit; try done. by apply Hld.
  - apply Hkeep; [by apply same_ballot_steady|].
    apply (commit_inv_same V _ _ _ _ _ i r); try done; [apply tracker_ok_Visit, Hc|].
    intros id p. simpl. rewrite map_lookup_imap. intros (q & Hq & [= <-])%bind_Some. exists q. split; [done|apply H0].
Qed.

(** ** Whole calls *)

Lemma advanced_refl N b C E D i r :
  sound V b C i r -> history_ok V N b C E D -> commit_inv V N b C E D i r -> advanced N b C E D i r.
Proof. intros Hs Hh Hc. exists b, C, E, D. split; [apply ghost_ext_refl|done]. Qed.

Lemma advanced_bind N b C E D i r r' :
  advanced N b C E D i r ->
  (forall b' C' E' D', ghost_ext i b C E D b' C' E' D' -> sound V b' C' i r -> history_ok V N b' C' E' D' ->
    commit_inv V N b' C' E' D' i r -> advanced N b' C' E' D' i r') ->
  advanced N b C E D i r'.
Proof.
  intros (b1 & C1 & E1 & D1 & Hg & Hs & Hh & Hc) H.
  destruct (H b1 C1 E1 D1 Hg Hs Hh Hc) as (b2 & C2 & E2 & D2 & Hg2 & Hs2 & Hh2 & Hc2).
  exists b2, C2, E2, D2. split; [by eapply ghost_ext_trans|done].
Qed.

Lemma raft_steps_advanced s0 N b C E D i m r r' :
  rtc (raft_step s0 m) r r' -> handling N b C E D i s0 m r -> sound V b C i r -> history_ok V N b C E D ->
  commit_inv V N b C E D i r -> advanced N b C E D i r'.
Proof.
  intros H. revert b C E D. induction H as [r|r r1 r2 H1 _ IH]; intros b C E D Hd Hs Hh Hc.
  { by apply advanced_refl. }
  eapply advanced_bind; [by eapply raft_step_advanced|]. intros b' C' E' D' Hg Hs' Hh' Hc'.
  apply IH; try done. by eapply handling_step.
Qed.

(** What a call needs of the node's log. *)
Definition settled (r : Raft St) : Prop := room (r_raftLog r) /\ trimmed (r_raftLog r).

Lemma local_commit N b C E D i m r r' e :
  Raft_Step m r = Ok (r', e) -> local_msg m = true -> bounded m (r_term r) -> settled r ->
  sound V b C i r -> history_ok V N b C E D -> commit_inv V N b C E D i r -> advanced N b C E D i r'.
Proof.
  intros H%Step_steps Hl Hb [Hrm Htr] Hs Hh Hc. destruct (local_msg_inv b i m r Hl) as [Hm Hca].
  eapply raft_steps_advanced; [exact H| |done..]. unfold local_msg in Hl. apply andb_true_iff in Hl as [_ Hl].
  split; try done; try (by destruct (m_Type m)); [| | |apply Hs|by left].
  - unfold msg_sound. by destruct (m_Type m).
  - intros Ht. exfalso. rewrite !elem_of_cons, elem_of_nil in Ht. destruct (m_Type m); naive_solver.
  - intros Ht. by rewrite Ht in Hl.
Qed.

(** Timers and the like. *)
Lemma commit_inv_timers N b C E D i r r' :
  same_ballot r r' -> r_raftLog r' = r_raftLog r -> r_trk r' = r_trk r ->
  commit_inv V N b C E D i r -> commit_inv V N b C E D i r'.
Proof.
  intros (_ & Et & Es & _ & _ & _ & Em & Ea & _) El Ek Hc. apply (commit_inv_same V _ _ _ _ _ i r); try done.
  - rewrite Ek. apply Hc.
  - unfold outbox. by rewrite Em, Ea.
  - rewrite Ek. eauto.
Qed.

Lemma advanced_timers N b C E D i r r' :
  same_ballot r r' -> r_raftLog r' = r_raftLog r -> r_trk r' = r_trk r ->
  advanced N b C E D i r -> advanced N b C E D i r'.
Proof.
  intros H1 H2 H3 H. eapply advanced_bind; [exact H|]. intros b' C' E' D' _ Hs Hh Hc.
  apply advanced_refl; [by eapply sound_same|done|by eapply commit_inv_timers].
Qed.

Lemma tickHeartbeat_commit N b C E D i r r' :
  Raft_tickHeartbeat r = Ok r' -> settled r -> sound V b C i r -> history_ok V N b C E D ->
  commit_inv V N b C E D i r -> advanced N b C E D i r'.
Proof.
  unfold Raft_tickHeartbeat. intros (r1 & H1 & H2)%bind_Ok Hst Hs Hh Hc.
  assert (advanced N b C E D i r1 /\ settled r1) as [Hadv Hst1].
  { destruct (_ <=? _).
    2: { inv_res. split; [|done]. by eapply advanced_timers; [..|apply (advanced_refl _ _ _ _ _ _ r)]. }
    apply bind_Ok in H1 as ([r2 e] & H1 & H3). pose proof (CheckQuorum_log _ _ _ H1) as Hl. simpl in Hl.
    eapply (local_commit N b C E D i) in H1;
      [|done|intros ?; inv_list; done|done|by eapply sound_same; [..|exact Hs]|done|by eapply commit_inv_timers; [..|exact Hc]].
    unfold settled in *. destruct (_ && _); inv_res; simpl; rewrite Hl; (split; [|done]); [by eapply advanced_timers; [..|exact H1]|done]. }
  clear H1 Hs Hh Hc Hst. eapply advanced_bind; [exact Hadv|]. intros b' C' E' D' _ Hs Hh Hc.
  destruct (_ <=? _); [|inv_res; by apply advanced_refl].
  apply bind_Ok in H2 as ([r3 e] & H2 & H3). inv_res.
  eapply local_commit; [exact H2|done|intros ?; inv_list; done|done|by eapply sound_same; [..|exact Hs]|done|
    by eapply commit_inv_timers; [..|exact Hc]].
Qed.

Lemma Tick_commit N b C E D i r r' :
  Raft_Tick r = Ok r' -> r_term r < MaxUint64 -> settled r -> sound V b C i r -> history_ok V N b C E D ->
  commit_inv V N b C E D i r -> advanced N b C E D i r'.
Proof.
  unfold Raft_Tick. intros H Hlt Hst Hs Hh Hc. destruct (r_tick r); [|by eapply tickHeartbeat_commit].
  unfold Raft_tickElection in H. destruct (Raft_pastElectionTimeout _).
  2: { inv_res. by eapply advanced_timers; [..|apply (advanced_refl _ _ _ _ _ _ r)]. }
  apply bind_Ok in H as ([r1 e] & H1 & H). inv_res.
  eapply local_commit; [exact H1|done|intros _; by split|done|by eapply sound_same; [..|exact Hs]|done|
    by eapply commit_inv_timers; [..|exact Hc]].
Qed.

End node.
