(* ===== verification/CommitRun.v ===== *)
(** * CommitRun: the commit indices of a cluster

    [commit_run] are the runs of a cluster in which the network and the hosts keep the
    discipline [disciplined]; [commit_sound] is the invariant of such runs. *)

From S2P Require Export CommitNode.

(** What a node's log and commit index were at some moment, and whether it had just
    handed out a [Ready]. *)
Record moment : Type := mkMoment {
  mo_node : Z;
  mo_emit : bool;
  mo_term : Z;
  mo_commit : Z;
  mo_log : list Entry
}.

(** The moments of node [i] since it last handed out a [Ready], that one included; the
    newest moment comes first. *)
Fixpoint since_ready (i : Z) (past : list moment) : list moment :=
  match past with
  | [] => []
  | x :: past =>
      if mo_node x =? i then x :: (if mo_emit x then [] else since_ready i past)
      else since_ready i past
  end.

Lemma since_ready_past i past x : x ∈ since_ready i past -> x ∈ past.
Proof.
  induction past as [|y past IH]; simpl; [done|]. destruct (mo_node y =? i); [destruct (mo_emit y)|]; set_solver.
Qed.

Section run.
Context {RT : Runtime} {St : Type} {SS : Storage St} {SP : StorageSpec St}.
Variable V : MajorityConfig.
Implicit Types r : Raft St.
Implicit Types c : Cluster St.
Implicit Types (N : list Message) (b : book) (C : reigns) (E : coronations) (D : ballots).

Definition now (i : Z) (emit : bool) (r : Raft St) : moment :=
  mkMoment i emit (r_term r) (l_committed (r_raftLog r)) (log_view (r_raftLog r)).

(** What commitment needs of an action that takes node [r] to [r'].  A delivered message
    is not an append, a heartbeat or a response of an older term, does not cut off
    entries it agrees with, and is no snapshot.  When a node handles anything, its
    storage holds nothing beyond the end of its log, and indices do not overflow.
    Storing entries and [Advance] leave the log as it is.  A node restarts with a log it
    had when it last handed out a [Ready] or later, and a commit index it had then. *)
Definition disciplined (past : list moment) (a : action (St:=St)) (r r' : Raft St) : Prop :=
  match a with
  | Deliver _ m => m_Type m <> MsgSnap /\ fresh m r /\ keeps_tail m (r_raftLog r) /\ settled r
  | Local _ _ | DoTick _ => settled r
  | Emit _ => True
  | DoAdvance _ _ | Persist _ _ =>
      from_one (r_raftLog r') /\ log_view (r_raftLog r') = log_view (r_raftLog r)
  | Restart i _ =>
      from_one (r_raftLog r') /\
      exists x, x ∈ since_ready i past /\ mo_log x = log_view (r_raftLog r') /\
        l_committed (r_raftLog r') <= mo_commit x
  end.

Definition emits (a : action (St:=St)) : bool := match a with Emit _ => true | _ => false end.

Definition moments (c : Cluster St) : list moment :=
  (fun p => now p.1 true p.2) <$> map_to_list (nodes c).

(** Runs of a cluster of new nodes: with empty logs, and without votes. *)
Inductive commit_run : list moment -> Cluster St -> Prop :=
| commit_run_init c :
    cluster_init V c ->
    (forall i r, nodes c !! i = Some r ->
      from_one (r_raftLog r) /\ log_view (r_raftLog r) = [] /\ r_votedFor r = 0) ->
    commit_run (moments c) c
| commit_run_step past c a c' r r' :
    commit_run past c -> exec true a c = Some c' ->
    nodes c !! actor a = Some r -> nodes c' !! actor a = Some r' -> disciplined past a r r' ->
    commit_run (now (actor a) (emits a) r' :: past) c'.

(** What a moment of node [i] still means: the log is one the node may restart with. *)
Record kept_moment N C E (i t : Z) (x : moment) : Prop := {
  km_kept : kept N C E i (t + 1) t (mo_log x);
  km_commit : committed_prefix V N C t (Z.to_nat (mo_commit x)) (mo_log x);
  km_rooted : rooted C (mo_log x);
  km_terms e : e ∈ mo_log x -> e_Term e <= t
}.

Record commit_sound b C E D (past : list moment) (c : Cluster St) : Prop := {
  ks_history : history_ok V (net c) b C E D;
  ks_nodes i r : nodes c !! i = Some r -> sound V b C i r /\ commit_inv V (net c) b C E D i r;
  ks_net m : m ∈ net c -> vote_ok b m /\ msg_sound V (net c) b C E D m;
  ks_past x : x ∈ past ->
    committed_prefix V (net c) C (mo_term x) (Z.to_nat (mo_commit x)) (mo_log x) /\
    0 <= mo_commit x <= len (mo_log x);
  ks_since i r x : nodes c !! i = Some r -> x ∈ since_ready i past ->
    kept_moment (net c) C E i (r_term r) x
}.

(** ** The node changes hands *)

(** What the host does to a node: its outbox shrinks, perhaps onto the network. *)
Lemma commit_inv_host N N' b C E D i r r' :
  commit_inv V N b C E D i r -> (forall m, m ∈ N -> m ∈ N') ->
  (forall t k, acked (N' ++ outbox r') i t k -> acked (N ++ outbox r) i t k) ->
  (forall m, m ∈ outbox r' -> m ∈ outbox r) ->
  log_view (r_raftLog r') = log_view (r_raftLog r) -> l_committed (r_raftLog r') = l_committed (r_raftLog r) ->
  r_state r' = r_state r -> r_term r' = r_term r -> r_trk r' = r_trk r -> commit_inv V N' b C E D i r'.
Proof.
  intros [] HN Hack Hout Hv Hcm Es Et Ek.
  assert (forall t k, acked (outbox r') i t k -> acked (outbox r) i t k) as Hacko
    by (intros t k; by apply acked_mono).
  split; rewrite ?Hv, ?Hcm, ?Es, ?Et, ?Ek; try done; eauto.
  - intros m Hm. eapply msg_sound_mono; eauto.
  - intros t k j T Ht Ha. by apply cm_kept, Hack.
  - intros t L HL t' k j T Ht Ha. by apply (cm_cast t L HL), Hacko.
  - intros t s Q L HE Hi HL t' k j T Ht Ha. by apply (cm_voter t s Q L HE Hi HL), Hacko.
  - intros Hl. destruct (cm_lead Hl) as (s & Q & HE & Hm). exists s, Q. split; [done|].
    intros id p Hp. eapply matched_mono; eauto.
  - by eapply committed_prefix_mono.
Qed.

Lemma committed_prefix_less N C u (x y : nat) L :
  (y <= x)%nat -> committed_prefix V N C u x L -> committed_prefix V N C u y L.
Proof.
  intros Hc [-> | (t & j & T & k & Ht & HT & Hk & Hck & E)]; [left; lia|right]. exists t, j, T, k.
  split_and!; try done; [lia|]. by eapply take_le.
Qed.

(** A node that restarts with a log it may restart with. *)
Lemma restart_commit N b C E D i cfg r r' x :
  commit_inv V N b C E D i r -> newRaft cfg = Ok r' -> r_term r' = r_term r ->
  kept_moment N C E i (r_term r) x -> mo_log x = log_view (r_raftLog r') ->
  l_committed (r_raftLog r') <= mo_commit x -> commit_inv V N b C E D i r'.
Proof.
  intros [] (Es & Em & Ea & _ & Htr)%newRaft_shape Et [] Hlog Hcm.
  assert (outbox r' = []) as Ho by (unfold outbox; by rewrite Em, Ea).
  assert (forall t k, acked (N ++ []) i t k -> acked (N ++ outbox r) i t k) as Hack.
  { intros t k [Ha|(m & Hm & _)]%acked_app; [apply acked_app; by left|by inversion Hm]. }
  assert (forall t u L, kept [] C E i t u L) as Hnil by (intros t u L t' k j T _ (m & Hm & _); by inversion Hm).
  split; rewrite ?Ho, ?Es, ?Et, <- ?Hlog; try done.
  - intros m Hm. by inversion Hm.
  - intros m Hm. by inversion Hm.
  - intros t k Ha. by apply cm_acks, Hack.
  - rewrite app_nil_r. done.
  - eapply committed_prefix_less; [|done]. lia.
Qed.

(** Terms do not go back. *)
Lemma local_term m r r' e :
  Raft_Step m r = Ok (r', e) -> local_msg m = true -> bounded m (r_term r) -> 0 <= r_term r -> r_term r <= r_term r'.
Proof.
  intros H Hl Hb Hp. destruct (local_msg_inv ∅ 0 m r Hl) as [_ Hc]. by destruct (Step_ballot _ _ _ _ H Hp Hc Hb).
Qed.

Lemma tickHeartbeat_term r r' : Raft_tickHeartbeat r = Ok r' -> 0 <= r_term r -> r_term r <= r_term r'.
Proof.
  unfold Raft_tickHeartbeat. intros (r1 & H1 & H2)%bind_Ok Hp.
  assert (r_term r <= r_term r1) as Hle.
  { destruct (_ <=? _); [|inv_res; simpl; lia]. apply bind_Ok in H1 as ([r2 e] & H1 & H3).
    apply local_term in H1; [|done|intros ?; inv_list; done|done]. simpl in H1.
    destruct (_ && _); inv_res; simpl; lia. }
  clear H1. destruct (_ <=? _); [|inv_res; lia]. apply bind_Ok in H2 as ([r3 e] & H2 & H3). inv_res.
  apply local_term in H2; simpl in *; [lia|done|intros ?; inv_list; done|lia].
Qed.

Lemma Tick_term r r' : Raft_Tick r = Ok r' -> 0 <= r_term r < MaxUint64 -> r_term r <= r_term r'.
Proof.
  unfold Raft_Tick. intros H Hlt. destruct (r_tick r); [|apply tickHeartbeat_term; [done|lia]].
  unfold Raft_tickElection in H. destruct (Raft_pastElectionTimeout _); [|inv_res; simpl; lia].
  apply bind_Ok in H as ([r1 e] & H1 & H). inv_res.
  apply local_term in H1; simpl in *; [done|done|intros _; simpl; lia|lia].
Qed.

Lemma Advance_committed rd r r' : Raft_Advance rd r = Ok r' -> l_committed (r_raftLog r') = l_committed (r_raftLog r).
Proof.
  unfold Raft_Advance. intros (l & Hl & H)%bind_Ok. inv_res. simpl.
  assert (l_committed l = l_committed (r_raftLog r)) as <-.
  { destruct (last (rd_Entries rd)); [|by inv_res]. unfold raftLog_stableTo in Hl.
    apply bind_Ok in Hl as (u & _ & Hl). by inv_res. }
  by destruct (last (rd_CommittedEntries rd)).
Qed.

(** ** One action *)

(** What an action does to its node and the network. *)
Definition outcome N b C E D (i : Z) (r r' : Raft St) (out : list Message) : Prop :=
  exists b' C' E' D', ghost_ext i b C E D b' C' E' D' /\ sound V b' C' i r' /\
    history_ok V (N ++ out) b' C' E' D' /\ commit_inv V (N ++ out) b' C' E' D' i r' /\
    (forall m, m ∈ out -> m ∈ outbox r) /\ r_term r <= r_term r'.

Lemma advanced_outcome N b C E D i r r' :
  advanced V N b C E D i r' -> r_term r <= r_term r' -> outcome N b C E D i r r' [].
Proof.
  intros (b' & C' & E' & D' & Hg & Hs & Hh & Hc) Ht. exists b', C', E', D'. rewrite app_nil_r.
  split_and!; try done. intros m Hm. by inversion Hm.
Qed.

Lemma emit_outcome N b C E D i r rd :
  sound V b C i r -> history_ok V N b C E D -> commit_inv V N b C E D i r -> Raft_Ready r = Ok rd ->
  outcome N b C E D i r (r <| r_msgsAfterAppend := [] |>)
    (rd_Messages rd ++ List.filter (fun m => m_To m =? r_id r) (r_msgsAfterAppend r)).
Proof.
  intros Hs Hh Hc HR. set (out := rd_Messages rd ++ _).
  assert (forall m, m ∈ out -> m ∈ outbox r) as Hout by (intros m; by apply Ready_out).
  destruct (acks_ok_app _ _ _ _ (outbox_acks V _ _ _ _ _ _ _ Hc)) as [_ Hacks].
  assert (forall t k, acked out i t k -> acked (outbox r) i t k) as Hack by (intros t k; by apply acked_mono).
  exists b, C, E, D. split; [apply ghost_ext_refl|]. split_and!; try done.
  - destruct Hs as [Hn Hg Hi]. split; [by eapply Emit_inv|done|].
    apply (log_inv_host C i r); try done; [split; apply Hi|]. simpl. set_solver.
  - eapply history_emit; [done| | | |].
    + intros m Hm. by apply (cm_from _ _ _ _ _ _ _ _ Hc), Hout.
    + intros t k Ha. by apply Hacks, Hack.
    + intros t L HL t' k j T Ht Ha. by apply (cm_cast _ _ _ _ _ _ _ _ Hc t L HL), Hack.
    + intros t s Q L HE Hi HL t' k j T Ht Ha. by apply (cm_voter _ _ _ _ _ _ _ _ Hc t s Q L HE Hi HL), Hack.
  - apply (commit_inv_host N (N ++ out) b C E D i r); try done.
    + intros m Hm. apply elem_of_app. by left.
    + intros t k. apply acked_mono. unfold outbox. simpl. intros m. rewrite !elem_of_app.
      intros [[?|Hm%Hout]|[?|Hm]]; [by left| |right; by left|by inversion Hm].
      unfold outbox in Hm. rewrite elem_of_app in Hm. tauto.
    + unfold outbox. simpl. set_solver.
Qed.

(** The host stores entries or confirms a [Ready]. *)
Lemma host_outcome N b C E D i r r' :
  sound V b C i r -> history_ok V N b C E D -> commit_inv V N b C E D i r ->
  node_inv V b i r' -> from_one (r_raftLog r') -> log_view (r_raftLog r') = log_view (r_raftLog r) ->
  l_committed (r_raftLog r') = l_committed (r_raftLog r) -> r_state r' = r_state r -> r_term r' = r_term r ->
  r_trk r' = r_trk r -> (forall m, m ∈ outbox r' -> m ∈ outbox r) -> outcome N b C E D i r r' [].
Proof.
  intros [Hn Hg Hi] Hh Hc Hn' Hf Hv Hcm Es Et Ek Ho. apply advanced_outcome; [|lia].
  apply advanced_refl; [split; [done..|by eapply log_inv_host]|done|].
  apply (commit_inv_host N N b C E D i r); try done. intros t k. apply acked_mono.
  intros m. rewrite !elem_of_app. intros [?|?%Ho]; auto.
Qed.

Lemma deliver_handling b C E D past c i m r :
  commit_sound b C E D past c -> nodes c !! i = Some r -> m ∈ net c -> m_To m = i ->
  calm m r -> bounded m (r_term r) -> m_Type m <> MsgSnap -> fresh m r -> keeps_tail m (r_raftLog r) ->
  settled r -> handling V (net c) b C E D i r m r.
Proof.
  intros Hk Hr Hin Hto Hca Hb Hns Hf Htail [Hrm Htr]. destruct (ks_net _ _ _ _ _ _ Hk m Hin) as [[Hf0 Hv] Hm].
  destruct (ks_nodes _ _ _ _ _ _ Hk i r Hr) as [Hs _]. split; try done.
  - split; [done|]. by subst i.
  - apply Hs.
  - by left.
Qed.

(** The step of one node, inside the cluster. *)
Lemma exec_node_commit b C E D past c a r r' out :
  commit_sound b C E D past c -> nodes c !! actor a = Some r -> exec_node true c a r = Some (r', out) ->
  disciplined past a r r' -> outcome (net c) b C E D (actor a) r r' out.
Proof.
  intros Hk Hr Hx Ho. pose proof (ks_history _ _ _ _ _ _ Hk) as Hh.
  destruct (ks_nodes _ _ _ _ _ _ Hk _ _ Hr) as [Hs Hc]. pose proof (sd_node _ _ _ _ _ Hs) as Hn.
  pose proof (ni_term _ _ _ _ Hn) as Hpos. destruct a as [i m|i m|i|i|i rd|i st|i cfg]; simpl actor in *.
  - simpl in Hx. destruct (_ && _) eqn:E0; [|done]. to_prop.
    apply bind_Some in Hx as ([r1 e] & HS%ok_of_Some & [= <- <-]).
    match goal with H : bool_decide (m ∈ _) = true |- _ => apply bool_decide_eq_true in H as Hin end.
    destruct Ho as (Hns & Hf & Htail & Hst).
    assert (calm m r) as Hca by by apply calmb_calm. assert (bounded m (r_term r)) as Hbd by by apply no_overflow_bounded.
    apply advanced_outcome; [|by destruct (Step_ballot _ _ _ _ HS Hpos Hca Hbd)].
    apply Step_steps in HS. eapply raft_steps_advanced; [exact HS|by eapply deliver_handling|done..].
  - simpl in Hx. destruct (_ && _) eqn:E0; [|done]. to_prop.
    apply bind_Some in Hx as ([r1 e] & HS%ok_of_Some & [= <- <-]).
    assert (bounded m (r_term r)) as Hbd by by apply no_overflow_bounded.
    apply advanced_outcome; [by eapply local_commit|by eapply local_term].
  - simpl in Hx. destruct (no_overflow _ _) eqn:E0; [|done].
    apply bind_Some in Hx as (r1 & HS%ok_of_Some & [= <- <-]). unfold no_overflow in E0. to_prop.
    apply advanced_outcome; [by eapply Tick_commit|by apply Tick_term].
  - simpl in Hx. apply bind_Some in Hx as (rd & HS%ok_of_Some & [= <- <-]). by apply emit_outcome.
  - simpl in Hx. apply bind_Some in Hx as (r1 & HS%ok_of_Some & [= <- <-]). destruct Ho as [Hf Hv].
    pose proof (Advance_same _ _ _ HS) as Hsame. apply host_outcome; try done; try apply Hsame.
    + eapply node_inv_same; [exact Hsame|]. by apply clear_messages_inv.
    + by eapply Advance_committed.
    + unfold Raft_Advance in HS. apply bind_Ok in HS as (l & _ & HS). by inv_res.
    + destruct Hsame as (_ & _ & _ & _ & _ & _ & Em & Ea & _). unfold outbox. rewrite Em, Ea. simpl. set_solver.
  - injection Hx as <- <-. destruct Ho as [Hf Hv]. apply host_outcome; try done. by eapply node_inv_same; [|exact Hn].
  - destruct Ho as (Hf & x & Hx1 & Hlog & Hcm). destruct (restart_inv _ _ _ _ _ _ _ _ Hn Hx) as [Hn' ->].
    pose proof (ks_since _ _ _ _ _ _ Hk i r x Hr Hx1) as Hkm.
    assert (log_inv C i r' /\ newRaft cfg = Ok r' /\ r_term r' = r_term r) as (Hi & Hnew & Et).
    { split; [by eapply (restart_log C c i cfg r r' []); [apply Hs|done..|rewrite <- Hlog; apply Hkm]|].
      simpl in Hx. destruct (c_Storage cfg) as [st|] eqn:Est; [|done]. destruct (InitialState st) as [|hs] eqn:Ehs; [done|].
      destruct (_ && _) eqn:E0; [|done]. to_prop. apply bind_Some in Hx as (r1 & HS%ok_of_Some & [= <-]).
      split; [done|]. destruct (newRaft_hard _ _ _ _ HS Est Ehs) as [Et _]. lia. }
    apply advanced_outcome; [|lia]. apply advanced_refl; [split; [done|apply Hs|done]|done|].
    by eapply restart_commit.
Qed.

Lemma exec_node_silent c a r r' out : exec_node true c a r = Some (r', out) -> emits a = false -> out = [].
Proof.
  intros Hx He. destruct a as [i m|i m|i|i|i rd|i st|i cfg]; simpl in *; [..|done| | |].
  - destruct (_ && _); [|done]. by apply bind_Some in Hx as ([? ?] & _ & [= <- <-]).
  - destruct (_ && _); [|done]. by apply bind_Some in Hx as ([? ?] & _ & [= <- <-]).
  - destruct (no_overflow _ _); [|done]. by apply bind_Some in Hx as (? & _ & [= <- <-]).
  - by apply bind_Some in Hx as (? & _ & [= <- <-]).
  - by injection Hx as <- <-.
  - destruct (c_Storage cfg); [|done]. destruct (InitialState _); [done|]. destruct (_ && _); [|done].
    by apply bind_Some in Hx as (? & _ & [= <- <-]).
Qed.

(** ** The cluster *)

(** A moment stays one to restart with, while its node hands out nothing. *)
Lemma kept_moment_ext i j N N' b C E D b' C' E' D' t t' x :
  ghost_ext i b C E D b' C' E' D' -> (forall m, m ∈ N -> m ∈ N') ->
  (forall u k, acked N' j u k -> acked N j u k) ->
  (forall u k, acked N j u k -> k <> 0%nat -> u <= t) -> acks_ok N C j -> t <= t' ->
  kept_moment N C E j t x -> kept_moment N' C' E' j t' x.
Proof.
  intros Hg HN Hack Hle Ha Ht [Hk Hc Hr He]. pose proof (ge_reigns _ _ _ _ _ _ _ _ _ Hg) as Hx. split.
  - intros u k j0 T Hu Hak HT.
    eapply (kept_longer N C' E' j (t + 1) (t' + 1) t t' (mo_log x) (mo_log x)); try done.
    + by eapply acks_ok_ext.
    + intros y z Hy Hz. specialize (Hle y z Hy Hz). lia.
    + eapply kept_mono; [done|exact Hx|apply Hg|done|done].
    + by apply Hack.
  - eapply committed_prefix_mono; [done|]. by eapply committed_prefix_ext.
  - by eapply rooted_ext.
  - intros e Hin%He. lia.
Qed.

(** The node as it is now is one to restart with. *)
Lemma kept_moment_now N b C E D i emit r :
  sound V b C i r -> commit_inv V N b C E D i r -> kept_moment N C E i (r_term r) (now i emit r).
Proof.
  intros Hs Hc. split; simpl; [|apply Hc|apply Hs|apply Hc].
  pose proof (cm_kept _ _ _ _ _ _ _ _ Hc) as [Hk _]%kept_app. exact Hk.
Qed.

(** The other nodes. *)
Lemma others_commit i j N out b C E D b' C' E' D' r :
  j <> i -> ghost_ext i b C E D b' C' E' D' -> reigns_ok V b' C' ->
  (forall m, m ∈ out -> m_Type m = MsgAppResp -> m_From m = i) ->
  sound V b C j r -> commit_inv V N b C E D j r -> sound V b' C' j r /\ commit_inv V (N ++ out) b' C' E' D' j r.
Proof.
  intros Hij Hg Hrg Hout [Hn _ Hi] Hc. split; [split; [|done|]|].
  - eapply node_inv_ext; [|apply Hg|done]. done.
  - eapply log_inv_ext; [|apply Hg|done]. done.
  - apply (commit_inv_host N (N ++ out) b' C' E' D' j r); try done.
    + eapply commit_inv_ext; [exact Hg| |done]. intros t. by apply Hg.
    + intros m Hm. apply elem_of_app. by left.
    + intros t k [Ha|Ha]%acked_app; apply acked_app; [left|by right]. by eapply acked_other.
Qed.

Lemma exec_commit b C E D past c a c' r r' :
  commit_sound b C E D past c -> exec true a c = Some c' ->
  nodes c !! actor a = Some r -> nodes c' !! actor a = Some r' -> disciplined past a r r' ->
  exists b' C' E' D', ghost_ext (actor a) b C E D b' C' E' D' /\
    commit_sound b' C' E' D' (now (actor a) (emits a) r' :: past) c'.
Proof.
  intros Hk Hx Hr Hr' Ho. unfold exec in Hx. rewrite Hr in Hx. simpl in Hx.
  apply bind_Some in Hx as ([r1 out] & Hx & Hc'). injection Hc' as <-. simpl in Hr'.
  rewrite lookup_insert_eq in Hr'. injection Hr' as ->. set (i := actor a) in *.
  destruct (exec_node_commit _ _ _ _ _ _ _ _ _ _ Hk Hr Hx Ho)
    as (b' & C' & E' & D' & Hg & Hs' & Hh' & Hc' & Hout & Ht). fold i in Hg, Hs', Hc'.
  exists b', C', E', D'. split; [done|]. destruct (ks_nodes _ _ _ _ _ _ Hk _ _ Hr) as [Hs Hc].
  assert (forall m, m ∈ out -> m_Type m = MsgAppResp -> m_From m = i) as Hfrom
    by (intros m Hm; by apply (cm_from _ _ _ _ _ _ _ _ Hc), Hout).
  assert (forall m, m ∈ net c -> m ∈ net c ++ out) as HN by (intros m Hm; apply elem_of_app; by left).
  pose proof (ge_reigns _ _ _ _ _ _ _ _ _ Hg) as Hxr.
  split; simpl.
  - done.
  - intros j rj [[<- <-]|[Hne Hj]]%lookup_insert_Some; [done|].
    destruct (ks_nodes _ _ _ _ _ _ Hk _ _ Hj) as [Hsj Hcj]. eapply others_commit; try done. apply Hs'.
  - intros m Hm. assert (vote_ok b m /\ msg_sound V (net c) b C E D m) as [Hv Hm'].
    { apply elem_of_app in Hm as [Hm|Hm%Hout]; [by apply (ks_net _ _ _ _ _ _ Hk)|].
      split; [by apply (ni_out _ _ _ _ (sd_node _ _ _ _ _ Hs))|by apply Hc]. }
    split; [eapply vote_ok_mono; [apply Hg|done]|]. eapply msg_sound_mono; [done|]. by eapply msg_sound_ext.
  - intros x [-> | Hp]%elem_of_cons.
    + simpl. split; [apply Hc'|]. pose proof (li_log _ _ _ (sd_log _ _ _ _ _ Hs')) as Hl.
      rewrite <- (log_rooted_last C') by done. destruct (lr_ok _ _ Hl) as (_ & ? & ? & _). lia.
    + destruct (ks_past _ _ _ _ _ _ Hk x Hp) as [Hcp ?]. split; [|done].
      eapply committed_prefix_mono; [done|]. by eapply committed_prefix_ext.
  - intros j rj x [[<- <-]|[Hne Hj]]%lookup_insert_Some Hin.
    + rewrite Z.eqb_refl in Hin. apply elem_of_cons in Hin as [-> | Hin]; [by eapply kept_moment_now|].
      destruct (emits a) eqn:Ee; [by inversion Hin|]. pose proof (exec_node_silent _ _ _ _ _ Hx Ee) as ->.
      rewrite app_nil_r in *. eapply (kept_moment_ext i i (net c)); try done.
      * intros u k Ha Hk0. eapply (cm_acks _ _ _ _ _ _ _ _ Hc); [|done]. apply acked_app. by left.
      * apply Hk.
      * by eapply (ks_since _ _ _ _ _ _ Hk).
    + rewrite (proj2 (Z.eqb_neq i j)) in Hin by done. destruct (ks_nodes _ _ _ _ _ _ Hk _ _ Hj) as [_ Hcj].
      eapply (kept_moment_ext i j (net c)); try done.
      * intros u k. by eapply acked_other.
      * intros u k Ha Hk0. eapply (cm_acks _ _ _ _ _ _ _ _ Hcj); [|done]. apply acked_app. by left.
      * apply Hk.
      * by eapply (ks_since _ _ _ _ _ _ Hk).
Qed.

(** ** Runs *)

Lemma init_history N : (forall m, m ∈ N -> False) -> history_ok V N ∅ ∅ ∅ ∅.
Proof.
  intros HN. split; intros *; try (rewrite ?lookup_empty; done).
  intros t k (m & Hm & _). by destruct (HN m Hm).
Qed.

Lemma init_node cfg st hs r :
  newRaft cfg = Ok r -> c_ID cfg <> 0 -> buildMajorityConfig (c_ID cfg) (c_Peers cfg) = V ->
  c_Storage cfg = Some st -> InitialState st = inr hs -> 0 <= h_Term hs ->
  from_one (r_raftLog r) -> log_view (r_raftLog r) = [] -> r_votedFor r = 0 ->
  sound V ∅ ∅ (c_ID cfg) r /\ commit_inv V [] ∅ ∅ ∅ ∅ (c_ID cfg) r.
Proof.
  intros Hnew Hid HV Hst Hhs Hpos Hf Hv Hvote. destruct (newRaft_hard _ _ _ _ Hnew Hst Hhs) as [Et Ev].
  assert (l_committed (r_raftLog r) <= 0) as Hcm.
  { destruct Hf as [(_ & _ & Hc & _) Hb]. unfold log_last in Hc. rewrite Hv, Hb in Hc. done. }
  pose proof (newRaft_shape _ _ Hnew) as (Es & Em & Ea & _ & Htr).
  assert (outbox r = []) as Ho by (unfold outbox; by rewrite Em, Ea).
  split.
  - split; [|split; intros *; by rewrite lookup_empty|].
    + eapply newRaft_inv; try done. by rewrite <- Ev, Hvote.
    + apply (newRaft_log ∅ cfg (c_ID cfg) (r_term r)); try done. rewrite Hv. apply rooted_nil.
  - split; rewrite ?Ho, ?Hv, ?Es; try done.
    + intros m Hm. by inversion Hm.
    + intros m Hm. by inversion Hm.
    + intros t k (m & Hm & _). by inversion Hm.
    + intros e He. by inversion He.
    + left. lia.
Qed.

Lemma since_ready_node i past x : x ∈ since_ready i past -> mo_node x = i.
Proof.
  induction past as [|y past IH]; simpl; [by inversion 1|].
  destruct (mo_node y =? i) eqn:Ey; to_prop; [|done]. intros [-> | Hx]%elem_of_cons; [done|].
  destruct (mo_emit y); [by inversion Hx|by apply IH].
Qed.

Lemma elem_of_moments c x : x ∈ moments c -> exists i r, nodes c !! i = Some r /\ x = now i true r.
Proof. intros ([i r] & -> & Hi%elem_of_map_to_list)%list_elem_of_fmap. by exists i, r. Qed.

Lemma init_commit c :
  cluster_init V c ->
  (forall i r, nodes c !! i = Some r ->
    from_one (r_raftLog r) /\ log_view (r_raftLog r) = [] /\ r_votedFor r = 0) ->
  commit_sound ∅ ∅ ∅ ∅ (moments c) c.
Proof.
  intros [Hnet Hns] Hl.
  assert (forall i r, nodes c !! i = Some r -> sound V ∅ ∅ i r /\ commit_inv V (net c) ∅ ∅ ∅ ∅ i r) as Hnodes.
  { intros i r Hr. destruct (Hns i r Hr) as (cfg & st & hs & Hnew & <- & Hid & HV & Hst & Hhs & Hpos).
    destruct (Hl _ _ Hr) as (? & ? & ?). rewrite Hnet. by eapply init_node. }
  split.
  - apply init_history. rewrite Hnet. intros m Hm. by inversion Hm.
  - done.
  - rewrite Hnet. intros m Hm. by inversion Hm.
  - intros x (i & r & Hr & ->)%elem_of_moments. destruct (Hnodes i r Hr) as [Hs Hc]. simpl. split; [apply Hc|].
    pose proof (li_log _ _ _ (sd_log _ _ _ _ _ Hs)) as Hlr.
    rewrite <- (log_rooted_last ∅) by done. destruct (lr_ok _ _ Hlr) as (_ & ? & ? & _). lia.
  - intros i r x Hr Hx. pose proof (since_ready_node _ _ _ Hx) as Hi.
    apply since_ready_past, elem_of_moments in Hx as (i' & r' & Hr' & ->). simpl in Hi. subst i'.
    assert (r' = r) as -> by congruence. destruct (Hnodes i r Hr). by eapply kept_moment_now.
Qed.

Lemma commit_run_sound past c : commit_run past c -> exists b C E D, commit_sound b C E D past c.
Proof.
  induction 1 as [c Hi Hl|past c a c' r r' _ (b & C & E & D & IH) Hx Hr Hr' Ho].
  - exists ∅, ∅, ∅, ∅. by apply init_commit.
  - destruct (exec_commit _ _ _ _ _ _ _ _ _ _ IH Hx Hr Hr' Ho) as (b' & C' & E' & D' & _ & H). by exists b', C', E', D'.
Qed.

(** Every node's present is a moment of the run. *)
Lemma commit_run_now past c i r :
  commit_run past c -> nodes c !! i = Some r -> exists emit, now i emit r ∈ past.
Proof.
  intros H. revert i r. induction H as [c Hi Hl|past c a c' r r' _ IH Hx Hr Hr' Ho]; intros i ri Hri.
  - exists true. apply list_elem_of_fmap. exists (i, ri). split; [done|]. by apply elem_of_map_to_list.
  - destruct (decide (i = actor a)) as [-> | Hne].
    + assert (ri = r') as -> by congruence. eexists. apply elem_of_cons. by left.
    + unfold exec in Hx. rewrite Hr in Hx. simpl in Hx. apply bind_Some in Hx as ([r1 out] & _ & [= <-]).
      simpl in Hri. rewrite lookup_insert_ne in Hri by done. destruct (IH i ri Hri) as [emit He].
      exists emit. apply elem_of_cons. by right.
Qed.

End run.
