(* ===== verification/Safety.v ===== *)
(** * Safety: elections, logs and commits of a cluster

    One leader per term, logs that agree below a common entry, and nodes that commit the
    same entries, with the runs that instantiate them. *)

From S2P Require Export CommitRun Scenarios.

(** ** Elections *)

Section safety.
Context {RT : Runtime} {St : Type} {SS : Storage St}.

(** C1 (election safety): whatever the network does with the messages (loss,
    duplication, delay, reordering), as long as no (pre-)candidate is handed an
    append, heartbeat or snapshot message of an older term, two leaders of the
    same term are the same node, even at different times of the run. *)
Theorem election_safety V c c1 c2 i j (r1 r2 : Raft St) :
  cluster_init V c -> rtc (cstep true) c c1 -> rtc (cstep true) c1 c2 ->
  nodes c1 !! i = Some r1 -> nodes c2 !! j = Some r2 ->
  r_state r1 = Leader -> r_state r2 = Leader -> r_term r1 = r_term r2 -> i = j.
Proof.
  intros Hi H1 H2 Hr1 Hr2. destruct (cluster_init_inv _ _ Hi) as (b & Hb).
  destruct (csteps_inv _ _ _ _ Hb H1) as (b1 & _ & Hc1).
  destruct (csteps_inv _ _ _ _ Hc1 H2) as (b2 & Hb12 & Hc2).
  eapply leaders_agree; [exact Hb12|by apply Hc1|by apply Hc2].
Qed.

End safety.

(** In the run where node 2 elects node 1, node 1 is the leader of term 1 and the
    theorem says that no other node leads it. *)
Lemma election_safety_witness :
  r_state elected1 = Leader /\ r_term elected1 = 1 /\
  forall j r2, nodes elected !! j = Some r2 -> r_state r2 = Leader -> r_term r2 = 1 -> 1 = j.
Proof.
  split; [vm_compute; reflexivity|]. split; [vm_compute; reflexivity|]. intros j r2 Hj Hl Ht.
  refine (election_safety (RT:=rt0) V3 cluster3 elected elected 1 j elected1 r2 cluster3_init
    (run_cstep _ _ _ _ elected_run) (rtc_refl _ _) elected1_lookup Hj _ Hl _).
  - vm_compute. reflexivity.
  - rewrite Ht. vm_compute. reflexivity.
Defined.

(** The hypothesis on old messages is needed.  [Step] lets a (pre-)candidate
    follow an append of an older term: its term goes back and its vote is
    forgotten, and a run of three nodes in which one append message is delivered
    late ends with nodes 1 and 3 both leading term 2. *)
Theorem stale_append_breaks_election :
  exists c r1 r3, rtc (cstep (RT:=rt0) false) cluster3 c /\
    nodes c !! 1 = Some r1 /\ nodes c !! 3 = Some r3 /\
    r_state r1 = Leader /\ r_state r3 = Leader /\ r_term r1 = 2 /\ r_term r3 = 2.
Proof.
  exists stale_end, (default node1 (nodes stale_end !! 1)), (default node3 (nodes stale_end !! 3)).
  split; [exact (run_cstep _ _ _ _ stale_run)|]. vm_compute. repeat split.
Qed.

(** ** Logs *)

Section safety.
Context {RT : Runtime} {St : Type} {SS : Storage St} {SP : StorageSpec St}.

(** C2 (log matching): take any two logs that any two nodes have had at any two moments
    of a run.  If they have an entry of the same term at the same index, they are
    equal up to that index.  The network may lose, duplicate, delay and reorder
    messages; nodes may stop and restart with a log they had; a (pre-)candidate is
    handed no append or heartbeat of an older term, and no snapshot is delivered. *)
Theorem log_matching V past (c : Cluster St) :
  log_run V past c ->
  (forall i r, nodes c !! i = Some r -> (i, log_view (r_raftLog r)) ∈ past) /\
  (forall i j L K k e e',
    (i, L) ∈ past -> (j, K) ∈ past -> L !! k = Some e -> K !! k = Some e' -> e_Term e = e_Term e' ->
    take (S k) L = take (S k) K).
Proof.
  intros (b & C & Hs)%log_run_sound. split; [apply Hs|].
  intros i j L K k e e' HL HK. by eapply rooted_agree; eapply (cs_past _ _ _ _ _ Hs).
Qed.

End safety.

(** ** Scripts as runs *)

(** The actions of a script that are orderly whatever happened before. *)
Definition plain_action (a : action (St:=DurableStorage)) (r : DRaft) : bool :=
  match a with
  | Deliver _ m => negb (bool_decide (m_Type m = MsgSnap)) && (log_last (r_raftLog r) + 2 <=? MaxIndex)
  | Local _ _ | DoTick _ => log_last (r_raftLog r) + 2 <=? MaxIndex
  | Emit _ => true
  | _ => false
  end.

Fixpoint plain_run (acts : list (action (St:=DurableStorage))) (c : Cluster DurableStorage) : bool :=
  match acts with
  | [] => true
  | a :: acts =>
      match nodes c !! actor a, exec (RT:=rt0) true a c with
      | Some r, Some c => plain_action a r && plain_run acts c
      | _, _ => false
      end
  end.

Lemma plain_orderly past a (r r' : DRaft) : plain_action a r = true -> orderly past a r r'.
Proof.
  destruct a; simpl; intros H; to_prop; try done. split; [by apply bool_decide_eq_false in H|done].
Qed.

Lemma plain_log_run V acts past c c' :
  log_run (RT:=rt0) V past c -> plain_run acts c = true -> run (RT:=rt0) true acts c = Some c' ->
  exists past', log_run (RT:=rt0) V past' c'.
Proof.
  revert past c. induction acts as [|a acts IH]; intros past c Hl Hp Hr; simpl in Hr.
  { injection Hr as <-. by exists past. }
  apply bind_Some in Hr as (c1 & Hx & Hr). cbn [plain_run] in Hp. rewrite Hx in Hp.
  destruct (nodes c !! actor a) as [r|] eqn:Ea; [|done]. to_prop.
  assert (exists r', nodes c1 !! actor a = Some r') as [r' Ea'].
  { unfold exec in Hx. rewrite Ea in Hx. simpl in Hx. apply bind_Some in Hx as ([r' out] & _ & [= <-]).
    exists r'. apply lookup_insert_eq. }
  eapply IH; [|done|exact Hr]. eapply log_run_step; [exact Hl|exact Hx|exact Ea|exact Ea'|by apply plain_orderly].
Qed.

Lemma cluster3_log_run : log_run (RT:=rt0) V3 (logs cluster3) cluster3.
Proof.
  apply log_run_init; [exact cluster3_init|]. intros i r H. unfold cluster3 in H. simpl in H.
  apply lookup_insert_Some in H as [[<- <-]|[_ H]];
    [|apply lookup_insert_Some in H as [[<- <-]|[_ H]];
      [|apply lookup_insert_Some in H as [[<- <-]|[_ H]]; [|by rewrite lookup_empty in H]]];
    (split; [split; [apply raftLog_okb_spec; vm_compute; reflexivity|vm_compute; reflexivity]|vm_compute; reflexivity]).
Qed.

(** At the end of the run in which two nodes commit different entries, nodes 1 and 3
    have an entry of term 3 at index 3; the theorem gives that they have the same log. *)
Lemma log_matching_witness :
  exists past (r1 r3 : DRaft), log_run (RT:=rt0) V3 past diverged /\
    nodes diverged !! 1 = Some r1 /\ nodes diverged !! 3 = Some r3 /\
    take 3 (log_view (r_raftLog r1)) = take 3 (log_view (r_raftLog r3)).
Proof.
  destruct (plain_log_run V3 (commit_script ++ diverge_script) _ _ diverged cluster3_log_run) as [past Hl];
    [vm_compute; reflexivity|exact diverged_run|].
  exists past, (default node1 (nodes diverged !! 1)), (default node3 (nodes diverged !! 3)).
  assert (nodes diverged !! 1 = Some (default node1 (nodes diverged !! 1))) as H1 by (vm_compute; reflexivity).
  assert (nodes diverged !! 3 = Some (default node3 (nodes diverged !! 3))) as H3 by (vm_compute; reflexivity).
  split; [exact Hl|]. split; [exact H1|]. split; [exact H3|].
  destruct (log_matching (RT:=rt0) V3 past diverged Hl) as [Hnow Hm].
  apply (Hm 1 3 _ _ 2%nat (mkEntry 3 3 []) (mkEntry 3 3 []) (Hnow 1 _ H1) (Hnow 3 _ H3));
    vm_compute; reflexivity.
Defined.

(** ** Commits *)

Section safety.
Context {RT : Runtime} {St : Type} {SS : Storage St} {SP : StorageSpec St}.

Lemma take_index {A : Type} (L K : list A) (n : nat) k :
  take n L = take n K -> k < Z.of_nat n -> index L k = index K k.
Proof.
  intros Ht Hk. unfold index. destruct (decide (0 <= k)); [|done].
  rewrite <- (lookup_take_lt L n), Ht by lia. by rewrite lookup_take_lt by lia.
Qed.

(** What a node hands out to be applied is in its log, below its commit index. *)
Lemma Ready_committed (r : Raft St) rd e :
  raftLog_ok (r_raftLog r) -> log_base (r_raftLog r) = 0 -> Raft_Ready r = Ok rd -> e ∈ rd_CommittedEntries rd ->
  index (log_view (r_raftLog r)) (e_Index e - 1) = Some e /\ 0 < e_Index e <= l_committed (r_raftLog r).
Proof.
  intros Hok Hb HR He. pose proof Hok as (Hwf & Ha & _). unfold Raft_Ready in HR.
  apply bind_Ok in HR as (ces & Hces & HR). injection HR as <-. simpl in He.
  rewrite raftLog_nextCommittedEnts_view, Hb, !Z.sub_0_r in Hces by (done || lia). injection Hces as <-.
  apply list_elem_of_lookup in He as [k Hk]. unfold slice in Hk.
  apply lookup_take_Some in Hk as [Hk Hlt]. rewrite lookup_drop in Hk.
  pose proof (log_view_contig _ Hwf _ _ Hk) as Hi. rewrite Hb in Hi.
  split; [|lia]. unfold index. rewrite decide_True by lia. rewrite <- Hk. f_equal. lia.
Qed.

(** Two moments agree on what both have committed. *)
Lemma moments_agree V b C E D past (c : Cluster St) x y k :
  commit_sound V b C E D past c -> x ∈ past -> y ∈ past -> 0 <= k < mo_commit x -> k < mo_commit y ->
  is_Some (index (mo_log x) k) /\ index (mo_log x) k = index (mo_log y) k.
Proof.
  intros Hs Hx Hy Hkx Hky. destruct (ks_past _ _ _ _ _ _ _ Hs x Hx) as [Cx Bx].
  destruct (ks_past _ _ _ _ _ _ _ Hs y Hy) as [Cy _]. split; [apply index_is_Some; lia|].
  eapply take_index; [eapply committed_agree; [apply Hs|exact Cx|exact Cy]|lia].
Qed.

(** What a node hands out is what every moment has committed at that index. *)
Lemma handed_out_agree V b C E D past (c : Cluster St) i emit r rd e x :
  commit_sound V b C E D past c -> nodes c !! i = Some r -> now i emit r ∈ past ->
  Raft_Ready r = Ok rd -> e ∈ rd_CommittedEntries rd -> x ∈ past -> e_Index e <= mo_commit x ->
  index (mo_log x) (e_Index e - 1) = Some e.
Proof.
  intros Hs Hr Hnow HR He Hx Hle. destruct (ks_nodes _ _ _ _ _ _ _ Hs i r Hr) as [Hsd _].
  pose proof (li_log _ _ _ (sd_log _ _ _ _ _ Hsd)) as Hl.
  destruct (Ready_committed r rd e (lr_ok _ _ Hl) (lr_base _ _ Hl) HR He) as [<- Hi].
  symmetry. apply (moments_agree V b C E D past c _ x _ Hs Hnow Hx); simpl; lia.
Qed.

(** C3 (state machine safety): take any two moments of a run at which any two nodes have
    committed up to some index.  Their logs have the same entry there.  In particular
    what a node hands out to be applied is what every node has, or will have, at that
    index once it has committed it.  The run ([commit_run]) starts with new nodes with
    empty logs.  The network may lose, duplicate, delay and reorder messages and nodes may
    restart; but no snapshot is delivered and no log compacted, a node is handed no
    append, heartbeat or response of an older term and no append that cuts off entries it
    agrees with, a node that has cut its log short stores it before it takes the next
    message, storing and [Advance] leave the log as it is, indices do not overflow, and a
    node restarts with a log it had when it last handed out a [Ready] or later. *)
Theorem state_machine_safety V past (c : Cluster St) :
  commit_run V past c ->
  (forall i r, nodes c !! i = Some r -> exists emit, now i emit r ∈ past) /\
  (forall x y k, x ∈ past -> y ∈ past -> 0 <= k < mo_commit x -> k < mo_commit y ->
    is_Some (index (mo_log x) k) /\ index (mo_log x) k = index (mo_log y) k) /\
  (forall i r rd e x, nodes c !! i = Some r -> Raft_Ready r = Ok rd -> e ∈ rd_CommittedEntries rd ->
    x ∈ past -> e_Index e <= mo_commit x -> index (mo_log x) (e_Index e - 1) = Some e).
Proof.
  intros Hrun. destruct (commit_run_sound V past c Hrun) as (b & C & E & D & Hs).
  split; [intros i r; by apply (commit_run_now V)|]. split; [intros x y k; by eapply moments_agree|].
  intros i r rd e x Hr. destruct (commit_run_now V past c i r Hrun Hr) as [emit Hnow]. by eapply handed_out_agree.
Qed.

(** C4 (leader completeness): in a run as for state machine safety ([commit_run]: new
    nodes with empty logs, no snapshot and no compaction, no append, heartbeat or response
    of an older term, no append that cuts off entries the node agrees with, a log that was
    cut is stored before the next message, restarts from what was handed out), what any
    node had committed, at any moment, in a term no later than a leader's, is in the
    leader's log. *)
Theorem leader_completeness V past (c : Cluster St) i r x k :
  commit_run V past c -> nodes c !! i = Some r -> r_state r = Leader ->
  x ∈ past -> mo_term x <= r_term r -> 0 <= k < mo_commit x ->
  is_Some (index (mo_log x) k) /\ index (log_view (r_raftLog r)) k = index (mo_log x) k.
Proof.
  intros Hrun Hr Hl Hx Ht Hk. destruct (commit_run_sound V past c Hrun) as (b & C & E & D & Hs).
  destruct (ks_past _ _ _ _ _ _ _ Hs x Hx) as [Cx Bx]. split; [apply index_is_Some; lia|].
  destruct (ks_nodes _ _ _ _ _ _ _ Hs i r Hr) as [Hsd _].
  pose proof (li_lead _ _ _ (sd_log _ _ _ _ _ Hsd) Hl) as HT.
  destruct Cx as [?|(t & j & T & n & Hle & HTt & Hn & Hcn & Heq)]; [lia|].
  eapply (take_index _ _ (Z.to_nat (mo_commit x))); [|lia]. rewrite Heq. eapply take_le; [exact Hcn|].
  eapply (committed_in_later V); [apply Hs|exact Hn|exact HTt|exact HT|lia].
Qed.

End safety.

(** ** Scripts as runs *)

Definition freshb (m : Message) (r : DRaft) : bool :=
  negb (bool_decide (m_Type m ∈ [MsgApp; MsgHeartbeat; MsgAppResp])) || (m_Term m =? 0) || (r_term r <=? m_Term m).

Definition tailb (m : Message) (r : DRaft) : bool :=
  negb (bool_decide (m_Type m = MsgApp)) || (log_last (r_raftLog r) <=? m_Index m + len (m_Entries m)).

Definition settledb (r : DRaft) : bool :=
  (log_last (r_raftLog r) + 2 <=? MaxIndex) && (st_last (l_storage (r_raftLog r)) <=? log_last (r_raftLog r)).

Definition from_oneb (r : DRaft) : bool := raftLog_okb (r_raftLog r) && (log_base (r_raftLog r) =? 0).

Definition same_viewb (r r' : DRaft) : bool :=
  bool_decide (log_view (r_raftLog r') = log_view (r_raftLog r)).

Definition disciplinedb (past : list moment) (a : action (St:=DurableStorage)) (r r' : DRaft) : bool :=
  match a with
  | Deliver _ m => negb (bool_decide (m_Type m = MsgSnap)) && freshb m r && tailb m r && settledb r
  | Local _ _ | DoTick _ => settledb r
  | Emit _ => true
  | DoAdvance _ _ | Persist _ _ => from_oneb r' && same_viewb r r'
  | Restart i _ =>
      from_oneb r' &&
      existsb (fun x => bool_decide (mo_log x = log_view (r_raftLog r')) &&
                        (l_committed (r_raftLog r') <=? mo_commit x)) (since_ready i past)
  end.

Fixpoint script_run (acts : list (action (St:=DurableStorage))) (past : list moment)
  (c : Cluster DurableStorage) : option (list moment * Cluster DurableStorage) :=
  match acts with
  | [] => Some (past, c)
  | a :: acts =>
      match nodes c !! actor a, exec (RT:=rt0) true a c with
      | Some r, Some c' =>
          match nodes c' !! actor a with
          | Some r' =>
              if disciplinedb past a r r' then script_run acts (now (actor a) (emits a) r' :: past) c' else None
          | None => None
          end
      | _, _ => None
      end
  end.

Lemma settledb_spec r : settledb r = true -> settled r.
Proof. unfold settledb, settled, room, trimmed. intros H. to_prop. lia. Qed.

Lemma from_oneb_spec r : from_oneb r = true -> from_one (r_raftLog r).
Proof. unfold from_oneb. intros H. to_prop. split; [by apply raftLog_okb_spec|done]. Qed.

Lemma disciplinedb_spec past a r r' : disciplinedb past a r r' = true -> disciplined past a r r'.
Proof.
  destruct a; simpl; intros H; try (by apply settledb_spec); try done.
  - rewrite !andb_true_iff in H. destruct H as (((Hs & Hf) & Ht) & Hst).
    split; [by apply negb_true_iff, bool_decide_eq_false in Hs|]. split_and!; [| |by apply settledb_spec].
    + intros Hin. unfold freshb in Hf. rewrite bool_decide_true in Hf by done. simpl in Hf.
      apply orb_true_iff in Hf as [Hf|Hf]; to_prop; auto.
    + intros Hm _. unfold tailb in Ht. rewrite bool_decide_true in Ht by done. simpl in Ht. to_prop. by left.
  - apply andb_true_iff in H as [Hf Hv]. split; [by apply from_oneb_spec|]. by apply bool_decide_eq_true in Hv.
  - apply andb_true_iff in H as [Hf Hv]. split; [by apply from_oneb_spec|]. by apply bool_decide_eq_true in Hv.
  - apply andb_true_iff in H as [Hf Hx]. split; [by apply from_oneb_spec|].
    apply existsb_exists in Hx as (x & Hx & Hc). apply andb_true_iff in Hc as [Hl Hc].
    exists x. apply list_elem_of_In in Hx. apply bool_decide_eq_true in Hl. to_prop. done.
Qed.

Lemma script_run_sound V acts past c p :
  commit_run (RT:=rt0) V past c -> script_run acts past c = Some p -> commit_run (RT:=rt0) V p.1 p.2.
Proof.
  revert past c. induction acts as [|a acts IH]; intros past c Hr H; simpl in H.
  { by injection H as <-. }
  destruct (nodes c !! actor a) as [r|] eqn:E1; [|done]. destruct (exec true a c) as [c1|] eqn:E2; [|done].
  destruct (nodes c1 !! actor a) as [r'|] eqn:E3; [|done]. destruct (disciplinedb past a r r') eqn:E4; [|done].
  eapply IH; [|exact H]. eapply commit_run_step; try done. by apply disciplinedb_spec.
Qed.

Lemma cluster3_new i (r : DRaft) :
  nodes cluster3 !! i = Some r -> from_one (r_raftLog r) /\ log_view (r_raftLog r) = [] /\ r_votedFor r = 0.
Proof.
  intros H. unfold cluster3 in H. simpl in H.
  apply lookup_insert_Some in H as [[<- <-]|[_ H]];
    [|apply lookup_insert_Some in H as [[<- <-]|[_ H]];
      [|apply lookup_insert_Some in H as [[<- <-]|[_ H]]; [|by rewrite lookup_empty in H]]];
    (split; [apply from_oneb_spec; vm_compute; reflexivity|split; vm_compute; reflexivity]).
Qed.

Lemma cluster3_commit_run : commit_run (RT:=rt0) V3 (moments cluster3) cluster3.
Proof. apply commit_run_init; [exact cluster3_init|exact cluster3_new]. Qed.

(** ** A run *)

(** After node 2 has committed three entries in term 2, node 3 stores what it has,
    restarts from its storage, and is elected for term 3 with the vote of node 1. *)
Definition overtaken3 : DRaft := default node3 (nodes overtaken !! 3).
Definition ready3 : Ready := default (mkReady 0 [] [] [] None []) (ok_of (Raft_Ready overtaken3)).
Definition stored3 : DurableStorage :=
  default empty_durable
    (fst <$> ok_of (DurableStorage_Save (rd_Entries ready3) (rd_HardState ready3) (l_storage (r_raftLog overtaken3)))).

Definition succession_script : list (action (St:=DurableStorage)) :=
  overtake_script ++
  [ Emit 3; Persist 3 stored3; DoAdvance 3 ready3; Restart 3 (mkConfig 3 [1; 2] (Some stored3) 0 10 1) ] ++
  elect 3 1 3 3 2.

Definition succession : list moment * Cluster DurableStorage :=
  default ([], cluster3) (script_run succession_script (moments cluster3) cluster3).

Lemma succession_eq : script_run succession_script (moments cluster3) cluster3 = Some succession.
Proof. vm_compute. reflexivity. Qed.

Lemma succession_run : commit_run (RT:=rt0) V3 succession.1 succession.2.
Proof. exact (script_run_sound V3 _ _ _ _ cluster3_commit_run succession_eq). Qed.

Definition is_moment (i t c : Z) (x : moment) : bool :=
  (mo_node x =? i) && (mo_term x =? t) && (mo_commit x =? c).

(** Node [i] in term [t] with commit index [c]. *)
Definition moment_of (i t c : Z) : moment :=
  default (mkMoment 0 false 0 0 []) (List.find (is_moment i t c) succession.1).

Lemma find_in {A : Type} (f : A -> bool) l d : List.find f l <> None -> default d (List.find f l) ∈ l.
Proof.
  destruct (List.find f l) as [x|] eqn:E; [|done]. intros _. simpl.
  apply list_elem_of_In. by apply find_some in E as [? _].
Qed.

Lemma moment_of_past i t c :
  List.find (is_moment i t c) succession.1 <> None -> moment_of i t c ∈ succession.1.
Proof. exact (find_in _ _ _). Qed.

(** Nodes 2 and 3 have both committed the second entry; node 3 hands it out again after
    its restart, and it is what node 2 has. *)
Lemma state_machine_safety_witness :
  (mo_commit (moment_of 2 2 3) = 3 /\ mo_commit (moment_of 3 3 2) = 2) /\
  (is_Some (index (mo_log (moment_of 3 3 2)) 1) /\
   index (mo_log (moment_of 3 3 2)) 1 = index (mo_log (moment_of 2 2 3)) 1).
Proof.
  split; [vm_compute; split; reflexivity|].
  destruct (state_machine_safety (RT:=rt0) V3 succession.1 succession.2 succession_run) as (_ & H & _).
  apply H; [apply moment_of_past; vm_compute; discriminate..| |].
  - vm_compute. split; [discriminate|reflexivity].
  - vm_compute. reflexivity.
Defined.

(** Node 3 leads term 3; what node 2 committed in term 2, though node 3 did not know it
    was committed, is in its log. *)
Lemma leader_completeness_witness :
  exists r, nodes succession.2 !! 3 = Some r /\ r_term r = 3 /\ l_committed (r_raftLog r) = 2 /\
    is_Some (index (mo_log (moment_of 2 2 3)) 2) /\
    index (log_view (r_raftLog r)) 2 = index (mo_log (moment_of 2 2 3)) 2.
Proof.
  exists (default node3 (nodes succession.2 !! 3)). split; [vm_compute; reflexivity|].
  split; [vm_compute; reflexivity|]. split; [vm_compute; reflexivity|].
  apply (leader_completeness (RT:=rt0) V3 succession.1 succession.2 3); [exact succession_run| | | | |].
  - vm_compute. reflexivity.
  - vm_compute. reflexivity.
  - apply moment_of_past. vm_compute. discriminate.
  - vm_compute. discriminate.
  - vm_compute. split; [discriminate|reflexivity].
Defined.
