(* ===== verification/ReadSafety.v ===== *)
(** * ReadSafety: reads confirmed by a quorum see every earlier commit

    A leader that is asked to read notes its commit index and sends the context of the
    request with its heartbeats; when a quorum has answered, it releases the read at the
    noted index.  The argument has two halves.  As long as no majority has moved to a
    later term, nothing is committed anywhere that a leader does not know of, once it has
    committed an entry of its own term ([covered]).  And those who answer a heartbeat with
    the context were in the leader's term, or an earlier one, when the read was asked. *)

From S2P Require Export Safety Reads.

(** ** One node *)

Section node.
Context {RT : Runtime} {St : Type} {SS : Storage St} {SP : StorageSpec St}.
Implicit Types r : Raft St.
Implicit Types m : Message.

(** What a message says of its sender [r], who has got to [r']. *)
Definition sent_by (r r' : Raft St) (x : Message) : Prop :=
  (m_Type x = MsgHeartbeatResp -> m_From x = r_id r /\ r_term r <= m_Term x) /\
  (m_Type x ∈ [MsgApp; MsgHeartbeat] -> m_Commit x <= l_committed (r_raftLog r')).

(** What any action of a node keeps. *)
Record moves (r r' : Raft St) : Prop := {
  mv_id : r_id r' = r_id r;
  mv_coherent : coherent r';
  mv_reads : readOnly_ok (r_readOnly r');
  mv_term : r_term r <= r_term r';
  mv_state : r_term r' = r_term r -> r_state r <> Candidate ->
    r_state r' <> Candidate /\ (r_state r' = Leader -> r_state r = Leader);
  mv_sent x : x ∈ outbox r' -> x ∈ outbox r \/ sent_by r r' x
}.

(** An action that moves no commit index and asks for no read. *)
Record still (r r' : Raft St) : Prop := {
  st_moves : moves r r';
  st_commit : l_committed (r_raftLog r') = l_committed (r_raftLog r);
  st_pending : pendingReadIndex (r_readOnly r') ⊆ pendingReadIndex (r_readOnly r)
}.

Definition tidy (r : Raft St) : Prop := coherent r /\ readOnly_ok (r_readOnly r).

Lemma moves_refl r : tidy r -> moves r r.
Proof. intros []. split; try done. by left. Qed.

(** A step that sends nothing. *)
Lemma moves_on s r r' :
  moves s r -> r_id r' = r_id r -> coherent r' -> readOnly_ok (r_readOnly r') -> r_term r <= r_term r' ->
  (r_term r' = r_term r -> r_state r <> Candidate -> r_state r' <> Candidate /\ (r_state r' = Leader -> r_state r = Leader)) ->
  l_committed (r_raftLog r) <= l_committed (r_raftLog r') -> outbox r' = outbox r -> moves s r'.
Proof.
  intros [] Hi Hc Hr Ht Hs Hl Ho. split; try done; [congruence|lia| |].
  - intros E Hn. destruct mv_state0 as [Hn1 Hl1]; [lia|done|]. destruct Hs as [Hn2 Hl2]; [lia|done|]. auto.
  - intros x. rewrite Ho. intros [?|[? Hx]]%mv_sent0; [by left|right]. split; [done|].
    intros Hin%Hx. lia.
Qed.

Lemma sent_stamped s0 s m m' r :
  send_ok s0 m r m' -> r_id r = r_id s -> r_term s <= r_term r -> sent_by s r (stamped r m').
Proof.
  intros (Hf & _ & Hb) Hi Ht. pose proof (stamped_body r m') as (E1 & _ & _ & _ & _ & E6 & _).
  unfold sent_by. rewrite E1, E6, stamped_term. split.
  - intros Ty. rewrite Ty. simpl. split; [|done]. rewrite <- Hi. apply stamped_from.
    destruct Hf as [?|[-> Hin]]; [done|]. simpl in Ty. rewrite Ty in Hin. inv_list; done.
  - unfold built in Hb. intros Ty. assert (m_Type m' = MsgApp \/ m_Type m' = MsgHeartbeat) as [E|E] by set_solver;
      rewrite E in Hb.
    + destruct Hb as (_ & -> & _). done.
    + destruct Hb as (_ & _ & p & _ & ->). lia.
Qed.

Lemma coherent_step s0 m r r' : raft_step s0 m r r' -> coherent r -> coherent r'.
Proof.
  intros H Hc. destruct H; expand_steps; try done.
  by apply Raft_send_quiet in H0 as (?&?&?&?&->).
Qed.

Lemma reads_ok_step s0 m r r' : raft_step s0 m r r' -> readOnly_ok (r_readOnly r) -> readOnly_ok (r_readOnly r').
Proof.
  intros H Hc. destruct H; expand_steps; try done; try apply readOnly_ok_new.
  - by apply Raft_send_quiet in H0 as (?&?&?&?&->).
  - by apply readOnly_ok_addRequest.
  - by apply readOnly_ok_recvAck.
  - by eapply readOnly_ok_advance.
Qed.

Lemma raft_step_moves s0 m s r r' :
  raft_step s0 m r r' -> 0 <= r_term r -> calm m r -> bounded m (r_term s0) -> moves s r -> moves s r'.
Proof.
  intros H Hp Hca Hbd Hm. pose proof (mv_coherent _ _ Hm) as Hco.
  pose proof (coherent_step _ _ _ _ H Hco) as Hco'. pose proof (reads_ok_step _ _ _ _ H (mv_reads _ _ Hm)) as Hro.
  destruct (raft_step_ballot _ _ _ _ H Hp Hca Hbd) as [Ht _]. pose proof (raft_step_commit _ _ _ _ H) as Hl.
  destruct H; try (apply (moves_on s r); try done; expand_steps; done).
  - destruct Hm. pose proof H0 as (ms & ma & rs & n & E)%Raft_send_quiet. split; try done; try (by rewrite E).
    intros x. rewrite (outbox_send _ _ _ _ H0). intros [[?|[? Hx]]%mv_sent0| -> ]; [by left|right..].
    + split; [done|]. intros Hin%Hx. lia.
    + apply (sent_stamped s0) with (s := s) in H as [H1 H2]; [|done..]. split; [done|]. intros Hin%H2. lia.
  - apply (moves_on s r); try done; unfold self_vote in *; rewrite Raft_becomeCandidate_eq in *; [done| |done].
    destruct (Hbd H). simpl in *. rewrite wrap64_succ_id in * by lia. lia.
  - apply (moves_on s r); try done; unfold mark_active; rewrite leader_init_eq; [done| |done]. simpl.
    intros _ Hn. destruct Hco as [Hs _]. rewrite H in Hs. by destruct (r_state r).
Qed.

Lemma Step_moves m r r' e :
  Raft_Step m r = Ok (r', e) -> 0 <= r_term r -> calm m r -> bounded m (r_term r) -> tidy r -> moves r r'.
Proof.
  intros H Hp Hc Hb Hr.
  assert (moves r r' /\ calm m r') as [? _]; [|done].
  eapply (Step_preserves (fun a => moves r a /\ calm m a)); [|exact H|by split; [apply moves_refl|]].
  intros a b Hab [Hle Hca]. split; [|by eapply calm_step].
  eapply raft_step_moves; eauto. destruct Hle; lia.
Qed.

(** ** Reads *)

(** The leader has committed an entry of its term. *)
Definition own_commit (r : Raft St) : Prop := Raft_committedEntryInCurrentTerm r = Ok true.

(** Who may have acknowledged the read [ctx] while [m] was handled. *)
Definition answers (m : Message) (s0 : Raft St) (ctx : bytes) (n : Z) : Prop :=
  n = r_id s0 \/
  (m_Type m = MsgHeartbeatResp /\ n = m_From m /\ ctx = m_Context m /\ (m_Term m = 0 \/ m_Term m <= r_term s0)).

(** Where a pending read comes from: it was pending, or [m] asks for it. *)
Definition read_from (m : Message) (s0 : Raft St) (ctx : bytes) (rs : readIndexStatus) : Prop :=
  (exists rs0, pendingReadIndex (r_readOnly s0) !! ctx = Some rs0 /\ rs_index rs0 = rs_index rs /\
    forall n, rs_acks rs !! n = Some true -> rs_acks rs0 !! n = Some true \/ answers m s0 ctx n) \/
  (m_Type m = MsgReadIndex /\ rs_index rs = l_committed (r_raftLog s0) /\ own_commit s0 /\
    forall n, rs_acks rs !! n = Some true -> answers m s0 ctx n).

Definition reads_from (m : Message) (s0 : Raft St) (ro : readOnly) : Prop :=
  forall ctx rs, pendingReadIndex ro !! ctx = Some rs -> read_from m s0 ctx rs.

Lemma reads_from_new m s0 : reads_from m s0 newReadOnly.
Proof. intros ctx rs H. simpl in H. by rewrite lookup_empty in H. Qed.

Lemma reads_from_add m s0 ro :
  m_Type m = MsgReadIndex -> own_commit s0 -> reads_from m s0 ro ->
  reads_from m s0 (readOnly_addRequest (l_committed (r_raftLog s0)) m ro).
Proof.
  intros Ht Ho H ctx rs. unfold readOnly_addRequest. destruct (pendingReadIndex ro !! m_Context m); [apply H|].
  simpl. intros [[<- <-]|[_ Hx]]%lookup_insert_Some; [|by apply H]. right. split_and!; try done.
Qed.

Lemma reads_from_ack m s0 id ro :
  answers m s0 (m_Context m) id -> reads_from m s0 ro ->
  reads_from m s0 (readOnly_recvAck id (m_Context m) ro).2.
Proof.
  intros Ha H ctx rs. unfold readOnly_recvAck. destruct (pendingReadIndex ro !! m_Context m) as [rs0|] eqn:E; [|apply H].
  simpl. intros [[<- <-]|[_ Hx]]%lookup_insert_Some; [|by apply H]. simpl.
  destruct (H _ _ E) as [(rs1 & H1 & Hi & Hk)|(Ht & Hi & Ho & Hk)]; [left; exists rs1|right]; split_and!; try done;
    intros n Hn; simpl in Hn; apply lookup_insert_Some in Hn as [[<- _]|[_ Hn]]; auto.
Qed.

Lemma advance_pending m ro rss ro' : readOnly_advance m ro = Ok (rss, ro') -> pendingReadIndex ro' ⊆ pendingReadIndex ro.
Proof.
  unfold readOnly_advance. intros ([[rs found] rest] & _ & H)%bind_Ok. destruct found; [|by injection H as _ <-].
  injection H as <- <-. simpl. apply map_subseteq_spec. intros k x. rewrite foldl_delete_lookup. by case_decide.
Qed.

Lemma raft_step_reads s0 m r r' :
  raft_step s0 m r r' -> r_id r = r_id s0 -> r_term r = r_term s0 -> r_term r' = r_term s0 ->
  reads_from m s0 (r_readOnly r) -> reads_from m s0 (r_readOnly r').
Proof.
  intros H Hi Ht Ht' Hr. destruct H; expand_steps; try done; try apply reads_from_new.
  - by apply Raft_send_quiet in H0 as (?&?&?&?&->).
  - simpl. unfold same_log in *. rewrite H1. apply reads_from_add; try done.
    unfold own_commit, Raft_committedEntryInCurrentTerm in *. by rewrite <- H1, <- Ht.
  - apply reads_from_ack; [|done]. destruct H0 as [[_ ->]|(? & -> & Hchk)]; [by left|right].
    unfold term_checked in Hchk. by rewrite <- Ht.
  - simpl. intros ctx rs Hc. apply Hr. by eapply lookup_weaken, advance_pending.
Qed.

(** The reads after a message was handled in the term. *)
Lemma Step_reads m r r' e :
  Raft_Step m r = Ok (r', e) -> 0 <= r_term r -> calm m r -> bounded m (r_term r) -> tidy r ->
  r_term r' = r_term r -> reads_from m r (r_readOnly r').
Proof.
  intros H Hp Hc Hb Hr.
  assert (moves r r' /\ calm m r' /\ (r_term r' = r_term r -> reads_from m r (r_readOnly r'))) as (_ & _ & ?); [|done].
  eapply (Step_preserves (fun a => moves r a /\ calm m a /\ (r_term a = r_term r -> reads_from m r (r_readOnly a))));
    [|exact H|split_and!; [by apply moves_refl|done|]].
  2: { intros _ ctx rs Hx. left. exists rs. split_and!; auto. }
  intros a b Hab (Hm & Hca & IH). assert (0 <= r_term a) as Hpa by (destruct Hm; lia).
  split; [by eapply raft_step_moves|]. split; [by eapply calm_step|]. intros Et.
  pose proof (raft_step_ballot _ _ _ _ Hab Hpa Hca Hb) as [Hle _]. pose proof (mv_term _ _ Hm).
  assert (r_term a = r_term r) as Ea by lia. eapply raft_step_reads; eauto. apply Hm.
Qed.

(** ** Where commit indices come from *)

(** The commit index of [r'] was known to [r], was in a message, or is the decision of a
    leader. *)
Definition source (N : list Message) (P : list moment) (r r' : Raft St) : Prop :=
  l_committed (r_raftLog r') <= l_committed (r_raftLog r) \/
  (exists m, m ∈ N /\ m_Type m ∈ [MsgApp; MsgHeartbeat] /\ l_committed (r_raftLog r') <= m_Commit m) \/
  (exists x, x ∈ P /\ l_committed (r_raftLog r') <= mo_commit x) \/
  (r_state r = Leader /\ r_term r' = r_term r).

Definition commit_from (m : Message) (s0 r : Raft St) : Prop :=
  l_committed (r_raftLog r) <= l_committed (r_raftLog s0) \/
  (m_Type m ∈ [MsgApp; MsgHeartbeat] /\ l_committed (r_raftLog r) <= m_Commit m).

Lemma commitTo_from i (l l' : raftLog St) :
  raftLog_commitTo i l = Ok l' -> l_committed l' = l_committed l \/ l_committed l' = i.
Proof. unfold raftLog_commitTo. split_ifs; intros; inv_res; auto. Qed.

Lemma raft_step_from s0 m r r' :
  raft_step s0 m r r' -> m_Type m <> MsgAppResp -> m_Type m <> MsgSnap -> commit_from m s0 r -> commit_from m s0 r'.
Proof.
  intros H Ha Hs Hf. unfold commit_from in *. destruct H; expand_steps; simpl; try done.
  - by apply Raft_send_quiet in H0 as (?&?&?&?&->).
  - by rewrite (appendEntries_committed _ _ _ H1).
  - by rewrite (appendEntries_committed _ _ _ H4).
  - apply commitTo_from in H4 as [-> | ->]; [done|]. right. split; [done|lia].
Qed.

Lemma AppResp_term m r r' e : stepLeader_AppResp m r = Ok (r', e) -> r_term r' = r_term r.
Proof.
  unfold stepLeader_AppResp. intros H. destruct (ProgressTracker_Progress _ _); [|by inv_res]. simpl in H.
  set (ra := if m_Term m =? r_term r then mark_active (m_From m) r else r) in H.
  assert (r_term ra = r_term r) as <- by (subst ra; by destruct (_ =? _)). clearbody ra.
  apply bind_Ok in H as (r1 & H1 & H). assert (r_term r1 = r_term ra) as <-.
  { destruct (m_Reject m); [|by injection H1 as <-]. apply bind_Ok in H1 as (r2 & H1 & H2). injection H2 as <-. simpl.
    destruct (_ && _); [|by injection H1 as <-]. destruct (Snapshot _); [by injection H1 as <-|].
    by apply Raft_send_quiet in H1 as (?&?&?&?&->). }
  clear H1. apply bind_Ok in H as (r2 & H2 & H). assert (r_term r2 = r_term r1) as <-.
  { destruct (_ && _); [by apply Raft_send_quiet in H2 as (?&?&?&?&->)|by injection H2 as <-]. }
  clear H2. apply bind_Ok in H as ([r3 adv] & H3 & H). apply bind_Ok in H as (r4 & H4 & H). inv_res.
  assert (r_term r3 = r_term r2) as <-.
  { unfold Raft_maybeCommit in H3. destruct (_ <? _); [|by inv_res]. apply bind_Ok in H3 as (b & _ & H3).
    destruct b; [|by inv_res]. apply bind_Ok in H3 as (l & _ & H3). by inv_res. }
  destruct adv; [|by inv_res]. by apply drain_kept in H4 as (_ & _ & ?).
Qed.

Lemma AppResp_source m r r' e :
  Raft_Step m r = Ok (r', e) -> m_Type m = MsgAppResp ->
  l_committed (r_raftLog r') = l_committed (r_raftLog r) \/ (r_step r = StepLeader /\ r_term r' = r_term r).
Proof.
  unfold Raft_Step. intros (r0 & H0 & H)%bind_Ok Ht. rewrite Ht in H.
  assert (Raft_step m r0 = Ok (r', e) -> l_committed (r_raftLog r') = l_committed (r_raftLog r0) \/
          (r_step r0 = StepLeader /\ r_term r' = r_term r0)) as Hstep.
  { unfold Raft_step, stepFollower, stepCandidate, stepLeader. rewrite Ht.
    destruct (r_step r0) eqn:E; intros Hx; [left; by inv_res..|right]. split; [done|]. by eapply AppResp_term. }
  unfold Raft_checkTerm in H0. rewrite Ht in H0. destruct (m_Term m =? 0); [injection H0 as <-; auto|].
  destruct (r_term r <? m_Term m); [|destruct (m_Term m <? r_term r); injection H0 as <-; auto].
  injection H0 as <-. rewrite becomeFollower_step in Hstep. destruct (Hstep H) as [-> | [? _]]; [left|done].
  by rewrite Raft_becomeFollower_eq.
Qed.

Lemma Step_source m r r' e N P :
  Raft_Step m r = Ok (r', e) -> coherent r -> m_Type m <> MsgSnap ->
  (m_Type m ∈ [MsgApp; MsgHeartbeat] -> m ∈ N) -> source N P r r'.
Proof.
  intros H Hc Hs HN. unfold source. destruct (decide (m_Type m = MsgAppResp)) as [Ht|Ht].
  - apply AppResp_source in H as [-> | [? ?]]; [by left| |done]. do 3 right. split; [|done]. by apply coherent_leader.
  - assert (commit_from m r r') as [?|[? ?]]; [|by left|right; left; eauto].
    eapply (Step_preserves (commit_from m r)); [|exact H|by left]. intros a b Hab. by eapply raft_step_from.
Qed.

(** ** Ticks *)

Lemma still_refl r : tidy r -> still r r.
Proof. intros H. split; [by apply moves_refl|done..]. Qed.

Lemma still_trans r1 r2 r3 : still r1 r2 -> still r2 r3 -> still r1 r3.
Proof.
  intros [[] ? Hp1] [[] ? Hp2]. split; [split| |]; try done; try congruence; [lia| | |].
  - intros Et Hn. destruct mv_state0 as [Hn1 Hl1]; [lia|done|]. destruct mv_state1 as [Hn2 Hl2]; [lia|done|]. auto.
  - intros x [[?|[H1 H2]]%mv_sent0|[H1 H2]]%mv_sent1; [by left|right..].
    + split; [done|]. intros Hin%H2. lia.
    + split; [|done]. intros Hin%H1. rewrite mv_id0 in Hin. lia.
  - by etrans.
Qed.

(** Timers and the like. *)
Lemma still_timers r r' :
  same_ballot r r' -> r_raftLog r' = r_raftLog r -> r_readOnly r' = r_readOnly r -> tidy r -> still r r'.
Proof.
  intros (Ei & Et & Es & Ep & Ek & _ & Em & Ea & _) El Er [Hc Hr]. split; [split| |].
  - done.
  - unfold coherent in *. by rewrite Es, Ep, Ek.
  - by rewrite Er.
  - lia.
  - by rewrite Es.
  - unfold outbox. rewrite Em, Ea. by left.
  - by rewrite El.
  - by rewrite Er.
Qed.

Lemma still_tidy r r' : still r r' -> tidy r'.
Proof. intros [[] _ _]. by split. Qed.

Definition timer_msg (m : Message) : Prop := m_Type m ∈ [MsgHup; MsgBeat; MsgCheckQuorum].

Lemma raft_step_pending s0 m r r' :
  raft_step s0 m r r' -> timer_msg m ->
  pendingReadIndex (r_readOnly r') ⊆ pendingReadIndex (r_readOnly r).
Proof.
  intros H Ht. unfold timer_msg in Ht. destruct H; expand_steps; try done; try apply map_empty_subseteq.
  - by apply Raft_send_quiet in H0 as (?&?&?&?&->).
  - rewrite H0 in Ht. inv_list; done.
  - destruct H0 as [[E _]|[E _]]; rewrite E in Ht; inv_list; done.
  - by eapply advance_pending.
Qed.

Lemma timer_still m r r' e :
  Raft_Step m r = Ok (r', e) -> timer_msg m -> 0 <= r_term r -> bounded m (r_term r) -> tidy r -> still r r'.
Proof.
  intros H Ht Hp Hb Hr.
  assert (forall x, m_Type m = x -> x ∈ [MsgHup; MsgBeat; MsgCheckQuorum]) as Hx by (intros x <-; exact Ht).
  assert (calm m r) as Hc by (intros Hin; exfalso; unfold timer_msg in Ht; inv_list; congruence).
  pose proof (Step_moves _ _ _ _ H Hp Hc Hb Hr) as Hm. split; [done| |].
  - pose proof (Step_commit _ _ _ _ H). assert (commit_from m r r') as [?|[Hin _]]; [|lia|].
    + eapply (Step_preserves (commit_from m r)); [|exact H|by left]. intros a b Hab.
      eapply raft_step_from; [done|intros E%Hx; inv_list; done..].
    + exfalso. unfold timer_msg in Ht. inv_list; congruence.
  - eapply (Step_preserves (fun a => pendingReadIndex (r_readOnly a) ⊆ pendingReadIndex (r_readOnly r))); [|exact H|done].
    intros a b Hab Ha. etrans; [by eapply raft_step_pending|done].
Qed.

Lemma tickHeartbeat_still r r' : Raft_tickHeartbeat r = Ok r' -> 0 <= r_term r -> tidy r -> still r r'.
Proof.
  unfold Raft_tickHeartbeat. intros (r1 & H1 & H2)%bind_Ok Hp Hr.
  assert (forall m a b e, Raft_Step m a = Ok (b, e) -> m_Type m = MsgCheckQuorum \/ m_Type m = MsgBeat ->
          0 <= r_term a -> tidy a -> still a b) as Hstep.
  { intros m a b e H Ht Ha Hta. eapply timer_still; [exact H| |done| |done].
    - unfold timer_msg. destruct Ht as [-> | ->]; in_list.
    - intros Hin. destruct Ht as [E|E]; rewrite E in Hin; inv_list; done. }
  set (ra := r <| r_heartbeatElapsed ::= _ |> <| r_electionElapsed ::= _ |>) in H1.
  assert (still r ra) as Ha by by apply still_timers.
  assert (still ra r1) as H01.
  { pose proof (still_tidy _ _ Ha) as Hta. destruct (_ <=? _); [|injection H1 as <-; by apply still_refl].
    apply bind_Ok in H1 as ([r2 e] & H1 & H3). apply Hstep in H1; [|by left|done|done].
    eapply still_trans; [by apply (still_timers ra (ra <| r_electionElapsed := 0 |>))|].
    eapply still_trans; [exact H1|]. pose proof (still_tidy _ _ H1).
    destruct (_ && _); injection H3 as <-; [by apply still_timers|by apply still_refl]. }
  assert (still r r1) as H0 by by eapply still_trans. clear H1 H01 Ha. pose proof (still_tidy _ _ H0) as Ht1.
  destruct (_ <=? _); [|by injection H2 as <-]. apply bind_Ok in H2 as ([r3 e] & H2 & H3). injection H3 as <-.
  eapply still_trans; [exact H0|]. eapply still_trans; [by apply (still_timers r1 (r1 <| r_heartbeatElapsed := 0 |>))|].
  apply Hstep in H2; [done|by right| |done]. simpl. destruct H0 as [[] _ _]. lia.
Qed.

Lemma Tick_still r r' : Raft_Tick r = Ok r' -> 0 <= r_term r < MaxUint64 -> tidy r -> still r r'.
Proof.
  unfold Raft_Tick. intros H Hp Hr. destruct (r_tick r); [|apply tickHeartbeat_still; [done|lia|done]].
  unfold Raft_tickElection in H. destruct (Raft_pastElectionTimeout _).
  2: { injection H as <-. by apply still_timers. }
  apply bind_Ok in H as ([r1 e] & H1 & H). injection H as <-.
  eapply still_trans; [|eapply timer_still; [exact H1|unfold timer_msg; simpl; in_list|simpl; lia|intros _; simpl; lia|done]].
  by apply still_timers.
Qed.
End node.

(** ** One action *)

Section run.
Context {RT : Runtime} {St : Type} {SS : Storage St} {SP : StorageSpec St}.
Variable V : MajorityConfig.
Implicit Types r : Raft St.
Implicit Types c : Cluster St.
Implicit Types (N : list Message) (b : book) (C : reigns) (E : coronations) (D : ballots).

(** What an action of a node does to the commit indices and the reads of a cluster. *)
Record acts (past : list moment) c (a : action (St:=St)) (r r' : Raft St) : Prop := {
  ac_moves : moves r r';
  ac_source : source (net c) past r r';
  ac_emit : emits a = true -> r_state r' = r_state r /\ r_term r' = r_term r;
  ac_reads : r_term r' = r_term r -> r_state r' = Leader ->
    l_committed (r_raftLog r) <= l_committed (r_raftLog r') /\
    exists m, (m_Type m = MsgHeartbeatResp -> m ∈ net c) /\ reads_from m r (r_readOnly r')
}.

Lemma still_acts past c a r r' :
  still r r' -> (emits a = true -> r_state r' = r_state r /\ r_term r' = r_term r) -> acts past c a r r'.
Proof.
  intros [Hm Hc Hp] He. split; [done|left; lia|done|]. intros _ _. split; [lia|].
  exists msg0. split; [done|]. intros ctx rs Hx. left. exists rs. split_and!; auto. by eapply lookup_weaken.
Qed.

Lemma step_acts past c a m r r' e :
  Raft_Step m r = Ok (r', e) -> emits a = false -> 0 <= r_term r -> calm m r -> bounded m (r_term r) -> tidy r ->
  m_Type m <> MsgSnap -> (m_Type m ∈ [MsgApp; MsgHeartbeat; MsgHeartbeatResp] -> m ∈ net c) -> acts past c a r r'.
Proof.
  intros H He Hp Hc Hb Hr Hs HN. split.
  - by eapply Step_moves.
  - eapply Step_source; [exact H|apply Hr|done|]. intros Hin. apply HN. set_solver.
  - by rewrite He.
  - intros Et _. split; [by eapply Step_commit|]. exists m. split; [intros Ht; apply HN; rewrite Ht; in_list|].
    by eapply Step_reads.
Qed.

(** The host stores entries or takes what a node hands out. *)
Lemma host_acts past c a r r' :
  tidy r -> r_id r' = r_id r -> r_term r' = r_term r -> r_state r' = r_state r -> r_step r' = r_step r ->
  r_tick r' = r_tick r -> (forall x, x ∈ outbox r' -> x ∈ outbox r) ->
  l_committed (r_raftLog r') = l_committed (r_raftLog r) -> r_readOnly r' = r_readOnly r -> acts past c a r r'.
Proof.
  intros [Hc Hr] Ei Et Es Ep Ek Ho El Er. apply still_acts; [|done].
  split; [split| |]; rewrite ?Er, ?Es; try done; [|lia|intros x Hx; left; by apply Ho].
  unfold coherent in *. by rewrite Es, Ep, Ek.
Qed.

Lemma newRaft_reads (cfg : Config St) r : newRaft cfg = Ok r -> r_readOnly r = newReadOnly.
Proof.
  unfold newRaft. intros Hn. destruct (validate cfg); [done|]. destruct (c_Storage cfg); [|done].
  destruct (InitialState _); [done|]. destruct (_ <? _); [done|]. destruct (_ && _ && _); [done|].
  injection Hn as <-. by rewrite Raft_becomeFollower_eq.
Qed.

Lemma restart_acts past c i cfg r r' x :
  newRaft cfg = Ok r' -> r_id r' = r_id r -> r_term r' = r_term r -> coherent r' -> x ∈ past ->
  l_committed (r_raftLog r') <= mo_commit x -> acts past c (Restart i cfg) r r'.
Proof.
  intros Hn Ei Et Hc Hx Hle. pose proof (newRaft_shape _ _ Hn) as (Es & Em & Ea & _ & _).
  pose proof (newRaft_reads _ _ Hn) as Er.
  split; [split| | |]; try done; rewrite ?Es, ?Er.
  - apply readOnly_ok_new.
  - lia.
  - done.
  - unfold outbox. rewrite Em, Ea. intros y Hy. by inversion Hy.
  - right. right. left. by exists x.
  - done.
Qed.

Lemma exec_acts b C E D past c a r r' out :
  commit_sound V b C E D past c -> readOnly_ok (r_readOnly r) -> nodes c !! actor a = Some r ->
  exec_node true c a r = Some (r', out) -> disciplined past a r r' -> acts past c a r r'.
Proof.
  intros Hk Hro Hr Hx Ho. destruct (ks_nodes _ _ _ _ _ _ _ Hk _ _ Hr) as [Hs _].
  pose proof (sd_node _ _ _ _ _ Hs) as Hn. pose proof (ni_term _ _ _ _ Hn) as Hpos.
  assert (tidy r) as Ht by (split; [apply Hn|done]).
  destruct a as [i m|i m|i|i|i rd|i st|i cfg]; simpl actor in *; simpl in Hx.
  - destruct (_ && _) eqn:E0; [|done]. to_prop. apply bind_Some in Hx as ([r1 e] & HS%ok_of_Some & [= <- <-]).
    match goal with H : bool_decide (m ∈ _) = true |- _ => apply bool_decide_eq_true in H as Hin end.
    eapply step_acts; [exact HS|done|done|by apply calmb_calm|by apply no_overflow_bounded|done|apply Ho|done].
  - destruct (_ && _) eqn:E0; [|done]. to_prop. apply bind_Some in Hx as ([r1 e] & HS%ok_of_Some & [= <- <-]).
    pose proof H as Hl. unfold local_msg in Hl. to_prop. eapply step_acts; [exact HS|done|done| |by apply no_overflow_bounded|done| |].
    + by eapply (local_msg_inv ∅ 0).
    + by destruct (m_Type m).
    + intros Hin. exfalso. inv_list; simplify_eq; destruct (m_Type m); done.
  - destruct (no_overflow _ _) eqn:E0; [|done]. apply bind_Some in Hx as (r1 & HS%ok_of_Some & [= <- <-]).
    unfold no_overflow in E0. to_prop. apply still_acts; [by apply Tick_still|done].
  - apply bind_Some in Hx as (rd & HS%ok_of_Some & [= <- <-]). apply host_acts; try done.
    unfold outbox. simpl. set_solver.
  - apply bind_Some in Hx as (r1 & HS%ok_of_Some & [= <- <-]). pose proof (Advance_committed _ _ _ HS) as El.
    unfold Raft_Advance in HS. apply bind_Ok in HS as (l & _ & HS). injection HS as <-. apply host_acts; try done.
    unfold outbox. simpl. set_solver.
  - injection Hx as <- <-. by apply host_acts.
  - destruct Ho as (Hf & x & Hx1 & Hlog & Hcm). destruct (restart_inv _ _ c _ _ _ _ _ Hn Hx) as [Hn' ->].
    simpl in Hx. destruct (c_Storage cfg) as [st|] eqn:Est; [|done]. destruct (InitialState st) as [|hs] eqn:Ehs; [done|].
    destruct (_ && _) eqn:E0; [|done]. to_prop. apply bind_Some in Hx as (r1 & HS%ok_of_Some & [= <-]).
    destruct (newRaft_hard _ _ _ _ HS Est Ehs) as [Et _].
    eapply restart_acts; [exact HS|by rewrite (ni_id _ _ _ _ Hn), (ni_id _ _ _ _ Hn')|lia|apply Hn'| |exact Hcm].
    by eapply since_ready_past.
Qed.

(** ** What a leader knows *)

(** [k] is committed as far as [r] knows, or [r] has had the entry since before its term. *)
Definition covered (r : Raft St) (k : Z) : Prop :=
  k <= l_committed (r_raftLog r) \/
  exists e, index (log_view (r_raftLog r)) (k - 1) = Some e /\ e_Term e < r_term r.

(** A majority is in terms later than [t]. *)
Definition superseded (t : Z) c : Prop :=
  exists Q, majority V Q /\ forall n r, n ∈ Q -> nodes c !! n = Some r -> t < r_term r.

(** Some node had, or is told, the commit index [k]. *)
Definition heard (past : list moment) c (k : Z) : Prop :=
  (exists x, x ∈ past /\ mo_commit x = k) \/
  (exists m, m ∈ net c /\ m_Type m ∈ [MsgApp; MsgHeartbeat] /\ m_Commit m = k) \/
  (exists j r m, nodes c !! j = Some r /\ m ∈ outbox r /\ m_Type m ∈ [MsgApp; MsgHeartbeat] /\ m_Commit m = k).

Lemma covered_le r k k' :
  ordered (log_view (r_raftLog r)) -> 0 <= l_committed (r_raftLog r) -> covered r k -> k' <= k -> covered r k'.
Proof.
  intros Ho Hc [?|(e & He & Ht)] Hle; [left; lia|]. destruct (decide (k' <= 0)) as [?|Hp]; [left; lia|right].
  unfold index in *. destruct (decide (0 <= k - 1)) as [Hk|]; [|done]. rewrite decide_True by lia.
  destruct (lookup_lt_is_Some_2 (log_view (r_raftLog r)) (Z.to_nat (k' - 1))) as [e' He'].
  { apply lookup_lt_Some in He. lia. }
  exists e'. split; [done|]. assert ((Z.to_nat (k' - 1) <= Z.to_nat (k - 1))%nat) as Hi by lia.
  pose proof (Ho _ _ _ _ Hi He' He). lia.
Qed.

Lemma covered_grow r r' k :
  r_term r' = r_term r -> l_committed (r_raftLog r) <= l_committed (r_raftLog r') ->
  log_view (r_raftLog r) `prefix_of` log_view (r_raftLog r') -> covered r k -> covered r' k.
Proof.
  intros Et Hl Hp [?|(e & He & Ht)]; [left; lia|right]. exists e. rewrite Et. split; [|done].
  unfold index in *. destruct (decide _); [|done]. by eapply prefix_lookup_Some.
Qed.

(** With an entry of its own term committed, a leader knows what it has. *)
Lemma covered_own r k :
  raftLog_ok (r_raftLog r) -> log_base (r_raftLog r) = 0 -> ordered (log_view (r_raftLog r)) -> 0 < r_term r ->
  own_commit r -> covered r k -> k <= l_committed (r_raftLog r).
Proof.
  intros (Hwf & Ha & Hc & _) Hb Ho Hp Hown [?|(e & He & Ht)]; [done|].
  unfold own_commit, Raft_committedEntryInCurrentTerm in Hown.
  rewrite raftLog_matchTerm_view in Hown by (done || lia). injection Hown as Hown.
  apply bool_decide_eq_true in Hown. unfold view_term in Hown. rewrite Hb, Z.sub_0_r in Hown.
  destruct (_ =? 0) eqn:E0; [injection Hown as Hown; lia|]. to_prop.
  destruct (index (log_view _) (l_committed _ - 1)) as [e'|] eqn:Ei; [|done]. simpl in Hown. injection Hown as Hown.
  destruct (decide (k <= l_committed (r_raftLog r))) as [?|Hk]; [done|exfalso].
  unfold index in *. destruct (decide _); [|done]. destruct (decide (0 <= k - 1)); [|done].
  assert ((Z.to_nat (l_committed (r_raftLog r) - 1) <= Z.to_nat (k - 1))%nat) as Hi by lia.
  pose proof (Ho _ _ _ _ Hi Ei He). lia.
Qed.

Lemma later_reign b C E D past c t u j T :
  commit_sound V b C E D past c -> C !! u = Some (j, T) -> t < u -> superseded t c.
Proof.
  intros Hk HT Hlt. pose proof (ks_history _ _ _ _ _ _ _ Hk) as Hh.
  destruct (ho_crowned _ _ _ _ _ _ Hh _ _ _ HT) as (s & Q & _ & Hc). exists Q. split; [apply Hc|].
  intros n r Hn Hr. destruct (cr_voter _ _ _ _ _ _ _ _ _ _ Hc n Hn) as (L & HL & _).
  destruct (ks_nodes _ _ _ _ _ _ _ Hk n r Hr) as [Hs _].
  pose proof (ballot_term V _ _ _ _ _ _ _ _ _ Hh (sd_node _ _ _ _ _ Hs) HL). lia.
Qed.

Lemma superseded_mono t c c' :
  (forall n r', nodes c' !! n = Some r' -> exists r, nodes c !! n = Some r /\ r_term r <= r_term r') ->
  superseded t c -> superseded t c'.
Proof.
  intros Hm (Q & HQ & H). exists Q. split; [done|]. intros n r' Hn Hr'. destruct (Hm n r' Hr') as (r & Hr & Hle).
  specialize (H n r Hn Hr). lia.
Qed.

(** What is committed is in the log of a leader, unless a later leader committed it; if
    the leader's own term has committed it, so it says. *)
Lemma claim_covered b C E D past c i r u k :
  commit_sound V b C E D past c -> nodes c !! i = Some r -> r_state r = Leader -> claim V (net c) C u k ->
  superseded (r_term r) c \/ covered r k \/ (r_term r <= u /\ exists n, committed_at V (net c) C (r_term r) n).
Proof.
  intros Hk Hr Hl Hc. destruct (ks_nodes _ _ _ _ _ _ _ Hk i r Hr) as [Hs _].
  pose proof (ks_history _ _ _ _ _ _ _ Hk) as Hh. pose proof (sd_log _ _ _ _ _ Hs) as Hi.
  pose proof (li_lead _ _ _ Hi Hl) as HC. destruct (lr_ok _ _ (li_log _ _ _ Hi)) as (_ & Ha & _).
  destruct (decide (k <= 0)) as [?|Hp]; [right; left; left; lia|].
  destruct Hc as [?|(t & j & T & n & Ht & HT & Hn & Hle)]; [lia|].
  destruct (Z.lt_trichotomy t (r_term r)) as [Hlt|[->|Hgt]]; [right; left; right| |].
  - pose proof (committed_in_later V _ _ _ _ _ _ _ _ _ _ _ _ Hh Hn HT HC ltac:(lia)) as Et.
    destruct Hn as (j' & T' & e & Q & HT' & He & _ & Het & _). assert (T' = T) as -> by congruence.
    pose proof (lookup_lt_Some _ _ _ He) as Hlen.
    destruct (index_is_Some T (k - 1)) as [e' He']; [unfold len; lia|]. exists e'. split.
    { rewrite <- He'. by eapply take_index; [exact Et|lia]. }
    unfold index in He'. rewrite decide_True in He' by lia.
    assert ((Z.to_nat (k - 1) <= pred n)%nat) as Hin by lia.
    pose proof (ho_ordered _ _ _ _ _ _ Hh _ _ _ HT _ _ _ _ Hin He' He). lia.
  - right. right. split; [lia|by exists n].
  - left. eapply later_reign; [exact Hk|exact HT|lia].
Qed.

Lemma claim_le N C u k k' : claim V N C u k -> k' <= k -> claim V N C u k'.
Proof. intros [?|(t & j & T & n & ? & ? & ? & ?)] Hle; [left; lia|right]. exists t, j, T, n. split_and!; try done. lia. Qed.

Lemma msg_claim N b C E D m :
  msg_sound V N b C E D m -> m_Type m ∈ [MsgApp; MsgHeartbeat] -> claim V N C (m_Term m) (m_Commit m).
Proof.
  unfold msg_sound. intros H Ht. assert (m_Type m = MsgApp \/ m_Type m = MsgHeartbeat) as [E0|E0] by set_solver;
    rewrite E0 in H; [|by destruct H].
  destruct H as (j & T & s & Q & _ & _ & _ & _ & _ & _ & _ & H). exact H.
Qed.

Lemma heard_claim b C E D past c k :
  commit_sound V b C E D past c -> heard past c k -> exists u, claim V (net c) C u k.
Proof.
  intros Hk [(x & Hx & <-)|[(m & Hm & Ht & <-)|(j & r & m & Hr & Hm & Ht & <-)]].
  - destruct (ks_past _ _ _ _ _ _ _ Hk x Hx) as [Hc _]. eexists. by eapply committed_claim.
  - destruct (ks_net _ _ _ _ _ _ _ Hk m Hm) as [_ Hs]. eexists. by eapply msg_claim.
  - destruct (ks_nodes _ _ _ _ _ _ _ Hk j r Hr) as [_ Hc]. eexists. eapply msg_claim; [|done]. by apply Hc.
Qed.

(** What is heard after an action was heard before, or is the decision of a leader. *)
Lemma heard_step past c a r r' out k :
  acts past c a r r' -> nodes c !! actor a = Some r -> (exists e, now (actor a) e r ∈ past) ->
  (forall m, m ∈ out -> m ∈ outbox r) ->
  heard (now (actor a) (emits a) r' :: past) (mkCluster (<[ actor a := r' ]> (nodes c)) (net c ++ out)) k ->
  (exists k', k <= k' /\ heard past c k') \/
  (k <= l_committed (r_raftLog r') /\ r_state r = Leader /\ r_term r' = r_term r).
Proof.
  intros Ha Hr [e Hnow] Hout.
  assert (k <= l_committed (r_raftLog r') -> (exists k', k <= k' /\ heard past c k') \/
    (k <= l_committed (r_raftLog r') /\ r_state r = Leader /\ r_term r' = r_term r)) as Hsrc.
  { intros Hle. destruct (ac_source _ _ _ _ _ Ha) as [?|[(m & ? & ? & ?)|[(x & ? & ?)|[? ?]]]]; [left..|by right].
    - eexists. split; [|left; exists (now (actor a) e r); split; [done|reflexivity]]. simpl. lia.
    - eexists. split; [|right; left; exists m; done]. lia.
    - eexists. split; [|left; exists x; done]. lia. }
  assert (heard past c k -> exists k', k <= k' /\ heard past c k') as Hold by (intros; exists k; split; [lia|done]).
  intros [(x & [-> | Hx]%elem_of_cons & <-)|[(m & [Hm|Hm]%elem_of_app & Ht & <-)|(j & rj & m & Hj & Hm & Ht & <-)]].
  - by apply Hsrc.
  - left. apply Hold. left. by exists x.
  - left. apply Hold. right. left. by exists m.
  - left. apply Hold. right. right. exists (actor a), r, m. auto.
  - simpl in Hj. apply lookup_insert_Some in Hj as [[<- <-]|[_ Hj]].
    + destruct (mv_sent _ _ (ac_moves _ _ _ _ _ Ha) m Hm) as [Hm'|[_ Hs]]; [|by apply Hsrc, Hs].
      left. apply Hold. right. right. by exists (actor a), r, m.
    + left. apply Hold. right. right. by exists j, rj, m.
Qed.

(** Nothing is committed that a leader does not have, unless a majority has moved on. *)
Record known (past : list moment) c : Prop := {
  kn_reads i r : nodes c !! i = Some r -> readOnly_ok (r_readOnly r);
  kn_lead i r k : nodes c !! i = Some r -> r_state r = Leader -> heard past c k ->
    superseded (r_term r) c \/ covered r k
}.

Lemma sound_ordered b C E D past c i r :
  commit_sound V b C E D past c -> nodes c !! i = Some r ->
  ordered (log_view (r_raftLog r)) /\ 0 <= l_committed (r_raftLog r).
Proof.
  intros Hk Hr. destruct (ks_nodes _ _ _ _ _ _ _ Hk i r Hr) as [Hs _].
  pose proof (li_log _ _ _ (sd_log _ _ _ _ _ Hs)) as Hl. split.
  - eapply rooted_ordered; [|apply Hl]. apply Hk.
  - destruct (lr_ok _ _ Hl) as (_ & ? & _). lia.
Qed.

(** Before a leader is elected, its term has committed nothing. *)
Lemma uncommitted b C E D b' C' E' D' past past' c c' i r r' n :
  commit_sound V b C E D past c -> commit_sound V b' C' E' D' past' c' -> reigns_ext i C C' -> net c' = net c ->
  nodes c !! i = Some r -> nodes c' !! i = Some r' -> r_state r' = Leader -> moves r r' ->
  committed_at V (net c') C' (r_term r') n -> r_term r' = r_term r /\ r_state r = Leader.
Proof.
  intros Hk Hk' Hx EN Hr Hr' Hl Hm (j & T & e & Q & HT & _ & Hn & _ & HQ & Hack). rewrite EN in Hack.
  destruct (majority_meet V Q Q HQ HQ) as (q & Hq & _).
  destruct (ho_acked _ _ _ _ _ _ (ks_history _ _ _ _ _ _ _ Hk) q _ _ (Hack q Hq) Hn) as (j0 & T0 & HT0 & _).
  destruct (proj1 Hx _ _ _ HT0) as (T1 & HT1 & _). destruct (ks_nodes _ _ _ _ _ _ _ Hk' i r' Hr') as [Hs' _].
  rewrite (li_lead _ _ _ (sd_log _ _ _ _ _ Hs') Hl) in HT1. injection HT1 as <- _.
  destruct (ks_nodes _ _ _ _ _ _ _ Hk i r Hr) as [Hs _].
  destruct (li_led _ _ _ (sd_log _ _ _ _ _ Hs) _ _ HT0) as [Hle Hnc]. pose proof (mv_term _ _ Hm).
  assert (r_term r' = r_term r) as Et by lia. split; [done|].
  by apply (mv_state _ _ Hm Et (Hnc ltac:(lia))).
Qed.

(** Two leaders of one term are one. *)
Lemma one_leader b C E D past c i j r rj :
  commit_sound V b C E D past c -> nodes c !! i = Some r -> nodes c !! j = Some rj ->
  r_state r = Leader -> r_state rj = Leader -> r_term r = r_term rj -> i = j.
Proof.
  intros Hk Hr Hj Hl Hlj Et. destruct (ks_nodes _ _ _ _ _ _ _ Hk i r Hr) as [Hs _].
  destruct (ks_nodes _ _ _ _ _ _ _ Hk j rj Hj) as [Hsj _].
  pose proof (li_lead _ _ _ (sd_log _ _ _ _ _ Hs) Hl) as H1. rewrite Et in H1.
  rewrite (li_lead _ _ _ (sd_log _ _ _ _ _ Hsj) Hlj) in H1. by injection H1.
Qed.

(** The log of a leader grows. *)
Lemma leader_grows b C E D b' C' E' D' past past' c c' i r r' :
  commit_sound V b C E D past c -> commit_sound V b' C' E' D' past' c' -> reigns_ext i C C' ->
  nodes c !! i = Some r -> nodes c' !! i = Some r' -> r_state r = Leader -> r_state r' = Leader ->
  r_term r' = r_term r -> log_view (r_raftLog r) `prefix_of` log_view (r_raftLog r').
Proof.
  intros Hk Hk' Hx Hr Hr' Hl Hl' Et. destruct (ks_nodes _ _ _ _ _ _ _ Hk i r Hr) as [Hs _].
  destruct (ks_nodes _ _ _ _ _ _ _ Hk' i r' Hr') as [Hs' _].
  destruct (proj1 Hx _ _ _ (li_lead _ _ _ (sd_log _ _ _ _ _ Hs) Hl)) as (T & HT & HP & _).
  pose proof (li_lead _ _ _ (sd_log _ _ _ _ _ Hs') Hl') as HT'. rewrite Et in HT'. by simplify_eq.
Qed.

(** A commit index heard of after an action of another node. *)
Lemma other_covered b C E D b' C' E' D' past past' c c' i j r rj rj' k :
  commit_sound V b C E D past c -> commit_sound V b' C' E' D' past' c' -> reigns_ext j C C' ->
  nodes c !! i = Some r -> nodes c' !! i = Some r -> nodes c !! j = Some rj -> nodes c' !! j = Some rj' ->
  i <> j -> r_state r = Leader -> r_state rj = Leader -> r_term rj' = r_term rj ->
  k <= l_committed (r_raftLog rj') -> superseded (r_term r) c' \/ covered r k.
Proof.
  intros Hk Hk' Hx Hr Hr' Hj Hj' Hne Hl Hlj Et Hle. destruct (ks_nodes _ _ _ _ _ _ _ Hk' j rj' Hj') as [Hs' Hc'].
  pose proof (committed_claim _ _ _ _ _ _ (cm_commit _ _ _ _ _ _ _ _ Hc')) as Hcl.
  destruct (claim_covered _ _ _ _ _ _ _ _ _ _ Hk' Hr' Hl (claim_le _ _ _ _ _ Hcl Hle)) as [?|[?|[Hu (n & Hn)]]]; [auto..|].
  left. assert (r_term r <> r_term rj) as Hnt by (intros Ert; by apply Hne, (one_leader b C E D past c i j r rj)).
  destruct (ks_nodes _ _ _ _ _ _ _ Hk j rj Hj) as [Hs _].
  destruct (proj1 Hx _ _ _ (li_lead _ _ _ (sd_log _ _ _ _ _ Hs) Hlj)) as (T & HT & _).
  eapply later_reign; [exact Hk'|exact HT|lia].
Qed.

(** One action of a run: what it keeps, and what it adds to the network. *)
Lemma commit_exec past c a c' r r' :
  commit_run V past c -> readOnly_ok (r_readOnly r) -> exec true a c = Some c' -> nodes c !! actor a = Some r ->
  nodes c' !! actor a = Some r' -> disciplined past a r r' ->
  exists b C E D b' C' E' D' out,
    commit_sound V b C E D past c /\ commit_sound V b' C' E' D' (now (actor a) (emits a) r' :: past) c' /\
    reigns_ext (actor a) C C' /\ acts past c a r r' /\
    c' = mkCluster (<[ actor a := r' ]> (nodes c)) (net c ++ out) /\
    (forall m, m ∈ out -> m ∈ outbox r) /\ (emits a = false -> out = []).
Proof.
  intros Hrun Hro Hx Hr Hr' Hd. destruct (commit_run_sound V past c Hrun) as (b & C & E & D & Hk).
  destruct (exec_commit V _ _ _ _ _ _ _ _ _ _ Hk Hx Hr Hr' Hd) as (b' & C' & E' & D' & Hg & Hk').
  unfold exec in Hx. rewrite Hr in Hx. simpl in Hx. apply bind_Some in Hx as ([r1 out] & Hx & Hc').
  injection Hc' as <-. pose proof Hr' as Hr1. simpl in Hr1. rewrite lookup_insert_eq in Hr1. injection Hr1 as ->.
  exists b, C, E, D, b', C', E', D', out. split_and!; try done.
  - apply Hg.
  - by eapply exec_acts.
  - by destruct (exec_node_commit V _ _ _ _ _ _ _ _ _ _ Hk Hr Hx Hd) as (?&?&?&?&_&_&_&_&?&_).
  - by apply (exec_node_silent _ _ _ _ _ Hx).
Qed.

Lemma known_step past c a c' r r' :
  commit_run V past c -> known past c -> exec true a c = Some c' -> nodes c !! actor a = Some r ->
  nodes c' !! actor a = Some r' -> disciplined past a r r' -> known (now (actor a) (emits a) r' :: past) c'.
Proof.
  intros Hrun [Hro Hld] Hx Hr Hr' Hd. pose proof (commit_run_now V past c _ r Hrun Hr) as Hnow.
  destruct (commit_exec _ _ _ _ _ _ Hrun (Hro _ _ Hr) Hx Hr Hr' Hd)
    as (b & C & E & D & b' & C' & E' & D' & out & Hk & Hk' & Hxr & Ha & Hc' & Hout & Hsil). clear Hx. subst c'.
  pose proof (ac_moves _ _ _ _ _ Ha) as Hm.
  set (c' := mkCluster (<[ actor a := r' ]> (nodes c)) (net c ++ out)) in *.
  assert (forall t, superseded t c -> superseded t c') as Hsup.
  { intros t. apply superseded_mono. intros n rn. simpl. intros [[<- <-]|[_ Hn]]%lookup_insert_Some;
      [exists r; split; [done|apply Hm]|by exists rn]. }
  split.
  { intros i ri. simpl. intros [[<- <-]|[_ Hi]]%lookup_insert_Some; [apply Hm|by eapply Hro]. }
  intros i ri k Hi Hl Hh. pose proof (heard_step _ _ _ _ _ _ _ Ha Hr Hnow Hout Hh) as Hs.
  pose proof Hi as Hi'. simpl in Hi'. apply lookup_insert_Some in Hi' as [[<- <-]|[Hne Hci]].
  - destruct (decide (r_state r = Leader /\ r_term r' = r_term r)) as [[Hlr Et]|Hnew].
    + destruct Hs as [(k' & Hle & Hh')|(Hle & _)]; [|right; left; lia].
      destruct (Hld _ _ _ Hr Hlr Hh') as [Hsu|Hcov]; [left; rewrite Et; by apply Hsup|right].
      destruct (sound_ordered _ _ _ _ _ _ _ _ Hk Hr) as [Ho Hp].
      apply (covered_grow r); [done|by apply (ac_reads _ _ _ _ _ Ha)| |by eapply covered_le].
      by eapply (leader_grows b C E D b' C' E' D').
    + destruct (heard_claim _ _ _ _ _ _ _ Hk' Hh) as (u & Hcl).
      destruct (claim_covered _ _ _ _ _ _ _ _ _ _ Hk' Hi Hl Hcl) as [?|[?|[_ (n & Hn)]]]; [auto..|].
      exfalso. apply Hnew.
      destruct (uncommitted b C E D b' C' E' D' past (now (actor a) (emits a) r' :: past) c c' (actor a) r r' n) as [? ?]; try done.
      simpl. destruct (emits a) eqn:Ee; [|by rewrite Hsil, app_nil_r].
      destruct (ac_emit _ _ _ _ _ Ha Ee) as [Es Et]. exfalso. apply Hnew. by rewrite <- Es.
  - destruct Hs as [(k' & Hle & Hh')|(Hle & Hlr & Et)].
    + destruct (Hld _ _ _ Hci Hl Hh') as [Hsu|Hcov]; [left; by apply Hsup|right].
      destruct (sound_ordered _ _ _ _ _ _ _ _ Hk Hci) as [Ho Hp]. by eapply covered_le.
    + eapply (other_covered b C E D b' C' E' D' past (now (actor a) (emits a) r' :: past) c c' i (actor a)); done.
Qed.

Lemma commit_run_known past c : commit_run V past c -> known past c.
Proof.
  induction 1 as [c [_ Hn] _|past c a c' r r' Hrun IH Hx Hr Hr' Hd]; [|by eapply known_step].
  assert (forall i r, nodes c !! i = Some r -> r_readOnly r = newReadOnly /\ r_state r = Follower) as Hnew.
  { intros i r Hr. destruct (Hn i r Hr) as (cfg & st & hs & Hnw & _). split; [by eapply newRaft_reads|].
    by apply newRaft_shape in Hnw as [? _]. }
  split.
  - intros i r Hr. rewrite (proj1 (Hnew i r Hr)). apply readOnly_ok_new.
  - intros i r k Hr Hl. by rewrite (proj2 (Hnew i r Hr)) in Hl.
Qed.

(** ** From the request to the release *)

(** One disciplined action, as [commit_run] allows it. *)
Definition commit_step (p p' : list moment * Cluster St) : Prop :=
  exists a r r', exec true a p.2 = Some p'.2 /\ nodes p.2 !! actor a = Some r /\
    nodes p'.2 !! actor a = Some r' /\ disciplined p.1 a r r' /\ p'.1 = now (actor a) (emits a) r' :: p.1.

Lemma commit_run_one p p' : commit_run V p.1 p.2 -> commit_step p p' -> commit_run V p'.1 p'.2.
Proof. intros H (a & r & r' & Hx & Hr & Hr' & Hd & ->). by eapply commit_run_step. Qed.

(** Node [n] was in term [t] or an earlier one in [c0]. *)
Definition early (c0 : Cluster St) (n t : Z) : Prop := exists r, nodes c0 !! n = Some r /\ r_term r <= t.

(** Some node's message, sent or about to be. *)
Definition in_flight (c : Cluster St) (m : Message) : Prop :=
  m ∈ net c \/ exists j r, nodes c !! j = Some r /\ m ∈ outbox r.

(** Nobody has answered a heartbeat with the context [ctx], and [r] does not wait for it. *)
Definition unused (ctx : bytes) (c : Cluster St) (r : Raft St) : Prop :=
  (forall m, in_flight c m -> m_Type m = MsgHeartbeatResp -> m_Context m <> ctx) /\
  pendingReadIndex (r_readOnly r) !! ctx = None.

(** The read [rs] that the leader [r] waits for: it was pending in [r0], or covers what
    [r0] had to know; those who acknowledged [ctx] were not ahead of [r0] in [c0]. *)
Definition read_since (c0 : Cluster St) (r0 : Raft St) (ctx ctx' : bytes) (rs : readIndexStatus) : Prop :=
  (pendingReadIndex (r_readOnly r0) !! ctx' = None -> forall k, covered r0 k -> k <= rs_index rs) /\
  (ctx' = ctx -> forall n, rs_acks rs !! n = Some true -> early c0 n (r_term r0)).

(** What has happened since [c0], when [r0] was the leader [i]. *)
Record since (c0 : Cluster St) (i : Z) (r0 : Raft St) (ctx : bytes) (c : Cluster St) : Prop := {
  sn_nodes j r : nodes c !! j = Some r -> early c0 j (r_term r);
  sn_resp m : in_flight c m -> m_Type m = MsgHeartbeatResp -> m_Context m = ctx -> early c0 (m_From m) (m_Term m);
  sn_state r : nodes c !! i = Some r -> r_term r = r_term r0 -> r_state r <> Candidate;
  sn_covered r k : nodes c !! i = Some r -> r_term r = r_term r0 -> r_state r = Leader -> covered r0 k -> covered r k;
  sn_reads r ctx' rs : nodes c !! i = Some r -> r_term r = r_term r0 -> r_state r = Leader ->
    pendingReadIndex (r_readOnly r) !! ctx' = Some rs -> read_since c0 r0 ctx ctx' rs
}.

Lemma since_start c0 i r0 ctx :
  nodes c0 !! i = Some r0 -> r_state r0 = Leader -> unused ctx c0 r0 -> since c0 i r0 ctx c0.
Proof.
  intros Hi Hl [Hu Hp]. split.
  - intros j r Hr. by exists r.
  - intros m Hm Ht Hc. by destruct (Hu m Hm Ht).
  - intros r Hr _. assert (r = r0) as -> by congruence. by rewrite Hl.
  - intros r k Hr _ _. by assert (r = r0) as -> by congruence.
  - intros r ctx' rs Hr _ _ Hx. assert (r = r0) as -> by congruence. split; [by rewrite Hx|].
    intros ->. by rewrite Hx in Hp.
Qed.

(** The leader handles something. *)
Lemma since_reads c0 i r0 ctx c m r ro :
  since c0 i r0 ctx c -> nodes c0 !! i = Some r0 -> nodes c !! i = Some r -> r_id r = i ->
  r_term r = r_term r0 -> r_state r = Leader -> 0 <= r_term r ->
  (own_commit r -> forall k, covered r k -> k <= l_committed (r_raftLog r)) ->
  (m_Type m = MsgHeartbeatResp -> m ∈ net c) -> reads_from m r ro ->
  forall ctx' rs, pendingReadIndex ro !! ctx' = Some rs -> read_since c0 r0 ctx ctx' rs.
Proof.
  intros Hs H0 Hr Hid Et Hl Hp Hown Hm Hrd ctx' rs Hx.
  assert (forall n, answers m r ctx' n -> ctx' = ctx -> early c0 n (r_term r0)) as Hans.
  { intros n [-> | (Ht & -> & -> & Hle)] Hc; [rewrite Hid; by exists r0|].
    destruct (sn_resp _ _ _ _ _ Hs m (or_introl (Hm Ht)) Ht Hc) as (rn & Hn & Hle'). exists rn. split; [done|].
    destruct Hle; lia. }
  destruct (Hrd _ _ Hx) as [(rs0 & Hx0 & Hi & Hk)|(_ & Hi & Ho & Hk)].
  - destruct (sn_reads _ _ _ _ _ Hs r ctx' rs0 Hr Et Hl Hx0) as [Hc Ha]. split.
    + intros Hn k Hcov. rewrite <- Hi. by apply Hc.
    + intros Hc' n [Hn|Hn]%Hk; [by apply Ha|by apply Hans].
  - split.
    + intros _ k Hcov. rewrite Hi. apply Hown; [done|]. by apply (sn_covered _ _ _ _ _ Hs).
    + intros Hc' n Hn. by apply Hans; [apply Hk|].
Qed.

(** An action of the leader itself, in its term. *)
Lemma since_leader b C E D b' C' E' D' past past' c c' a c0 i r0 ctx r r' :
  commit_sound V b C E D past c -> commit_sound V b' C' E' D' past' c' -> reigns_ext i C C' ->
  acts past c a r r' -> nodes c0 !! i = Some r0 -> nodes c !! i = Some r -> nodes c' !! i = Some r' ->
  since c0 i r0 ctx c -> r_term r' = r_term r0 ->
  r_state r' <> Candidate /\
  (r_state r' = Leader -> (forall k, covered r0 k -> covered r' k) /\
    forall ctx' rs, pendingReadIndex (r_readOnly r') !! ctx' = Some rs -> read_since c0 r0 ctx ctx' rs).
Proof.
  intros Hk Hk' Hx Ha H0 Hr Hr' Hs Et. pose proof (ac_moves _ _ _ _ _ Ha) as Hm. pose proof (mv_term _ _ Hm) as Hle.
  assert (r_term r = r_term r0) as Er.
  { destruct (sn_nodes _ _ _ _ _ Hs _ _ Hr) as (ra & Hra & ?). assert (ra = r0) as -> by congruence. lia. }
  pose proof (sn_state _ _ _ _ _ Hs r Hr Er) as Hnc.
  destruct (mv_state _ _ Hm ltac:(lia) Hnc) as [Hnc' Hlead]. split; [done|]. intros Hl. specialize (Hlead Hl).
  destruct (ac_reads _ _ _ _ _ Ha ltac:(lia) Hl) as (Hcm & m & Hmn & Hrd).
  destruct (ks_nodes _ _ _ _ _ _ _ Hk _ _ Hr) as [Hsd _]. pose proof (sd_node _ _ _ _ _ Hsd) as Hn.
  pose proof (sd_log _ _ _ _ _ Hsd) as Hli. pose proof (li_lead _ _ _ Hli Hlead) as HC. split.
  - intros k Hc0%(sn_covered _ _ _ _ _ Hs r k Hr Er Hlead). apply (covered_grow r); [lia|done| |done].
    eapply (leader_grows b C E D b' C' E' D'); try done. lia.
  - eapply since_reads; try done; try apply Hn.
    intros Ho k Hc0. eapply covered_own; try done; try apply Hli.
    + apply (sound_ordered b C E D past c i r Hk Hr).
    + by eapply (ho_pos _ _ _ _ _ _ (ks_history _ _ _ _ _ _ _ Hk)).
Qed.

Lemma since_step c0 i r0 ctx p p' :
  commit_run V p.1 p.2 -> commit_step p p' -> nodes c0 !! i = Some r0 -> since c0 i r0 ctx p.2 -> since c0 i r0 ctx p'.2.
Proof.
  destruct p as [past c], p' as [past' c']. intros Hrun (a & r & r' & Hx & Hr & Hr' & Hd & Hp') H0 Hs. simpl in *.
  pose proof (commit_run_known _ _ Hrun) as [Hro _].
  destruct (commit_exec _ _ _ _ _ _ Hrun (Hro _ _ Hr) Hx Hr Hr' Hd)
    as (b & C & E & D & b' & C' & E' & D' & out & Hk & Hk' & Hxr & Ha & Hc' & Hout & _). clear Hx Hp'.
  pose proof (ac_moves _ _ _ _ _ Ha) as Hm.
  pose proof (ni_id _ _ _ _ (sd_node _ _ _ _ _ (proj1 (ks_nodes _ _ _ _ _ _ _ Hk _ _ Hr)))) as Hid.
  assert (forall j rj, nodes c' !! j = Some rj -> j = actor a /\ rj = r' \/ nodes c !! j = Some rj) as Hnd.
  { subst c'. simpl. intros j rj [[<- <-]|[_ Hj]]%lookup_insert_Some; auto. }
  assert (forall m, in_flight c' m -> in_flight c m \/ sent_by r r' m) as Hfl.
  { intros m [Hin|(j & rj & [[-> ->]|Hj]%Hnd & Hin)].
    - left. subst c'. simpl in Hin. apply elem_of_app in Hin as [?|?%Hout]; [by left|right; by exists (actor a), r].
    - destruct (mv_sent _ _ Hm m Hin); [left|by right]. right. by exists (actor a), r.
    - left. right. by exists j, rj. }
  clear Hc' Hout. destruct (sn_nodes _ _ _ _ _ Hs _ _ Hr) as (ra & Hra & Hle). pose proof (mv_term _ _ Hm) as Hle'.
  assert (i = actor a -> r_term r' = r_term r0 -> r_state r' <> Candidate /\
    (r_state r' = Leader -> (forall k, covered r0 k -> covered r' k) /\
      forall ctx' rs, pendingReadIndex (r_readOnly r') !! ctx' = Some rs -> read_since c0 r0 ctx ctx' rs)) as Hlead.
  { intros ->. by eapply (since_leader b C E D b' C' E' D'). }
  split.
  - intros j rj [[-> ->]|Hj]%Hnd; [exists ra; split; [done|lia]|by eapply sn_nodes].
  - intros m [Hin|[Hin _]]%Hfl Ht Hc; [by eapply sn_resp|]. destruct (Hin Ht) as [-> ?]. rewrite Hid. exists ra. split; [done|lia].
  - intros ri [[Hi ->]|Hi]%Hnd Et; [by apply Hlead|by eapply sn_state].
  - intros ri k [[Hi ->]|Hi]%Hnd Et Hl; [by apply Hlead|by eapply sn_covered].
  - intros ri ctx' rs [[Hi ->]|Hi]%Hnd Et Hl; [by apply Hlead|by eapply sn_reads].
Qed.

Lemma since_steps c0 i r0 ctx p p' :
  rtc commit_step p p' -> commit_run V p.1 p.2 -> nodes c0 !! i = Some r0 -> since c0 i r0 ctx p.2 ->
  commit_run V p'.1 p'.2 /\ since c0 i r0 ctx p'.2.
Proof.
  intros H Hrun H0. induction H as [p|p1 p2 p3 H1 _ IH] in Hrun |- *; [done|]. intros Hs. apply IH.
  - by eapply commit_run_one.
  - by eapply since_step.
Qed.

(** A quorum that confirms the leader for [ctx] shows that no majority was ahead of it. *)
Lemma confirmed b C E D past c c0 i r0 m r :
  commit_sound V b C E D past c -> since c0 i r0 (m_Context m) c -> nodes c !! i = Some r ->
  r_state r = Leader -> r_term r = r_term r0 -> m ∈ net c -> m_Type m = MsgHeartbeatResp -> m_Term m <= r_term r ->
  MajorityConfig_VoteResult V (acks_with (m_From m) (m_Context m) (r_readOnly r)) = VoteWon ->
  ~ superseded (r_term r0) c0.
Proof.
  intros Hk Hs Hr Hl Et Hm Hty Htm Hw (Q & HQ & Hahead).
  destruct (ks_nodes _ _ _ _ _ _ _ Hk i r Hr) as [Hsd _]. pose proof (ni_member _ _ _ _ (sd_node _ _ _ _ _ Hsd)) as Hi.
  apply VoteResult_won_iff in Hw; [|set_solver].
  destruct (majority_meet V Q (granted_by V (acks_with (m_From m) (m_Context m) (r_readOnly r))) HQ) as (n & HnQ & Hn).
  { split; [|done]. intros x Hx. unfold granted_by in Hx. by apply elem_of_filter in Hx as [_ ?]. }
  unfold granted_by in Hn. apply elem_of_filter in Hn as [Hn _].
  assert (early c0 n (r_term r0)) as (rn & Hrn & Hle); [|specialize (Hahead n rn HnQ Hrn); lia].
  unfold acks_with, readOnly_recvAck in Hn. destruct (pendingReadIndex _ !! _) as [rs|] eqn:E0; [|simpl in Hn; by rewrite lookup_empty in Hn].
  simpl in Hn. apply lookup_insert_Some in Hn as [[<- _]|[_ Hn]].
  - destruct (sn_resp _ _ _ _ _ Hs m (or_introl Hm) Hty eq_refl) as (rn & Hrn & Hle). exists rn. split; [done|lia].
  - by apply (sn_reads _ _ _ _ _ Hs r _ rs Hr Et Hl E0).
Qed.

Lemma Step_later_HeartbeatResp m r r' e :
  m_Type m = MsgHeartbeatResp -> 0 <= r_term r < m_Term m -> Raft_Step m r = Ok (r', e) -> r_readStates r' = r_readStates r.
Proof.
  intros Ht Hlt H. unfold Raft_Step, Raft_checkTerm in H. rewrite Ht in H.
  rewrite (proj2 (Z.eqb_neq _ _)), (proj2 (Z.ltb_lt _ _)) in H by lia. simpl in H. unfold Raft_step in H.
  rewrite becomeFollower_step in H. unfold stepFollower in H. rewrite Ht in H. injection H as <- _.
  by rewrite Raft_becomeFollower_eq.
Qed.

(** A read that is asked in [c0] or later, and released on a heartbeat response in the
    same term, has an index no smaller than what any node had committed up to [c0]. *)
Lemma read_current past0 c0 past c i r0 m r r' e rst x :
  commit_run V past0 c0 -> nodes c0 !! i = Some r0 -> r_state r0 = Leader -> unused (m_Context m) c0 r0 ->
  rtc commit_step (past0, c0) (past, c) -> nodes c !! i = Some r -> r_state r = Leader -> r_term r = r_term r0 ->
  m ∈ net c -> m_Type m = MsgHeartbeatResp -> Raft_Step m r = Ok (r', e) ->
  rst ∈ r_readStates r' -> rst ∉ r_readStates r ->
  pendingReadIndex (r_readOnly r0) !! rst_RequestCtx rst = None ->
  x ∈ past0 -> mo_commit x <= rst_Index rst.
Proof.
  intros Hrun0 H0 Hl0 Hu Hsteps Hr Hl Et Hm Hty HS Hin Hnot Hnew Hx.
  destruct (since_steps c0 i r0 (m_Context m) (past0, c0) (past, c) Hsteps Hrun0 H0) as [Hrun Hs];
    [by apply since_start|]. simpl in Hrun, Hs.
  destruct (commit_run_sound V past c Hrun) as (b & C & E & D & Hk).
  destruct (ks_nodes _ _ _ _ _ _ _ Hk i r Hr) as [Hsd _]. pose proof (sd_node _ _ _ _ _ Hsd) as Hn.
  destruct (Z_lt_le_dec (r_term r) (m_Term m)) as [Hlt|Hle].
  { rewrite (Step_later_HeartbeatResp m r r' e) in Hin; try done. split; [apply Hn|done]. }
  rewrite Step_HeartbeatResp in HS; [|done..|destruct (ni_coherent _ _ _ _ Hn) as [-> _]; by rewrite Hl].
  apply (HeartbeatResp_released m r r' e rst) in HS as (Hw & ctx & rs & Hp & ->); try done;
    [|by apply (kn_reads _ _ (commit_run_known _ _ Hrun) i)|rewrite (ni_voters _ _ _ _ Hn); pose proof (ni_member _ _ _ _ Hn); set_solver].
  rewrite (ni_voters _ _ _ _ Hn) in Hw. simpl in *.
  destruct (kn_lead _ _ (commit_run_known _ _ Hrun0) i r0 (mo_commit x) H0 Hl0) as [Hsup|Hcov]; [left; by exists x| |].
  - by destruct (confirmed _ _ _ _ _ _ _ _ _ _ _ Hk Hs Hr Hl Et Hm Hty Hle Hw).
  - by apply (sn_reads _ _ _ _ _ Hs r ctx rs Hr Et Hl Hp).
Qed.

(** *** What the server answers *)

Lemma steps_past past c past' c' x : rtc commit_step (past, c) (past', c') -> x ∈ past -> x ∈ past'.
Proof.
  assert (forall p p', rtc commit_step p p' -> x ∈ p.1 -> x ∈ p'.1) as H; [|intros Hs; exact (H _ _ Hs)].
  induction 1 as [p|p1 p2 p3 (a & r & r' & _ & _ & _ & _ & E) _ IH]; [done|]. intros Hx. apply IH.
  rewrite E. apply elem_of_cons. by right.
Qed.

Lemma commit_run_steps p p' : rtc commit_step p p' -> commit_run V p.1 p.2 -> commit_run V p'.1 p'.2.
Proof. induction 1; [done|]. intros. by eauto using commit_run_one. Qed.

(** What one node has committed is the start of what another has. *)
Lemma past_agree past c x y (n : nat) :
  commit_run V past c -> x ∈ past -> y ∈ past -> mo_commit x <= Z.of_nat n <= mo_commit y ->
  exists later, take n (mo_log y) = take (Z.to_nat (mo_commit x)) (mo_log x) ++ later.
Proof.
  intros Hrun Hx Hy Hn. destruct (commit_run_sound V past c Hrun) as (b & C & E & D & Hk).
  destruct (ks_past _ _ _ _ _ _ _ Hk x Hx) as [Cx Bx]. destruct (ks_past _ _ _ _ _ _ _ Hk y Hy) as [Cy _].
  pose proof (committed_agree V _ _ _ _ _ _ _ _ _ _ _ (ks_history _ _ _ _ _ _ _ Hk) Cx Cy) as Ht.
  rewrite Nat.min_l in Ht by lia. rewrite Ht.
  exists (drop (Z.to_nat (mo_commit x)) (take n (mo_log y))).
  rewrite <- (take_drop (Z.to_nat (mo_commit x)) (take n (mo_log y))) at 1. f_equal. rewrite take_take. f_equal. lia.
Qed.

(** What has been applied of the entries that were fed in. *)
Lemma fed_prefix (log : list Entry) (n : nat) done rest :
  e_Data <$> take n log = done ++ rest -> done = e_Data <$> take (length done) log /\ (length done <= n)%nat.
Proof.
  intros H. assert (length done <= n)%nat as Hn.
  { apply (f_equal length) in H. rewrite length_fmap, length_app, length_take in H. lia. }
  split; [|done]. apply (f_equal (take (length done))) in H. rewrite take_app_length in H.
  etrans; [symmetry; exact H|]. rewrite <- fmap_take, take_take, Nat.min_l by done. done.
Qed.

(** C5 (linearizable reads): in a run from new nodes with empty logs in which each message
    that is delivered was sent, appends fit ([disciplined]), and no snapshot is taken or
    delivered, the leader of [c0] is asked to read, then or later, with a context that was
    not in use, and releases the read in the same term when a heartbeat response has
    confirmed it.  A server, of this node or another, that has reported nothing
    as applied yet is fed the entries some node has
    committed, in order, in batches each of which names the index it ends at; its handlers
    of gets and puts run in between, and a batch may wait inside a put.  When the
    [proposeRead] of a get returns without error and the read state of its context was the
    one released, the server has applied at least all that any node had committed up to
    [c0], in the same order, before anything later; and so the get answers. *)
Theorem linearizable_get {SM : Type} `{!StateMachine SM} `{!StateMachineSpec SM}
  past0 c0 past c past' c' i r0 m r r' e rst x y (n : nat) (s0 : Server SM) evs g k req rctx ri :
  commit_run V past0 c0 -> nodes c0 !! i = Some r0 -> r_state r0 = Leader -> unused (m_Context m) c0 r0 ->
  rtc commit_step (past0, c0) (past, c) -> nodes c !! i = Some r -> r_state r = Leader -> r_term r = r_term r0 ->
  m ∈ net c -> m_Type m = MsgHeartbeatResp -> Raft_Step m r = Ok (r', e) ->
  rst ∈ r_readStates r' -> rst ∉ r_readStates r ->
  pendingReadIndex (r_readOnly r0) !! rst_RequestCtx rst = None ->
  rtc commit_step (past, c) (past', c') -> x ∈ past0 -> y ∈ past' ->
  server_ok s0 -> lastTriggerDeadline (sv_applyWait s0) <= 0 -> serve_run (serving0 s0) evs g -> in_order evs ->
  fed evs = e_Data <$> take n (mo_log y) -> Z.of_nat n <= mo_commit y ->
  g_reads g !! k = Some (mkReading req rctx (ReadReturned ri None)) ->
  (forall rs, EvReadState rs ∈ evs -> BE_Uint64 (rst_RequestCtx rs) = rctx -> rs = rst) ->
  exists n' later t, (n' <= n)%nat /\ take n' (mo_log y) = take (Z.to_nat (mo_commit x)) (mo_log x) ++ later /\
    Server_handleGet None req (g_s g) =
      Ok (match batch_effect (e_Data <$> later)
                  (batch_effect (e_Data <$> take (Z.to_nat (mo_commit x)) (mo_log x)) (sm_view (sv_sm s0)))
                  (q_Key req) with
          | Some v => mkResponse StatusOK v 0
          | None => mkResponse StatusNotFound [] 0
          end, t).
Proof.
  intros Hrun0 H0 Hl0 Hu Hsteps Hr Hl Et Hm Hty HS Hin Hnot Hnew Hsteps' Hx Hy Hok Ht0 Hserve Ho Hfed Hn Hk Hone.
  assert (mo_commit x <= rst_Index rst) as Hle by by eapply read_current.
  pose proof (commit_run_steps _ _ Hsteps Hrun0) as Hrun. pose proof (commit_run_steps _ _ Hsteps' Hrun) as Hrun'.
  assert (x ∈ past') as Hx' by (by do 2 (eapply steps_past; [eassumption|])).
  destruct (get_reads_applied s0 evs g k req rctx ri Hok Ht0 Hserve Ho Hk) as [(rs & Hrs & Hctx & <-) (done & t & Hf & Hi & Hg)].
  rewrite (Hone rs Hrs Hctx) in Hi. rewrite Hfed in Hf. apply fed_prefix in Hf as [Hd Hlen].
  destruct (past_agree past' c' x y (length done) Hrun' Hx' Hy) as [later Hlater]; [unfold len in Hi; lia|].
  exists (length done), later, t. split; [done|]. split; [done|].
  rewrite Hlater, fmap_app in Hd. by rewrite Hg, Hd, batch_effect_app.
Qed.

End run.

(** ** A run *)

Definition read_ctx : bytes := BE_PutUint64 9.

Definition heartbeat_msg (from to_ term commit : Z) (ctx : bytes) : Message :=
  (mkmsg MsgHeartbeat) <| m_From := from |> <| m_To := to_ |> <| m_Term := term |>
    <| m_Commit := commit |> <| m_Context := ctx |>.

(** Node 2 leads term 2 and has committed three entries. *)
Definition led : list moment * Cluster DurableStorage :=
  default ([], cluster3) (script_run overtake_script (moments cluster3) cluster3).

(** It is asked to read, and node 3 answers its heartbeat. *)
Definition read_script : list (action (St:=DurableStorage)) :=
  [ Local 2 (read_request read_ctx); Emit 2; Deliver 3 (heartbeat_msg 2 3 2 3 read_ctx); Emit 3 ].

Definition asked : list moment * Cluster DurableStorage := default led (script_run read_script led.1 led.2).

Definition led2 : DRaft := default node2 (nodes led.2 !! 2).
Definition asked2 : DRaft := default node2 (nodes asked.2 !! 2).
Definition answered2 : DRaft := after_step (heartbeat_ack 3 2 2 read_ctx) asked2.

Lemma led_eq : script_run overtake_script (moments cluster3) cluster3 = Some led.
Proof. vm_compute. reflexivity. Qed.

Lemma asked_eq : script_run read_script led.1 led.2 = Some asked.
Proof. vm_compute. reflexivity. Qed.

Lemma answered2_eq : r_readStates answered2 = [mkReadState 3 read_ctx].
Proof. vm_compute. reflexivity. Qed.

Lemma script_run_steps acts past c p :
  script_run acts past c = Some p -> rtc (commit_step (RT:=rt0)) (past, c) (p.1, p.2).
Proof.
  revert past c. induction acts as [|a acts IH]; intros past c H; simpl in H; [by injection H as <-|].
  destruct (nodes c !! actor a) as [r|] eqn:E1; [|done]. destruct (exec true a c) as [c1|] eqn:E2; [|done].
  destruct (nodes c1 !! actor a) as [r'|] eqn:E3; [|done]. destruct (disciplinedb past a r r') eqn:E4; [|done].
  eapply rtc_l; [|by apply IH]. exists a, r, r'. split_and!; try done. by apply disciplinedb_spec.
Qed.

Definition no_answerb (ctx : bytes) (m : Message) : bool :=
  negb (bool_decide (m_Type m = MsgHeartbeatResp) && bool_decide (m_Context m = ctx)).

Definition messages_of (c : Cluster DurableStorage) : list Message :=
  net c ++ concat ((fun p => outbox p.2) <$> map_to_list (nodes c)).

Lemma unused_spec ctx c (r : DRaft) :
  forallb (no_answerb ctx) (messages_of c) = true -> pendingReadIndex (r_readOnly r) !! ctx = None -> unused ctx c r.
Proof.
  intros H Hp. split; [|done]. intros m Hm Ht Hc. rewrite forallb_forall in H.
  assert (no_answerb ctx m = true) as Hn.
  { apply H, list_elem_of_In. unfold messages_of. apply elem_of_app. destruct Hm as [?|(j & rj & Hj & Hin)]; [by left|right].
    apply list_elem_of_In, in_concat. exists (outbox rj). split; [|by apply list_elem_of_In].
    apply list_elem_of_In, list_elem_of_fmap. exists (j, rj). split; [done|]. by apply elem_of_map_to_list. }
  unfold no_answerb in Hn. by rewrite !bool_decide_true in Hn.
Qed.

Lemma led_run : commit_run (RT:=rt0) V3 led.1 led.2.
Proof. exact (script_run_sound V3 _ _ _ _ cluster3_commit_run led_eq). Qed.

Lemma led_unused : unused (m_Context (heartbeat_ack 3 2 2 read_ctx)) led.2 led2.
Proof. apply unused_spec; vm_compute; reflexivity. Qed.

Lemma led2_lookup : nodes led.2 !! 2 = Some led2.
Proof. vm_compute. reflexivity. Qed.

Lemma asked2_lookup : nodes asked.2 !! 2 = Some asked2.
Proof. vm_compute. reflexivity. Qed.

Lemma asked_answer : heartbeat_ack 3 2 2 read_ctx ∈ net asked.2.
Proof. apply (bool_decide_eq_true_1 (heartbeat_ack 3 2 2 read_ctx ∈ net asked.2)). vm_compute. reflexivity. Qed.

Lemma answered2_step : Raft_Step (RT:=rt0) (heartbeat_ack 3 2 2 read_ctx) asked2 = Ok (answered2, None).
Proof. vm_compute. reflexivity. Qed.

Lemma asked2_reads : r_readStates asked2 = [].
Proof. vm_compute. reflexivity. Qed.

Definition server_start : Server (gmap bytes bytes) := mkServer ∅ newWait NewTimeList 0 empty_durable.

Lemma server_start_ok : server_ok server_start.
Proof. split_and!; [apply wait_ok_new|apply time_ok_new|done]. Qed.

(** What node 2 had committed when the read was asked. *)
Definition led_moment : moment := default (mkMoment 0 false 0 0 []) (List.find (is_moment 2 2 3) led.1).

Lemma led_moment_past : led_moment ∈ led.1.
Proof. apply find_in. vm_compute. discriminate. Qed.

Definition get_request : Request := mkRequest CmdGet read_ctx [] 0.

Lemma asked_steps : rtc (commit_step (RT:=rt0)) (led.1, led.2) (asked.1, asked.2).
Proof. exact (script_run_steps read_script led.1 led.2 asked asked_eq). Qed.

Lemma led_moment_asked : led_moment ∈ asked.1.
Proof. exact (steps_past (RT:=rt0) led.1 led.2 asked.1 asked.2 led_moment asked_steps led_moment_past). Qed.

Lemma led_moment_commit : mo_commit led_moment = 3.
Proof. vm_compute. reflexivity. Qed.

Lemma answered2_reads : mkReadState 3 read_ctx ∈ r_readStates answered2 /\ mkReadState 3 read_ctx ∉ r_readStates asked2.
Proof. rewrite answered2_eq, asked2_reads. split; [by apply list_elem_of_singleton|apply not_elem_of_nil]. Qed.

Lemma led_facts :
  r_state led2 = Leader /\ r_state asked2 = Leader /\ r_term asked2 = r_term led2 /\
  pendingReadIndex (r_readOnly led2) !! rst_RequestCtx (mkReadState 3 read_ctx) = None.
Proof. vm_compute. repeat split. Qed.

(** A server that is fed the three entries, the last two in a batch of their own, and
    handles a get meanwhile: the read state arrives between the batches. *)
Definition led_data : list bytes := Eval vm_compute in e_Data <$> take 3 (mo_log led_moment).
Definition batch_1 : toApply := mkToApply (take 1 led_data) 1.
Definition batch_2 : toApply := mkToApply (drop 1 led_data) 3.
Definition get_events : list serve_event :=
  [ EvApply batch_1; EvGet 0 get_request; EvReadState (mkReadState 3 read_ctx); EvRead 0 ReadIndexed;
    EvApply batch_2; EvRead 0 ReadApplied ].

Definition serve1 {SM : Type} `{!StateMachine SM} (g : serving SM) (ev : serve_event) : serving SM :=
  match ev with
  | EvApply ap =>
      match Server_onApply ap (g_s g) with Ok (run, s) => mkServing s run (g_reads g) | Panic _ => g end
  | EvGet k req =>
      let '(ch, rctx, _, s) := Server_proposeRead (g_s g) in
      mkServing s (g_run g) (<[ k := mkReading req rctx (ReadAsked ch rctx) ]> (g_reads g))
  | EvReadState rs =>
      match Server_onReadState rs (g_s g) with Ok s => mkServing s (g_run g) (g_reads g) | Panic _ => g end
  | EvRead k x =>
      match g_reads g !! k with
      | Some (mkReading req rctx pc) =>
          match Server_readStep x pc (g_s g) with
          | Ok (Some (pc', s)) => mkServing s (g_run g) (<[ k := mkReading req rctx pc' ]> (g_reads g))
          | _ => g
          end
      | None => g
      end
  | _ => g
  end.

Definition server_waiting : Server (gmap bytes bytes) := server_start <| sv_reqIDGen := 8 |>.

Definition get_server (j : nat) : serving (gmap bytes bytes) := foldl serve1 (serving0 server_waiting) (take j get_events).

Lemma get_server_run : serve_run (serving0 server_waiting) get_events (get_server 6).
Proof.
  change get_events with ((((([] ++ [EvApply batch_1]) ++ [EvGet 0 get_request]) ++ [EvReadState (mkReadState 3 read_ctx)]) ++
    [EvRead 0 ReadIndexed]) ++ [EvApply batch_2] ++ [EvRead 0 ReadApplied]).
  rewrite app_assoc.
  apply (serve_more _ _ (get_server 5)). 1: apply (serve_more _ _ (get_server 4)).
  1: apply (serve_more _ _ (get_server 3)). 1: apply (serve_more _ _ (get_server 2)).
  1: apply (serve_more _ _ (get_server 1)). 1: apply (serve_more _ _ (get_server 0)).
  - apply serve_start.
  - apply (serve_apply batch_1 (g_s (get_server 0)) RunIdle (g_s (get_server 1)) ∅). vm_compute. reflexivity.
  - apply (serve_get 0 get_request (g_s (get_server 1)) RunIdle ∅ 0 9 read_ctx (g_s (get_server 2))); vm_compute; reflexivity.
  - apply (serve_readState (mkReadState 3 read_ctx) (g_s (get_server 2)) (g_s (get_server 3)) (g_reads (get_server 2))). vm_compute. reflexivity.
  - apply (serve_read 0 ReadIndexed (g_s (get_server 3)) RunIdle (g_reads (get_server 3)) get_request 9
      (ReadAsked 0 9) (ReadWaits 3 (TimeChan 0)) (g_s (get_server 4))); vm_compute; reflexivity.
  - apply (serve_apply batch_2 (g_s (get_server 4)) RunIdle (g_s (get_server 5)) (g_reads (get_server 4))). vm_compute. reflexivity.
  - apply (serve_read 0 ReadApplied (g_s (get_server 5)) RunIdle (g_reads (get_server 5)) get_request 9
      (ReadWaits 3 (TimeChan 0)) (ReadReturned 3 None) (g_s (get_server 6))); vm_compute; reflexivity.
Qed.

Lemma get_events_order : in_order get_events.
Proof.
  intros pre ap post. unfold get_events. intros H.
  repeat (destruct pre as [|ev pre]; [injection H as E; try discriminate E; subst; vm_compute; reflexivity|injection H as <- H]).
  by destruct pre.
Qed.

Lemma get_events_fed : fed get_events = e_Data <$> take 3 (mo_log led_moment).
Proof. vm_compute. reflexivity. Qed.

Lemma get_server_returned : g_reads (get_server 6) !! 0%nat = Some (mkReading get_request 9 (ReadReturned 3 None)).
Proof. vm_compute. reflexivity. Qed.

Lemma get_events_reads rs : EvReadState rs ∈ get_events -> BE_Uint64 (rst_RequestCtx rs) = 9 -> rs = mkReadState 3 read_ctx.
Proof.
  unfold get_events. rewrite !elem_of_cons, elem_of_nil. intros H _. by destruct_or! H; simplify_eq.
Qed.

Lemma led_bounds : Z.of_nat 3 <= mo_commit led_moment.
Proof. rewrite led_moment_commit. lia. Qed.

(** Node 2 is asked to read after it had committed a write, and answers at its index; a
    server that was fed the three entries has returned from [proposeRead] and answers the
    get, with all of them. *)
Lemma linearizable_get_witness :
  r_readStates answered2 = [mkReadState 3 read_ctx] /\ mo_commit led_moment = 3 /\
  exists n' later t, (n' <= 3)%nat /\
    take n' (mo_log led_moment) = take (Z.to_nat (mo_commit led_moment)) (mo_log led_moment) ++ later /\
    Server_handleGet None get_request (g_s (get_server 6)) =
      Ok (match batch_effect (e_Data <$> later)
                  (batch_effect (e_Data <$> take (Z.to_nat (mo_commit led_moment)) (mo_log led_moment))
                     (sm_view (sv_sm server_waiting))) (q_Key get_request) with
          | Some v => mkResponse StatusOK v 0
          | None => mkResponse StatusNotFound [] 0
          end, t).
Proof.
  split; [exact answered2_eq|]. split; [exact led_moment_commit|].
  destruct led_facts as (F1 & F2 & F3 & F4). destruct answered2_reads as [A1 A2].
  exact (linearizable_get (RT:=rt0) V3 led.1 led.2 asked.1 asked.2 asked.1 asked.2 2 led2 (heartbeat_ack 3 2 2 read_ctx)
    asked2 answered2 None (mkReadState 3 read_ctx) led_moment led_moment 3%nat server_waiting get_events (get_server 6)
    0%nat get_request 9 3 led_run led2_lookup F1 led_unused asked_steps asked2_lookup F2 F3
    asked_answer eq_refl answered2_step A1 A2 F4 (rtc_refl _ _) led_moment_past led_moment_asked
    server_start_ok ltac:(discriminate) get_server_run get_events_order get_events_fed led_bounds
    get_server_returned get_events_reads).
Defined.
