(* ===== verification/Crash.v ===== *)
(** * Crash: nodes that stop at any time

    A node that stops loses what it did since it last handed out a [Ready]: its term,
    its vote, its log and its commit index go back to what the host had stored.
    [host_run] are the runs in which nodes stop like that at any time.  What was lost
    had reached nobody, so such a run is one in which it did not happen. *)

From S2P Require Export Safety Recovery HostSpec.

Section crash.
Context {RT : Runtime} {St : Type} {SS : Storage St} {SP : StorageSpec St}.
Variable V : MajorityConfig.
Implicit Types r : Raft St.
Implicit Types c : Cluster St.
Implicit Types S : gset Z.

Definition restarts (a : action (St:=St)) : bool := match a with Restart _ _ => true | _ => false end.

(** A node that had [k] stored comes back as [r']: the term, the vote and the log are
    those of [k], and the commit index is at most that of [k]. *)
Definition reloads c (i : Z) (cfg : Config St) (k r' : Raft St) : Prop :=
  exec_node true c (Restart i cfg) k = Some (r', []) /\ from_one (r_raftLog r') /\
  log_view (r_raftLog r') = log_view (r_raftLog k) /\
  l_committed (r_raftLog r') <= l_committed (r_raftLog k).

(** Runs in which a node may stop at any time.  [given] are the moments at which nodes
    handed out a [Ready]; [saved] is each node as it was when it last did, or when it
    last came back.  [Emit] stands for the host handling the [Ready], which stores it
    before anything is sent; a node that stops before that has not emitted. *)
Inductive host_run : list moment -> gmap Z (Raft St) -> Cluster St -> Prop :=
| host_run_init c :
    cluster_init V c ->
    (forall i r, nodes c !! i = Some r ->
      from_one (r_raftLog r) /\ log_view (r_raftLog r) = [] /\ r_votedFor r = 0) ->
    host_run [] (nodes c) c
| host_run_step given saved c a c' r r' :
    host_run given saved c -> exec true a c = Some c' ->
    nodes c !! actor a = Some r -> nodes c' !! actor a = Some r' ->
    restarts a = false -> disciplined [] a r r' ->
    host_run (if emits a then now (actor a) true r' :: given else given)
             (if emits a then <[actor a := r']> saved else saved) c'
| host_run_crash given saved c i cfg k r' :
    host_run given saved c -> saved !! i = Some k -> is_Some (nodes c !! i) -> reloads c i cfg k r' ->
    host_run given (<[i := r']> saved) (c <| nodes ::= <[i := r']> |>).

(** The cluster in which the nodes of [S] have not done what they would lose. *)
Definition rollback S (saved : gmap Z (Raft St)) c : Cluster St :=
  mkCluster (map_imap (fun i r => Some (if decide (i ∈ S) then default r (saved !! i) else r)) (nodes c)) (net c).

(** The node [i] of that cluster. *)
Definition rolled S (saved : gmap Z (Raft St)) (i : Z) r : Raft St :=
  if decide (i ∈ S) then default r (saved !! i) else r.

Lemma rollback_lookup S saved c i : nodes (rollback S saved c) !! i = rolled S saved i <$> nodes c !! i.
Proof. unfold rollback, rolled. simpl. rewrite map_lookup_imap. by destruct (nodes c !! i). Qed.

Lemma cluster_eq c c' : (forall i, nodes c !! i = nodes c' !! i) -> net c = net c' -> c = c'.
Proof. destruct c, c'. simpl. intros H ->. f_equal. by apply map_eq. Qed.

(** An action of a node and what it says, wherever the other nodes are. *)
Lemma exec_inv a c c' r :
  exec true a c = Some c' -> nodes c !! actor a = Some r ->
  exists r' out, exec_node true c a r = Some (r', out) /\
    c' = mkCluster (<[actor a := r']> (nodes c)) (net c ++ out).
Proof.
  unfold exec. intros H Hr. rewrite Hr in H. simpl in H. apply bind_Some in H as ([r' out] & H1 & H).
  exists r', out. by injection H as <-.
Qed.

Lemma exec_elsewhere a c d r r' out :
  exec_node true c a r = Some (r', out) -> net d = net c -> nodes d !! actor a = Some r ->
  exec true a d = Some (mkCluster (<[actor a := r']> (nodes d)) (net d ++ out)).
Proof.
  intros H Hn Hr. unfold exec. rewrite Hr. simpl.
  assert (exec_node true d a r = Some (r', out)) as ->; [|done].
  rewrite <- H. destruct a; simpl; by rewrite ?Hn.
Qed.

(** Only [Emit] says anything. *)
Lemma exec_silent a c r r' out : exec_node true c a r = Some (r', out) -> emits a = false -> out = [].
Proof.
  destruct a; simpl; intros H He; try done; repeat case_match; try done;
    try (apply bind_Some in H as (x & _ & H); repeat case_match); by simplify_eq.
Qed.

Lemma disciplined_past past past' a r r' :
  restarts a = false -> disciplined past a r r' -> disciplined past' a r r'.
Proof. by destruct a. Qed.

Lemma since_ready_other i x past : mo_node x <> i -> since_ready i (x :: past) = since_ready i past.
Proof. intros H. simpl. by rewrite (proj2 (Z.eqb_neq _ _) H). Qed.

Lemma since_ready_head x past : x ∈ since_ready (mo_node x) (x :: past).
Proof. simpl. rewrite Z.eqb_refl. left. Qed.

Lemma since_ready_only i x past :
  x ∈ past -> mo_node x = i -> (forall y, y ∈ past -> mo_node y = i -> y = x) -> x ∈ since_ready i past.
Proof.
  induction past as [|y past IH]; intros Hx Hi Ho; [by inversion Hx|]. simpl.
  destruct (Z.eqb_spec (mo_node y) i) as [E|E]; [rewrite (Ho y); [left|left|done]|].
  apply IH; [|done|intros z Hz; apply Ho; by right]. by apply elem_of_cons in Hx as [->|].
Qed.

(** ** A run without what was lost *)

(** The run [past] ends in the cluster where the nodes of [S] have lost what they can. *)
Record without S (given : list moment) (saved : gmap Z (Raft St)) c (past : list moment) : Prop := {
  wo_run : commit_run V past (rollback S saved c);
  wo_given x : x ∈ given -> x ∈ past;
  wo_saved i k : i ∈ S -> saved !! i = Some k -> exists emit, now i emit k ∈ since_ready i past
}.

Lemma without_init S c :
  cluster_init V c ->
  (forall i r, nodes c !! i = Some r ->
    from_one (r_raftLog r) /\ log_view (r_raftLog r) = [] /\ r_votedFor r = 0) ->
  without S [] (nodes c) c (moments c).
Proof.
  intros Hi Hl. split.
  - assert (rollback S (nodes c) c = c) as ->; [|by apply commit_run_init].
    apply cluster_eq; [|done]. intros i. rewrite rollback_lookup. unfold rolled.
    destruct (nodes c !! i); [simpl; by destruct (decide _)|done].
  - intros x Hx. by inversion Hx.
  - intros i k _ Hk. exists true. apply since_ready_only; [|done|].
    { apply list_elem_of_fmap. exists (i, k). split; [done|]. by apply elem_of_map_to_list. }
    intros y (j & r & Hj & ->)%elem_of_moments Hji. simpl in Hji. subst j. by simplify_eq.
Qed.

(** A node outside [S] acts. *)
Lemma without_act S given saved c past a c' r r' :
  without S given saved c past -> actor a ∉ S -> exec true a c = Some c' ->
  nodes c !! actor a = Some r -> nodes c' !! actor a = Some r' -> restarts a = false -> disciplined [] a r r' ->
  without S (if emits a then now (actor a) true r' :: given else given) saved c' (now (actor a) (emits a) r' :: past).
Proof.
  intros [Hrun Hg Hs] Ha Hx Hr Hr' Hn Hd. destruct (exec_inv _ _ _ _ Hx Hr) as (r1 & out & Hx1 & ->).
  simpl in Hr'. rewrite lookup_insert_eq in Hr'. injection Hr' as ->.
  assert (nodes (rollback S saved c) !! actor a = Some r) as Hra.
  { rewrite rollback_lookup, Hr. simpl. unfold rolled. by rewrite decide_False. }
  pose proof (exec_elsewhere _ _ _ _ _ _ Hx1 (eq_refl : net (rollback S saved c) = net c) Hra) as Hex.
  split.
  - eapply commit_run_step; [exact Hrun| |exact Hra| |by eapply disciplined_past].
    + rewrite Hex. f_equal. apply cluster_eq; [|done]. intros i. rewrite rollback_lookup. simpl.
      destruct (decide (actor a = i)) as [<-|Hi].
      * rewrite !lookup_insert_eq. simpl. unfold rolled. by rewrite decide_False.
      * rewrite !lookup_insert_ne by done. by rewrite <- rollback_lookup.
    + rewrite rollback_lookup. simpl. rewrite lookup_insert_eq. simpl. unfold rolled. by rewrite decide_False.
  - intros x Hx'. destruct (emits a) eqn:Ee; [|right; by apply Hg].
    apply elem_of_cons in Hx' as [->|Hx']; [left|right; by apply Hg].
  - intros i k Hi Hk. destruct (Hs i k Hi Hk) as [e He]. exists e.
    rewrite since_ready_other; [done|]. simpl. by intros <-.
Qed.

(** A node of [S] does something it can still lose. *)
Lemma without_lost S given saved c past a c' r :
  without S given saved c past -> actor a ∈ S -> is_Some (saved !! actor a) -> exec true a c = Some c' ->
  nodes c !! actor a = Some r -> emits a = false -> without S given saved c' past.
Proof.
  intros [Hrun Hg Hs] Ha [k Hk] Hx Hr He. destruct (exec_inv _ _ _ _ Hx Hr) as (r1 & out & Hx1 & ->).
  rewrite (exec_silent _ _ _ _ _ Hx1 He), app_nil_r. split; [|done..].
  assert (rollback S saved (mkCluster (<[actor a := r1]> (nodes c)) (net c)) = rollback S saved c) as ->; [|done].
  apply cluster_eq; [|done]. intros i. rewrite !rollback_lookup. simpl.
  destruct (decide (actor a = i)) as [<-|Hi]; [|by rewrite lookup_insert_ne by done].
  rewrite lookup_insert_eq, Hr. simpl. unfold rolled. rewrite !decide_True by done. by rewrite Hk.
Qed.

(** A node that has everything stored has nothing to lose. *)
Lemma without_stored S given saved c past i emit r :
  without (S ∖ {[i]}) given saved c past -> nodes c !! i = Some r -> now i emit r ∈ since_ready i past ->
  without S given (<[i := r]> saved) c past.
Proof.
  intros [Hrun Hg Hs] Hr Hin. split; [|done|].
  - assert (rollback S (<[i := r]> saved) c = rollback (S ∖ {[i]}) saved c) as ->; [|done].
    apply cluster_eq; [|done]. intros j. rewrite !rollback_lookup. unfold rolled.
    destruct (decide (i = j)) as [<-|Hj].
    + rewrite Hr, lookup_insert_eq. simpl. rewrite (decide_False (P := i ∈ S ∖ {[i]})) by set_solver. by destruct (decide _).
    + rewrite lookup_insert_ne by done. destruct (nodes c !! j); [simpl; f_equal|done].
      destruct (decide (j ∈ S)), (decide (j ∈ S ∖ {[i]})); set_solver.
  - intros j k Hj Hk. destruct (decide (i = j)) as [<-|Hne].
    + rewrite lookup_insert_eq in Hk. injection Hk as <-. by exists emit.
    + rewrite lookup_insert_ne in Hk by done. apply Hs; [set_solver|done].
Qed.

(** A node stops and comes back. *)
Lemma without_crash S given saved c past i cfg k r' :
  without (S ∪ {[i]}) given saved c past -> saved !! i = Some k -> is_Some (nodes c !! i) -> reloads c i cfg k r' ->
  without S given (<[i := r']> saved) (c <| nodes ::= <[i := r']> |>) (now i false r' :: past).
Proof.
  intros [Hrun Hg Hs] Hk [r Hr] (Hx & Hf & Hv & Hc).
  assert (nodes (rollback (S ∪ {[i]}) saved c) !! i = Some k) as Hra.
  { rewrite rollback_lookup, Hr. simpl. unfold rolled. rewrite decide_True by set_solver. by rewrite Hk. }
  pose proof (exec_elsewhere (Restart i cfg) _ _ _ _ _ Hx (eq_refl : net (rollback _ saved c) = net c) Hra) as Hex.
  destruct (Hs i k ltac:(set_solver) Hk) as [e He].
  apply (without_stored _ _ _ _ _ _ false); [|by apply lookup_insert_eq|by apply (since_ready_head (now i false r'))].
  split.
  - eapply (commit_run_step V past _ (Restart i cfg)); [exact Hrun| |exact Hra| |].
    + rewrite Hex, app_nil_r. f_equal. apply cluster_eq; [|done]. intros j. rewrite rollback_lookup. simpl.
      destruct (decide (i = j)) as [<-|Hj].
      * rewrite !lookup_insert_eq. simpl. unfold rolled. by rewrite decide_False by set_solver.
      * rewrite !lookup_insert_ne by done. rewrite map_lookup_imap.
        destruct (nodes c !! j); [simpl; f_equal|done]. unfold rolled.
        destruct (decide (j ∈ S ∪ {[i]})), (decide (j ∈ S ∖ {[i]})); set_solver.
    + rewrite rollback_lookup. simpl. rewrite lookup_insert_eq. simpl. unfold rolled. by rewrite decide_False by set_solver.
    + split; [done|]. exists (now i e k). by split.
  - intros x Hin. right. by apply Hg.
  - intros j k' Hj Hk'. rewrite since_ready_other by (simpl; set_solver). apply Hs; [set_solver|done].
Qed.

Lemma host_run_saved given saved c i :
  host_run given saved c -> is_Some (nodes c !! i) -> is_Some (saved !! i).
Proof.
  induction 1 as [c|given saved c a c' r r' _ IH Hx Hr|given saved c j cfg k r' _ IH]; [done| |].
  - intros Hi. destruct (exec_inv _ _ _ _ Hx Hr) as (r1 & out & _ & ->). simpl in Hi.
    assert (is_Some (nodes c !! i)) as Hi'%IH.
    { destruct (decide (actor a = i)) as [<-|Hne]; [by rewrite Hr|by rewrite lookup_insert_ne in Hi]. }
    destruct (emits a); [|done]. apply lookup_insert_is_Some'. by right.
  - simpl. rewrite !lookup_insert_is_Some'. tauto.
Qed.

(** Whatever may be lost, there is a run in which it did not happen. *)
Lemma host_run_without given saved c S :
  host_run given saved c -> exists past, without S given saved c past.
Proof.
  intros H. revert S. induction H as [c Hi Hl|given saved c a c' r r' H IH Hx Hr Hr' Hn Hd|given saved c i cfg k r' _ IH Hk Hi Hc]; intros S.
  - eexists. by apply without_init.
  - destruct (emits a) eqn:He.
    + assert (actor a ∉ S ∖ {[actor a]}) as Ha by set_solver.
      destruct (IH (S ∖ {[actor a]})) as [past Hp]. exists (now (actor a) (emits a) r' :: past).
      apply (without_stored _ _ _ _ _ _ (emits a)); [|done|by apply (since_ready_head (now _ _ r'))].
      pose proof (without_act _ _ _ _ _ _ _ _ _ Hp Ha Hx Hr Hr' Hn Hd) as Hp'. by rewrite He in Hp' |- *.
    + destruct (IH S) as [past Hp]. destruct (decide (actor a ∈ S)) as [Ha|Ha].
      * exists past. eapply without_lost; try done. eapply host_run_saved; [exact H|]. by rewrite Hr.
      * exists (now (actor a) (emits a) r' :: past).
        pose proof (without_act _ _ _ _ _ _ _ _ _ Hp Ha Hx Hr Hr' Hn Hd) as Hp'. by rewrite He in Hp' |- *.
  - destruct (IH (S ∪ {[i]})) as [past Hp]. eexists. by eapply without_crash.
Qed.

(** A run with crashes ends where a run without them does, and what was handed out in
    it was handed out there. *)
Lemma host_run_commit given saved c :
  host_run given saved c -> exists past, commit_run V past c /\ forall x, x ∈ given -> x ∈ past.
Proof.
  intros (past & [Hrun Hg _])%(host_run_without _ _ _ ∅). exists past. split; [|done].
  assert (rollback ∅ saved c = c) as <-; [|done]. apply cluster_eq; [|done].
  intros i. rewrite rollback_lookup. destruct (nodes c !! i); [simpl; unfold rolled|done]. by rewrite decide_False by set_solver.
Qed.

(** C6 (crash safety): nodes may stop at any time, in the middle of anything, and lose
    the term, vote, entries and commit index they have had since they last handed out
    a [Ready].  Any two nodes that handed out a [Ready], at any two moments and
    however often they stopped since, agree on every entry both had committed by then;
    what a node hands out next is what was handed out before; and there is one leader
    of a term at most.  The network and the hosts are as in the theorems without
    crashes. *)
Theorem crash_safety given saved c :
  host_run given saved c ->
  (forall x y k, x ∈ given -> y ∈ given -> 0 <= k < mo_commit x -> k < mo_commit y ->
    is_Some (index (mo_log x) k) /\ index (mo_log x) k = index (mo_log y) k) /\
  (forall i r rd e x, nodes c !! i = Some r -> Raft_Ready r = Ok rd -> e ∈ rd_CommittedEntries rd ->
    x ∈ given -> e_Index e <= mo_commit x -> index (mo_log x) (e_Index e - 1) = Some e) /\
  (forall i j r1 r2, nodes c !! i = Some r1 -> nodes c !! j = Some r2 ->
    r_state r1 = Leader -> r_state r2 = Leader -> r_term r1 = r_term r2 -> i = j).
Proof.
  intros (past & Hrun & Hg)%host_run_commit. destruct (commit_run_sound V past c Hrun) as (b & C & E & D & Hs).
  split_and!.
  - intros x y k Hx%Hg Hy%Hg. by eapply moments_agree.
  - intros i r rd e x Hr HR He Hx%Hg. destruct (commit_run_now V past c i r Hrun Hr) as [emit Hnow].
    by eapply handed_out_agree.
  - intros i j r1 r2 H1 H2. eapply leaders_agree; [reflexivity| |].
    + apply (sd_node _ _ _ _ _ (proj1 (ks_nodes _ _ _ _ _ _ _ Hs i r1 H1))).
    + apply (sd_node _ _ _ _ _ (proj1 (ks_nodes _ _ _ _ _ _ _ Hs j r2 H2))).
Qed.

(** ** Coming back *)

(** The log of a node that has everything in its storage. *)
Lemma stored_log (st : St) commit applied (l := mkRaftLog st (mkUnstable [] (len (st_log st) + 1)) commit applied) :
  st_ok st -> LastIncludedIndex (st_snap st) = 0 -> 0 <= applied <= commit -> commit <= len (st_log st) ->
  from_one l /\ log_view l = st_log st.
Proof.
  intros Hok Hb Hap Hcm. pose proof (st_bounds _ Hok) as Hbd. rewrite Hb in Hbd.
  assert (log_view l = st_log st) as Hv.
  { unfold log_view, log_base, log_snap. simpl. rewrite Hb, app_nil_r. apply slice_to_all. lia. }
  split; [|done]. unfold from_one, raftLog_ok, raftLog_wf, log_last. rewrite Hv.
  unfold log_base, log_snap, st_last. simpl. rewrite Hb.
  change (len ([] : list Entry)) with 0. split_and!; (lia || done).
Qed.

(** A node that starts on a storage without a snapshot has what the storage has. *)
Lemma newRaft_reload (cfg : Config St) st hs :
  validate cfg = None -> c_Storage cfg = Some st -> InitialState st = inr hs ->
  st_ok st -> LastIncludedIndex (st_snap st) = 0 -> 0 <= h_CommittedIndex hs <= len (st_log st) ->
  0 <= c_Applied cfg <= h_CommittedIndex hs ->
  exists r', newRaft cfg = Ok r' /\ from_one (r_raftLog r') /\ log_view (r_raftLog r') = st_log st /\
    l_committed (r_raftLog r') = h_CommittedIndex hs.
Proof.
  intros Hval Hst Hhs Hok Hb Hcm Hap. pose proof (st_contig _ Hok) as Hct. pose proof (st_bounds _ Hok) as Hbd.
  pose proof (st_FirstIndex _ Hok) as Hfi. pose proof (st_LastIndex _ Hok) as Hla. rewrite Hb in *. simpl in Hfi.
  assert (len (st_log st) +u 1 = len (st_log st) + 1) as Hw by (apply wrap64_succ_id; unfold MaxUint64; lia).
  assert ((if 0 <? FirstIndex st then FirstIndex st -u 1 else 0) = 0) as Hs0 by (rewrite Hfi; by destruct (len _ =? 0)).
  unfold newRaft. rewrite Hval, Hst, Hhs. set (r0 := if negb _ then _ else _).
  assert (r_raftLog r0 = mkRaftLog st (mkUnstable [] (len (st_log st) + 1)) (h_CommittedIndex hs) 0) as Hl.
  { subst r0. unfold newRaftLog. rewrite Hs0, Hla, Z.add_0_l, Hw. destruct (IsEmptyHardState _) eqn:Ee; [|done].
    simpl in Ee. to_prop. simpl. by f_equal. }
  clearbody r0. rewrite Hl. simpl. rewrite (proj2 (Z.ltb_ge _ _)) by lia.
  assert ((0 <? c_Applied cfg) && (0 <? FirstIndex st) && (c_Applied cfg <? FirstIndex st -u 1) = false) as ->.
  { destruct (0 <? FirstIndex st); [rewrite Hs0|by rewrite andb_false_r].
    rewrite andb_true_r. apply andb_false_iff. right. lia. }
  set (applied := if 0 <? c_Applied cfg then _ else _).
  assert (applied = c_Applied cfg) as ->.
  { subst applied. rewrite Hs0. destruct (Z.ltb_spec 0 (c_Applied cfg)); lia. }
  eexists. split; [reflexivity|]. rewrite Raft_becomeFollower_eq. simpl. rewrite Hl.
  destruct (stored_log st _ _ Hok Hb Hap (proj2 Hcm)) as [Hf Hv]. exact (conj Hf (conj Hv eq_refl)).
Qed.

End crash.

(** ** The disk *)

Section disk.
Context {RT : Runtime}.

(** C14 (restart from disk): a host has handled a [Ready] of a node whose log starts at
    one, and the node stops.  If the storage on the disk is still in the state that
    handling the [Ready] left, after whatever saves, reopens and interrupted writes led
    to it, then opening the directory succeeds, and [newRaft] on it gives a node that
    comes back as [reloads] asks: with the term, the vote and the whole log of that
    [Ready], and no larger a commit index. *)
Theorem restart_from_disk stop (n : node DurableStorage) rd st' eff j s limit threshold c
  i peers applied election heartbeat :
  node_ready n = Ok rd -> hard_saved n -> from_one (r_raftLog (n_r n)) ->
  handleBatch stop rd (node_storage n) = Ok (st', eff, None) ->
  lifetime j s -> Z.of_nat j < 10 ^ 8 - 1 -> same_state st' s ->
  buildMajorityConfig i peers = Voters (r_trk (n_r n)) -> 0 < heartbeat < election ->
  0 <= applied <= l_committed (r_raftLog (n_r n)) ->
  exists s' r', NewDurableStorageWithOptions limit threshold (d_world s) = Ok (inr s', d_world s') /\
    reloads c i (mkConfig i peers (Some s') applied election heartbeat) ((n_r n) <| r_msgsAfterAppend := [] |>) r'.
Proof.
  intros Hrd Hh [Hok Hb] HB Hlife Hj (E1 & E2 & E3 & _) HV Ht Hap.
  destruct (lifetime_running j s Hlife Hj) as (sealed & bs & Hr & _).
  destruct (running_reopen _ _ _ limit threshold Hr) as (s' & Hopen & (F1 & F2 & F3 & _) & _).
  destruct (handleBatch_durable _ _ _ _ _ Hrd Hh Hok HB) as (Hd & He & Hsn).
  rewrite E1, F1 in Hd. rewrite E2, F2 in He. rewrite E3, F3 in Hsn.
  pose proof (proj1 Hok) as Hwf. pose proof (log_view_contig _ Hwf) as Hct. pose proof (log_last_bounds _ Hwf) as Hlb.
  pose proof Hok as (_ & Hc1 & Hc2 & _). unfold log_last in *. rewrite Hb in *.
  assert (d_boundary s' = 0) as Hb' by (unfold d_boundary; rewrite Hsn; exact Hb).
  assert (durable_ok s') as Hok' by (unfold durable_ok; rewrite Hb', He; split_and!; [done|lia..]).
  destruct (newRaft_reload (mkConfig i peers (Some s') applied election heartbeat) s' (d_hd s')) as (r' & HN & Hf & Hv & Hcm).
  - unfold validate. simpl. rewrite !(proj2 (Z.leb_gt _ _)) by lia. done.
  - done.
  - done.
  - exact Hok'.
  - exact Hb'.
  - rewrite Hd. simpl. rewrite He. lia.
  - rewrite Hd. simpl. lia.
  - exists s', r'. split; [done|]. unfold reloads. rewrite Hv, Hcm, Hd. simpl. split_and!; [|done|done|lia].
    rewrite HV, Hd. simpl. rewrite !Z.eqb_refl, bool_decide_true by done. simpl. by rewrite HN.
Qed.

End disk.

(** ** A run *)

(** An action, or node [i] stops and comes back with a configuration. *)
Inductive incident : Type :=
| Acts (a : action (St:=DurableStorage))
| Stops (i : Z) (cfg : Config DurableStorage).

Abbreviation host_state := (list moment * gmap Z DRaft * Cluster DurableStorage)%type.

Definition reloadsb (c : Cluster DurableStorage) (i : Z) (cfg : Config DurableStorage) (k : DRaft) : option DRaft :=
  '(r', _) ← exec_node (RT:=rt0) true c (Restart i cfg) k;
  if from_oneb r' && same_viewb k r' && (l_committed (r_raftLog r') <=? l_committed (r_raftLog k))
  then Some r' else None.

Definition host_incident (x : incident) (p : host_state) : option host_state :=
  let '(given, saved, c) := p in
  match x with
  | Acts a =>
      r ← nodes c !! actor a; c' ← exec (RT:=rt0) true a c; r' ← nodes c' !! actor a;
      if negb (restarts a) && disciplinedb [] a r r'
      then Some (if emits a then now (actor a) true r' :: given else given,
                 if emits a then <[actor a := r']> saved else saved, c')
      else None
  | Stops i cfg =>
      k ← saved !! i; _ ← nodes c !! i; r' ← reloadsb c i cfg k;
      Some (given, <[i := r']> saved, c <| nodes ::= <[i := r']> |>)
  end.

Fixpoint host_script (xs : list incident) (p : host_state) : option host_state :=
  match xs with
  | [] => Some p
  | x :: xs => p ← host_incident x p; host_script xs p
  end.

Lemma reloadsb_spec c i cfg k r' : reloadsb c i cfg k = Some r' -> reloads (RT:=rt0) c i cfg k r'.
Proof.
  unfold reloadsb, reloads. intros ([r1 out] & Hx & H)%bind_Some.
  destruct (_ && _) eqn:E; [|done]. injection H as ->. rewrite (exec_silent _ _ _ _ _ Hx eq_refl) in Hx.
  apply andb_true_iff in E as [[E1 E2]%andb_true_iff E3%Z.leb_le].
  split_and!; [done|by apply from_oneb_spec|by apply bool_decide_eq_true in E2|done].
Qed.

Lemma host_incident_sound V x p p' :
  host_incident x p = Some p' -> host_run (RT:=rt0) V p.1.1 p.1.2 p.2 -> host_run (RT:=rt0) V p'.1.1 p'.1.2 p'.2.
Proof.
  destruct p as [[given saved] c]. destruct x as [a|i cfg]; simpl; intros H Hr.
  - apply bind_Some in H as (r & H1 & H). apply bind_Some in H as (c' & H2 & H).
    apply bind_Some in H as (r' & H3 & H). destruct (_ && _) eqn:E; [|done]. injection H as <-.
    apply andb_true_iff in E as [E1 E2]. apply negb_true_iff in E1. apply disciplinedb_spec in E2.
    by eapply host_run_step.
  - apply bind_Some in H as (k & H1 & H). apply bind_Some in H as (r & H2 & H).
    apply bind_Some in H as (r' & H3 & H). injection H as <-.
    eapply host_run_crash; [done|done|by rewrite H2|by apply reloadsb_spec].
Qed.

Lemma host_script_sound V xs p p' :
  host_script xs p = Some p' -> host_run (RT:=rt0) V p.1.1 p.1.2 p.2 -> host_run (RT:=rt0) V p'.1.1 p'.1.2 p'.2.
Proof.
  revert p. induction xs as [|x xs IH]; intros p H Hr; simpl in H; [by injection H as <-|].
  apply bind_Some in H as (p1 & H1 & H). eapply IH; [done|]. by eapply host_incident_sound.
Qed.

(** Node 3 votes for node 1 and stops before the vote is stored or sent; it comes back
    in term 0 without a vote.  Node 1 is elected with the vote of node 2 and commits its
    first entry with it. *)
Definition stop_script : list incident :=
  (Acts <$> [ Local 1 hup; Emit 1; Deliver 3 (vote_msg MsgPreVote 1 3 1 0 0); Emit 3;
              Deliver 1 (resp_msg MsgPreVoteResp 3 1 1); Emit 1; Deliver 3 (vote_msg MsgVote 1 3 1 0 0) ]) ++
  [ Stops 3 (cfg3 3) ] ++
  (Acts <$> [ Deliver 2 (vote_msg MsgVote 1 2 1 0 0); Emit 2; Deliver 1 (resp_msg MsgVoteResp 2 1 1); Emit 1;
              Deliver 1 (ack_msg 1 1 1 1 0); Deliver 2 (app_msg 1 2 1 0 0 0 [noop1]); Emit 2;
              Deliver 1 (ack_msg 2 1 1 1 1); Local 1 (propose a_write); Emit 1;
              Deliver 2 (app_msg 1 2 1 1 1 1 [mkEntry 2 1 a_write]); Emit 2 ]).

Definition stopped : host_state :=
  default ([], ∅, cluster3) (host_script stop_script ([], nodes cluster3, cluster3)).

Lemma stopped_eq : host_script stop_script ([], nodes cluster3, cluster3) = Some stopped.
Proof. vm_compute. reflexivity. Qed.

Lemma cluster3_host_run : host_run (RT:=rt0) V3 [] (nodes cluster3) cluster3.
Proof. apply host_run_init; [exact cluster3_init|exact cluster3_new]. Qed.

Lemma stopped_run : host_run (RT:=rt0) V3 stopped.1.1 stopped.1.2 stopped.2.
Proof. exact (host_script_sound V3 stop_script _ _ stopped_eq cluster3_host_run). Qed.

Definition given_by (i c : Z) : moment :=
  default (mkMoment 0 false 0 0 []) (List.find (is_moment i 1 c) stopped.1.1).

(** Node 3 has lost its vote; nodes 1 and 2 have handed out the same first entry. *)
Lemma crash_safety_witness :
  (fun r : DRaft => (r_term r, r_votedFor r)) <$> nodes stopped.2 !! 3 = Some (0, 0) /\
  mo_commit (given_by 1 1) = 1 /\ mo_commit (given_by 2 1) = 1 /\
  is_Some (index (mo_log (given_by 1 1)) 0) /\ index (mo_log (given_by 1 1)) 0 = index (mo_log (given_by 2 1)) 0.
Proof.
  split; [vm_compute; reflexivity|]. split; [vm_compute; reflexivity|]. split; [vm_compute; reflexivity|].
  destruct (crash_safety (RT:=rt0) V3 stopped.1.1 stopped.1.2 stopped.2 stopped_run) as (H & _).
  apply H; [apply find_in; vm_compute; discriminate..| |].
  - vm_compute. split; [discriminate|reflexivity].
  - vm_compute. reflexivity.
Defined.

(** Node 3 of the run in which it is overtaken, with all its entries still to be stored. *)
Definition unsaved3 : node DurableStorage := mkNode overtaken3 0 None [] Ready0 false false.
Definition batch3 : Ready := default Ready0 (ok_of (node_ready unsaved3)).
Definition handled3 : DurableStorage * list effect * option error :=
  default (empty_durable, [], None) (ok_of (handleBatch None batch3 (node_storage unsaved3))).

Lemma same_state_refl s : same_state s s.
Proof. by repeat split. Qed.

Definition entries3 : list Entry := [noop1; mkEntry 2 2 []; mkEntry 3 2 a_write].

Lemma batch3_saves :
  rd_Entries batch3 = entries3 /\ rd_HardState batch3 = Some (mkHard 2 2 2) /\
  DurableStorage_Save entries3 (Some (mkHard 2 2 2)) empty_durable = Ok (handled3.1.1, None).
Proof. split_and!; vm_compute; reflexivity. Qed.

Lemma handled3_life : lifetime 1 handled3.1.1.
Proof.
  eapply (life_save 0 empty_durable entries3 (Some (mkHard 2 2 2))); [| |apply batch3_saves].
  - eapply (life_new 0 0). apply empty_durable_opens.
  - split; [repeat constructor; discriminate|]. split; [vm_compute; reflexivity|].
    intros h [= <-]. repeat split; discriminate.
Qed.

Lemma restart_from_disk_witness :
  len (d_entries handled3.1.1) = 3 /\
  exists s' r', NewDurableStorageWithOptions 100 0 (d_world handled3.1.1) = Ok (inr s', d_world s') /\
    reloads (RT:=rt0) overtaken 3 (mkConfig 3 [1; 2] (Some s') 0 10 1) (overtaken3 <| r_msgsAfterAppend := [] |>) r'.
Proof.
  split; [vm_compute; reflexivity|].
  apply (restart_from_disk (RT:=rt0) None unsaved3 batch3 handled3.1.1 handled3.1.2 1 handled3.1.1 100 0 overtaken 3 [1; 2] 0 10 1).
  - vm_compute. reflexivity.
  - split; [intros h; vm_compute; discriminate|vm_compute; discriminate].
  - apply from_oneb_spec. vm_compute. reflexivity.
  - vm_compute. reflexivity.
  - exact handled3_life.
  - reflexivity.
  - exact (same_state_refl handled3.1.1).
  - vm_compute. reflexivity.
  - lia.
  - vm_compute. split; discriminate.
Defined.
