(* ===== verification/RaftTheorems.v ===== *)
(** * RaftTheorems: the guarantees of a single Raft node

    Each theorem is about [Raft_Step] (or [Raft_Tick], [newRaft]) on an arbitrary
    node with any storage that keeps the [Storage] contract; the witnesses
    instantiate it on nodes of the three-node cluster of [Scenarios]. *)

From S2P Require Export RaftSafety Scenarios.

(** ** Terms, votes, commits *)

Section ballots.
Context {RT : Runtime} {St : Type} {SS : Storage St} {SP : StorageSpec St}.
Implicit Types r : Raft St.
Implicit Types m : Message.

(** C9: a leader moves its commit cursor only to an entry of its own term that a
    quorum of the voters has acknowledged. *)
Theorem leader_commit_rule m r r' e :
  raft_ok r -> raftLog_ok (r_raftLog r) -> r_state r = Leader -> r_state r' = Leader ->
  Raft_Step m r = Ok (r', e) -> l_committed (r_raftLog r) < l_committed (r_raftLog r') ->
  view_term (l_committed (r_raftLog r')) (r_raftLog r) = Some (r_term r) /\
  quorum (Voters (r_trk r)) <=
    Z.of_nat (size (filter (fun id => l_committed (r_raftLog r')
       <= default 0 (MatchIndex <$> progress (r_trk r') !! id)) (Voters (r_trk r)))).
Proof. apply Step_commit_rule. Qed.

(** C10: a message that the node steps without panicking, is no snapshot and, if it is an
    append, continues the log contiguously from a point in it ([app_ok]) leaves committed
    entries alone, as long as an entry more still fits the index range ([room]): the
    commit cursor does not move back, the log invariant is kept, and the log afterwards
    starts with the entries that were committed before. *)
Theorem committed_prefix_kept m r r' e :
  Raft_Step m r = Ok (r', e) -> m_Type m <> MsgSnap ->
  raftLog_ok (r_raftLog r) -> app_ok m (r_raftLog r) -> room (r_raftLog r) ->
  raftLog_ok (r_raftLog r') /\ l_committed (r_raftLog r) <= l_committed (r_raftLog r') /\
  committed_part (r_raftLog r) `prefix_of` log_view (r_raftLog r').
Proof. intros H ? ? ? ?. by destruct (Step_keeps _ _ _ _ H) as (? & _ & ? & ?). Qed.

(** As long as a (pre-)candidate is not handed a message of an older term, the
    term of a node does not decrease and within a term its vote does not change. *)
Theorem vote_once m r r' e :
  Raft_Step m r = Ok (r', e) -> 0 <= r_term r -> calm m r -> bounded m (r_term r) ->
  r_term r <= r_term r' /\
  (r_term r' = r_term r -> r_votedFor r <> 0 -> r_votedFor r' = r_votedFor r).
Proof. apply Step_ballot. Qed.

(** Whatever the message, the log of a node that is leader afterwards extends
    the log it had before: leaders append only. *)
Theorem leader_append_only m r r' e :
  raft_ok r -> raftLog_ok (r_raftLog r) -> room (r_raftLog r) ->
  Raft_Step m r = Ok (r', e) -> r_state r' = Leader ->
  log_view (r_raftLog r) `prefix_of` log_view (r_raftLog r').
Proof.
  intros Hr Hok Hrm H Hl. destruct (Step_grows _ _ _ _ H Hok Hrm) as [?|[_ Hf]]; [done|].
  pose proof (Step_ok _ _ _ _ H Hr) as Hr'. destruct (ok_coherent _ Hr') as [Hs _]. by rewrite Hl, Hf in Hs.
Qed.

(** C22: [newRaft], with an election timeout below 2^62 ticks, gives a well-formed node
    (the tick and step functions belong to the state, the tracker covers the voters, the
    election timer is drawn from [E, 2E), a leader leads itself, the read queue matches
    the pending reads), and every sequence of messages and ticks keeps it so. *)
Theorem node_invariant cfg r r' :
  newRaft cfg = Ok r -> c_ElectionTick cfg < 2 ^ 62 -> rtc stepped r r' -> raft_ok r'.
Proof. intros H HE Hs. eapply stepped_ok; [exact Hs|]. by eapply newRaft_ok. Qed.

(** Every successful [Step] is a sequence of the atomic transitions of [raft_step], each
    taken under its guard. *)
Theorem step_refines m r r' e : Raft_Step m r = Ok (r', e) -> rtc (raft_step r m) r r'.
Proof. apply Step_steps. Qed.

End ballots.

Lemma leader_commit_rule_witness :
  l_committed (r_raftLog leader1_committed) = 1 /\
  view_term (l_committed (r_raftLog leader1_committed)) (r_raftLog leader1) = Some (r_term leader1).
Proof.
  split; [vm_compute; reflexivity|].
  refine (proj1 (leader_commit_rule (RT:=rt0) (ack_msg 2 1 1 1 1) leader1 leader1_committed None leader1_ok
    leader1_log_ok _ _ leader1_commits _)); vm_compute; reflexivity.
Defined.

Lemma committed_prefix_kept_witness :
  committed_part (r_raftLog leader1_committed) = [noop1] /\
  committed_part (r_raftLog leader1_committed)
    `prefix_of` log_view (r_raftLog (after_step (propose a_write) leader1_committed)).
Proof.
  split; [vm_compute; reflexivity|].
  refine (proj2 (proj2 (committed_prefix_kept (RT:=rt0) (propose a_write) leader1_committed
    (after_step (propose a_write) leader1_committed) None _ _ leader1_committed_log_ok _ _))).
  - vm_compute. reflexivity.
  - discriminate.
  - intros ?. discriminate.
  - vm_compute. discriminate.
Defined.

(** Node 1 voted for itself in term 1; a request of node 3 in that term does not
    change that. *)
Lemma vote_once_witness :
  r_votedFor leader1 = 1 /\
  r_votedFor (after_step (vote_msg MsgVote 3 1 1 5 1) leader1) = r_votedFor leader1.
Proof.
  split; [vm_compute; reflexivity|].
  refine (proj2 (vote_once (RT:=rt0) (vote_msg MsgVote 3 1 1 5 1) leader1
    (after_step (vote_msg MsgVote 3 1 1 5 1) leader1) None _ _ _ _) _ _).
  - vm_compute. reflexivity.
  - vm_compute. discriminate.
  - intros Hin. exfalso. change (m_Type (vote_msg MsgVote 3 1 1 5 1)) with MsgVote in Hin. by inv_list.
  - intros Hin. exfalso. change (m_Type (vote_msg MsgVote 3 1 1 5 1)) with MsgVote in Hin. by inv_list.
  - vm_compute. reflexivity.
  - vm_compute. discriminate.
Defined.

Lemma leader_append_only_witness :
  log_view (r_raftLog leader1) `prefix_of` log_view (r_raftLog (after_step (propose a_write) leader1)).
Proof.
  refine (leader_append_only (RT:=rt0) (propose a_write) leader1
    (after_step (propose a_write) leader1) None leader1_ok leader1_log_ok _ _ _); vm_compute; reflexivity || discriminate.
Defined.

(** A tick, and then a campaign. *)
Definition ticked1 : DRaft := match Raft_Tick (RT:=rt0) node1 with Ok r => r | Panic _ => node1 end.

Lemma node_invariant_witness : r_electionElapsed ticked1 = 1 /\ raft_ok (after_step hup ticked1).
Proof.
  split; [vm_compute; reflexivity|].
  apply (node_invariant (RT:=rt0) (cfg3 1) node1); [apply the_Ok|vm_compute; reflexivity|].
  apply (rtc_l _ _ ticked1); [right; vm_compute; reflexivity|].
  apply rtc_once. left. exists hup, None. vm_compute. reflexivity.
Defined.

Lemma step_refines_witness : rtc (raft_step (RT:=rt0) leader1 (ack_msg 2 1 1 1 1)) leader1 leader1_committed.
Proof. apply (step_refines (RT:=rt0) (ack_msg 2 1 1 1 1) leader1 leader1_committed None). exact leader1_commits. Defined.

(** ** Requests *)

Section requests.
Context {RT : Runtime} {St : Type} {SS : Storage St} {SP : StorageSpec St}.
Implicit Types r : Raft St.
Implicit Types m : Message.

(** C20: a follower handed an append of its term whose previous entry it has, whose
    entries follow it contiguously and start above the commit cursor ([append_fits]),
    takes it: its log becomes its own entries up to [m.Index] followed by the message's
    (unchanged if there are none, so entries behind [m.Index] stay), the commit cursor
    moves up to the smaller of the message's commit index and the last index of the log
    and never back, the sender is the leader, the timer restarts, and one acceptance is
    queued, to be sent once the log is stored. *)
Theorem append_accept m r :
  r_step r = StepFollower -> m_Type m = MsgApp -> m_Term m = r_term r ->
  raftLog_ok (r_raftLog r) -> append_fits m (r_raftLog r) ->
  exists r', Raft_Step m r = Ok (r', None) /\ raftLog_ok (r_raftLog r') /\
    log_view (r_raftLog r') = append_view m (r_raftLog r) /\
    l_committed (r_raftLog r') =
      Z.max (l_committed (r_raftLog r)) (Z.min (m_Commit m) (log_last (r_raftLog r'))) /\
    r_lead r' = m_From m /\ r_electionElapsed r' = 0 /\ r_term r' = r_term r /\
    r_votedFor r' = r_votedFor r /\
    r_msgsAfterAppend r' = r_msgsAfterAppend r ++ [append_accepted m r].
Proof.
  intros Hst Ht Htm Hok Hfit. rewrite Step_follower_app by (done || lia).
  destruct (handleAppendEntries_fits m (follow m r) Hok Hfit) as (l' & -> & Hok' & Hv & Hc & _).
  by eexists.
Qed.

(** An append whose previous entry is not in the log (another term at
    [m.Index], or nothing there) is refused: the log and the commit cursor stay as
    they are and a refusal with the node's snapshot boundary is queued. *)
Theorem append_refuse m r :
  r_step r = StepFollower -> m_Type m = MsgApp -> m_Term m = r_term r -> raftLog_ok (r_raftLog r) ->
  (log_base (r_raftLog r) <= m_Index m <= log_last (r_raftLog r) /\
     view_term (m_Index m) (r_raftLog r) <> Some (m_LogTerm m)) \/
  (log_last (r_raftLog r) < m_Index m /\ st_last (l_storage (r_raftLog r)) < m_Index m) ->
  exists r', Raft_Step m r = Ok (r', None) /\ r_raftLog r' = r_raftLog r /\
    r_msgsAfterAppend r' = r_msgsAfterAppend r ++ [append_refused m r].
Proof.
  intros Hst Ht Htm Hok Hcase. rewrite Step_follower_app by (done || lia). destruct Hcase as [[Hi Hne]|[Hi Hs]].
  - rewrite handleAppendEntries_refuse by done. by eexists.
  - rewrite handleAppendEntries_beyond by done. by eexists.
Qed.

(** C21: A vote request of the current or a newer term, and not of term 0, is answered by
    a node with a well-formed log, in that term.  It is granted exactly if the node has not voted for somebody else in the
    term and the candidate's log is at least as up to date as its own (last term,
    then last index); a grant is recorded and the log is untouched. *)
Theorem vote_request m r :
  raftLog_wf (r_raftLog r) -> m_Type m = MsgVote -> 0 < m_Term m -> r_term r <= m_Term m ->
  exists r' g, Raft_Step m r = Ok (r', None) /\ (g = true <-> may_grant m r) /\
    r_term r' = m_Term m /\ r_raftLog r' = r_raftLog r /\
    r_votedFor r' = (if g then m_From m else if r_term r <? m_Term m then 0 else r_votedFor r) /\
    r_msgsAfterAppend r' = r_msgsAfterAppend r ++ [vote_resp MsgVoteResp r (m_From m) (m_Term m) g].
Proof. apply Step_vote. Qed.

(** A pre-vote request changes nothing on the node that answers it, except
    that messages are added to its queues. *)
Theorem prevote_harmless m r r' e :
  m_Type m = MsgPreVote -> Raft_Step m r = Ok (r', e) ->
  r_term r' = r_term r /\ r_votedFor r' = r_votedFor r /\ r_state r' = r_state r /\
  r_lead r' = r_lead r /\ r_raftLog r' = r_raftLog r /\ r_electionElapsed r' = r_electionElapsed r /\
  r_trk r' = r_trk r.
Proof. intros Ht H. by destruct (Step_prevote_quiet _ _ _ _ Ht H) as (?&?&?&?&->). Qed.

(** What a leader sends to a peer brings the peer's log in line with its own.
    If the leader's [sendAppend] goes to a follower of the same term that has the
    leader's entry before the peer's next index, agrees with the leader below it
    and has committed nothing above it, then after the follower's [Step] the two
    logs hold the same entries up to the leader's last index, which is also the
    follower's. *)
Theorem replication_agrees r f to_ p t :
  raftLog_ok (r_raftLog r) -> ProgressTracker_Progress to_ (r_trk r) = Some p ->
  0 < NextIndex p -> log_base (r_raftLog r) <= NextIndex p - 1 -> NextIndex p <= log_last (r_raftLog r) ->
  view_term (NextIndex p - 1) (r_raftLog r) = Some t ->
  r_step f = StepFollower -> r_term f = r_term r -> raftLog_ok (r_raftLog f) ->
  view_term (NextIndex p - 1) (r_raftLog f) = Some t ->
  log_base (r_raftLog f) <= NextIndex p - 1 <= log_last (r_raftLog f) ->
  l_committed (r_raftLog f) <= NextIndex p - 1 ->
  agree_upto (NextIndex p - 1) (r_raftLog r) (r_raftLog f) ->
  exists m r' f', Raft_sendAppend to_ r = Ok r' /\ r_messages r' = r_messages r ++ [m] /\ m_To m = to_ /\
    Raft_Step m f = Ok (f', None) /\
    agree_upto (log_last (r_raftLog r)) (r_raftLog r) (r_raftLog f') /\
    log_last (r_raftLog f') = log_last (r_raftLog r).
Proof.
  intros Hok Hp Hpos Hb Hn Ht Hfs Hft Hfok Hfv Hfb Hfc Hag.
  destruct (sendAppend_spec to_ p r (proj1 Hok) Hp Hpos) as (t' & Ht' & Hsend); [lia|].
  rewrite Ht in Ht'. injection Ht' as <-.
  set (m := append_msg r to_ (NextIndex p) t) in *.
  assert (append_fits m (r_raftLog f)) as Hfit by (by apply append_msg_fits).
  exists m, (r <| r_messages ::= fun q => q ++ [m] |>).
  rewrite Step_follower_app by (done || (simpl; lia)).
  destruct (handleAppendEntries_fits m (follow m f) Hfok Hfit) as (l' & -> & Hok' & Hv & _ & Hst).
  eexists. split; [exact Hsend|]. split; [done|]. split; [done|]. split; [reflexivity|]. simpl.
  eapply (append_makes_agree r to_ (NextIndex p) t); try done; [by destruct Hfok|].
  unfold log_base, log_snap. by rewrite Hst.
Qed.

(** C25: a leader that gets a heartbeat response from a peer, with the context of a
    read, and now has a quorum of acknowledgements for that context, releases that read
    and all reads queued before it, in the order they came and each with the commit
    index recorded when it arrived: its own as read states, those of other nodes as
    answers to be sent to them.  The reads behind it stay queued; without a quorum for
    the context nothing is released. *)
Theorem read_release m r r' e :
  raft_ok r -> r_state r = Leader -> m_Type m = MsgHeartbeatResp -> m_Term m <= r_term r ->
  ProgressTracker_Progress (m_From m) (r_trk r) <> None -> m_Context m <> [] ->
  Raft_Step m r = Ok (r', e) ->
  match MajorityConfig_VoteResult (Voters (r_trk r)) (acks_with (m_From m) (m_Context m) (r_readOnly r)) with
  | VoteWon =>
      forall prev rest, readIndexQueue (r_readOnly r) = prev ++ m_Context m :: rest ->
      r_readStates r' = r_readStates r ++ own_reads (r_id r) (waiting (prev ++ [m_Context m]) (r_readOnly r)) /\
      answers r' = answers r ++ forwarded_reads (r_id r) (r_term r) (waiting (prev ++ [m_Context m]) (r_readOnly r)) /\
      readIndexQueue (r_readOnly r') = rest
  | _ => r_readStates r' = r_readStates r /\ answers r' = answers r /\
         readIndexQueue (r_readOnly r') = readIndexQueue (r_readOnly r)
  end.
Proof.
  intros Hok Hl Ht Htm Hp Hc H. rewrite Step_HeartbeatResp in H; [|done|done|].
  - eapply HeartbeatResp_reads; try done. apply Hok.
  - destruct (ok_coherent _ Hok) as [-> _]. by rewrite Hl.
Qed.

(** At [CheckQuorum] a leader keeps its office exactly if a quorum of the
    voters was active; otherwise it becomes a follower of the same term, without a
    leader, and its vote is kept. *)
Theorem checkquorum_stepdown m r :
  raft_ok r -> r_state r = Leader -> m_Type m = MsgCheckQuorum -> m_Term m = 0 ->
  exists r', Raft_Step m r = Ok (r', None) /\ r_term r' = r_term r /\ r_votedFor r' = r_votedFor r /\
    r_raftLog r' = r_raftLog r /\
    (if ProgressTracker_QuorumActive (r_trk r) then r_state r' = Leader
     else r_state r' = Follower /\ r_lead r' = NoneID).
Proof.
  intros Hok Hl Ht Hm. rewrite Step_CheckQuorum; [|done..|destruct (ok_coherent _ Hok) as [-> _]; by rewrite Hl].
  unfold stepLeader_CheckQuorum. destruct (ProgressTracker_QuorumActive (r_trk r)); eexists; (split; [reflexivity|]).
  - done.
  - simpl negb. cbv iota. rewrite Raft_becomeFollower_eq. unfold kept_vote. simpl. by rewrite Z.eqb_refl.
Qed.

(** C35: a follower or candidate whose timer has just been reset counts its
    randomised timeout in ticks, changing nothing else, and campaigns with the
    last one, which lies between the election timeout and twice it. *)
Theorem election_timeout r (n : nat) :
  raft_ok r -> r_state r <> Leader -> r_electionElapsed r = 0 ->
  Z.of_nat (S n) = r_randomizedElectionTimeout r ->
  r_electionTimeout r <= Z.of_nat (S n) < 2 * r_electionTimeout r /\
  ticks n r = Ok (r <| r_electionElapsed := Z.of_nat n |>) /\
  ticks (S n) r =
    ('(r1, _) ← Raft_Step ((mkmsg MsgHup) <| m_From := r_id r |>) (r <| r_electionElapsed := 0 |>); Ok r1).
Proof.
  intros Hok Hl He Hn. destruct (ok_timer _ Hok) as (_ & HE & HR).
  assert (r_tick r = TickElection) as Ht by (destruct (ok_coherent _ Hok) as [_ ->]; by destruct (r_state r)).
  split; [lia|]. assert (Hc : ticks n r = Ok (r <| r_electionElapsed := Z.of_nat n |>)).
  { rewrite ticks_count by (done || lia). by rewrite He. }
  split; [exact Hc|]. replace (S n) with (n + 1)%nat by lia. rewrite ticks_add, Hc. simpl.
  rewrite tick_fires by (done || simpl; lia). simpl. by destruct (Raft_Step _ _) as [[? ?]|].
Qed.

End requests.

(** Node 2 takes the first entry of node 1. *)
Lemma append_fits_follower2 : append_fits (app_msg 1 2 1 0 0 0 [noop1]) (r_raftLog follower2).
Proof.
  split; [split; vm_compute; discriminate|]. split; [vm_compute; reflexivity|].
  split; [intros _; vm_compute; discriminate|]. split; [|vm_compute; reflexivity].
  apply contigb_spec. vm_compute. reflexivity.
Qed.

Lemma append_accept_witness :
  exists r', Raft_Step (RT:=rt0) (app_msg 1 2 1 0 0 0 [noop1]) follower2 = Ok (r', None) /\
    log_view (r_raftLog r') = append_view (app_msg 1 2 1 0 0 0 [noop1]) (r_raftLog follower2).
Proof.
  destruct (append_accept (RT:=rt0) (app_msg 1 2 1 0 0 0 [noop1]) follower2) as (r' & H & _ & Hv & _);
    [vm_compute; reflexivity|reflexivity|vm_compute; reflexivity|exact follower2_log_ok|exact append_fits_follower2|].
  exists r'. exact (conj H Hv).
Defined.

(** An append that starts after an entry node 2 does not have. *)
Lemma append_refuse_witness :
  exists r', Raft_Step (RT:=rt0) (app_msg 1 2 1 1 1 0 [mkEntry 2 1 []]) follower2 = Ok (r', None) /\
    r_raftLog r' = r_raftLog follower2.
Proof.
  destruct (append_refuse (RT:=rt0) (app_msg 1 2 1 1 1 0 [mkEntry 2 1 []]) follower2) as (r' & H & Hl & _);
    [vm_compute; reflexivity|reflexivity|vm_compute; reflexivity|exact follower2_log_ok| |exists r'; exact (conj H Hl)].
  right. split; vm_compute; reflexivity.
Defined.

Lemma vote_request_witness :
  exists r' g, Raft_Step (RT:=rt0) (vote_msg MsgVote 3 2 2 0 0) follower2 = Ok (r', None) /\ r_term r' = 2 /\
    (g = true <-> may_grant (vote_msg MsgVote 3 2 2 0 0) follower2).
Proof.
  destruct (vote_request (RT:=rt0) (vote_msg MsgVote 3 2 2 0 0) follower2) as (r' & g & H & Hg & Ht & _);
    [apply follower2_log_ok|reflexivity|reflexivity|vm_compute; discriminate|].
  exists r', g. split; [exact H|]. split; [exact Ht|exact Hg].
Defined.

Lemma prevote_harmless_witness :
  r_term (after_step (vote_msg MsgPreVote 3 2 5 0 0) follower2) = r_term follower2.
Proof.
  refine (proj1 (prevote_harmless (RT:=rt0) (vote_msg MsgPreVote 3 2 5 0 0) follower2
    (after_step (vote_msg MsgPreVote 3 2 5 0 0) follower2) None _ _)); vm_compute; reflexivity.
Defined.

(** Node 1, just elected, replicates its first entry to node 2. *)
Definition progress2 : Progress := default (mkProgress 0 0 false) (ProgressTracker_Progress 2 (r_trk elected1)).

Lemma replication_agrees_witness :
  exists m r' f', Raft_sendAppend 2 elected1 = Ok r' /\ r_messages r' = r_messages elected1 ++ [m] /\ m_To m = 2 /\
    Raft_Step (RT:=rt0) m follower2 = Ok (f', None) /\
    agree_upto (log_last (r_raftLog elected1)) (r_raftLog elected1) (r_raftLog f') /\
    log_last (r_raftLog f') = log_last (r_raftLog elected1).
Proof.
  refine (replication_agrees (RT:=rt0) elected1 follower2 2 progress2 0 elected1_log_ok _ _ _ _ _ _ _ follower2_log_ok _ _ _ _).
  - vm_compute. reflexivity.
  - vm_compute. reflexivity.
  - vm_compute. discriminate.
  - vm_compute. discriminate.
  - vm_compute. reflexivity.
  - vm_compute. reflexivity.
  - vm_compute. reflexivity.
  - vm_compute. reflexivity.
  - split; vm_compute; discriminate.
  - vm_compute. discriminate.
  - assert (log_base (r_raftLog elected1) = 0) as Hb by (vm_compute; reflexivity).
    assert (NextIndex progress2 - 1 = 0) as Hn by (vm_compute; reflexivity).
    intros j Hj. rewrite Hb, Hn in Hj. lia.
Defined.

(** Node 2's acknowledgement completes the quorum of node 1's read. *)
Lemma read_release_witness :
  MajorityConfig_VoteResult (Voters (r_trk leader1_read))
    (acks_with 2 (BE_PutUint64 5) (r_readOnly leader1_read)) = VoteWon /\
  match MajorityConfig_VoteResult (Voters (r_trk leader1_read)) (acks_with 2 (BE_PutUint64 5) (r_readOnly leader1_read)) with
  | VoteWon =>
      forall prev rest, readIndexQueue (r_readOnly leader1_read) = prev ++ BE_PutUint64 5 :: rest ->
      r_readStates (after_step (heartbeat_ack 2 1 1 (BE_PutUint64 5)) leader1_read) =
        r_readStates leader1_read ++
        own_reads (r_id leader1_read) (waiting (prev ++ [BE_PutUint64 5]) (r_readOnly leader1_read)) /\
      answers (after_step (heartbeat_ack 2 1 1 (BE_PutUint64 5)) leader1_read) =
        answers leader1_read ++ forwarded_reads (r_id leader1_read) (r_term leader1_read)
          (waiting (prev ++ [BE_PutUint64 5]) (r_readOnly leader1_read)) /\
      readIndexQueue (r_readOnly (after_step (heartbeat_ack 2 1 1 (BE_PutUint64 5)) leader1_read)) = rest
  | _ => r_readStates (after_step (heartbeat_ack 2 1 1 (BE_PutUint64 5)) leader1_read) = r_readStates leader1_read /\
         answers (after_step (heartbeat_ack 2 1 1 (BE_PutUint64 5)) leader1_read) = answers leader1_read /\
         readIndexQueue (r_readOnly (after_step (heartbeat_ack 2 1 1 (BE_PutUint64 5)) leader1_read)) =
           readIndexQueue (r_readOnly leader1_read)
  end.
Proof.
  split; [vm_compute; reflexivity|].
  refine (read_release (RT:=rt0) (heartbeat_ack 2 1 1 (BE_PutUint64 5)) leader1_read
    (after_step (heartbeat_ack 2 1 1 (BE_PutUint64 5)) leader1_read) None leader1_read_ok _ _ _ _ _ _);
    vm_compute; reflexivity || discriminate.
Defined.

Lemma checkquorum_stepdown_witness :
  exists r', Raft_Step (RT:=rt0) (mkmsg MsgCheckQuorum) elected1 = Ok (r', None) /\
    ProgressTracker_QuorumActive (r_trk elected1) = false /\ r_state r' = Follower.
Proof.
  destruct (checkquorum_stepdown (RT:=rt0) (mkmsg MsgCheckQuorum) elected1) as (r' & H & _ & _ & _ & Hq);
    [exact elected1_ok|vm_compute; reflexivity|reflexivity|reflexivity|].
  exists r'. assert (Hf : ProgressTracker_QuorumActive (r_trk elected1) = false) by (vm_compute; reflexivity).
  rewrite Hf in Hq. exact (conj H (conj Hf (proj1 Hq))).
Defined.

Lemma node1_ok : raft_ok node1.
Proof. eapply (newRaft_ok (RT:=rt0)); [apply the_Ok|vm_compute; reflexivity]. Qed.

Lemma election_timeout_witness :
  ticks (RT:=rt0) 9 node1 = Ok (node1 <| r_electionElapsed := Z.of_nat 9 |>).
Proof.
  refine (proj1 (proj2 (election_timeout (RT:=rt0) node1 9 node1_ok _ _ _))); vm_compute; reflexivity || discriminate.
Defined.

(** ** The log

    For any storage with the [Storage] contract, the two layers of [raftLog] (log.go,
    log_unstable.go) are one list, [log_view]. *)

Section log.
Context {St : Type} {SS : Storage St} {SP : StorageSpec St}.
Implicit Types l : raftLog St.

(** Appending a contiguous batch that starts inside the log or right after it
    cuts the log before the batch's first index and adds the batch, touching
    neither the cursors nor the storage; entries at or below the commit cursor are
    never replaced, the call panics instead. *)
Theorem log_append ents l :
  raftLog_ok l -> ents <> [] -> contig (first_of ents) ents ->
  0 < first_of ents <= log_last l + 1 -> first_of ents + len ents <= MaxIndex ->
  if l_committed l <? first_of ents then
    exists l', raftLog_appendEntries ents l = Ok l' /\ raftLog_ok l' /\
      log_view l' = slice_to (log_view l) (first_of ents - log_base l - 1) ++ ents /\
      committed_part l' = committed_part l /\
      l_storage l' = l_storage l /\ l_committed l' = l_committed l /\ l_applied l' = l_applied l
  else exists why, raftLog_appendEntries ents l = Panic why.
Proof.
  intros Hok Hne Hc Hf Hm. destruct (_ <? _) eqn:E; to_prop.
  - assert (appendable ents l) as Happ by (split_and!; done || lia).
    destruct (raftLog_appendEntries_view ents l Hok Happ) as (l' & H & Hok' & Hst & Hco & Hap & Hv).
    exists l'. split_and!; try done. unfold committed_part, log_base, log_snap. rewrite Hco, Hst.
    by eapply slice_to_committed_prefix.
  - unfold raftLog_appendEntries. destruct ents as [|e0 ents]; [done|]. unfold first_of in *. simpl in *.
    pose proof (len_nonneg (e0 :: ents)). rewrite wrap64_pred_id by lia.
    rewrite (proj2 (Z.ltb_lt _ _)) by lia. by eexists.
Qed.

(** Reading: [lastIndex] is the last index of the list, [term] of an index in
    it (or at the snapshot boundary) is the term there, [slice] of a range above
    the boundary is that range, and [nextCommittedEnts] is the part between the
    applied and the commit cursor. *)
Theorem log_reads i lo hi l :
  raftLog_ok l -> log_base l <= l_applied l ->
  log_base l <= i <= log_last l -> log_base l < lo <= hi -> hi <= log_last l + 1 ->
  raftLog_lastIndex l = log_last l /\
  (exists t, view_term i l = Some t /\ raftLog_term i l = Ok (inr t)) /\
  raftLog_slice lo hi l = Ok (slice (log_view l) (lo - log_base l - 1) (hi - log_base l - 1)) /\
  raftLog_nextCommittedEnts l =
    Ok (slice (log_view l) (l_applied l - log_base l) (l_committed l - log_base l)).
Proof.
  intros Hok Hap Hi Hlo Hhi. pose proof Hok as (Hwf & _). split; [by apply raftLog_lastIndex_view|].
  split; [by apply raftLog_term_view|]. split; [apply raftLog_slice_view; done || lia|].
  by apply raftLog_nextCommittedEnts_view.
Qed.

(** Persisting: once the unstable entries are saved to storage, [stableTo]
    their last one drops exactly them from memory, and the log is the same list as
    before, with whatever was appended in between still at its end. *)
Theorem log_persist l st' hard late e :
  raftLog_wf l -> last (u_entries (l_unstable l)) = Some e ->
  Save (u_entries (l_unstable l)) hard (l_storage l) = Ok (st', None) ->
  contig (u_offset (l_unstable l) + len (u_entries (l_unstable l))) late ->
  u_offset (l_unstable l) + len (u_entries (l_unstable l)) + len late <= MaxIndex ->
  exists l', raftLog_stableTo (e_Index e) (e_Term e)
      (mkRaftLog st' (mkUnstable (u_entries (l_unstable l) ++ late) (u_offset (l_unstable l)))
         (l_committed l) (l_applied l)) = Ok l' /\
    raftLog_wf l' /\ log_view l' = log_view l ++ late /\ u_entries (l_unstable l') = late /\
    l_committed l' = l_committed l /\ l_applied l' = l_applied l.
Proof. apply persist_unstable. Qed.

End log.

Abbreviation log1 := (r_raftLog leader1_committed).

Lemma log_append_witness :
  exists l', raftLog_appendEntries [mkEntry 2 1 []] log1 = Ok l' /\
    log_view l' = slice_to (log_view log1) (2 - log_base log1 - 1) ++ [mkEntry 2 1 []].
Proof.
  pose proof (log_append [mkEntry 2 1 []] log1 leader1_committed_log_ok) as H.
  change (first_of [mkEntry 2 1 []]) with 2 in H.
  assert (Hc : (l_committed log1 <? 2) = true) by (vm_compute; reflexivity). rewrite Hc in H.
  destruct H as (l' & H1 & _ & H2 & _).
  - discriminate.
  - apply contigb_spec. reflexivity.
  - split; vm_compute; reflexivity || discriminate.
  - vm_compute. discriminate.
  - exists l'. exact (conj H1 H2).
Defined.

Lemma log_reads_witness :
  raftLog_lastIndex log1 = log_last log1 /\
  raftLog_slice 1 2 log1 = Ok (slice (log_view log1) (1 - log_base log1 - 1) (2 - log_base log1 - 1)).
Proof.
  pose proof (log_reads 1 1 2 log1 leader1_committed_log_ok) as H.
  destruct H as (H1 & _ & H2 & _).
  - vm_compute. discriminate.
  - split; vm_compute; discriminate.
  - split; vm_compute; reflexivity || discriminate.
  - vm_compute. discriminate.
  - exact (conj H1 H2).
Defined.

(** Node 1 saves its first entry while a proposal arrives. *)
Definition saved1 : DurableStorage :=
  match Save [noop1] (Some (mkHard 1 1 1)) (l_storage log1) with Ok (s, _) => s | Panic _ => l_storage log1 end.

Lemma log_persist_witness :
  exists l', raftLog_stableTo 1 1 (mkRaftLog saved1 (mkUnstable ([noop1] ++ [mkEntry 2 1 a_write]) 1) 1 0) = Ok l' /\
    log_view l' = log_view log1 ++ [mkEntry 2 1 a_write] /\ u_entries (l_unstable l') = [mkEntry 2 1 a_write].
Proof.
  destruct (log_persist log1 saved1 (Some (mkHard 1 1 1)) [mkEntry 2 1 a_write] noop1) as (l' & H1 & _ & H2 & H3 & _).
  - apply leader1_committed_log_ok.
  - vm_compute. reflexivity.
  - vm_compute. reflexivity.
  - apply contigb_spec. vm_compute. reflexivity.
  - vm_compute. discriminate.
  - exists l'. split; [|exact (conj H2 H3)]. rewrite <-H1. vm_compute. reflexivity.
Defined.
