(* ===== verification/StorageTheorems.v ===== *)
(** * StorageTheorems: what is written is read back

    Recovery of [DurableStorage] (storage.go, segment.go, wal.go), the encoding of
    its batches (message.go), the order of its segments, and compaction. *)

From S2P Require Export Recovery Scenarios.
From stdpp Require Import strings.
Local Open Scope Z_scope.

(** C7 (recovery): take any storage that started on an empty directory and was
    then saved to, reopened, and interrupted in the middle of writes, any number of
    times (below 10^8 saves; batches below 4 GiB; no snapshot).  Opening its
    directory again, whatever the options, succeeds and gives the same hard state,
    entries, boundary and segment index. *)
Theorem reopen_recovers k s limit threshold :
  lifetime k s -> Z.of_nat k < 10 ^ 8 - 1 ->
  exists s', NewDurableStorageWithOptions limit threshold (d_world s) = Ok (inr s', d_world s') /\ same_state s s'.
Proof.
  intros Hl Hk. destruct (lifetime_running k s Hl Hk) as (sealed & bs & Hr & _).
  destruct (running_reopen _ _ _ limit threshold Hr) as (s' & H & Hs & _). by exists s'.
Qed.

(** C15 (torn writes): if the write of a [Save] stops short after [n] bytes of its
    frame, [Save] reports an error, and reopening the directory gives back exactly
    the state before that [Save]: the torn frame is cut off. *)
Theorem crash_recovers k s ents hard n limit threshold :
  lifetime k s -> Z.of_nat k < 10 ^ 8 - 1 -> save_fits ents hard ->
  negb ((len ents =? 0) && IsEmptyHardState hard) = true ->
  (n < length (frame (encodeSaveBatch (effective_hard hard s) ents)))%nat ->
  exists s1 e s',
    DurableStorage_Save ents hard (s <| d_world ::= fun W => W <| faults := [Fails n] |> |>) = Ok (s1, Some e) /\
    NewDurableStorageWithOptions limit threshold (d_world s1) = Ok (inr s', d_world s') /\ same_state s s'.
Proof.
  intros Hl Hk Hf Hne Hn. destruct (lifetime_running k s Hl Hk) as (sealed & bs & Hr & _).
  destruct (running_crash _ _ _ _ _ n limit threshold Hr Hf Hne Hn) as (s1 & e & s' & H1 & H2 & H3 & _).
  by exists s1, e, s'.
Qed.

(** Decoding an encoded batch gives back its hard state and entries. *)
Theorem batch_roundtrip hard ents :
  hard_wf hard -> Forall entry_wf ents -> computeTotalSize ents < 2 ^ 32 ->
  decodeSaveBatch (encodeSaveBatch hard ents) = inr (hard, ents).
Proof. apply decodeSaveBatch_encode. Qed.

(** In a directory that holds exactly the segments 0 to n-1 among other files,
    n at most 10^8, the segments are listed in the order they were written, and
    each name gives back its number. *)
Theorem segment_order n W :
  faults W = [] -> Z.of_nat n <= 10 ^ 8 ->
  (forall name, is_Some (files W !! name) -> is_Some (parseSegmentSeq name) -> name ∈ segNames n) ->
  (forall name, name ∈ segNames n -> is_Some (files W !! name)) ->
  listSegments W = (inr (segNames n), W) /\
  forall i, 0 <= i < Z.of_nat n -> parseSegmentSeq (segmentName i) = Some i.
Proof.
  intros HF Hn H1 H2. split; [by apply listSegments_names|]. intros i Hi. apply parse_segmentName. lia.
Qed.

(** Compaction, whether it happens or fails on the way, keeps the storage well
    formed, its hard state and last index, and every entry above the new boundary;
    the boundary never moves back, and when it moves it records the term of the
    entry it moves to. *)
Theorem compaction_keeps_log s i s' e :
  durable_ok s -> 0 <= i < MaxIndex -> DurableStorage_MaybeCompact i s = Ok (s', e) -> compacted s s'.
Proof. apply durable_MaybeCompact. Qed.

(** ** Witnesses *)

Definition hard1 : HardState := mkHard 1 1 0.
Definition entries12 : list Entry := [noop1; mkEntry 2 1 a_write].

Definition after_save (ents : list Entry) (hard : option HardState) (s : DurableStorage) : DurableStorage :=
  match DurableStorage_Save ents hard s with Ok (s', _) => s' | Panic _ => s end.

Definition stored1 : DurableStorage := after_save entries12 (Some hard1) empty_durable.

Lemma save_fits_12 : save_fits entries12 (Some hard1).
Proof.
  split; [repeat constructor; discriminate|]. split; [vm_compute; reflexivity|].
  intros h [= <-]. repeat split; discriminate.
Qed.

Lemma stored1_life : lifetime 1 stored1.
Proof.
  eapply (life_save 0 empty_durable entries12 (Some hard1)); [|exact save_fits_12|vm_compute; reflexivity].
  eapply (life_new 0 0). apply empty_durable_opens.
Qed.

Lemma reopen_recovers_witness :
  exists s', NewDurableStorageWithOptions 100 0 (d_world stored1) = Ok (inr s', d_world s') /\ same_state stored1 s'.
Proof. apply (reopen_recovers 1 stored1 100 0 stored1_life). reflexivity. Defined.

(** The second save is cut after ten bytes. *)
Lemma crash_recovers_witness :
  exists s1 e s',
    DurableStorage_Save [mkEntry 3 1 []] None (stored1 <| d_world ::= fun W => W <| faults := [Fails 10] |> |>)
      = Ok (s1, Some e) /\
    NewDurableStorageWithOptions 0 0 (d_world s1) = Ok (inr s', d_world s') /\ same_state stored1 s'.
Proof.
  apply (crash_recovers 1 stored1 [mkEntry 3 1 []] None 10 0 0 stored1_life); [reflexivity| |reflexivity|vm_compute; lia].
  split; [repeat constructor; discriminate|]. split; [vm_compute; reflexivity|]. intros h [=].
Defined.

Lemma batch_roundtrip_witness : decodeSaveBatch (encodeSaveBatch hard1 entries12) = inr (hard1, entries12).
Proof.
  apply (batch_roundtrip hard1 entries12); [by repeat split| |vm_compute; reflexivity].
  repeat constructor; discriminate.
Defined.

Definition two_segments : World := mkWorld {[ segmentName 1 := []; "snapshot.log" := []; segmentName 0 := [] ]} [].

Lemma segment_order_witness : listSegments two_segments = (inr (segNames 2), two_segments).
Proof.
  refine (proj1 (segment_order 2 two_segments eq_refl _ _ _)).
  - vm_compute. discriminate.
  - intros name [x Hx] Hp. apply segNames_elem. unfold two_segments in Hx. simpl in Hx.
    apply lookup_insert_Some in Hx as [[<- _]|[_ Hx]]; [exists 1; split; [lia|done]|].
    apply lookup_insert_Some in Hx as [[<- _]|[_ Hx]]; [by destruct Hp|].
    apply lookup_singleton_Some in Hx as [<- _]. exists 0. split; [lia|done].
  - intros name (i & Hi & ->)%segNames_elem. assert (i = 0 \/ i = 1) as [->| ->] by lia; vm_compute; by eexists.
Defined.

(** With a threshold of one, applying up to index 1 compacts entry 1 away. *)
Definition compacting1 : DurableStorage := stored1 <| d_compactThreshold := 1 |>.
Definition compacted1 : DurableStorage :=
  match DurableStorage_MaybeCompact 1 compacting1 with Ok (s, _) => s | Panic _ => compacting1 end.

Lemma compaction_keeps_log_witness : d_boundary compacted1 = 1 /\ compacted compacting1 compacted1.
Proof.
  split; [vm_compute; reflexivity|].
  apply (compaction_keeps_log compacting1 1 compacted1 None);
    [apply durable_okb_spec; vm_compute; reflexivity|split; vm_compute; reflexivity || discriminate|vm_compute; reflexivity].
Defined.
