(* ===== verification/HostTheorems.v ===== *)
(** * HostTheorems: from the node to the state machine

    Durability before sending and in-order application (node.go, server/raft.go),
    the life of a put (server.go, handler_kv.go), waiting (pkg/wait), and the wire
    formats (protocol, transport/frame.go). *)

From S2P Require Export HostSpec Server Frame Scenarios.

(** ** Persisting and applying *)

Section hosts.
Context {RT : Runtime}.

(** C13: when the host has handled a [Ready], the storage holds the term, vote and
    commit index and the whole log the node had when it made the [Ready]; if the
    storage fails, nothing was sent, answered or applied.  So no vote and no
    acknowledgement leaves a node before it is durable. *)
Theorem ready_is_durable stop (n : node DurableStorage) rd st' eff e :
  node_ready n = Ok rd -> hard_saved n -> raftLog_ok (r_raftLog (n_r n)) ->
  handleBatch stop rd (node_storage n) = Ok (st', eff, e) ->
  match e with
  | Some _ => eff = []
  | None => d_hd st' = Raft_HardState (n_r n) /\ d_entries st' = log_view (r_raftLog (n_r n)) /\
            d_snap st' = d_snap (node_storage n)
  end.
Proof.
  intros Hrd Hh Hok H. destruct e as [e|]; [|by eapply handleBatch_durable].
  unfold handleBatch in H. apply bind_Ok in H as ([st1 [e1|]] & _ & H); [by injection H|].
  by destruct (send_reads stop (rd_ReadStates rd)) as [[reads stop'] ok].
Qed.

(** C12: a host that is started and not stopped hands the server the data of entries in
    log order, each once and without a gap, starting above the applied index of the
    configuration, whatever requests and ticks the node serves in between.  Each of these
    entries was in the node's log, and within its commit index, at some moment of the run,
    and the index the host reports is that of the last entry handed out.  This is for runs
    in which no snapshot arrives and the log is well formed whenever the node may prepare
    a [Ready] ([host_step], [turn_ok]). *)
Theorem applies_in_order {St : Type} {SS : Storage St} {SP : StorageSpec St} (cfg : RaftHostConfig St) h h' :
  NewRaftHost cfg = Ok (inr h) -> rtc host_step h h' ->
  let a0 := l_applied (r_raftLog (n_r (h_n h))) in
  exists done, contig (a0 + 1) done /\ Forall (was_committed h h') done /\
    applied_data (h_effects h') = e_Data <$> done /\ applied_thru a0 (h_effects h') = a0 + len done.
Proof.
  intros H Hrun a0. unfold NewRaftHost in H.
  destruct (validatePublicRaftHostConfig cfg), (hc_Storage cfg) as [st|]; try done.
  destruct (Snapshot st) as [|snap]; [done|]. apply bind_Ok in H as (n & Hn & H). injection H as <-.
  pose proof (host_start_at (was_committed (mkHost n (hc_Peers cfg) 0 Idle []) h') _ n (hc_Peers cfg) Hn) as Hat.
  destruct (host_run_at _ _ _ Hrun Hat) as (done & Hc & HF & Hd & Ht & _). by exists done.
Qed.

End hosts.

(** A host of a cluster of one, from its election to its first applied entry. *)
Definition cfg1 : RaftHostConfig DurableStorage := mkHostConfig 1 [] (Some empty_durable) true 0 0.

Definition host0 : raftHost DurableStorage :=
  match NewRaftHost (RT:=rt0) cfg1 with
  | Ok (inr h) => h
  | _ => mkHost (mkNode node1 0 None [] Ready0 false false) [] 0 Idle []
  end.

Definition then_ (f : raftHost DurableStorage -> res (option (raftHost DurableStorage))) (h : raftHost DurableStorage) :=
  match f h with Ok (Some h') => h' | _ => h end.

Definition host1 := then_ (raftHost_request (RT:=rt0) OnCampaign) host0.
Definition host2 := then_ (raftHost_receive (RT:=rt0)) host1.
Definition host3 := then_ (raftHost_handle None) host2.
Definition host4 := then_ (raftHost_advance (RT:=rt0)) host3.
Definition host5 := then_ (raftHost_receive (RT:=rt0)) host4.
Definition host6 := then_ (raftHost_handle None) host5.

Ltac turn_ok_closed :=
  intros _; split; [apply raftLog_okb_spec; vm_compute; reflexivity|vm_compute; discriminate].

Lemma host_run6 : rtc (host_step (RT:=rt0)) host0 host6.
Proof.
  eapply rtc_l; [apply (hs_request (RT:=rt0) OnCampaign host0 host1); [done|turn_ok_closed|vm_compute; reflexivity]|].
  eapply rtc_l; [apply (hs_receive (RT:=rt0) host1 host2); [turn_ok_closed|vm_compute; reflexivity]|].
  eapply rtc_l; [apply (hs_handle (RT:=rt0) host2 host3); vm_compute; reflexivity|].
  eapply rtc_l; [apply (hs_advance (RT:=rt0) host3 host4); vm_compute; reflexivity|].
  eapply rtc_l; [apply (hs_receive (RT:=rt0) host4 host5); [turn_ok_closed|vm_compute; reflexivity]|].
  apply rtc_once. apply (hs_handle (RT:=rt0) host5 host6). vm_compute. reflexivity.
Qed.

Lemma applies_in_order_witness :
  h_effects host6 = [Apply (mkToApply [ [] ] 1)] /\
  exists done, contig (l_applied (r_raftLog (n_r (h_n host0))) + 1) done /\
    Forall (was_committed (RT:=rt0) host0 host6) done /\ applied_data (h_effects host6) = e_Data <$> done /\
    applied_thru (l_applied (r_raftLog (n_r (h_n host0)))) (h_effects host6) =
      l_applied (r_raftLog (n_r (h_n host0))) + len done.
Proof.
  split; [vm_compute; reflexivity|].
  refine (applies_in_order (RT:=rt0) cfg1 host0 host6 _ host_run6). vm_compute. reflexivity.
Defined.

(** The [Ready] after the campaign of [host1]. *)
Definition ready1 : Ready := match node_ready (h_n host1) with Ok rd => rd | Panic _ => Ready0 end.
Definition storage1 : DurableStorage :=
  match handleBatch None ready1 (node_storage (h_n host1)) with Ok (s, _, _) => s | Panic _ => empty_durable end.

Lemma ready_is_durable_witness :
  d_hd storage1 = mkHard 1 1 0 /\ d_hd storage1 = Raft_HardState (n_r (h_n host1)).
Proof.
  split; [vm_compute; reflexivity|].
  refine (proj1 (ready_is_durable None (h_n host1) ready1 storage1 [] None _ _ _ _)).
  - vm_compute. reflexivity.
  - split; [intros h; vm_compute; discriminate|vm_compute; discriminate].
  - apply raftLog_okb_spec. vm_compute. reflexivity.
  - vm_compute. reflexivity.
Defined.

(** ** The life of a put, and of a read *)

Section servers.
Context {SM : Type} `{!StateMachine SM} `{!StateMachineSpec SM}.
Implicit Types s : Server SM.

(** Success is put into the channel that is registered under [id], if there is one, and
    nothing into other channels. *)
Definition told_success (id : Z) s s' : Prop :=
  forall c, wl_chans (sv_w s') !! c =
    if bool_decide (wl_m (sv_w s) !! id = Some c) then Some [AnyNil] else wl_chans (sv_w s) !! c.

(** C23: a put of a key and value below 4 GiB registers a channel under a request id and
    is proposed as an entry with that id.  A server that applies the entry has the value
    under the key.  If the state machine does not make it wait, it then tells success to
    whoever is registered under the id on that server, and to nobody else; if it waits,
    it has told nobody, and does the same when the put has returned.  On the proposing
    server, as long as the registration stands, that is the handler of this put. *)
Theorem put_applied key value s :
  server_ok s -> len key < 2 ^ 32 -> len value < 2 ^ 32 ->
  exists ch id data s1, Server_proposePut key value s = Ok (ch, Some (id, data), s1) /\ server_ok s1 /\
    wl_m (sv_w s1) !! id = Some ch /\ sv_sm s1 = sv_sm s /\ put_result AnyNil = Ok None /\
    forall s2, server_ok s2 -> exists w s3, Server_applyEntry data s2 = Ok (w, s3) /\ server_ok s3 /\
      (forall k, sm_view (sv_sm s3) k = if decide (k = key) then Some value else sm_view (sv_sm s2) k) /\
      match w with
      | None => told_success id s2 s3
      | Some p => sm_blocked key (sv_sm s3) = true /\ sv_w s3 = sv_w s2 /\
          forall s4, server_ok s4 -> exists s5, Server_putReturned p [] s4 = Ok (None, s5) /\ told_success id s4 s5
      end.
Proof.
  intros Hok Hk Hv. destruct (proposePut_data key value s Hk Hv) as (enc & _ & Hdec & Hp).
  do 4 eexists. split; [exact Hp|].
  split; [split; [by apply wait_ok_Register, Hok|by destruct Hok as (_ & ? & ?)]|].
  split; [simpl; by rewrite lookup_insert_eq|]. split; [done|]. split; [done|]. intros s2 Hok2.
  destruct (applyEntry_put (sv_reqIDGen s +u 1) key value enc s2 Hok2) as (sm & _ & Hok3 & Hsm & Hap);
    [apply wrap64_range|done|].
  destruct (sm_blocked key sm) eqn:Eb; rewrite Hap.
  - eexists _, _. split; [done|]. split; [done|]. split; [done|]. split; [done|]. split; [done|]. intros s4 Hok4.
    destruct (Server_trigger_ok (sv_reqIDGen s +u 1) AnyNil s4 Hok4) as (s5 & H5 & _ & _ & _ & _ & _ & Hch).
    exists s5. unfold Server_putReturned. simpl. by rewrite H5.
  - destruct (Server_trigger_ok (sv_reqIDGen s +u 1) AnyNil _ Hok3) as (s5 & H5 & Hok5 & Hsm5 & _ & _ & _ & Hch).
    rewrite H5. exists None, s5. split; [done|]. split; [done|]. by rewrite Hsm5.
Qed.

(** C24: on a state machine that keeps its contract ([StateMachineSpec]: a put updates
    the map before it waits, and a get or put does not panic) the apply loop does not
    panic, and stops inside a batch only in a put that waits.  What a whole batch does to
    the map depends on nothing but the batch: two servers whose state machines hold the
    same map (and may otherwise differ, also in who is waiting on them, and in which puts
    have to wait and what else the server does meanwhile) hold the same map after the
    batch, and answer a get alike. *)
Theorem replicas_agree ap req s1 s2 s1' s2' :
  server_ok s1 -> server_ok s2 -> (forall k, sm_view (sv_sm s1) k = sm_view (sv_sm s2) k) ->
  (exists w t, Server_applyBatch ap s1 = Ok (w, t) /\ server_ok t /\
     match w with None => batch_run (ta_data ap) s1 t | Some (p, _) => sm_blocked (ip_key p) (sv_sm t) = true end) /\
  (batch_run (ta_data ap) s1 s1' -> batch_run (ta_data ap) s2 s2' ->
    server_ok s1' /\ server_ok s2' /\ (forall k, sm_view (sv_sm s1') k = sm_view (sv_sm s2') k) /\
    exists resp t1 t2, Server_handleGet None req s1' = Ok (resp, t1) /\ Server_handleGet None req s2' = Ok (resp, t2)).
Proof.
  intros H1 H2 He. split.
  { destruct (applyLoop_total (ta_data ap) s1 H1) as (w & t & done & Hl & Hok & _ & _ & _ & Hb). exists w, t.
    split; [exact Hl|]. split; [done|]. destruct w as [[p rest]|]; [by eapply Hb|by apply batch_done]. }
  intros R1 R2. destruct (batch_run_effect _ _ _ R1 H1) as [O1 V1], (batch_run_effect _ _ _ R2 H2) as [O2 V2].
  assert (forall k, sm_view (sv_sm s1') k = sm_view (sv_sm s2') k) as Hv by (intros k; rewrite V1, V2; by apply batch_effect_ext).
  split_and!; try done.
  destruct (handleGet_spec req s1' O1) as (t1 & _ & _ & G1), (handleGet_spec req s2' O2) as (t2 & _ & _ & G2).
  rewrite Hv in G1. do 3 eexists. by split.
Qed.

End servers.

(** The channel on which a read waits for its index is closed at once if the
    apply loop has reported the index, and otherwise by the next report exactly if
    that report reaches the index. *)
Theorem read_wait i tl :
  time_ok tl ->
  let '(c, tl1) := timeList_Wait i tl in
  (chan_closed c tl1 = true <-> i <= lastTriggerDeadline tl) /\
  forall d, exists tl2, timeList_Trigger d tl1 = Ok tl2 /\
    (chan_closed c tl2 = true <-> i <= lastTriggerDeadline tl \/ i <= d).
Proof. apply wait_until_due. Qed.

(** ** Wire formats *)

(** A request or response that encodes is decoded to itself (the sequence
    number of a request other than a put is not transmitted). *)
Theorem message_roundtrip req resp b b' :
  request_wf req -> response_wf resp -> EncodeRequest req = inr b -> EncodeResponse resp = inr b' ->
  DecodeRequest b = inr (mkRequest (q_Cmd req) (q_Key req) (q_Value req)
                           (if q_Cmd req =? CmdPut then q_Seq req else 0)) /\
  DecodeResponse b' = inr resp.
Proof. intros H1 H2 E1 E2. split; [by apply DecodeRequest_Encode|by apply DecodeResponse_Encode]. Qed.

(** A reader gets exactly the payloads a writer wrote, in order, as long as they
    are within its limit; if the stream ends inside a further frame it reports an
    error after them and never a payload. *)
Theorem frames_roundtrip ps p n end_ max readDL writeDL w :
  Forall (fun p => len p <= max /\ len p < 2 ^ 32) ps -> 0 < max -> len p < 2 ^ 32 -> f_out w = [] ->
  (n < length (PutUint32 (len p) ++ p))%nat ->
  let stream := f_out (write_many ps w) ++ take n (PutUint32 (len p) ++ p) in
  exists e, (read_many (S (length ps)) (mkFramer stream end_ [] max readDL writeDL)).1 = (inr <$> ps) ++ [inl e].
Proof.
  intros Hps Hpos Hp Hw Hn stream. apply (read_many_torn ps p n); try done.
  unfold stream. simpl. rewrite write_many_wire, Hw; [done|].
  eapply Forall_impl; [exact Hps|]. by intros q [_ ?].
Qed.

(** ** Witnesses *)

Definition server0 : Server (gmap bytes bytes) := mkServer ∅ newWait NewTimeList 0 empty_durable.

Lemma server0_ok : server_ok server0.
Proof. split_and!; [apply wait_ok_new|apply time_ok_new|done]. Qed.

Definition key_a : bytes := PutUint8 97.
Definition key_b : bytes := PutUint8 98.

Lemma put_applied_witness :
  exists ch id data s1, Server_proposePut key_a a_write server0 = Ok (ch, Some (id, data), s1) /\
    exists w s3, Server_applyEntry data s1 = Ok (w, s3) /\ sm_view (sv_sm s3) key_a = Some a_write.
Proof.
  destruct (put_applied key_a a_write server0 server0_ok eq_refl eq_refl)
    as (ch & id & data & s1 & Hp & Hok1 & _ & _ & _ & Hap).
  exists ch, id, data, s1. split; [exact Hp|]. destruct (Hap s1 Hok1) as (w & s3 & H3 & _ & Hg & _).
  exists w, s3. exact (conj H3 (Hg key_a)).
Defined.

(** A map whose puts wait as long as it is busy. *)
Record busyMap : Type := mkBusy {
  bm_map : gmap bytes bytes;
  bm_busy : bool
}.

#[export] Instance busy_StateMachine : StateMachine busyMap := {
  sm_Get := fun k sm => (Ok (bm_map sm !! k), sm);
  sm_PutAsync := fun k v sm => (Ok tt, mkBusy (<[ k := v ]> (bm_map sm)) (bm_busy sm));
  sm_blocked := fun _ sm => bm_busy sm
}.

#[export] Instance busy_StateMachineSpec : StateMachineSpec busyMap.
Proof.
  refine {| sm_good := fun _ => True; sm_view := fun sm k => bm_map sm !! k |}.
  - intros k sm _. by exists sm.
  - intros k v sm _. eexists. split; [done|]. split; [done|]. intros k'. case_decide as H; [subst; apply lookup_insert_eq|].
    by apply lookup_insert_ne.
Defined.

Definition put_request : Request := mkRequest CmdPut key_a a_write 0.

Definition put_data (id : Z) : bytes :=
  match EncodeRequest put_request with inr b => marshalEnvelope id b | inl _ => [] end.

Definition two_entries : toApply := mkToApply [ []; put_data 4 ] 2.

Definition busy_replica (busy : bool) : Server busyMap := mkServer (mkBusy ∅ busy) newWait NewTimeList 0 empty_durable.

Lemma busy_replica_ok busy : server_ok (busy_replica busy).
Proof. split_and!; [apply wait_ok_new|apply time_ok_new|done]. Qed.

(** What the batch makes of it. *)
Definition busy_replica' (busy : bool) : Server busyMap :=
  mkServer (mkBusy {[ key_a := a_write ]} busy) newWait NewTimeList 0 empty_durable.

Lemma idle_batch : batch_run (ta_data two_entries) (busy_replica false) (busy_replica' false).
Proof. apply batch_done. vm_compute. reflexivity. Qed.

(** ... where a request has been given an id while the put waited. *)
Definition busy_replica'' : Server busyMap := (busy_replica' false) <| sv_reqIDGen := 9 |>.

Lemma busy_batch : batch_run (ta_data two_entries) (busy_replica true) busy_replica''.
Proof.
  apply (batch_waits _ _ (mkInPut 4 key_a) [] (busy_replica' true) busy_replica'' busy_replica'').
  - vm_compute. reflexivity.
  - split; [split_and!; [apply wait_ok_new|apply time_ok_new|done]|done].
  - reflexivity.
  - vm_compute. reflexivity.
  - apply batch_done. reflexivity.
Qed.

(** One server applies the batch at once, the other has to wait in the put. *)
Lemma replicas_agree_witness :
  (forall k, sm_view (sv_sm (busy_replica' false)) k = sm_view (sv_sm busy_replica'') k) /\
  exists resp t1 t2, Server_handleGet None (mkRequest CmdGet key_a [] 0) (busy_replica' false) = Ok (resp, t1) /\
    Server_handleGet None (mkRequest CmdGet key_a [] 0) busy_replica'' = Ok (resp, t2).
Proof.
  exact (proj2 (proj2 (proj2 (replicas_agree two_entries (mkRequest CmdGet key_a [] 0) (busy_replica false) (busy_replica true)
    (busy_replica' false) busy_replica'' (busy_replica_ok false) (busy_replica_ok true) (fun _ => eq_refl)) idle_batch busy_batch))).
Defined.

Lemma read_wait_witness :
  let '(c, tl1) := timeList_Wait 3 NewTimeList in
  forall d, exists tl2, timeList_Trigger d tl1 = Ok tl2 /\ (chan_closed c tl2 = true <-> 3 <= 0 \/ 3 <= d).
Proof. exact (proj2 (read_wait 3 NewTimeList time_ok_new)). Defined.

Definition value_response : Response := mkResponse StatusOK a_write 0.

Lemma message_roundtrip_witness :
  exists b b', EncodeRequest put_request = inr b /\ EncodeResponse value_response = inr b' /\
    DecodeRequest b = inr put_request /\ DecodeResponse b' = inr value_response.
Proof.
  do 2 eexists. split; [reflexivity|]. split; [reflexivity|].
  exact (message_roundtrip put_request value_response _ _ ltac:(split; split; [discriminate|reflexivity|discriminate|reflexivity])
    ltac:(split; split; [discriminate|reflexivity|discriminate|reflexivity]) eq_refl eq_refl).
Defined.

Lemma frames_roundtrip_witness :
  exists e, (read_many 3 (mkFramer (f_out (write_many [key_a; a_write] (NewFramer [] ErrEOF false false)) ++
      take 2 (PutUint32 (len key_b) ++ key_b)) ErrEOF [] 100 false false)).1 = (inr <$> [key_a; a_write]) ++ [inl e].
Proof.
  refine (frames_roundtrip [key_a; a_write] key_b 2 ErrEOF 100 false false (NewFramer [] ErrEOF false false) _ _ _ _ _);
    [|reflexivity|reflexivity|reflexivity|vm_compute; lia].
  repeat constructor; vm_compute; reflexivity || discriminate.
Defined.
