(* ===== verification/CallTheorems.v ===== *)
(** * CallTheorems: calls are answered and a host can be stopped

    Theorems about the goroutines of Calls. *)

From S2P Require Export Calls Scenarios.

Section calls.
Context {RT : Runtime} {St : Type} {SS : Storage St}.
Implicit Types p : procs St.

(** A host around a running node, before any call. *)
Definition procs_new (p : procs St) : Prop :=
  h_phase (p_h p) = Idle /\ p_started p = false /\ p_stopc p = false /\ p_done p = false /\ p_errc p = [] /\
  p_stops p = 0%nat /\ p_nodeStopc p = false /\ p_run p = true /\ p_calls p = ∅ /\ p_served p = [].

Lemma procs_new_ok p : procs_new p -> procs_ok p.
Proof.
  intros (Hh & Hs & Hc & Hd & He & Hst & Hn & Hr & Hca & Hse).
  split; rewrite ?Hs, ?Hc, ?Hd, ?He, ?Hst, ?Hn, ?Hr, ?Hca, ?Hse; try done.
  - apply NoDup_nil_2.
  - intros x Hx. by inversion Hx.
  - unfold phase_ok. by rewrite Hh.
Qed.

Lemma psteps_ok p p' : rtc pstep p p' -> procs_ok p -> procs_ok p'.
Proof. induction 1 as [|a b c H _ IH]; [done|]. intros Ha. by eapply IH, pstep_ok. Qed.

(** A turn of [run] for a request never waits. *)
Lemma request_turn ev (n : node St) :
  is_request ev -> match node_turn ev n with Ok (Some (_, Reply _)) | Panic _ => True | _ => False end.
Proof.
  intros Hev. unfold node_turn. destruct (node_prepare n) as [n1|]; [|done]. simpl.
  destruct ev; try done; simpl.
  - by destruct (Raft_Propose data (n_r n1)) as [[r e]|].
  - by destruct (Raft_Step m (n_r n1)) as [[r e]|].
  - by destruct (Raft_Campaign (n_r n1)) as [[r e]|].
  - by destruct (Raft_ReadIndex ctx (n_r n1)) as [[r e]|].
Qed.

(** The step can be taken, unless it panics, which ends the process. *)
Definition enabled (a : proc_action) (p : procs St) : Prop :=
  match proc_step a p with Ok None => False | _ => True end.

(** C17: whatever the goroutines around a node do, it takes each request at most once, and
    a call returns what the node answered to it: its own request's answer, a refusal of a
    local message, or the error of a context that is done.  No call is stuck: while [run]
    runs it can take an offered request, a call whose request was taken can return, and
    so can a call whose context is done.  Once [run] has returned no request is taken. *)
Theorem calls_answered p0 p :
  procs_new p0 -> rtc pstep p0 p ->
  NoDup (fst ∘ fst <$> p_served p) /\
  forall id c, p_calls p !! id = Some c ->
  match c_pc c with
  | Returned (Result_ e) =>
      (id, c_req c, e) ∈ p_served p \/
      exists m, c_req c = OnStep m /\ IsLocalMsg (m_Type m) = true /\ e = Some errLocalMsg
  | Returned CtxErr => c_ctxDone c = true
  | Awaiting _ => (exists e, (id, c_req c, e) ∈ p_served p) /\ enabled (PCollect id) p
  | Offering => (enabled (PServe id) p <-> p_run p = true) /\ (c_ctxDone c = true -> enabled (PGiveUp id) p)
  end.
Proof.
  intros Hn Hr. destruct (psteps_ok _ _ Hr (procs_new_ok _ Hn)) as [Hcalls Hreq Honce _ _ _ _ _ _ _].
  split; [done|]. intros id c Hc. specialize (Hcalls id c Hc). unfold call_ok in Hcalls.
  destruct (c_pc c) as [|resp|[|e]] eqn:Epc; [| |done|].
  - split.
    + unfold enabled. simpl. unfold run_serve. rewrite Hc, Epc. destruct (p_run p); [|done]. split; [done|]. intros _.
      pose proof (request_turn (c_req c) (h_n (p_h p)) (Hreq id c Hc)) as Ht.
      destruct (node_turn _ _) as [[[n [|e|]]|]|]; done.
    + intros Hd. unfold enabled. simpl. unfold call_update. rewrite Hc. simpl. unfold call_giveUp. by rewrite Hd, Epc.
  - destruct Hcalls as (e & -> & He). split; [by exists e|].
    unfold enabled. simpl. unfold call_update. rewrite Hc. simpl. unfold call_collect. by rewrite Epc.
  - destruct Hcalls as [H|(m & ? & ? & ? & _)]; [by left|right]. by exists m.
Qed.

(** The steps that end the host's loop and a call of [Stop], from each place the loop may
    be at. *)
Definition shutdown_steps (p : procs St) : list proc_action :=
  if p_done p then [PStopReturn]
  else match h_phase (p_h p) with
       | Idle | Failed _ => [PLoopExit; PStopReturn]
       | Handled _ => [PLoopAdvance; PLoopExit; PStopReturn]
       | Received rd =>
           match handleBatch (Some O) rd (node_storage (h_n (p_h p))) with
           | Ok (_, _, None) => [PLoopHandle (Some O); PLoopAdvance; PLoopExit; PStopReturn]
           | _ => [PLoopHandle (Some O); PLoopExit; PStopReturn]
           end
       end.

(** [Stop] has returned [k] calls later and the node is told to stop. *)
Definition stopped (k : nat) (x : res (option (procs St))) : Prop :=
  match x with
  | Ok (Some p) => p_stops p = k /\ p_done p = true /\ p_nodeStopc p = true
  | Ok None => False
  | Panic _ => True
  end.

Lemma exit_steps p k :
  p_done p = false -> p_started p = true -> p_stopc p = true -> p_errc p = [] -> p_stops p = S k ->
  match h_phase (p_h p) with Idle | Failed _ => True | _ => False end ->
  stopped k (proc_run [PLoopExit; PStopReturn] p).
Proof.
  intros Hd Hst Hsc He Hk Hp. simpl. unfold loop_exit, loop_alive. rewrite Hd, Hst, Hsc, He. simpl.
  destruct (h_phase (p_h p)); try done; simpl; unfold Stop_return; simpl; by rewrite Hk.
Qed.

Lemma advance_steps p k :
  procs_ok p -> p_done p = false -> p_started p = true -> p_stopc p = true -> p_stops p = S k ->
  (exists rd, h_phase (p_h p) = Handled rd) ->
  stopped k (proc_run [PLoopAdvance; PLoopExit; PStopReturn] p).
Proof.
  intros Hok Hd Hst Hsc Hk [rd Hp]. pose proof Hok as [_ _ _ _ Hph _ Hns Hrun Herr _].
  assert (p_run p = true) as Hr.
  { destruct (p_run p) eqn:E; [done|]. specialize (Hns (Hrun eq_refl)). congruence. }
  change (stopped k (x ← loop_with true raftHost_advance p;
    match x with Some p => proc_run [PLoopExit; PStopReturn] p | None => Ok None end)).
  unfold loop_with, loop_alive. rewrite Hd, Hst, Hr. simpl. unfold raftHost_advance. rewrite Hp.
  unfold phase_ok in Hph. rewrite Hp in Hph. unfold node_turn, node_prepare. rewrite Hph. simpl. rewrite Hph.
  destruct (node_advance (h_n (p_h p))) as [n|]; [|done]. simpl.
  apply exit_steps; simpl; try done. by apply Herr.
Qed.

(** C18: a host that was started can always be stopped.  In whatever state the node, the
    host's loop and the calls are when [Stop] waits, at most four steps of the loop and
    of [Stop] itself end the loop, let [Stop] return and tell the node to stop; none of
    them waits for anything else. *)
Theorem stop_terminates p0 p k :
  procs_new p0 -> rtc pstep p0 p -> p_started p = true -> p_stops p = S k ->
  (length (shutdown_steps p) <= 4)%nat /\ stopped k (proc_run (shutdown_steps p) p).
Proof.
  intros Hn Hr Hst Hk. pose proof (psteps_ok _ _ Hr (procs_new_ok _ Hn)) as Hok.
  pose proof Hok as [_ _ _ _ Hph Hsc _ _ Herr _].
  assert (p_stopc p = true) as Hc by (apply Hsc; by rewrite Hk).
  unfold shutdown_steps. destruct (p_done p) eqn:Ed.
  { split; [simpl; lia|]. simpl. unfold Stop_return. rewrite Ed, Hk. simpl. done. }
  specialize (Herr eq_refl). destruct (h_phase (p_h p)) as [|rd|rd|e] eqn:Eh.
  - split; [simpl; lia|]. apply exit_steps; try done. by rewrite Eh.
  - set (steps := match handleBatch _ _ _ with Ok (_, _, None) => _ | _ => _ end).
    split; [subst steps; destruct (handleBatch _ _ _) as [[[st eff] [e|]]|]; simpl; lia|].
    assert (forall acts, proc_run (PLoopHandle (Some O) :: acts) p =
      x ← loop_with false (raftHost_handle (Some O)) p;
      match x with Some p => proc_run acts p | None => Ok None end) as Hrun.
    { intros acts. simpl. by rewrite Hc. }
    subst steps. destruct (handleBatch (Some O) rd (node_storage (h_n (p_h p)))) as [[[st eff] e]|] eqn:Eb.
    + assert (loop_with false (raftHost_handle (Some O)) p = Ok (Some (p <| p_h := (p_h p)
        <| h_n ::= node_set_storage st |> <| h_effects ::= fun l => l ++ eff |>
        <| h_phase := match e with None => Handled rd | Some e => Failed e end |> |>))) as Hh.
      { unfold loop_with, loop_alive. rewrite Ed, Hst. simpl. unfold raftHost_handle. by rewrite Eh, Eb. }
      destruct e as [e|]; rewrite Hrun, Hh; [apply exit_steps; done|].
      apply advance_steps; try done; [|by exists rd].
      eapply pstep_ok; [|exact Hok]. exists (PLoopHandle (Some O)). simpl. by rewrite Hc, Hh.
    + rewrite Hrun. unfold loop_with, loop_alive. rewrite Ed, Hst. simpl. unfold raftHost_handle. by rewrite Eh, Eb.
  - split; [simpl; lia|]. apply advance_steps; try done. by exists rd.
  - split; [simpl; lia|]. apply exit_steps; try done. by rewrite Eh.
Qed.

(** A host that was never started cannot be stopped: [Stop] waits for ever. *)
Theorem stop_needs_start p0 p :
  procs_new p0 -> rtc pstep p0 p -> p_started p = false -> p_nodeStopc p = false /\ ~ enabled PStopReturn p.
Proof.
  intros Hn Hr Hst. destruct (psteps_ok _ _ Hr (procs_new_ok _ Hn)) as [_ _ _ _ _ _ Hns _ _ Hd].
  assert (p_done p = false) as Ed by (destruct (p_done p); [by rewrite Hd in Hst|done]).
  split; [destruct (p_nodeStopc p); [by rewrite Hns in Ed|done]|].
  unfold enabled. simpl. unfold Stop_return. rewrite Ed. tauto.
Qed.

End calls.

(** ** A host of a cluster of one *)

Definition cfg_single : RaftHostConfig DurableStorage := mkHostConfig 1 [] (Some empty_durable) true 1 10.

Definition node_single : option (node DurableStorage * bool) :=
  ok_of (NewNode (RT:=rt0) (mkConfig 1 [] (Some empty_durable) 0 10 1)).

Definition single : procs DurableStorage :=
  match node_single with
  | Some (n, running) =>
      match newRaftHost cfg_single 0 (Some n) running with
      | inr p => p
      | inl _ => mkProcs (mkHost n [] 0 Idle []) 0 false false false [] 0 false running ∅ []
      end
  | None => mkProcs (mkHost (mkNode node1 0 None [] Ready0 false false) [] 0 Idle []) 0 false false false [] 0 false false ∅ []
  end.

Lemma single_new : procs_new single.
Proof. vm_compute. by split_and!. Qed.

(** The host is started, a goroutine campaigns and proposes, and [Stop] is called while
    the host has a [Ready] it has not handled; a local message is refused, and the last
    call is cancelled. *)
Definition busy_script : list proc_action :=
  [ PStart; PBegin 0 MCampaign; PServe 0; PLoopReady; PBegin 1 (MPropose a_write); PServe 1; PCollect 1;
    PBegin 2 (MStep hup); PBegin 3 (MReadIndex a_write); PCancel 3; PGiveUp 3; PStop ].

Definition busy : procs DurableStorage :=
  match proc_run (RT:=rt0) busy_script single with Ok (Some p) => p | _ => single end.

Lemma proc_run_steps {RT : Runtime} {St : Type} {SS : Storage St} acts (p p' : procs St) :
  proc_run acts p = Ok (Some p') -> rtc pstep p p'.
Proof.
  revert p. induction acts as [|a acts IH]; intros p; simpl; [by intros [= ->]|].
  intros (x & Hx & H)%bind_Ok. destruct x as [p1|]; [|done]. eapply rtc_l; [by exists a|by apply IH].
Qed.

Lemma busy_run : proc_run (RT:=rt0) busy_script single = Ok (Some busy).
Proof. vm_compute. reflexivity. Qed.

Lemma busy_steps : rtc (pstep (RT:=rt0)) single busy.
Proof. exact (proc_run_steps (RT:=rt0) busy_script single busy busy_run). Qed.

(** The proposal was answered; node and host may go on to collect call 0's answer. *)
Lemma calls_answered_witness :
  exists c1, p_calls busy !! 1%nat = Some c1 /\ c_pc c1 = Returned (Result_ None) /\
    ((1%nat, c_req c1, None) ∈ p_served busy \/
     exists m, c_req c1 = OnStep m /\ IsLocalMsg (m_Type m) = true /\ None = Some errLocalMsg).
Proof.
  exists (default node_Campaign (p_calls busy !! 1%nat)).
  assert (p_calls busy !! 1%nat = Some (default node_Campaign (p_calls busy !! 1%nat))) as Hc by (vm_compute; reflexivity).
  assert (c_pc (default node_Campaign (p_calls busy !! 1%nat)) = Returned (Result_ None)) as Hp by (vm_compute; reflexivity).
  split; [exact Hc|]. split; [exact Hp|].
  destruct (calls_answered (RT:=rt0) single busy single_new busy_steps) as [_ H].
  specialize (H 1%nat _ Hc). rewrite Hp in H. exact H.
Defined.

Lemma stop_terminates_witness :
  (length (shutdown_steps busy) <= 4)%nat /\
  stopped 0 (proc_run (RT:=rt0) (shutdown_steps busy) busy).
Proof.
  apply (stop_terminates (RT:=rt0) single busy 0%nat single_new busy_steps); vm_compute; reflexivity.
Defined.

Lemma stop_needs_start_witness :
  p_nodeStopc (raftHost_Stop single) = false /\ ~ enabled (RT:=rt0) PStopReturn (raftHost_Stop single).
Proof.
  apply (stop_needs_start (RT:=rt0) single (raftHost_Stop single) single_new); [|vm_compute; reflexivity].
  exact (proc_run_steps (RT:=rt0) [PStop] single (raftHost_Stop single) eq_refl).
Defined.
