(* ===== verification/TransportTheorems.v ===== *)
(** * TransportTheorems: what the transports promise *)

From S2P Require Export RaftTransportSpec RaftElect Session HostTheorems.

(** ** Requests over one connection *)

(** The bytes [s] arrive at a transport. *)
Definition receive_bytes (s : bytes) (t : MultiplexedTransport) : MultiplexedTransport :=
  t <| mx_framer ::= fun f => f <| f_in := s |> |>.

(** C27: A client that has [n] requests in flight at once, written one after the other,
    and a server that receives and answers them in turn: the server receives exactly
    the payloads, in order, and each request returns the response to it. *)
Theorem pipelined_requests ps rs client server :
  ps <> [] -> length rs = length ps ->
  client_ready (len ps) client -> f_out (mx_framer client) = [] -> f_out (mx_framer server) = [] ->
  0 < f_maxPayload (mx_framer client) < 2 ^ 32 -> 0 < f_maxPayload (mx_framer server) < 2 ^ 32 ->
  Forall (fits_frame (f_maxPayload (mx_framer server))) ps ->
  Forall (fits_frame (f_maxPayload (mx_framer client))) rs ->
  exists requests client1 server1 client2,
    request_all ps client = Some (requests, client1) /\ length requests = length ps /\
    serve_all rs (receive_bytes (f_out (mx_framer client1)) server) = Some (ps, server1) /\
    readLoop_turns (length rs) (receive_bytes (f_out (mx_framer server1)) client1) = Some client2 /\
    forall i id ch r, requests !! i = Some (id, ch) -> rs !! i = Some r ->
      exists client3, Request_wait GotResponse id ch client2 = Some (inr r, client3).
Proof.
  intros Hne Hl Hready Hco Hso Hcm Hsm Hps Hrs. pose proof Hready as [_ [H0 _] Hlt _ _].
  assert (Hfit : forall max l, max < 2 ^ 32 -> Forall (fits_frame max) l -> Forall (fits_frame (2 ^ 32 - 1)) l).
  { intros max l Hm Hf. eapply Forall_impl; [exact Hf|]. unfold fits_frame. lia. }
  destruct (request_all_spec ps client Hready) as (client1 & Hreq & Hok1 & Hloop1 & Hf1 & _ & Hpend); [eapply Hfit, Hps; lia|].
  set (reqs := numbered _ _ ps) in *.
  destruct (numbered_ids (mx_nextId client) (mx_nextCh client) ps H0 Hlt) as (Hnd & Hids & Hlen). fold reqs in Hnd, Hids, Hlen.
  assert (Hids' : Forall (fun id => 0 < id < 2 ^ 32) reqs.*1).
  { eapply Forall_impl; [exact Hids|]. simpl. lia. }
  destruct (serve_all_spec reqs.*1 ps rs [] (receive_bytes (f_out (mx_framer client1)) server)) as (server1 & Hserve & _ & Hout);
    try done; [by rewrite length_fmap|..].
  { eapply Forall_impl; [exact Hids'|]. unfold is_u32. simpl. lia. }
  { eapply Hfit, Hrs. lia. }
  { rewrite Hf1, app_nil_r. unfold set_field. cbn. by rewrite Hco. }
  unfold receive_bytes in Hout. unfold set_field in Hout. cbn in Hout. rewrite Hso in Hout. cbn [app] in Hout.
  assert (Hmax : f_maxPayload (mx_framer (receive_bytes (f_out (mx_framer server1)) client1)) = f_maxPayload (mx_framer client)).
  { unfold receive_bytes, set_field. cbn. by rewrite Hf1. }
  destruct (readLoop_turns_frames (zip_with tag reqs.*1 rs) [] (receive_bytes (f_out (mx_framer server1)) client1))
    as (client2 & Hturns & _ & _ & _ & _ & _ & Hansw).
  { by destruct Hok1. }
  { by apply Hloop1. }
  { by rewrite Hout, app_nil_r. }
  { unfold readable. rewrite Hmax. apply Forall_zip_with_tag; [|done]. lia. }
  { rewrite Hmax. lia. }
  exists reqs, client1, server1, client2. split_and!; try done.
  { rewrite <-Hturns. f_equal. rewrite length_zip_with, length_fmap. lia. }
  intros i id ch r Hi Hr. specialize (Hansw id ch). rewrite (first_answer_own _ rs i id r) in Hansw; try done.
  - destruct Hansw as [_ Hch]; [apply Hpend; by eapply list_elem_of_lookup_2|].
    unfold Request_wait. rewrite Hch. eexists. done.
  - by rewrite length_fmap, Hlen.
  - by rewrite list_lookup_fmap, Hi.
Qed.

Definition mux0 : MultiplexedTransport := NewMultiplexedTransport (NewFramer [] ErrEOF true true).

Lemma pipelined_requests_witness :
  exists requests client1 server1 client2,
    request_all [[Byte.x01]; [Byte.x02; Byte.x03]] mux0 = Some (requests, client1) /\ length requests = 2%nat /\
    serve_all [[Byte.x04]; [Byte.x05]] (receive_bytes (f_out (mx_framer client1)) mux0) = Some ([[Byte.x01]; [Byte.x02; Byte.x03]], server1) /\
    readLoop_turns 2 (receive_bytes (f_out (mx_framer server1)) client1) = Some client2 /\
    forall i id ch r, requests !! i = Some (id, ch) -> [[Byte.x04]; [Byte.x05]] !! i = Some r ->
      exists client3, Request_wait GotResponse id ch client2 = Some (inr r, client3).
Proof.
  apply (pipelined_requests [[Byte.x01]; [Byte.x02; Byte.x03]] [[Byte.x04]; [Byte.x05]] mux0 mux0); try done.
  - split; [apply mux_ok_new| |done|done|by left]. split; [done|]. by intros id ch.
  - repeat constructor; done.
  - repeat constructor; done.
Defined.

Lemma first_answer_zero frames : first_answer 0 frames = None.
Proof.
  induction frames as [|f frames IH]; [done|]. cbn [first_answer]. unfold answers. by rewrite andb_false_r.
Qed.

(** The id after 2^32 - 1 requests is 0, the id of a message that is no response:
    whatever the server sends, the request registered under it gets nothing. *)
Theorem wrapped_id_unanswered p t frames rest :
  mux_ok t -> Z.of_nat (size (mx_pending t)) < 2 ^ 32 -> mx_nextId t = 2 ^ 32 - 1 -> mx_pending t !! 0 = None ->
  mx_loop t = LoopReading -> f_in (mx_framer t) = wire frames ++ rest -> Forall (readable t) frames ->
  0 < f_maxPayload (mx_framer t) ->
  exists ch buf t1 t2, Request_register p t = Some (0, ch, buf, t1) /\ readLoop_turns (length frames) t1 = Some t2 /\
    mx_chans t2 !! ch = Some [] /\ forall id, Request_wait GotResponse id ch t2 = None.
Proof.
  intros Hok Hs Hid H0 Hl Hin Hr Hm.
  destruct (register_ok p t Hok Hs) as (id & t1 & Hreg & _ & _ & Hok1 & Hp1 & _ & Hf1 & Hl1).
  assert (id = 0) as ->.
  { unfold Request_register, allocateID in Hreg. cbn [allocateID_loop] in Hreg. rewrite Hid in Hreg.
    change (wrap32 (2 ^ 32 - 1 + 1)) with 0 in Hreg. rewrite H0 in Hreg. cbn [mbind option_bind] in Hreg.
    by apply some_ends in Hreg as [<- _]. }
  destruct (readLoop_turns_frames frames rest t1) as (t2 & Ht & _ & _ & _ & _ & _ & Ha); try done.
  - by rewrite Hl1.
  - by rewrite Hf1.
  - unfold readable in *. by rewrite Hf1.
  - by rewrite Hf1.
  - specialize (Ha 0 (mx_nextCh t)). rewrite first_answer_zero, Hp1, lookup_insert_eq in Ha.
    destruct (Ha eq_refl) as [_ Hc]. eexists _, _, t1, t2. split; [exact Hreg|]. split; [done|]. split; [done|].
    intros i. unfold Request_wait. by rewrite Hc.
Qed.

Lemma wrapped_id_unanswered_witness :
  exists ch buf t1 t2,
    Request_register [Byte.x01] (mux0 <| mx_nextId := 2 ^ 32 - 1 |> <| mx_loop := LoopReading |>
      <| mx_framer := NewFramer (wire [tag 0 [Byte.x02]]) ErrEOF true true |>) = Some (0, ch, buf, t1) /\
    readLoop_turns 1 t1 = Some t2 /\ mx_chans t2 !! ch = Some [] /\ forall id, Request_wait GotResponse id ch t2 = None.
Proof.
  refine (wrapped_id_unanswered [Byte.x01] _ [tag 0 [Byte.x02]] [] _ _ _ _ _ _ _ _); try done.
  repeat constructor; done.
Defined.

(** ** A client and the server *)

Section exchange.
Context {SM : Type} `{!StateMachine SM} `{!StateMachineSpec SM} {T : Type} `{!StreamTransport T} `{!StreamTransportSpec T}.

(** C28: A get of the client over an idle connection: the server takes it for the key; once the
    read is confirmed, it answers with what the state machine holds, and the client
    prints the value, or that there is none.  Afterwards both ends are idle again. *)
Theorem get_answered key timeout w client server (s : Server SM) :
  idle client -> idle server -> server_ok s -> w_setDL w = None -> w_flush w = None ->
  26 + len key <= f_maxPayload (st_framer server) ->
  (forall v, sm_view (sv_sm s) key = Some v -> 17 + len v <= f_maxPayload (st_framer client)) ->
  17 <= f_maxPayload (st_framer client) ->
  exists client1 server1 server2 s' client2,
    doGet_send None None key client = (None, client1) /\
    session_receive timeout None None None (mkSession (st_arrive (wrote client client1) server) Receiving) =
      Some (mkSession server1 (Getting (mkRequest CmdGet key [] 0))) /\
    session_get None w (mkSession server1 (Getting (mkRequest CmdGet key [] 0))) s =
      Ok (Some (mkSession server2 Receiving, s')) /\
    server_ok s' /\ (forall k, sm_view (sv_sm s') k = sm_view (sv_sm s) k) /\
    doGet_receive None (st_arrive (wrote server1 server2) client1) =
      (inr match sm_view (sv_sm s) key with Some v => PrintValue v | None => PrintNotFound end, client2) /\
    idle client2 /\ idle server2.
Proof.
  intros Hc Hs Hok Hw1 Hw2 Hk Hv H17.
  destruct (request_reaches (mkRequest CmdGet key [] 0) timeout client server) as (c1 & s1 & Hsend & Hc1 & Hm1 & Hrecv & Hs1 & _);
    [done|done|by left|done|cbn; change (len []) with 0; lia|].
  destruct (handleGet_spec (mkRequest CmdGet key [] 0) s Hok) as (s' & Hok' & Hview & Hget). cbn [q_Key] in Hget.
  set (resp := match sm_view (sv_sm s) key with Some v => _ | None => _ end) in Hget.
  destruct (response_reaches resp print_get c1 s1) as (s2 & c2 & Hwr & Hs2 & Hprint & Hc2); try done.
  { subst resp. destruct (sm_view (sv_sm s) key); [by left|by right]. }
  { subst resp. by destruct (sm_view (sv_sm s) key). }
  { rewrite Hm1. subst resp. destruct (sm_view (sv_sm s) key); [by apply Hv|]. cbn. change (len []) with 0. lia. }
  exists c1, s1, s2, s', c2. split; [done|]. split; [exact Hrecv|].
  unfold session_get. cbn [ss_state ss_t]. rewrite Hget. cbn. rewrite Hw1, Hw2, Hwr.
  split; [done|]. split; [done|]. split; [done|]. unfold doGet_receive. rewrite Hprint.
  split; [|done]. subst resp. by destruct (sm_view (sv_sm s) key).
Qed.

(** A put of the client: the server takes it for the pair to propose; when the
    proposal ends the client prints that it was applied, or that it failed, and the
    connection stays open. *)
Theorem put_answered key value timeout put w client server :
  idle client -> idle server -> w = mkWrites None None None None ->
  26 + len key + len value <= f_maxPayload (st_framer server) -> 17 <= f_maxPayload (st_framer client) ->
  exists client1 server1 server2 client2,
    doPut_send None None key value client = (None, client1) /\
    session_receive timeout None None None (mkSession (st_arrive (wrote client client1) server) Receiving) =
      Some (mkSession server1 (Putting (mkRequest CmdPut key value 0))) /\
    session_put put w (mkSession server1 (Putting (mkRequest CmdPut key value 0))) = Some (mkSession server2 Receiving) /\
    doPut_receive None (st_arrive (wrote server1 server2) client1) =
      (inr match put with None => PrintOK | Some _ => PrintServerError end, client2) /\
    idle client2 /\ idle server2.
Proof.
  intros Hc Hs -> Hk H17.
  destruct (request_reaches (mkRequest CmdPut key value 0) timeout client server) as (c1 & s1 & Hsend & Hc1 & Hm1 & Hrecv & Hs1 & _);
    [done|done|by right|done|done|].
  set (resp := mkResponse (match put with None => StatusOK | Some _ => StatusError end) [] 0).
  destruct (response_reaches resp print_put c1 s1) as (s2 & c2 & Hwr & Hs2 & Hprint & Hc2); try done.
  { subst resp. destruct put; [by right|by left]. }
  { rewrite Hm1. subst resp. cbn. change (len []) with 0. lia. }
  exists c1, s1, s2, c2. split; [done|]. split; [exact Hrecv|].
  unfold session_put, session_handled, session_write. cbn [ss_state ss_t w_setDL w_flush w_setDL' w_flush'].
  unfold doPut_receive. subst resp. destruct put; rewrite Hwr, Hprint; done.
Qed.

End exchange.

Lemma mux0_idle : idle mux0.
Proof. by split. Qed.

(** A server whose state machine holds one pair. *)
Definition server_a : Server (gmap bytes bytes) := server0 <| sv_sm := {[ key_a := a_write ]} |>.

Lemma get_answered_witness :
  exists client1 server1 server2 s' client2,
    doGet_send None None key_a mux0 = (None, client1) /\
    session_receive 1 None None None (mkSession (st_arrive (wrote mux0 client1) mux0) Receiving) =
      Some (mkSession server1 (Getting (mkRequest CmdGet key_a [] 0))) /\
    session_get None (mkWrites None None None None) (mkSession server1 (Getting (mkRequest CmdGet key_a [] 0))) server_a =
      Ok (Some (mkSession server2 Receiving, s')) /\
    doGet_receive None (st_arrive (wrote server1 server2) client1) = (inr (PrintValue a_write), client2).
Proof.
  destruct (get_answered (SM:=gmap bytes bytes) (T:=MultiplexedTransport) key_a 1 (mkWrites None None None None) mux0 mux0 server_a)
    as (c1 & s1 & s2 & s' & c2 & H1 & H2 & H3 & _ & _ & H4 & _).
  - apply mux0_idle.
  - apply mux0_idle.
  - destruct server0_ok as (Hw & Ht & _). by split_and!.
  - done.
  - done.
  - vm_compute. discriminate.
  - intros v Hv. vm_compute in Hv. injection Hv as <-. vm_compute. discriminate.
  - vm_compute. discriminate.
  - exists c1, s1, s2, s', c2. split; [exact H1|]. split; [exact H2|]. split; [exact H3|]. exact H4.
Defined.

Lemma put_answered_witness :
  exists client1 server1 server2 client2,
    doPut_send None None key_a a_write mux0 = (None, client1) /\
    session_receive 1 None None None (mkSession (st_arrive (wrote mux0 client1) mux0) Receiving) =
      Some (mkSession server1 (Putting (mkRequest CmdPut key_a a_write 0))) /\
    session_put (Some ErrProposalDropped) (mkWrites None None None None)
      (mkSession server1 (Putting (mkRequest CmdPut key_a a_write 0))) = Some (mkSession server2 Receiving) /\
    doPut_receive None (st_arrive (wrote server1 server2) client1) = (inr PrintServerError, client2).
Proof.
  destruct (put_answered (T:=MultiplexedTransport) key_a a_write 1 (Some ErrProposalDropped) (mkWrites None None None None) mux0 mux0)
    as (c1 & s1 & s2 & c2 & H1 & H2 & H3 & H4 & _).
  - apply mux0_idle.
  - apply mux0_idle.
  - done.
  - vm_compute. discriminate.
  - vm_compute. discriminate.
  - exists c1, s1, s2, c2. done.
Defined.

(** ** Messages between nodes *)

(** C26: what a node sends to a peer, and what the peer's node receives.  The connections
    of the peer carry runs of messages that, put together, are a part of what was given
    to [Send] for it, in that order: messages are lost, never reordered, repeated or
    sent to another node.  Whatever part of a connection's bytes arrives, and whatever
    else the receiver does, it processes a prefix of the run.  If all bytes arrive, no
    message of the run is above the frame limit of 16 MiB when marshalled, and the
    receiver is accepting and not stopped, reading to the end processes the whole run. *)
Theorem raft_messages_in_order {PB : Proto} {PS : ProtoSpec PB} a1 l1 s0 es s id p :
  NewRaftTransport true a1 l1 true = inr s0 -> rt_run es s0 = Some s -> rt_peers s !! id = Some p ->
  exists runs, mjoin runs ++ tp_msgc p `sublist_of` sends_to id es /\ length runs = length (peer_conns p) /\
    forall i f run g a2 l2 r0 es1 r1,
      peer_conns p !! i = Some f -> runs !! i = Some run -> f_in g `prefix_of` f_out f ->
      NewRaftTransport true a2 l2 true = inr r0 -> rt_run es1 r0 = Some r1 ->
      (forall es2 r2, rt_run (RtAccept (Some g) :: es2) r1 = Some r2 -> processed (rt_nextConn r1) r2 `prefix_of` run) /\
      (f_in g = f_out f -> f_maxPayload g = DefaultMaxFrameSize ->
       Forall (fun m => forall data, proto_Marshal m = inr data -> len data <= DefaultMaxFrameSize) run ->
       rt_stopped r1 = false -> rt_accepting r1 = true ->
       exists r2, rt_run (RtAccept (Some g) :: replicate (length run) (RtRead (rt_nextConn r1))) r1 = Some r2 /\
         processed (rt_nextConn r1) r2 = run).
Proof.
  intros Hnew Hrun Hp. apply new_transport in Hnew as [Hnew _].
  destruct (rt_run_peers es s0 s _ Hrun Hnew id p Hp) as (runs & Hruns & Hsub).
  exists runs. split; [done|]. split; [by apply Forall2_length in Hruns|].
  intros i f run g a2 l2 r0 es1 r1 Hi Hr Hg Hr0 Hr1. pose proof (Forall2_lookup_lr _ _ _ _ _ _ Hruns Hi Hr) as Hcarry.
  apply new_transport in Hr0 as [_ Hn0]. pose proof (rt_run_numbered es1 r0 r1 Hr1 Hn0) as Hn1. split.
  - intros es2 r2 Hr2. cbn [rt_run rt_step] in Hr2. destruct (acceptLoop (Some g) r1) as [r1'|] eqn:Ha; [|done].
    pose proof (accept_reads f run g r1 r1' Hcarry Hg (numbered_unused r1 Hn1) Ha) as Hreads.
    destruct (rt_run_reads es2 _ _ _ _ Hr2 Hreads) as (_ & rest & Hrest & _). by exists rest.
  - intros Hin Hmax Hsizes Hst Hacc. destruct Hcarry as (datas & Hd & Hout).
    apply (accept_reads_all run datas g r1); try done; [|by rewrite Hmax|by rewrite Hin].
    rewrite Hmax. clear -Hd Hsizes. induction Hd as [|m data run datas [Hm _] Hd IH]; [constructor|].
    apply Forall_cons in Hsizes as [Hs1 Hs2]. constructor; [by apply Hs1|by apply IH].
Qed.

(** An encoding of the appends of one entry: seven words and the data. *)
Definition append1 (from to term index : Z) (e : Entry) : Message :=
  (mkmsg MsgApp) <| m_From := from |> <| m_To := to |> <| m_Term := term |> <| m_Index := index |> <| m_Entries := [e] |>.

Definition encode1 (m : Message) : bytes :=
  let e := default (mkEntry 0 0 []) (head (m_Entries m)) in
  PutUint64 (m_From m) ++ PutUint64 (m_To m) ++ PutUint64 (m_Term m) ++ PutUint64 (m_Index m) ++
  PutUint64 (e_Index e) ++ PutUint64 (e_Term e) ++ e_Data e.

Definition word (i : Z) (data : bytes) : Z := Uint64 (slice_from data (8 * i)).

Definition decode1 (data : bytes) : Message :=
  append1 (word 0 data) (word 1 data) (word 2 data) (word 3 data) (mkEntry (word 4 data) (word 5 data) (slice_from data 48)).

#[local] Instance appends : Proto := {|
  proto_Marshal m := if decide (decode1 (encode1 m) = m) then inr (encode1 m) else inl (Errorf "not an append of one entry");
  proto_Unmarshal data := inr (decode1 data)
|}.

#[local] Instance appends_spec : ProtoSpec appends.
Proof. split. cbn. intros m data. case_decide as Hm; [|done]. intros [= <-]. by rewrite Hm. Qed.

(** Two messages for peer 2 and one for a node that is not a peer; the peer is dialed
    at the second attempt and the messages written. *)
Definition msg7 : Message := append1 1 2 7 0 (mkEntry 1 7 [Byte.x01]).
Definition msg8 : Message := append1 1 2 8 1 (mkEntry 2 8 []).

Definition appends_run : list rt_event :=
  [RtAddPeer 2; RtPeer 2 (PeerDial false (f64 0)); RtSend [msg7; append1 1 3 7 0 (mkEntry 1 7 []); msg8];
   RtPeer 2 (PeerBackoff BackoffTimer); RtPeer 2 (PeerDial true (f64 0));
   RtPeer 2 (PeerWrite (WriteMsg None)); RtPeer 2 (PeerWrite (WriteMsg None))].

Definition appends_wire : bytes := wire [encode1 msg7; encode1 msg8].

Definition transport0 : RaftTransport := mkRaftTransport ∅ false false ∅ 0 false false [].

Lemma raft_messages_in_order_witness :
  exists runs run, mjoin runs `sublist_of` [msg7; msg8] /\ runs = [run] /\
    forall es2 r2,
      rt_run (RtAccept (Some (NewFramer appends_wire ErrEOF true true)) :: es2)
        (transport0 <| rt_started := true |> <| rt_accepting := true |>) = Some r2 ->
      processed 0 r2 `prefix_of` run.
Proof.
  destruct (rt_run appends_run transport0) as [s|] eqn:Es; [|by vm_compute in Es].
  destruct (rt_peers s !! 2) as [p|] eqn:Ep; [|exfalso; revert Ep; revert Es; vm_compute; by intros [= <-]].
  assert (Hq : tp_msgc p = [] /\ f_out <$> peer_conns p = [appends_wire]).
  { revert Es Ep. vm_compute. intros [= <-]. by intros [= <-]. }
  destruct Hq as [Hq Hc]. destruct (peer_conns p) as [|f [|f' fs]] eqn:Ec; try done. injection Hc as Hf.
  destruct (raft_messages_in_order true false transport0 appends_run s 2 p eq_refl Es Ep) as (runs & Hsub & Hlen & Hdel).
  rewrite Hq, app_nil_r in Hsub. rewrite Ec in Hlen. destruct runs as [|run [|run' runs]]; try done.
  exists [run], run. split; [done|]. split; [done|].
  apply (Hdel 0%nat f run (NewFramer appends_wire ErrEOF true true) true false transport0 [RtStart None]);
    [by rewrite Ec|done|by rewrite Hf|done|done].
Defined.

(** ** What the frame limit does to replication *)

Definition data_size (ents : list Entry) : Z := foldr (fun e n => len (e_Data e) + n) 0 ents.

(** C40: [sendAppend] puts every entry from the peer's next index on into one message.
    If their data is above the 16 MiB a frame may have (an encoding is no shorter than
    the data in it), then whatever connection carries the message, the receiver never
    processes it, nor what follows it on the connection. *)
Theorem large_append_starves {PB : Proto} {PS : ProtoSpec PB} {St} {SS : Storage St} {SP : StorageSpec St}
  (r : Raft St) to_ p :
  (forall m data, proto_Marshal m = inr data -> data_size (m_Entries m) <= len data) ->
  raftLog_wf (r_raftLog r) -> ProgressTracker_Progress to_ (r_trk r) = Some p ->
  0 < NextIndex p -> log_base (r_raftLog r) <= NextIndex p - 1 <= log_last (r_raftLog r) ->
  DefaultMaxFrameSize < data_size (slice (log_view (r_raftLog r)) (NextIndex p - 1 - log_base (r_raftLog r))
                                     (len (log_view (r_raftLog r)))) ->
  exists m r', Raft_sendAppend to_ r = Ok r' /\ r_messages r' = r_messages r ++ [m] /\ m_To m = to_ /\
    forall f run g a l r0 es1 r1 es2 r2,
      carries f run -> f_in g `prefix_of` f_out f -> f_maxPayload g = DefaultMaxFrameSize ->
      NewRaftTransport true a l true = inr r0 -> rt_run es1 r0 = Some r1 ->
      rt_run (RtAccept (Some g) :: es2) r1 = Some r2 ->
      m ∉ processed (rt_nextConn r1) r2.
Proof.
  intros Hsize Hwf Hp Hpos Hb Hbig. destruct (sendAppend_spec to_ p r Hwf Hp Hpos Hb) as (t & _ & Hsend).
  eexists _, _. split; [exact Hsend|]. split; [done|]. split; [done|].
  intros f run g a l r0 es1 r1 es2 r2 Hcarry Hg Hmax Hr0 Hr1 Hr2 Hin.
  apply new_transport in Hr0 as [_ Hn0]. pose proof (rt_run_numbered es1 r0 r1 Hr1 Hn0) as Hn1.
  cbn [rt_run rt_step] in Hr2. destruct (acceptLoop (Some g) r1) as [r1'|] eqn:Ha; [|done].
  pose proof (accept_reads f run g r1 r1' Hcarry Hg (numbered_unused r1 Hn1) Ha) as Hreads.
  pose proof (accept_small g r1 r1' (numbered_unused r1 Hn1) Ha) as Hsmall.
  pose proof (rt_run_small es2 _ _ _ _ _ Hr2 Hreads Hsmall) as [_ Hs].
  destruct (rt_run_reads es2 _ _ _ _ Hr2 Hreads) as (_ & rest & Hrun & _).
  destruct (carries_encoded f run (append_msg r to_ (NextIndex p) t) Hcarry) as [data Hdata];
    [rewrite Hrun; apply elem_of_app; by left|].
  rewrite Forall_forall in Hs. pose proof (Hs _ Hin data Hdata) as Hle. apply Hsize in Hdata.
  change (m_Entries _) with (slice (log_view (r_raftLog r)) (NextIndex p - 1 - log_base (r_raftLog r))
    (len (log_view (r_raftLog r)))) in Hdata. rewrite Hmax in Hle. lia.
Qed.

(** Node 1, just elected, is given a proposal with data [d]. *)
Definition large_leader (d : bytes) : DRaft := after_step (propose d) elected1.

Lemma large_leader_log d : raftLog_okb (r_raftLog (large_leader d)) = true.
Proof. vm_compute. reflexivity. Qed.

Lemma large_leader_entries d : exists p,
  ProgressTracker_Progress 3 (r_trk (large_leader d)) = Some p /\ NextIndex p = 1 /\
  log_base (r_raftLog (large_leader d)) = 0 /\ log_last (r_raftLog (large_leader d)) = 2 /\
  slice (log_view (r_raftLog (large_leader d))) 0 (len (log_view (r_raftLog (large_leader d)))) = [noop1; mkEntry 2 1 d].
Proof. eexists. split_and!; vm_compute; reflexivity. Qed.

Lemma appends_size m data : proto_Marshal m = inr data -> data_size (m_Entries m) <= len data.
Proof.
  cbn. case_decide as Hm; [|done]. intros [= <-]. rewrite <-Hm at 1. cbn. unfold slice_from, len. rewrite length_drop. lia.
Qed.

Lemma long_data n : 0 <= n -> exists d : bytes, len d = n.
Proof. intros Hn. exists (replicate (Z.to_nat n) Byte.x00). unfold len. rewrite length_replicate. lia. Qed.

Lemma large_append_starves_witness : exists d m r', Raft_sendAppend 3 (large_leader d) = Ok r' /\
    r_messages r' = r_messages (large_leader d) ++ [m] /\ m_To m = 3 /\
    forall f run g a l r0 es1 r1 es2 r2,
      carries f run -> f_in g `prefix_of` f_out f -> f_maxPayload g = DefaultMaxFrameSize ->
      NewRaftTransport true a l true = inr r0 -> rt_run es1 r0 = Some r1 ->
      rt_run (RtAccept (Some g) :: es2) r1 = Some r2 ->
      m ∉ processed (rt_nextConn r1) r2.
Proof.
  destruct (long_data (DefaultMaxFrameSize + 1)) as [d Hd]; [done|].
  destruct (large_leader_entries d) as (p & Hp & Hn & Hb & Hl & He).
  refine (ex_intro _ d (large_append_starves (large_leader d) 3 p appends_size _ Hp _ _ _)).
  - apply raftLog_okb_spec, large_leader_log.
  - rewrite Hn. lia.
  - rewrite Hn, Hb, Hl. lia.
  - rewrite Hn, Hb. change (1 - 1 - 0) with 0. rewrite He. cbn [data_size foldr e_Data noop1].
    change (len []) with 0. lia.
Defined.
