(* ===== verification/ServerTheorems.v ===== *)
(** * ServerTheorems: configuration and life of a server, and the commands *)

From S2P Require Export Lifecycle Commands.
From Stdlib Require Import Ascii.
Local Open Scope string_scope.
Local Open Scope Z_scope.

(** ** Peers *)

(** The command accepts a list of peers exactly when it is the notation of one: what
    an operator writes for a list with addresses that are not empty and have no comma
    is parsed as that list, and every list that is parsed has such addresses and ids
    of 64 bits. *)
Theorem peers_roundtrip ps :
  Forall peer_ok ps -> parsePeers (print_peers ps) = inr ps /\ forall raw qs, parsePeers raw = inr qs -> Forall peer_ok qs.
Proof.
  intros Hok. split; [|apply parsePeers_ok]. unfold parsePeers.
  destruct (String.eqb_spec (print_peers ps) "") as [E|E].
  - destruct ps as [|p ps]; [done|]. exfalso.
    assert (print_peers (p :: ps) = print_peer p \/ exists s, print_peers (p :: ps) = print_peer p ++ "," ++ s) as Hpp.
    { destruct ps; [by left|right]. by eexists. }
    apply Forall_cons in Hok as [Hp _]. pose proof (parsePeer_print p Hp) as Hpr.
    destruct Hpp as [Hpp|[s Hpp]]; rewrite Hpp in E; [by rewrite E in Hpr|].
    by destruct (print_peer p).
  - apply parsePeers_loop_print; [|done]. by intros ->.
Qed.

Lemma peers_roundtrip_witness :
  parsePeers "2=10.0.0.2:5000,18446744073709551615=[::1]:5000" =
    inr [mkPeerInfo 2 "10.0.0.2:5000"; mkPeerInfo (2 ^ 64 - 1) "[::1]:5000"].
Proof.
  refine (proj1 (peers_roundtrip [mkPeerInfo 2 "10.0.0.2:5000"; mkPeerInfo (2 ^ 64 - 1) "[::1]:5000"] _)).
  repeat constructor; done.
Defined.

(** ** One server per directory *)

Definition directory_ok (servers : gmap nat lifecycle) : Prop :=
  map_Forall (fun _ l => life_ok l) servers /\
  forall i j a b, servers !! i = Some a -> servers !! j = Some b -> lc_lock a = true -> lc_lock b = true -> i = j.

Lemma lock_iff_started l : life_ok l -> lc_lock l = lc_started l.
Proof. intros [_ H]. destruct (lc_started l); by destruct H. Qed.

(** Replacing a server by one that does not take the lock, or takes it when it is free. *)
Lemma dir_replace i l servers :
  directory_ok servers -> life_ok l ->
  (lc_lock l = true -> forall j b, servers !! j = Some b -> j <> i -> lc_lock b = false) -> directory_ok (<[ i := l ]> servers).
Proof.
  intros [Hall Hone] Hl Hfree. split; [by apply map_Forall_insert_2|].
  intros j k a b. rewrite !lookup_insert_Some. intros [[<- <-]|[Hj Ha]] [[<- <-]|[Hk Hb]] La Lb; [done|..].
  - rewrite (Hfree La k b Hb) in Lb; [done|]. by intros ->.
  - rewrite (Hfree Lb j a Ha) in La; [done|]. by intros ->.
  - by eapply Hone.
Qed.

(** The lock is taken only when it is free. *)
Lemma dir_env_free win servers env : se_lock (dir_env win servers env) = None -> map_Forall (fun _ l => lc_lock l = false) servers.
Proof.
  unfold dir_env, acquireDataDirLock, lock_call. cbn [se_lock]. destruct (se_lock env); [done|].
  case_bool_decide; [done|]. by destruct win.
Qed.

(** A lock that another server holds is reported as such on either system. *)
Lemma dir_env_busy win servers env i a :
  servers !! i = Some a -> lc_lock a = true -> se_lock env = None ->
  se_lock (dir_env win servers env) = Some errLockBusy.
Proof.
  intros Hi Hl He. unfold dir_env, acquireDataDirLock, lock_call. cbn [se_lock]. rewrite He.
  rewrite bool_decide_false; [by destruct win|]. intros Hf. by rewrite (Hf i a Hi) in Hl.
Qed.

Lemma dir_step_ok win e servers servers' : directory_ok servers -> dir_step win e servers = Some servers' -> directory_ok servers'.
Proof.
  intros Hok. pose proof Hok as [Hall Hone]. destruct e as [i o st h|i env|i cdb cl]; cbn [dir_step].
  - destruct (servers !! i); [done|]. destruct (NewServer st h o) as [|l] eqn:En; [done|]. intros [= <-].
    apply NewServer_ok in En as (Hl & Hs & _). apply dir_replace; [done|done|]. rewrite lock_iff_started, Hs by done. done.
  - destruct (servers !! i) as [l|] eqn:Ei; [|done]. cbn [mbind option_bind]. intros [= <-].
    set (env' := dir_env win servers env). destruct (Server_Start env' l) as [r l'] eqn:Es.
    pose proof (Hall i l Ei) as Hl. pose proof (Server_Start_ok env' l r l' Hl Es) as Hl'.
    apply dir_replace; [done|done|]. cbn [snd]. intros Hlock j b Hb Hne.
    unfold Server_Start in Es. destruct (lc_started l) eqn:El.
    { injection Es as <- <-. destruct (lc_lock b) eqn:E; [|done]. by specialize (Hone j i b l Hb Ei E Hlock). }
    unfold Start_body in Es. destruct (se_lock env') eqn:Elk; [by injection Es as <- <-|].
    by eapply (dir_env_free win servers env Elk j).
  - destruct (servers !! i) as [l|] eqn:Ei; [|done]. cbn [mbind option_bind].
    destruct (Server_Shutdown cdb cl l) as [[r l']|] eqn:Es; [|done]. cbn [mbind option_bind]. intros [= <-].
    apply Server_Shutdown_ok in Es as (Hl' & Hs & _); [|by eapply Hall].
    apply dir_replace; [done|done|]. rewrite lock_iff_started, Hs by done. done.
Qed.

Lemma dir_run_ok win es servers servers' : directory_ok servers -> dir_run win es servers = Some servers' -> directory_ok servers'.
Proof.
  revert servers. induction es as [|e es IH]; intros servers Hok; cbn [dir_run]; [by intros [= <-]|].
  destruct (dir_step win e servers) as [s1|] eqn:Es; [|done]. cbn [mbind option_bind]. apply IH. by eapply dir_step_ok.
Qed.

(** C29: Of the servers on a data directory, created, started and shut down in any order and
    with any failures, at most one is started; a server that is not started (its
    [Start] failed at any point, or it was shut down) has released the lock, the
    database and the listener; a started one holds them and can be shut down, and until
    then [Start] of any other one, on Unix and on Windows, says that the database is in
    use. *)
Theorem one_server_per_directory IsWindows es servers i a :
  dir_run IsWindows es ∅ = Some servers -> servers !! i = Some a ->
  (if lc_started a then
     lc_lock a = true /\ lc_db a = true /\ lc_ln a = true /\ lc_ctx a = Some false /\
     (forall j b, servers !! j = Some b -> lc_started b = true -> j = i) /\
     (forall j b env, servers !! j = Some b -> j <> i -> se_lock env = None ->
        (Server_Start (dir_env IsWindows servers env) b).1 = Some ErrDBInUse) /\
     (forall closeDB closeLock, exists r a', Server_Shutdown closeDB closeLock a = Some (r, a') /\
        lc_lock a' = false /\ lc_db a' = false /\ lc_ln a' = false /\ lc_storage a' = false)
   else lc_lock a = false /\ lc_db a = false /\ lc_ln a = false /\ lc_ctx a <> Some false).
Proof.
  intros Hrun Ha. assert (directory_ok servers) as [Hall Hone].
  { eapply dir_run_ok; [|exact Hrun]. split; [apply map_Forall_empty|]. by intros i' j a' b. }
  pose proof (Hall i a Ha) as Hl. pose proof Hl as [_ Hst]. destruct (lc_started a) eqn:Es; [|done].
  destruct Hst as (H1 & H2 & H3 & H4 & _). split_and!; try done.
  - intros j b Hb Hbs. eapply Hone; [done..|by rewrite lock_iff_started by (by eapply Hall)|done].
  - intros j b env Hb Hne He. unfold Server_Start, Start_body. rewrite (dir_env_busy _ _ _ i a Ha H1 He).
    destruct (lc_started b) eqn:Eb; [|done]. exfalso. apply Hne. eapply Hone; [done..| |done].
    by rewrite lock_iff_started by (by eapply Hall).
  - intros cdb cl. destruct (Server_Shutdown_total cdb cl a Hl) as (r & a' & Hsd). exists r, a'. split; [done|].
    apply Server_Shutdown_ok in Hsd as ([_ Hl'] & Hs' & Hst'); [|done]. rewrite Hs' in Hl'. destruct Hl' as (? & ? & ? & _).
    destruct (Hst' Es) as [? _]. done.
Qed.

Definition opts0 : Options := mkOptions 1 [mkPeerInfo 2 "10.0.0.2:5000"] "" "" "" 4000 5000 false "/data" 0 0 0 0 8080 0 false.
Definition env0 : start_env := mkStartEnv None None false None None None None.

Definition dir_events : list dir_event :=
  [DirNew 1 opts0 None None; DirNew 2 opts0 None None; DirStart 1 env0; DirStart 2 env0].

Definition dir_end : gmap nat lifecycle := default ∅ (dir_run false dir_events ∅).
Definition server_1 : lifecycle := default (mkLife opts0 false None false false false (mkRaftTransport ∅ false false ∅ 0 false false []) HostNew false false false false) (dir_end !! 1%nat).

Lemma one_server_per_directory_witness :
  lc_started server_1 = true /\ forall j b, dir_end !! j = Some b -> lc_started b = true -> j = 1%nat.
Proof.
  split; [vm_compute; reflexivity|].
  pose proof (one_server_per_directory false dir_events dir_end 1 server_1) as H.
  assert (lc_started server_1 = true) as Hs by (vm_compute; reflexivity). rewrite Hs in H.
  apply H; vm_compute; reflexivity.
Defined.

(** ** Starting again *)

(** A [Start] that fails to open the HTTP listener leaves the Raft transport and host
    running, and no later [Start] of the server can succeed; nor can one after
    [Shutdown]. *)
Theorem failed_start_is_final env l e l1 :
  life_ok l -> lc_started l = false -> lc_host l = HostNew ->
  Server_Start env l = (Some (Wrap "server: http listen" e), l1) -> se_lock env = None -> se_db env = None ->
  se_listen env = None -> se_raftListen env = None ->
  lc_host l1 = HostRunning /\ rt_started (lc_rt l1) = true /\ lc_started l1 = false /\
  forall env2, (Server_Start env2 l1).1 <> None.
Proof.
  intros [Hp Hl] Hs Hh H Hlock Hdb Hln Hrl. unfold raft_phase in Hp. rewrite Hh in Hp. destruct Hp as [Hst Hsp].
  unfold Server_Start in H. rewrite Hs in H. unfold Start_body in H. rewrite Hlock, Hdb, Hln, Hrl in H. cbn in H.
  pose proof (RaftTransport_Start_phase None (lc_rt l)) as Hrt.
  destruct (RaftTransport_Start None (lc_rt l)) as [[e'|] rt] eqn:Er.
  { exfalso. unfold RaftTransport_Start in Er. rewrite Hst, Hsp in Er. cbn in Er. by destruct (rt_hasListener (lc_rt l)). }
  destruct Hrt as (_ & _ & Hr1 & Hr2). destruct (Start_apis env _) as [r l0] eqn:Ea.
  apply Start_apis_keeps in Ea as (_ & _ & _ & _ & _ & K6 & K7). cbn in K6, K7. rewrite Hh in K7.
  destruct r as [e0|]; [|done]. injection H as _ <-.
  split; [cbn; by rewrite K7|]. split; [cbn; by rewrite K6|]. split; [done|].
  intros env2. apply Server_Start_spent. left. cbn. by rewrite K6.
Qed.

(** A [Start] that fails when the database cannot be replayed leaves the files of the
    shards open: the server holds no lock and no database, and no [Start] or [Shutdown] of
    it closes them. *)
Theorem failed_open_leaks_files env l e :
  lc_started l = false -> se_lock env = None -> se_db env = Some e -> se_shards env = true ->
  (Server_Start env l).1 = Some e /\
  (let l1 := (Server_Start env l).2 in
   lc_leaked l1 = true /\ lc_db l1 = false /\ lc_lock l1 = false /\
   (forall env2, lc_leaked (Server_Start env2 l1).2 = true) /\
   forall cdb cl, Server_Shutdown cdb cl l1 = Some (Some ErrNotStarted, l1)).
Proof.
  intros Hs Hl Hd Hsh. unfold Server_Start at 1 2. rewrite Hs. unfold Start_body. rewrite Hl, Hd. cbn. rewrite Hsh.
  split_and!; try done. intros env2. unfold Server_Start. cbn.
  match goal with |- context [Start_body env2 ?l0] => assert (lc_leaked (Start_body env2 l0).2 = true) as H end.
  { unfold Start_body, Start_apis. cbn. repeat case_match; simplify_eq; cbn; by rewrite ?orb_true_r. }
  destruct (Start_body env2 _) as [[e'|] l2]; exact H.
Qed.

(** The Raft storage is opened by [NewServer], before [Start] takes the lock: the second
    server of a directory has opened the storage the first, which is started, writes. *)
Theorem storage_outside_lock :
  exists a b, dir_run false (take 3 dir_events) ∅ = Some (<[ 1%nat := a ]> {[ 2%nat := b ]}) /\
    lc_started a = true /\ lc_lock a = true /\ lc_storage a = true /\
    lc_started b = false /\ lc_lock b = false /\ lc_storage b = true.
Proof. eexists _, _. split; [vm_compute; reflexivity|]. vm_compute. done. Qed.

(** ** Lines *)

Fixpoint all_space (s : string) : bool :=
  match s with String c s => is_space c && all_space s | EmptyString => true end.

Fixpoint no_space (s : string) : bool :=
  match s with String c s => negb (is_space c) && no_space s | EmptyString => true end.

(** A value as a user can type it: not empty, and not ending in a space. *)
Definition value_ok (v : string) : Prop := v <> "" /\ trimRight v = v.
Definition word (k : string) : Prop := k <> "" /\ no_space k = true.

Definition show_command (c : command) : string :=
  match c with
  | Quit => "quit"
  | Get key => "get " ++ key
  | Put key value => "put " ++ key ++ " " ++ value
  | _ => ""
  end.

Definition command_ok (c : command) : Prop :=
  match c with
  | Quit => True
  | Get key => word key
  | Put key value => word key /\ value_ok value
  | _ => False
  end.

Lemma trimLeft_app pre s : all_space pre = true -> trimLeft (pre ++ s) = trimLeft s.
Proof. induction pre as [|c pre IH]; [done|]. simpl. intros [-> H]%andb_prop. by apply IH. Qed.

Lemma trimRight_spaces post : all_space post = true -> trimRight post = "".
Proof. induction post as [|c post IH]; [done|]. simpl. intros [Hc H]%andb_prop. by rewrite IH, Hc. Qed.

Lemma trimRight_app s post : all_space post = true -> trimRight (s ++ post) = trimRight s.
Proof. intros H. induction s as [|c s IH]; simpl; [by apply trimRight_spaces|]. by rewrite IH. Qed.

Lemma trimRight_value a v : value_ok v -> trimRight (a ++ v) = a ++ v.
Proof.
  intros [Hne Hv]. induction a as [|c a IH]; [done|].
  change (String c a ++ v) with (String c (a ++ v)). cbn [trimRight]. rewrite IH. destruct (a ++ v) eqn:E; [|done].
  by destruct a.
Qed.

Lemma word_value k : word k -> value_ok k.
Proof.
  intros [Hne Hk]. split; [done|]. clear Hne. induction k as [|c k IH]; [done|]. simpl in *.
  apply andb_prop in Hk as [Hc%negb_true_iff Hk]. rewrite IH by done. destruct k; [by rewrite Hc|done].
Qed.

Lemma word_no_char k : no_space k = true -> has_char " "%char k = false.
Proof.
  induction k as [|c k IH]; [done|]. simpl. intros [Hc%negb_true_iff Hk]%andb_prop. rewrite IH by done.
  destruct (Ascii.eqb_spec c " "%char) as [->|_]; [|done]. by vm_compute in Hc.
Qed.

Lemma cut_none sep s : has_char sep s = false -> cut sep s = None.
Proof. induction s as [|c s IH]; simpl; [done|]. intros [-> H]%orb_false_elim. by rewrite IH. Qed.

(** A line with spaces around it. *)
Lemma TrimSpace_line pre c s post :
  all_space pre = true -> all_space post = true -> is_space c = false -> trimRight (String c s) = String c s ->
  TrimSpace (pre ++ String c s ++ post) = String c s.
Proof.
  intros Hpre Hpost Hc Hs. unfold TrimSpace. rewrite trimLeft_app by done. cbn [String.append]. simpl trimLeft. rewrite Hc.
  change (String c (s ++ post)) with (String c s ++ post). by rewrite trimRight_app.
Qed.

(** C36: what a user types for a command is parsed as that command, with spaces before
    and after it, and with spaces inside the value. *)
Theorem command_round_trip pre c post :
  all_space pre = true -> all_space post = true -> command_ok c -> parse_line (pre ++ show_command c ++ post) = c.
Proof.
  intros Hpre Hpost Hc. unfold parse_line. destruct c as [| |key|key value| |]; try done; cbn [show_command] in *.
  - rewrite (TrimSpace_line pre "q" "uit") by done. done.
  - rewrite (TrimSpace_line pre "g" ("et " ++ key)) by
      (done || (change (String "g" ("et " ++ key)) with ("get " ++ key); apply trimRight_value, word_value, Hc)).
    destruct Hc as [Hne Hk]. unfold splitN3. change (String "g" ("et " ++ key)) with ("get" ++ String " " key).
    rewrite cut_first by done. by rewrite cut_none by (by apply word_no_char).
  - destruct Hc as [[Hne Hk] Hv].
    rewrite (TrimSpace_line pre "p" ("ut " ++ key ++ " " ++ value)) by
      (done || (change (String "p" ("ut " ++ key ++ " " ++ value)) with ("put " ++ key ++ " " ++ value);
        rewrite <-!string_app_assoc; by apply trimRight_value)).
    unfold splitN3. change (String "p" ("ut " ++ key ++ " " ++ value)) with ("put" ++ String " " (key ++ String " " value)).
    rewrite cut_first by done. by rewrite cut_first by (by apply word_no_char).
Qed.

Lemma command_round_trip_witness : parse_line "  put city  New York  " = Put "city" " New York".
Proof. apply (command_round_trip "  " (Put "city" " New York") "  "); [done..|]. by vm_compute. Defined.

(** ** Exit codes *)

Section exits.
Context (text : error -> string) (isNetError : error -> bool) {T : Type} `{!StreamTransport T}.

Lemma cli_called_exit r out code :
  cli_called text isNetError r = (out, Some code) ->
  code = 1 /\ exists e, out = [ErrorLine e; ConnectionLost] /\ isConnectionError text isNetError (Some e) = true.
Proof.
  unfold cli_called. destruct r as [e|o]; [|done]. destruct (isConnectionError text isNetError (Some e)) eqn:E; [|done].
  intros [= <- <-]. eauto.
Qed.

Lemma cli_step_exit env line (t t' : T) out code :
  cli_step text isNetError env line t = (out, Some code, t') ->
  (code = 0 /\ out = [Bye] /\ parse_line line = Quit) \/
  (code = 1 /\ exists e, out = [ErrorLine e; ConnectionLost] /\ isConnectionError text isNetError (Some e) = true).
Proof.
  unfold cli_step. destruct (parse_line line) as [| |key|key value|cmd|cmd]; try done.
  - intros [= <- <- <-]. by left.
  - destruct (doGet env key t) as [r t1]. destruct (cli_called text isNetError r) as [o c] eqn:E. intros [= -> -> _].
    right. by apply cli_called_exit in E.
  - destruct (doPut env key value t) as [r t1]. destruct (cli_called text isNetError r) as [o c] eqn:E. intros [= -> -> _].
    right. by apply cli_called_exit in E.
Qed.

(** Whatever the lines, the server and the connection do, the client ends with code
    0, or with code 1 right after an error that means the connection is lost. *)
Theorem client_exit_code lines scanErr env i (t : T) :
  let '(out, code, _) := cli_loop text isNetError lines scanErr env i t in
  code = 0 \/
  (code = 1 /\ exists before e, out = (before ++ [ErrorLine e; ConnectionLost])%list /\
     isConnectionError text isNetError (Some e) = true).
Proof.
  revert i t. induction lines as [|line lines IH]; intros i t; cbn [cli_loop]; [by left|].
  destruct (cli_step text isNetError (env i) line t) as [[out [code|]] t1] eqn:E.
  - apply cli_step_exit in E as [(-> & _ & _)|(-> & e & -> & He)]; [by left|]. right. split; [done|]. by exists [], e.
  - specialize (IH (S i) t1). destruct (cli_loop _ _ lines scanErr env (S i) t1) as [[out' code] t2].
    destruct IH as [->|(-> & before & e & -> & He)]; [by left|]. right. split; [done|].
    exists (out ++ before)%list, e. by rewrite app_assoc.
Qed.

End exits.

(** The server command always ends after its signal; it exits with 0 exactly when
    the server started and was shut down without an error, and with 2 only before it
    has made a server. *)
Theorem server_exit_code env f :
  exists lines code, kv_server_main env f = Some (lines, code) /\
    match main_options (me_mkdir env) f with
    | inl c => lines = [] /\ code = c
    | inr _ => code = 0 /\ last lines = Some LineBye \/
               code = 1 /\ exists e, last lines = Some (LineError e) \/ last lines = Some (LineShutdownError e)
    end.
Proof.
  unfold kv_server_main. destruct (main_options (me_mkdir env) f) as [c|opts]; [by eauto|].
  destruct (NewServer (me_storage env) (me_host env) opts) as [e|s] eqn:En; [eexists _, _; split; [done|]; right; eauto|].
  apply NewServer_ok in En as (Hl & _ & _).
  destruct (Server_Start (me_start env) s) as [[e|] s1] eqn:Es; [eexists _, _; split; [done|]; right; eauto|].
  apply Server_Start_ok in Es; [|done].
  destruct (Server_Shutdown_total (me_closeDB env) (me_closeLock env) s1 Es) as (r & s2 & ->). cbn [mbind option_bind].
  destruct r as [e|]; (eexists _, _; split; [reflexivity|]); [right|left]; rewrite last_app; eauto.
Qed.
