(* ===== verification/ConnTheorems.v ===== *)
(** * ConnTheorems: what [Shutdown] waits for

    Theorems about the goroutines of Conns: a call of [Shutdown] can return, unless a
    connection was entered after [closeConnections] or [run] waits on a committer that has
    exited; these two ways to hang; and the races of [Shutdown]. *)

From S2P Require Export Conns.

(** ** Schedules *)

(** Two clients, one with a request under way, and a batch being applied. *)
Definition busy_server : list conns_action :=
  [VConnect; VAccept; VAccept; VAccept; VRequest 0; VConnect; VAccept; VAccept; VAccept;
   VRun (CaseApply [7; 3]%nat); VRun CaseNext; VShutdown 1].

(** [Accept] returns a connection; [Shutdown] runs up to [closeConnections]; only then
    [acceptLoop] enters the connection in [conns] and starts its handler. *)
Definition late_connection : list conns_action :=
  [VConnect; VAccept; VShutdown 1; VStep 1 false; VStep 1 false; VStep 1 false; VStep 1 true; VAccept; VAccept].

(** The same, with [connWg.Wait] returning before the handler is started. *)
Definition late_handler : list conns_action :=
  [VConnect; VAccept; VShutdown 1; VStep 1 false; VStep 1 false; VStep 1 false; VWait 1; VStep 1 false; VStep 1 false;
   VAccept; VAccept; VRequest 0].

(** No connection is left, and [run] is applying a batch. *)
Definition late_apply : list conns_action :=
  [VRun (CaseApply [7]%nat); VShutdown 1; VStep 1 false; VStep 1 false; VStep 1 false; VWait 1; VStep 1 false;
   VStep 1 false; VRun CaseNext; VRun CaseStopped].

(** The committer of shard 7 fails while a batch of 201 puts to the shard is applied and
    a client is idle; [monitorDBHealth] shuts the server down, and its deadline passes. *)
Definition dead_committer : list conns_action :=
  [VConnect; VAccept; VAccept; VAccept; VRun (CaseApply (replicate 201 7%nat)); VFatal 7] ++
  concat (replicate 200 [VRun CaseNext; VRun CaseSent]) ++
  [VRun CaseNext; VMonitor; VStep 0 false; VStep 0 false; VStep 0 false; VStep 0 true;
   VFail 0 false; VEnd 0; VEnd 0; VWait 0; VStep 0 false].

(** Nobody calls [Shutdown] again. *)
Definition no_shutdown (a : conns_action) : bool := match a with VShutdown _ => false | _ => true end.

(** [Shutdown] waits for [run], and [run] for a committer that has exited. *)
Definition stuck (v : conns_state) : Prop :=
  v_shutdowns v = {[ 0%nat := ShWaitRun ]} /\ v_monitor v = MonShutdown /\ v_db v = true /\ 7%nat ∈ v_dead v /\
  queued v 7 = reqChSize /\ v_run v = RunPutting 7 [].

(** Neither the client of connection 0 nor another [Shutdown] intervenes. *)
Definition undisturbed (a : conns_action) : bool :=
  match a with
  | VFail id fails => negb (Nat.eqb id 0 && fails)
  | VShutdown _ | VMonitor => false
  | _ => true
  end.

(** [Shutdown] waits for the handler of an open connection. *)
Definition held (v : conns_state) : Prop :=
  v_shutdowns v = {[ 1%nat := ShForced false ]} /\ 0%nat ∈ v_open v /\
  (v_handlers v !! 0%nat = Some Receiving \/ v_handlers v !! 0%nat = Some Working) /\
  v_ln v = false /\ v_backlog v = [] /\ (v_accept v = InAccept \/ v_accept v = AcceptReturned).

(** ** The end of [Shutdown] *)

(** [id] returns from [v] in at most [n] steps of the server's own. *)
Definition returns (id n : nat) (v : conns_state) : Prop :=
  exists acts v', conns_run acts v = Some v' /\ v_shutdowns v' !! id = Some ShReturned /\ v_db v' = false /\
    (length acts <= n)%nat /\ forallb own_step acts = true.

Lemma conns_run_rtc acts v v' : conns_run acts v = Some v' -> rtc vstep v v'.
Proof.
  revert v. induction acts as [|a acts IH]; intros v; simpl; [by intros [= <-]|].
  intros (v1 & Ha & Hr)%bind_Some. eapply rtc_l; [by exists a|by apply IH].
Qed.

Lemma returns_step a id n v v' :
  conns_step a v = Some v' -> own_step a = true -> returns id n v' -> returns id (S n) v.
Proof.
  intros Ha Ho (acts & w & Hr & Hs & Hd & Hl & Hf). exists (a :: acts), w. split_and!; try done; simpl.
  - by rewrite Ha.
  - lia.
  - by rewrite Ho.
Qed.

Lemma returns_more id n n' v : (n <= n')%nat -> returns id n v -> returns id n' v.
Proof. intros Hn (acts & w & ? & ? & ? & ? & ?). exists acts, w. split_and!; try done. lia. Qed.

Lemma drained_returns id v :
  v_monitor v <> MonExited -> v_shutdowns v !! id = Some ShDrained -> returns id 1 v.
Proof.
  intros Hm Hs. eexists [VStep id false], _. split; [cbn [conns_run]; rewrite conns_step_alive by done; simpl;
    unfold Shutdown_step; rewrite Hs; reflexivity|]. split_and!; try done. simpl. apply lookup_insert_eq.
Qed.

(** The puts of the batch that [run] is applying. *)
Definition puts_left (v : conns_state) : list nat :=
  match v_run v with RunApplying rest => rest | RunPutting sh rest => sh :: rest | _ => [] end.

(** [run] can finish its batch: a channel nobody reads has room for what is left. *)
Definition batch_fits (v : conns_state) : Prop :=
  forall sh, sh ∈ v_dead v -> v_db v = true -> (queued v sh + count_occ Nat.eq_dec (puts_left v) sh <= reqChSize)%nat.

(** What [run] and the committers leave alone. *)
Definition same_calls (v v' : conns_state) : Prop :=
  v_monitor v' = v_monitor v /\ v_shutdowns v' = v_shutdowns v /\ v_ctxDone v' = v_ctxDone v.

Lemma returns_after acts id n v v' :
  conns_run acts v = Some v' -> forallb own_step acts = true -> returns id n v' -> returns id (length acts + n) v.
Proof.
  intros Hr Ho (acts2 & w & Hr2 & Hs & Hd & Hl & Hf). exists (acts ++ acts2), w. split_and!; try done.
  - rewrite conns_run_app, Hr. exact Hr2.
  - rewrite length_app. lia.
  - by rewrite forallb_app, Ho, Hf.
Qed.

(** A put that has room. *)
Lemma put_sent v sh rest :
  v_monitor v <> MonExited -> v_run v = RunPutting sh rest -> batch_fits v -> within v -> (queued v sh < reqChSize)%nat ->
  exists v', conns_step (VRun CaseSent) v = Some v' /\ v_run v' = RunApplying rest /\ batch_fits v' /\ within v' /\ same_calls v v'.
Proof.
  intros Hm Hr Hf Hw Hlt. eexists.
  assert (conns_step (VRun CaseSent) v = Some (v <| v_queued ::= <[ sh := S (queued v sh) ]> |> <| v_run := RunApplying rest |>)) as H.
  { rewrite conns_step_alive by done. unfold run_step. by rewrite Hr, (proj2 (Nat.ltb_lt _ _) Hlt). }
  split; [exact H|]. split; [done|]. split; [|split; [eapply vstep_within; [by eexists|done]|done]].
  intros sh' Hd Hdb. specialize (Hf sh' Hd Hdb). unfold puts_left in Hf. rewrite Hr in Hf. simpl in Hf.
  change (queued (v <| v_queued ::= <[ sh := S (queued v sh) ]> |>) sh' + count_occ Nat.eq_dec rest sh' <= reqChSize)%nat.
  rewrite queued_insert. destruct (Nat.eq_dec sh sh'), (decide (sh = sh')); subst; try done; lia.
Qed.

(** A put whose channel is full: the committer takes a request first. *)
Lemma put_taken v sh rest :
  v_monitor v <> MonExited -> v_run v = RunPutting sh rest -> batch_fits v -> within v -> v_db v = true ->
  (reqChSize <= queued v sh)%nat ->
  exists v', conns_step (VTake sh) v = Some v' /\ v_run v' = RunPutting sh rest /\ batch_fits v' /\ within v' /\ same_calls v v' /\
    (queued v' sh < reqChSize)%nat.
Proof.
  intros Hm Hr Hf Hw Hdb Hfull. assert (sh ∉ v_dead v) as Hd.
  { intros Hd. specialize (Hf sh Hd Hdb). unfold puts_left in Hf. rewrite Hr in Hf. simpl in Hf.
    destruct (Nat.eq_dec sh sh); [lia|done]. }
  pose proof (Hw sh) as Hle. destruct (queued v sh) as [|k] eqn:Eq; [unfold reqChSize in Hfull; lia|].
  assert (conns_step (VTake sh) v = Some (v <| v_queued ::= <[ sh := k ]> |>)) as H.
  { rewrite conns_step_alive by done. unfold committer_takes. by rewrite bool_decide_false, Hdb, Eq by done. }
  eexists. split; [exact H|]. split; [done|]. split; [|split; [eapply vstep_within; [by eexists|done]|split; [done|]]].
  - intros sh' Hd' Hdb'. specialize (Hf sh' Hd' Hdb'). rewrite queued_insert, decide_False by (intros ->; done). exact Hf.
  - rewrite queued_insert, decide_True by done. lia.
Qed.

(** A put returns within two steps. *)
Lemma put_returns v sh rest :
  v_monitor v <> MonExited -> v_run v = RunPutting sh rest -> batch_fits v -> within v ->
  exists acts v', conns_run acts v = Some v' /\ (length acts <= 2)%nat /\ forallb own_step acts = true /\
    v_run v' = RunApplying rest /\ batch_fits v' /\ within v' /\ same_calls v v'.
Proof.
  intros Hm Hr Hf Hw. destruct (decide (queued v sh < reqChSize)%nat) as [Hlt|Hge].
  { destruct (put_sent v sh rest) as (v' & H & ?); try done. exists [VRun CaseSent], v'. cbn [conns_run]. rewrite H. split; [done|].
    split; [simpl; lia|]. by split. }
  destruct (v_db v) eqn:Edb.
  - destruct (put_taken v sh rest) as (v1 & H1 & Hr1 & Hf1 & Hw1 & (M1 & S1 & C1) & Hlt); try done; [lia|].
    destruct (put_sent v1 sh rest) as (v' & H & ? & ? & ? & M2 & S2 & C2); try done; [congruence|].
    exists [VTake sh; VRun CaseSent], v'. cbn [conns_run]. rewrite H1. cbn [mbind option_bind]. rewrite H.
    split_and!; try done. split_and!; congruence.
  - exists [VRun CaseStopped]. eexists. cbn [conns_run]. rewrite conns_step_alive by done. unfold run_step. rewrite Hr, Edb.
    split; [reflexivity|]. split_and!; try done; [simpl; lia|]. intros sh' _ Hdb. simpl in Hdb. congruence.
Qed.

(** A call past the drain of the connections, when [run] has returned. *)
Lemma runReturned_returns id v :
  v_monitor v <> MonExited -> v_shutdowns v !! id = Some ShWaitRun -> v_run v = RunReturned -> returns id 2 v.
Proof.
  intros Hm Hs Hr. eapply (returns_step (VStep id false)); [rewrite conns_step_alive by done; simpl;
    unfold Shutdown_step; rewrite Hs, Hr; reflexivity|done|]. apply drained_returns; [done|]. simpl. apply lookup_insert_eq.
Qed.

Lemma runSelect_returns id v :
  v_monitor v <> MonExited -> v_shutdowns v !! id = Some ShWaitRun -> v_ctxDone v = true -> v_run v = RunSelect ->
  returns id 3 v.
Proof.
  intros Hm Hs Hc Hr. eapply (returns_step (VRun CaseDone)); [rewrite conns_step_alive by done;
    unfold run_step; rewrite Hr, Hc; reflexivity|done|]. by apply runReturned_returns.
Qed.

(** The batch goes on; each put takes at most three steps. *)
Lemma applying_returns id rest v :
  v_monitor v <> MonExited -> v_shutdowns v !! id = Some ShWaitRun -> v_ctxDone v = true -> v_run v = RunApplying rest ->
  batch_fits v -> within v -> returns id (4 + 3 * length rest) v.
Proof.
  revert v. induction rest as [|sh rest IH]; intros v Hm Hs Hc Hr Hf Hw.
  - eapply (returns_step (VRun CaseNext)); [rewrite conns_step_alive by done; unfold run_step; rewrite Hr; reflexivity|done|].
    by apply runSelect_returns.
  - set (v1 := v <| v_run := RunPutting sh rest |> <| v_lateApply ::= orb (negb (v_db v)) |>).
    assert (conns_step (VRun CaseNext) v = Some v1) as H1 by (rewrite conns_step_alive by done; unfold run_step; by rewrite Hr).
    destruct (put_returns v1 sh rest) as (acts & v2 & H2 & Hl & Ho & Hr2 & Hf2 & Hw2 & M2 & S2 & C2); try done.
    { intros sh' Hd Hdb. specialize (Hf sh' Hd Hdb). unfold puts_left in Hf. rewrite Hr in Hf. exact Hf. }
    simpl in M2, S2, C2.
    eapply returns_more; [|apply (returns_step (VRun CaseNext) _ _ _ _ H1 eq_refl (returns_after acts _ _ _ _ H2 Ho
      (IH v2 ltac:(congruence) ltac:(congruence) ltac:(congruence) Hr2 Hf2 Hw2)))]. simpl. lia.
Qed.

Lemma waitRun_returns id v :
  v_monitor v <> MonExited -> v_shutdowns v !! id = Some ShWaitRun -> v_ctxDone v = true -> batch_fits v -> within v ->
  returns id (4 + 3 * length (puts_left v)) v.
Proof.
  intros Hm Hs Hc Hf Hw. unfold puts_left. destruct (v_run v) as [|rest|sh rest|] eqn:Er.
  - eapply returns_more; [|by apply runSelect_returns]. lia.
  - by apply applying_returns.
  - destruct (put_returns v sh rest) as (acts & v2 & H2 & Hl & Ho & Hr2 & Hf2 & Hw2 & M2 & S2 & C2); try done.
    eapply returns_more; [|apply (returns_after acts _ _ _ _ H2 Ho
      (applying_returns id rest v2 ltac:(congruence) ltac:(congruence) ltac:(congruence) Hr2 Hf2 Hw2))]. simpl. lia.
  - eapply returns_more; [|by apply runReturned_returns]. lia.
Qed.

(** Past [closeConnections], all connections closed. *)
Lemma forced_returns id v :
  v_monitor v <> MonExited -> v_shutdowns v !! id = Some (ShForced false) -> v_ctxDone v = true -> all_closed v ->
  batch_fits v -> within v -> returns id (6 + 3 * length (puts_left v) + 3 * size (v_handlers v)) v.
Proof.
  intros Hm Hs Hc Hcl Hf Hw. destruct (finish_handlers v Hm Hcl) as (acts & v1 & Hr & Hh & Hsame & Hl & Ho).
  destruct Hsame as (_ & _ & Ec & Er & Em & Es & Edb & Eq & Ed).
  assert (returns id (6 + 3 * length (puts_left v)) v1) as Hv1.
  { eapply (returns_step (VWait id)); [rewrite conns_step_alive by congruence; simpl; unfold Shutdown_wait;
      rewrite bool_decide_true, Es, Hs by done; reflexivity|done|].
    eapply (returns_step (VStep id false)); [rewrite conns_step_alive by (simpl; congruence); simpl; unfold Shutdown_step;
      simpl; rewrite lookup_insert_eq; reflexivity|done|].
    replace (puts_left v) with (puts_left v1) by (unfold puts_left; by rewrite Er).
    apply waitRun_returns; simpl; [congruence|apply lookup_insert_eq|congruence|..].
    - intros sh. unfold queued, puts_left. simpl. rewrite Ed, Edb, Eq, Er. apply Hf.
    - intros sh. unfold queued. simpl. rewrite Eq. apply Hw. }
  eapply returns_more; [|by apply (returns_after acts _ _ _ _ Hr Ho Hv1)]. lia.
Qed.

(** [closeConnections] reaches every handler that may still receive. *)
Lemma select_returns id v :
  conns_ok v -> v_monitor v <> MonExited -> v_shutdowns v !! id = Some (ShSelect false) -> v_ctxDone v = true ->
  batch_fits v -> within v -> returns id (7 + 3 * length (puts_left v) + 3 * size (v_handlers v)) v.
Proof.
  intros Hok Hm Hs Hc Hf Hw. eapply (returns_step (VStep id true)); [rewrite conns_step_alive by done; simpl;
    unfold Shutdown_step; rewrite Hs; reflexivity|done|].
  apply forced_returns; simpl; [done|apply lookup_insert_eq|done| |done..].
  intros j pc Hj Hpc. simpl in *. assert (j ∈ v_conns v) by (eapply (vo_handlers v Hok); [done|by destruct Hpc as [-> | ->]]).
  set_solver.
Qed.

Lemma cancelled_returns id v :
  conns_ok v -> v_monitor v <> MonExited -> v_shutdowns v !! id = Some ShCancelled -> v_ctxDone v = true ->
  batch_fits v -> within v -> returns id (8 + 3 * length (puts_left v) + 3 * size (v_handlers v)) v.
Proof.
  intros Hok Hm Hs Hc Hf Hw. eapply (returns_step (VStep id false)); [rewrite conns_step_alive by done; simpl;
    unfold Shutdown_step; rewrite Hs; reflexivity|done|].
  apply select_returns; simpl; [|done|apply lookup_insert_eq|done..].
  apply (conns_ok_same v); try done. by left.
Qed.

Lemma lnClosed_returns id v :
  conns_ok v -> v_monitor v <> MonExited -> v_shutdowns v !! id = Some ShLnClosed ->
  batch_fits v -> within v -> returns id (9 + 3 * length (puts_left v) + 3 * size (v_handlers v)) v.
Proof.
  intros Hok Hm Hs Hf Hw. eapply (returns_step (VStep id false)); [rewrite conns_step_alive by done; simpl;
    unfold Shutdown_step; rewrite Hs; reflexivity|done|].
  apply cancelled_returns; simpl; [|done|apply lookup_insert_eq|done..].
  apply (conns_ok_same v); try done. by left.
Qed.

Lemma entered_returns id v :
  conns_ok v -> v_monitor v <> MonExited -> v_shutdowns v !! id = Some ShEntered ->
  batch_fits v -> within v -> returns id (10 + 3 * length (puts_left v) + 3 * size (v_handlers v)) v.
Proof.
  intros Hok Hm Hs Hf Hw. eapply (returns_step (VStep id false)); [rewrite conns_step_alive by done; simpl;
    unfold Shutdown_step; rewrite Hs; reflexivity|done|].
  apply lnClosed_returns; simpl; [|done|apply lookup_insert_eq|done..].
  apply (conns_ok_same v); try done. by right.
Qed.

(** C19: wherever a call of [Shutdown] is and whatever connections, requests and batches
    are under way, as long as the process has not exited and once its context is done it can return
    in a number of steps bounded by
    the number of connections and of puts left in the batch, without help from any client.
    There are two exceptions: a call that has passed [closeConnections] while a connection
    that was entered later is open; and, unless the connections have drained, a batch with
    more puts left to a shard whose committer has exited than its channel has room for. *)
Theorem shutdown_returns v id pc :
  rtc vstep conns0 v -> v_monitor v <> MonExited -> v_shutdowns v !! id = Some pc -> pc <> ShReturned ->
  (pc = ShForced false -> all_closed v) -> (pc <> ShSelect true -> pc <> ShDrained -> batch_fits v) ->
  returns id (10 + 3 * length (puts_left v) + 3 * size (v_handlers v)) v.
Proof.
  intros Hr Hm Hs Hne Hcl Hf. pose proof (vsteps_ok _ _ Hr conns0_ok) as Hok. pose proof (vsteps_within _ _ Hr conns0_within) as Hw.
  assert (cancelled conns0) as H0 by (split; [done|intros j q; simpl; by rewrite lookup_empty]).
  pose proof (proj2 (vsteps_cancelled _ _ Hr H0) id pc Hs) as Hc.
  destruct pc as [| | |[]|[]| | |]; try done.
  - by apply entered_returns; auto.
  - eapply returns_more; [|apply lnClosed_returns; auto]. lia.
  - eapply returns_more; [|apply cancelled_returns; auto]; [lia|by apply Hc].
  - eapply returns_more; [|eapply (returns_step (VStep id false)); [rewrite conns_step_alive by done; simpl;
      unfold Shutdown_step; rewrite Hs; reflexivity|done|apply drained_returns; [done|simpl; apply lookup_insert_eq]]]. lia.
  - eapply returns_more; [|apply select_returns; auto]; [lia|by apply Hc].
  - eapply returns_more; [|eapply (returns_step (VStep id false)); [rewrite conns_step_alive by done; simpl;
      unfold Shutdown_step; rewrite Hs; reflexivity|done|
      apply waitRun_returns; [done|simpl; apply lookup_insert_eq|by apply Hc|by apply Hf|done]]].
    change (puts_left (v <| v_shutdowns ::= <[ id := ShWaitRun ]> |>)) with (puts_left v). lia.
  - eapply returns_more; [|apply forced_returns; auto]; [lia|by apply Hc].
  - eapply returns_more; [|apply waitRun_returns; auto]; [lia|by apply Hc].
  - eapply returns_more; [|by apply drained_returns]. lia.
Qed.

Lemma shutdown_returns_witness :
  exists v, conns_run busy_server conns0 = Some v /\ v_handlers v !! 0%nat = Some Working /\
    v_handlers v !! 1%nat = Some Receiving /\ v_run v = RunPutting 7 [3]%nat /\ size (v_handlers v) = 2%nat /\
    returns 1 (10 + 3 * length (puts_left v) + 3 * size (v_handlers v)) v.
Proof.
  destruct (conns_run busy_server conns0) as [v|] eqn:E; [|vm_compute in E; discriminate].
  pose proof (conns_run_rtc _ _ _ E) as Hr. vm_compute in E. injection E as <-. eexists. split; [reflexivity|].
  split_and!; [reflexivity..|]. apply (shutdown_returns _ 1 ShEntered); [exact Hr|done|reflexivity|done|done|].
  intros _ _ sh Hd. by apply elem_of_empty in Hd.
Defined.

(** ** A committer that has exited *)

Lemma stuck_step a v v' : no_shutdown a = true -> conns_step a v = Some v' -> stuck v -> stuck v'.
Proof.
  intros Ha H (Hs & Hm & Hdb & Hd & Hq & Hr). rewrite conns_step_alive in H by congruence.
  destruct a as [| |id|id fails|id|id|x|sh|sh| |id|id d|id]; try done.
  1-6: unfold client_connects, acceptLoop_step, handler_receives, handler_fails, handler_answers, handler_ends in H;
    repeat case_match; simplify_eq; done.
  - unfold run_step in H. rewrite Hr in H. destruct x; try done; [|by rewrite Hdb in H].
    by rewrite Hq, (proj2 (Nat.ltb_ge _ _)) in H.
  - apply committer_takes_inv in H as (n & Hnd & _ & _ & ->). split_and!; try done.
    rewrite queued_insert, decide_False; [done|]. by intros ->.
  - unfold committer_fails in H. destruct (_ || _); [done|]. injection H as <-. split_and!; try done. simpl. set_solver.
  - unfold monitorDBHealth_step in H. by rewrite Hm, Hs, lookup_singleton_eq in H.
  - unfold Shutdown_step in H. rewrite Hs in H. destruct (decide (id = 0%nat)) as [-> | Hne].
    + by rewrite lookup_singleton_eq, Hr in H.
    + by rewrite lookup_singleton_ne in H.
  - unfold Shutdown_wait in H. destruct (bool_decide _); [|done]. rewrite Hs in H. destruct (decide (id = 0%nat)) as [-> | Hne].
    + by rewrite lookup_singleton_eq in H.
    + by rewrite lookup_singleton_ne in H.
Qed.

Lemma stuck_run acts v v' : forallb no_shutdown acts = true -> conns_run acts v = Some v' -> stuck v -> stuck v'.
Proof.
  revert v. induction acts as [|a acts IH]; intros v; simpl; [by intros _ [= <-]|].
  intros [Ha Hacts]%andb_prop (v1 & H1 & Hr)%bind_Some Hv. eapply IH; [done..|]. by eapply stuck_step.
Qed.

(** When a write of the engine fails while the apply loop is in a batch with more puts to
    that shard than its channel holds, the shutdown that [monitorDBHealth] starts may
    never end: past its deadline it waits for [run], [run] waits in [PutAsync] for the
    committer that has exited, and only the close of the database behind that wait would
    release it.  The process neither serves nor exits, whatever else happens, unless
    [Shutdown] is called once more. *)
Theorem dead_committer_holds_shutdown :
  exists v, conns_run dead_committer conns0 = Some v /\ v_handlers v = ∅ /\
    forall acts v', forallb no_shutdown acts = true -> conns_run acts v = Some v' ->
      v_shutdowns v' !! 0%nat = Some ShWaitRun /\ v_monitor v' = MonShutdown /\ v_run v' = RunPutting 7 [].
Proof.
  eexists. split; [vm_compute; reflexivity|]. split; [reflexivity|]. intros acts v' Ha Hr.
  destruct (stuck_run _ _ _ Ha Hr) as (Hs & Hm & _ & _ & _ & Hrun); [|by rewrite Hs].
  by split_and!.
Qed.

(** ** Connections entered too late *)

(** Handlers other than that of connection 0 move on, or it stays in its loop. *)
Lemma held_insert id pc v :
  held v -> (id = 0%nat -> pc = Receiving \/ pc = Working) -> held (v <| v_handlers ::= <[ id := pc ]> |>).
Proof.
  intros (Hs & Ho & Hh & Hrest) Hpc. split_and!; try done; simpl; [|by destruct Hrest as (? & ? & ?)..].
  destruct (decide (id = 0%nat)) as [-> | Hne].
  - rewrite lookup_insert_eq. destruct (Hpc eq_refl) as [-> | ->]; auto.
  - by rewrite lookup_insert_ne.
Qed.

Lemma held_handler a id v v' :
  a = VRequest id \/ a = VAnswer id \/ (exists fails, a = VFail id fails /\ undisturbed a = true) \/ a = VEnd id ->
  v_monitor v <> MonExited -> conns_step a v = Some v' -> held v -> held v'.
Proof.
  intros Ha Hm H Hv. rewrite conns_step_alive in H by done. pose proof Hv as (Hs & Ho & Hh & Hl & Hb & Hacc).
  destruct Ha as [-> |[-> |[(fails & -> & Hu)| ->]]].
  - unfold handler_receives in H. destruct (v_handlers v !! id) as [[]|]; try done.
    destruct (bool_decide _); [|done]. injection H as <-. apply held_insert; auto.
  - unfold handler_answers in H. destruct (v_handlers v !! id) as [[]|]; try done. injection H as <-.
    apply held_insert; [done|]. intros ->. rewrite bool_decide_true by done. auto.
  - unfold handler_fails in H. destruct (v_handlers v !! id) as [[]|] eqn:E; try done.
    destruct (fails || _) eqn:Ef; [|done]. injection H as <-. apply held_insert; [done|].
    intros ->. rewrite bool_decide_true in Ef by done. simpl in Hu, Ef. by destruct fails.
  - unfold handler_ends in H. assert (id <> 0%nat) as Hne.
    { intros ->. by destruct Hh as [Hh|Hh]; rewrite Hh in H. }
    destruct (v_handlers v !! id) as [[]|]; try done; injection H as <-.
    + split_and!; try done. simpl. by rewrite lookup_insert_ne.
    + split_and!; try done; simpl; [set_solver|by rewrite lookup_delete_ne].
Qed.

Lemma held_step a v v' : undisturbed a = true -> conns_step a v = Some v' -> held v -> held v'.
Proof.
  intros Ha H Hv. assert (v_monitor v <> MonExited) as Hm by (apply (vstep_alive v v'); by exists a).
  destruct a as [| |id|id fails|id|id|x|sh|sh| |id|id d|id]; try done;
    try (eapply (held_handler _ id v); [|done..]; naive_solver);
    rewrite conns_step_alive in H by done; destruct Hv as (Hs & Ho & Hh & Hl & Hb & Hacc).
  - unfold client_connects in H. by rewrite Hl in H.
  - unfold acceptLoop_step in H. rewrite Hl in H. destruct Hacc as [E|E]; rewrite E in H; [|done].
    injection H as <-. split_and!; try done. by right.
  - destruct (run_step_same x v v' H) as (Eh & Ec & En & Ea & Eb & Est & Es & Ect & Eo & El & _).
    unfold held. by rewrite Eh, Ea, Eb, Es, Eo, El.
  - apply committer_takes_inv in H as (n & _ & _ & _ & ->). by split_and!.
  - unfold committer_fails in H. destruct (_ || _); [done|]. injection H as <-. by split_and!.
  - unfold Shutdown_step in H. rewrite Hs in H. destruct (decide (id = 1%nat)) as [-> | Hne].
    + by rewrite lookup_singleton_eq in H.
    + by rewrite lookup_singleton_ne in H.
  - unfold Shutdown_wait in H. rewrite bool_decide_false in H; [done|].
    intros E. rewrite E in Hh. by destruct Hh as [Hh|Hh]; rewrite lookup_empty in Hh.
Qed.

Lemma held_run acts v v' : forallb undisturbed acts = true -> conns_run acts v = Some v' -> held v -> held v'.
Proof.
  revert v. induction acts as [|a acts IH]; intros v; simpl; [by intros _ [= <-]|].
  intros [Ha Hacts]%andb_prop (v1 & H1 & Hr)%bind_Some Hv. eapply IH; [done..|]. by eapply held_step.
Qed.

(** A connection that [Accept] returned before the listener was closed, and that
    [acceptLoop] enters in [conns] after [closeConnections], is closed by nobody:
    [Shutdown], its context long done, waits for it as long as its client uses it. *)
Theorem late_connection_holds_shutdown :
  exists v, conns_run late_connection conns0 = Some v /\
    forall acts v', forallb undisturbed acts = true -> conns_run acts v = Some v' ->
      v_shutdowns v' !! 1%nat = Some (ShForced false) /\ 0%nat ∈ v_open v'.
Proof.
  eexists. split; [vm_compute; reflexivity|]. intros acts v' Ha Hr.
  destruct (held_run _ _ _ Ha Hr) as (Hs & Ho & _); [|by rewrite Hs].
  split_and!; try reflexivity; by left.
Qed.

(** A handler that [acceptLoop] starts after [connWg.Wait] has returned serves
    requests after [Shutdown] has closed the database and returned. *)
Theorem late_handler_outlives_shutdown :
  exists v, conns_run late_handler conns0 = Some v /\ v_shutdowns v !! 1%nat = Some ShReturned /\ v_db v = false /\
    v_handlers v !! 0%nat = Some Working.
Proof. eexists. split; [vm_compute; reflexivity|]. by split_and!. Qed.

(** When the connections drain, [Shutdown] does not wait for [run], which can apply
    a batch to the closed database after [Shutdown] has returned. *)
Theorem batch_after_close :
  exists v, conns_run late_apply conns0 = Some v /\ v_shutdowns v !! 1%nat = Some ShReturned /\ v_lateApply v = true.
Proof. eexists. split; [vm_compute; reflexivity|]. by split_and!. Qed.
