(* ===== verification/BenchTheorems.v ===== *)
(** * BenchTheorems: the benchmark commands count and report

    Every request is given to one worker and counted once, the report never reads outside
    the sample, and the sort of the fsync benchmark sorts; and where the two reports
    are not what they say. *)

From S2P Require Export Bench.
From Stdlib Require Import SpecFloat.
Local Open Scope Z_scope.

(** ** Magnitudes of rounded products

    [float64(n) * q] for a length [n] and a fraction [q], and its conversion back to an
    integer, in terms of the rounding of [SpecFloat]: it is finite, not negative, and
    within the range of [int64]. *)

(** The conversion [int64(f)] is defined. *)
Definition in_int64 (f : spec_float) : Prop :=
  match f with
  | S754_zero _ => True
  | S754_finite _ _ _ => - 2 ^ 63 <= float_int f < 2 ^ 63
  | _ => False
  end.

(** A float of value at most [b], of an exponent not below [lo]. *)
Definition at_most (lo b : Z) (f : spec_float) : Prop :=
  match f with
  | S754_zero _ => True
  | S754_finite s m e => s = false /\ lo <= e <= 300 /\ exists c, 0 <= c /\ 0 <= c + e /\ Zpos m * 2 ^ (c + e) <= b * 2 ^ c
  | _ => False
  end.

Lemma digits2_bounds p : 2 ^ (Zpos (digits2_pos p) - 1) <= Zpos p < 2 ^ Zpos (digits2_pos p).
Proof.
  induction p as [p IH|p IH|]; cbn [digits2_pos]; [| |done];
    (replace (Zpos (Pos.succ (digits2_pos p)) - 1) with (Z.succ (Zpos (digits2_pos p) - 1)) by lia);
    rewrite Pos2Z.inj_succ, !Z.pow_succ_r by lia; lia.
Qed.

Lemma Zdigits2_low m : 0 < m -> 1 <= Zdigits2 m /\ 2 ^ (Zdigits2 m - 1) <= m.
Proof. destruct m as [|p|p]; [lia| |lia]. intros _. cbn [Zdigits2]. pose proof (digits2_bounds p). lia. Qed.

Lemma Zdigits2_le m b : 0 <= m < 2 ^ b -> 0 <= b -> 0 <= Zdigits2 m <= b.
Proof.
  intros Hm Hb. destruct (decide (m = 0)) as [->|Hne]; [done|]. destruct (Zdigits2_low m) as [H1 H2]; [lia|].
  split; [lia|]. assert (Zdigits2 m - 1 < b); [|lia]. apply (Z.pow_lt_mono_r_iff 2); lia.
Qed.

Lemma iter_shr p mrs : 0 <= shr_m mrs -> shr_m (iter_pos shr_1 p mrs) = shr_m mrs / 2 ^ Zpos p.
Proof.
  assert (forall mrs, 0 <= shr_m mrs -> shr_m (shr_1 mrs) = shr_m mrs / 2) as H1.
  { intros [m r s] Hm. cbn [shr_m] in *. rewrite <-Z.div2_div. by destruct m as [|[q|q|]|q]; [| | | |lia]. }
  revert mrs. induction p as [p IH|p IH|]; intros mrs Hm; cbn [iter_pos].
  - rewrite !IH, H1 by (rewrite ?IH, ?H1 by (rewrite ?H1; lia || (apply Z.div_pos; lia)); repeat apply Z.div_pos; lia).
    rewrite !Z.div_div by lia. f_equal. rewrite (Pos2Z.inj_xI p).
    replace (2 * Zpos p + 1) with (Z.succ (Zpos p + Zpos p)) by lia. rewrite Z.pow_succ_r, Z.pow_add_r by lia. lia.
  - rewrite !IH by (rewrite ?IH; try apply Z.div_pos; lia). rewrite Z.div_div by lia. f_equal.
    rewrite (Pos2Z.inj_xO p). replace (2 * Zpos p) with (Zpos p + Zpos p) by lia. by rewrite Z.pow_add_r by lia.
  - rewrite H1 by done. done.
Qed.

(** [shr_fexp] drops the digits after the 53rd. *)
Lemma shr_fexp_spec m e l :
  0 <= m -> -1000 <= e -> let k := Z.max 0 (Zdigits2 m - 53) in
  exists r, shr_fexp 53 1024 m e l = (r, e + k) /\ shr_m r = m / 2 ^ k /\ (k = 0 -> r = shr_record_of_loc m l).
Proof.
  intros Hm He k. assert (shr_m (shr_record_of_loc m l) = m) as Er by (by destruct l as [|[]]).
  unfold shr_fexp, fexp, emin, shr.
  assert (Z.max (Zdigits2 m + e - 53) (3 - 1024 - 53) - e = Zdigits2 m - 53 \/ Zdigits2 m - 53 < 0 /\
    Z.max (Zdigits2 m + e - 53) (3 - 1024 - 53) - e < 0) as Hk by lia.
  destruct (Z.max (Zdigits2 m + e - 53) (3 - 1024 - 53) - e) as [|p|p] eqn:Ek.
  - exists (shr_record_of_loc m l). assert (k = 0) as -> by lia. rewrite Z.add_0_r, Z.pow_0_r, Z.div_1_r. done.
  - assert (k = Zpos p) as -> by lia. eexists. split; [reflexivity|]. split; [|done]. rewrite iter_shr; by rewrite ?Er.
  - exists (shr_record_of_loc m l). assert (k = 0) as -> by lia. rewrite Z.add_0_r, Z.pow_0_r, Z.div_1_r. done.
Qed.

Lemma round_even_bounds m l : m <= round_nearest_even m l <= m + 1.
Proof. destruct l as [|[]]; simpl; try lia. destruct (Z.even m); lia. Qed.

(** Rounding at most doubles. *)
Lemma round_doubles m e :
  0 < m < 2 ^ 170 -> -300 <= e <= 0 ->
  match binary_round_aux 53 1024 false m e loc_Exact with
  | S754_zero _ => True
  | S754_finite s m' e' => s = false /\ e <= e' <= 300 /\ Zpos m' * 2 ^ (e' - e) <= 2 * m
  | _ => False
  end.
Proof.
  intros Hm He. unfold binary_round_aux. destruct (shr_fexp_spec m e loc_Exact) as (r & -> & Hr & H0); [lia..|].
  set (k := Z.max 0 (Zdigits2 m - 53)) in *. pose proof (round_even_bounds (shr_m r) (loc_of_shr_record r)) as Hb.
  set (m2 := round_nearest_even (shr_m r) (loc_of_shr_record r)) in *.
  destruct (Zdigits2_low m) as [Hd1 Hd2]; [lia|]. destruct (Zdigits2_le m 170) as [_ Hd3]; [lia..|].
  assert (0 <= m / 2 ^ k <= m) as Hdiv by (split; [apply Z.div_pos; lia|apply Z.div_le_upper_bound; nia]).
  assert (m2 * 2 ^ k <= 2 * m) as H2.
  { destruct (decide (k = 0)) as [E|Hk].
    - rewrite E in *. rewrite (H0 eq_refl) in *. unfold m2. simpl. lia.
    - assert (2 ^ k <= m) by (transitivity (2 ^ (Zdigits2 m - 1)); [apply Z.pow_le_mono_r; lia|done]).
      pose proof (Z.mul_div_le m (2 ^ k)). nia. }
  assert (m2 < 2 ^ 171) as Hm2 by lia. destruct (Zdigits2_le m2 171) as [_ Hd4]; [lia..|].
  destruct (shr_fexp_spec m2 (e + k) loc_Exact) as (r3 & -> & Hr3 & _); [lia..|].
  set (k2 := Z.max 0 (Zdigits2 m2 - 53)) in *. rewrite Hr3.
  pose proof (Z.mul_div_le m2 (2 ^ k2)) as H3. assert (0 <= m2 / 2 ^ k2) by (apply Z.div_pos; lia).
  destruct (m2 / 2 ^ k2) as [|m3|m3]; [done| |lia].
  destruct (Z.leb_spec (e + k + k2) (1024 - 53)); [|lia]. split_and!; [done|lia..|].
  replace (e + k + k2 - e) with (k + k2) by lia. rewrite Z.pow_add_r by lia.
  transitivity (m2 * 2 ^ k); [nia|done].
Qed.

Lemma round_at_most m e b :
  0 < m < 2 ^ 170 -> -300 <= e <= 0 -> m <= b * 2 ^ (- e) -> at_most e (2 * b) (binary_round_aux 53 1024 false m e loc_Exact).
Proof.
  intros Hm He Hb. pose proof (round_doubles m e Hm He) as H.
  destruct (binary_round_aux 53 1024 false m e loc_Exact) as [s|s| |s m' e']; [done..|].
  destruct H as (Hs & He' & Hv). split_and!; [done|lia..|]. exists (- e). split_and!; [lia..|].
  replace (- e + e') with (e' - e) by lia. lia.
Qed.

Lemma iter_xO p d : Zpos (Pos.iter xO p d) = Zpos p * 2 ^ Zpos d.
Proof.
  induction d as [|d IH] using Pos.peano_ind; [simpl; lia|].
  rewrite Pos.iter_succ, Pos2Z.inj_succ, Z.pow_succ_r, Pos2Z.inj_xO, IH by lia. ring.
Qed.

Lemma at_most_lower lo lo' b f : lo' <= lo -> at_most lo b f -> at_most lo' b f.
Proof.
  intros Hl. destruct f as [s|s| |s m e]; [done..|]. intros (Hs & He & Hx). split; [done|]. split; [lia|exact Hx].
Qed.

Lemma f64_at_most n : 0 <= n < 2 ^ 53 -> at_most (-53) (2 * n) (f64 n).
Proof.
  intros Hn. unfold f64, binary_normalize. destruct n as [|p|p]; [done| |lia].
  unfold binary_round, shl_align, fexp, emin. pose proof (digits2_bounds p) as Hd.
  assert (Zpos (digits2_pos p) <= 53) as H53.
  { assert (Zpos (digits2_pos p) - 1 < 53); [|lia]. apply (Z.pow_lt_mono_r_iff 2); lia. }
  replace (Z.max (Zpos (digits2_pos p) + 0 - 53) (3 - 1024 - 53) - 0) with (Zpos (digits2_pos p) - 53) by lia.
  destruct (Zpos (digits2_pos p) - 53) as [|d|d] eqn:Ed; [apply (at_most_lower 0); [lia|]; apply round_at_most; lia|lia|].
  replace (Z.max (Zpos (digits2_pos p) + 0 - 53) (3 - 1024 - 53)) with (Zneg d) by lia.
  assert (2 ^ Zpos d <= 2 ^ 53) by (apply Z.pow_le_mono_r; lia).
  apply (at_most_lower (Zneg d)); [lia|]. apply round_at_most; rewrite ?iter_xO; [nia|lia|]. change (- Zneg d) with (Zpos d). lia.
Qed.

(** [float64(n) * q] for a fraction [q] below one. *)
Lemma product_at_most n mq :
  0 <= n < 2 ^ 53 -> Zpos mq < 2 ^ 53 -> at_most (-106) (4 * n) (SFmul 53 1024 (f64 n) (S754_finite false mq (-53))).
Proof.
  intros Hn Hq. pose proof (f64_at_most n Hn) as H.
  destruct (f64 n) as [s|s| |s m e]; [done..|]. destruct H as (-> & He & c & Hc & Hce & Hv).
  assert (e <= 53) as He53.
  { assert (2 ^ (c + e) < 2 ^ (54 + c)) as Hlt; [|apply Z.pow_lt_mono_r_iff in Hlt; lia].
    rewrite Z.pow_add_r with (b := 54) by lia. nia. }
  assert (Zpos m * 2 ^ 53 <= 2 * n * 2 ^ (53 - e)) as Hm.
  { apply (Z.mul_le_mono_pos_r _ _ (2 ^ (c + e))); [lia|].
    replace (2 * n * 2 ^ (53 - e) * 2 ^ (c + e)) with (2 * n * 2 ^ c * 2 ^ 53); [nia|].
    rewrite <-!Z.mul_assoc, <-!Z.pow_add_r by lia. do 3 f_equal. lia. }
  assert (2 ^ (53 - e) <= 2 ^ 106) by (apply Z.pow_le_mono_r; lia).
  cbn [SFmul xorb]. replace (4 * n) with (2 * (2 * n)) by lia. apply (at_most_lower (e + -53)); [lia|].
  apply round_at_most; rewrite ?Pos2Z.inj_mul; [split; [lia|]|lia|].
  - assert (Zpos m < 2 ^ 110) by nia. nia.
  - replace (- (e + -53)) with (53 - e) by lia. nia.
Qed.

Lemma float_int_bounds lo b f : at_most lo b f -> 0 <= b -> 0 <= float_int f <= b.
Proof.
  intros H Hb. destruct f as [s|s| |s m e]; [simpl; lia..|]. destruct H as (-> & He & c & Hc & Hce & Hv). cbn [float_int].
  destruct (Z.leb_spec 0 e).
  - split; [lia|]. rewrite Z.pow_add_r in Hv by lia. nia.
  - split; [apply Z.div_pos; lia|]. apply Z.div_le_upper_bound; [lia|].
    apply (Z.mul_le_mono_pos_r _ _ (2 ^ (c + e))); [lia|]. etransitivity; [exact Hv|].
    replace c with (- e + (c + e)) at 1 by lia. rewrite Z.pow_add_r by lia. lia.
Qed.

(** The conversion of the product is defined, and gives an index that is not negative. *)
Lemma product_in_int64 n mq :
  0 <= n < 2 ^ 53 -> Zpos mq < 2 ^ 53 ->
  let f := SFmul 53 1024 (f64 n) (S754_finite false mq (-53)) in in_int64 f /\ 0 <= float_int f.
Proof.
  intros Hn Hq f. pose proof (product_at_most n mq Hn Hq) as H. pose proof (float_int_bounds _ _ _ H).
  fold f in H, H0 |- *. split; [|lia]. destruct f; try done. unfold in_int64. lia.
Qed.

(** ** Counting *)

(** Requests a [stats] accounts for. *)
Definition counted (st : stats) : Z := len (b_latencies st) + b_errors st.

(** A worker counts each of its keys once, whatever happens. *)
Definition counts (worker : nat -> list bytes -> list bytes -> stats -> stats) : Prop :=
  forall i keys values st, length values = length keys -> counted (worker i keys values st) = counted st + len keys.

Lemma counted_add lats errs st : counted (add_stats lats errs st) = counted st + (len lats + errs).
Proof. unfold counted, add_stats, len. simpl. rewrite length_app. lia. Qed.

Section counting.
Context {T : Type} `{!StreamTransport T}.

Lemma runWorker_loop_counts kvs env i (t : T) lats errs :
  let '(lats', errs') := runWorker_loop kvs env i t lats errs in len lats' + errs' = len lats + errs + len kvs.
Proof.
  revert i t lats errs. induction kvs as [|[key val] kvs IH]; intros i t lats errs; cbn [runWorker_loop].
  - unfold len. simpl. lia.
  - destruct (runWorker_request key val (env i) t) as [[l|] t'].
    + specialize (IH (S i) t' (lats ++ [l]) errs). destruct (runWorker_loop _ _ _ _ _ _) as [lats' errs'].
      unfold len in *. rewrite length_app in IH. simpl in *. lia.
    + specialize (IH (S i) t' lats (errs + 1)). destruct (runWorker_loop _ _ _ _ _ _) as [lats' errs'].
      unfold len in *. simpl in *. lia.
Qed.

Lemma runWorker_counts (dial : nat -> Result T) env : counts (fun i => runWorker (dial i) (env i)).
Proof.
  intros i keys values st Hl. unfold runWorker. destruct (dial i) as [e|t].
  - unfold counted. simpl. lia.
  - pose proof (runWorker_loop_counts (zip keys values) (env i) 0 t [] 0) as H.
    destruct (runWorker_loop _ _ _ _ _ _) as [lats errs]. rewrite counted_add, H.
    unfold len. rewrite length_zip_with_l_eq by done. simpl. lia.
Qed.

End counting.

Lemma runGRPCWorker_loop_counts keys call elapsed i lats errs :
  let '(lats', errs') := runGRPCWorker_loop keys call elapsed i lats errs in len lats' + errs' = len lats + errs + len keys.
Proof.
  revert i lats errs. induction keys as [|key keys IH]; intros i lats errs; cbn [runGRPCWorker_loop].
  - unfold len. simpl. lia.
  - destruct (call i).
    + specialize (IH (S i) lats (errs + 1)). destruct (runGRPCWorker_loop _ _ _ _ _ _). unfold len in *. simpl in *. lia.
    + specialize (IH (S i) (lats ++ [elapsed i]) errs). destruct (runGRPCWorker_loop _ _ _ _ _ _).
      unfold len in *. rewrite length_app in IH. simpl in *. lia.
Qed.

Lemma runGRPCWorker_counts call elapsed : counts (fun i keys _ => runGRPCWorker (call i) (elapsed i) keys).
Proof.
  intros i keys values st _. unfold runGRPCWorker. pose proof (runGRPCWorker_loop_counts keys (call i) (elapsed i) 0 [] 0) as H.
  destruct (runGRPCWorker_loop _ _ _ _ _ _) as [lats errs]. rewrite counted_add, H. unfold len. simpl. lia.
Qed.

Lemma bench_worker_counts {T : Type} `{!StreamTransport T} (m : bench_mode T) : counts (bench_worker m).
Proof. destruct m as [dial env|call elapsed]; [apply runWorker_counts|apply runGRPCWorker_counts]. Qed.

(** ** The division of the requests *)

Definition worker_range (n c : Z) (i : nat) : Z * Z :=
  let per := Z.quot n c in
  (Z.of_nat i * per, if Z.of_nat i =? c - 1 then n else Z.of_nat i * per + per).

Lemma bench_ranges_ok n c : 1 <= c -> bench_ranges n c = Ok (worker_range n c <$> seq 0 (Z.to_nat c)).
Proof. intros Hc. unfold bench_ranges. by destruct (Z.eqb_spec c 0) as [->|_]; [lia|]. Qed.

Definition worker_keys {A : Type} (l : list A) (c : Z) (i : nat) : list A :=
  slice l (worker_range (len l) c i).1 (worker_range (len l) c i).2.

Lemma quot_bounds n c : 0 <= n -> 1 <= c -> 0 <= Z.quot n c /\ c * Z.quot n c <= n.
Proof. intros. rewrite Z.quot_div_nonneg by lia. split; [apply Z.div_pos; lia|apply Z.mul_div_le; lia]. Qed.

Lemma first_workers {A : Type} (l : list A) c (k : nat) :
  1 <= c -> Z.of_nat k <= c - 1 ->
  concat (worker_keys l c <$> seq 0 k) = take (Z.to_nat (Z.of_nat k * Z.quot (len l) c)) l.
Proof.
  intros Hc. destruct (quot_bounds (len l) c) as [H0 H1]; [unfold len; lia|done|].
  induction k as [|k IH]; intros Hk; [done|].
  rewrite seq_S, fmap_app, concat_app, IH by lia. simpl. rewrite app_nil_r.
  unfold worker_keys at 1, worker_range. simpl. destruct (Z.eqb_spec (Z.of_nat k) (c - 1)) as [E|_]; [lia|].
  unfold slice. rewrite take_take_drop. f_equal. nia.
Qed.

(** The slices of the workers are the whole slice, in order. *)
Lemma workers_partition {A : Type} (l : list A) c :
  1 <= c -> concat (worker_keys l c <$> seq 0 (Z.to_nat c)) = l.
Proof.
  intros Hc. destruct (quot_bounds (len l) c) as [H0 H1]; [unfold len; lia|done|].
  replace (Z.to_nat c) with (S (Z.to_nat (c - 1))) by lia.
  rewrite seq_S, fmap_app, concat_app, first_workers by lia. simpl. rewrite app_nil_r.
  unfold worker_keys, worker_range. simpl. rewrite Z2Nat.id by lia. rewrite Z.eqb_refl.
  unfold slice. rewrite (take_ge (drop _ _)); [by rewrite take_drop|].
  rewrite length_drop. unfold len. nia.
Qed.

Lemma length_worker_keys {A B : Type} (l : list A) (l' : list B) c i :
  length l = length l' -> length (worker_keys l c i) = length (worker_keys l' c i).
Proof.
  intros H. unfold worker_keys, slice, len. rewrite !length_take, !length_drop, H. done.
Qed.

Lemma bench_workers_counted worker (keys values : list bytes) c order :
  counts worker -> length values = length keys -> Forall (fun i => Z.of_nat i < c) order ->
  counted (bench_workers worker keys values (worker_range (len keys) c <$> seq 0 (Z.to_nat c)) order) =
  Z.of_nat (sum_list_with (fun i => length (worker_keys keys c i)) order).
Proof.
  intros Hw Hl Ho. unfold bench_workers.
  induction order as [|i order IH] using rev_ind; [done|]. apply Forall_app in Ho as [Ho Hi]. rewrite Forall_singleton in Hi.
  rewrite foldl_app, sum_list_with_app. cbn [foldl sum_list_with].
  rewrite list_lookup_fmap, lookup_seq_lt by lia. cbn [fmap option_fmap option_map].
  pose proof (length_worker_keys values keys c i Hl) as Hlen. unfold worker_keys in *.
  replace (len values) with (len keys) in Hlen by (unfold len; lia).
  change (0 + i)%nat with i. destruct (worker_range (len keys) c i) as [s e]. simpl in *.
  rewrite Hw by done. rewrite (IH Ho). unfold len. lia.
Qed.

Lemma sum_concat {A : Type} (f : nat -> list A) ws :
  sum_list_with (fun i => length (f i)) ws = length (concat (f <$> ws)).
Proof. induction ws as [|i ws IH]; [done|]. simpl. rewrite IH, length_app. done. Qed.

Lemma prepareData_length n size keys values :
  prepareData n size = Ok (keys, values) -> len keys = n /\ length values = length keys.
Proof.
  unfold prepareData, len. destruct (_ || _) eqn:E; [done|]. intros [= <- <-].
  rewrite length_fmap, length_seq, length_replicate. to_prop. lia.
Qed.

(** The load generator gives every request to one worker: the workers' slices, in
    order, are the generated keys.  And whatever the network, the server and the clock do,
    and in whichever order the workers finish, the successes and errors of a run add up
    to the number of requests, for the plain workers and for the gRPC ones. *)
Theorem every_request_counted {T : Type} `{!StreamTransport T} (m : bench_mode T) totalReqs concurrency valueSize keys values
    order :
  1 <= concurrency -> prepareData totalReqs valueSize = Ok (keys, values) ->
  order ≡ₚ seq 0 (Z.to_nat concurrency) ->
  exists ranges, bench_ranges totalReqs concurrency = Ok ranges /\
    concat ((fun '(s, e) => slice keys s e) <$> ranges) = keys /\
    counted (bench_workers (bench_worker m) keys values ranges order) = totalReqs.
Proof.
  intros Hc Hp Ho. destruct (prepareData_length _ _ _ _ Hp) as [<- Hl]. eexists.
  split; [by apply bench_ranges_ok|]. split.
  - rewrite <-list_fmap_compose. erewrite list_fmap_ext; [by apply (workers_partition keys concurrency)|].
    intros i x _. unfold worker_keys. simpl. by destruct (worker_range (len keys) concurrency x).
  - rewrite bench_workers_counted; [|apply bench_worker_counts|done|].
    + rewrite Ho, sum_concat, workers_partition by done. done.
    + rewrite Ho. apply Forall_seq. lia.
Qed.

(** Five requests, two workers: one cannot dial, the other reaches a server that closes
    the connection. *)
Definition failing_run : bench_mode TcpStreamTransport :=
  Plain (fun i => if Nat.eqb i 0 then inl IOErr else inr (NewTcpStream (NewFramer [] ErrEOF true true)))
    (fun _ _ => mkAttempt false None None id None 7).

Lemma every_request_counted_witness :
  exists keys values ranges, prepareData 5 2 = Ok (keys, values) /\ bench_ranges 5 2 = Ok ranges /\
    ranges = [(0, 2); (2, 5)] /\ counted (bench_workers (bench_worker failing_run) keys values ranges [1%nat; 0%nat]) = 5.
Proof.
  destruct (prepareData 5 2) as [[keys values]|] eqn:E; [|vm_compute in E; discriminate].
  destruct (every_request_counted failing_run 5 2 2 keys values [1%nat; 0%nat]) as (ranges & Hr & _ & Hn).
  - lia.
  - done.
  - apply Permutation_swap.
  - exists keys, values, ranges. split_and!; try done. vm_compute in Hr. by injection Hr as <-.
Defined.

(** ** The report *)

Definition total_duration (l : list Z) : Z := foldr Z.add 0 l.

Lemma total_nonneg l : Forall (Z.le 0) l -> 0 <= total_duration l.
Proof. unfold total_duration. induction 1; simpl; lia. Qed.

Lemma sum_exact a l :
  Forall (Z.le 0) l -> 0 <= a -> a + total_duration l < 2 ^ 63 ->
  foldl (fun sum l => int64 (sum + l)) a l = a + total_duration l.
Proof.
  intros Hl. revert a. induction Hl as [|x l Hx Hl IH]; intros a Ha Ht; [simpl; lia|].
  pose proof (total_nonneg l Hl). cbn [foldl total_duration foldr] in *. fold (total_duration l) in *.
  assert (int64 (a + x) = a + x) as -> by (unfold int64; rewrite Z.mod_small; lia).
  rewrite IH; lia.
Qed.

Lemma total_bounds lo hi l :
  Forall (fun x => lo <= x <= hi) l -> lo * len l <= total_duration l <= hi * len l.
Proof. unfold len, total_duration. induction 1 as [|x l Hx _ IH]; simpl; [lia|]. rewrite Nat2Z.inj_succ. lia. Qed.

Lemma sorted_lookup (l : list Z) i j x y :
  StronglySorted Z.le l -> l !! i = Some x -> l !! j = Some y -> (i <= j)%nat -> x <= y.
Proof.
  intros Hs. revert i j. induction Hs as [|z l Hs IH Hz]; intros i j Hi Hj Hij; [done|].
  destruct i as [|i], j as [|j]; simpl in *; [by simplify_eq|simplify_eq|lia|by eapply (IH i j); try lia].
  rewrite Forall_forall in Hz. apply Hz. by eapply list_elem_of_lookup_2.
Qed.

Lemma index_sorted (l : list Z) lo hi :
  StronglySorted Z.le l -> index l 0 = Some lo -> index l (len l - 1) = Some hi -> Forall (fun x => lo <= x <= hi) l.
Proof.
  unfold index, len. intros Hs H0 H1. repeat case_decide; try done. apply Forall_lookup. intros i x Hi.
  pose proof (lookup_lt_Some _ _ _ Hi). split; (eapply sorted_lookup; [exact Hs|done..|lia]).
Qed.

Lemma at_index_ok (l : list Z) i : 0 <= i < len l -> exists x, at_index l i = Ok x /\ index l i = Some x /\ x ∈ l.
Proof.
  unfold at_index, index, len. intros Hi. rewrite decide_True by lia.
  destruct (lookup_lt_is_Some_2 l (Z.to_nat i)) as [x Hx]; [lia|]. exists x. rewrite Hx. split_and!; [done..|].
  by eapply list_elem_of_lookup_2.
Qed.

Lemma StronglySorted_drop (l : list Z) n : StronglySorted Z.le l -> StronglySorted Z.le (drop n l).
Proof. intros Hs. revert n. induction Hs; intros [|n]; simpl; auto; constructor; auto. Qed.

Lemma merge_sorted (l : list Z) : StronglySorted Z.le (merge_sort Z.le l).
Proof. apply (StronglySorted_merge_sort Z.le). Qed.

(** What the report promises of the latencies it keeps. *)
Definition report_ok (kept : list Z) (r : results) : Prop :=
  Forall (fun x => rp_min r <= x <= rp_max r) kept /\
  {[ rp_min r; rp_max r; rp_p50 r; rp_p99 r; rp_p999 r ]} ⊆@{gset Z} list_to_set kept /\
  (Forall (Z.le 0) kept -> total_duration kept < 2 ^ 63 -> rp_min r <= rp_avg r <= rp_max r).

Lemma fraction_in_range n : 0 <= n < 2 ^ 53 ->
  (in_int64 (SFmul 53 1024 (f64 n) lit099) /\ 0 <= scaled n lit099) /\
  (in_int64 (SFmul 53 1024 (f64 n) lit0999) /\ 0 <= scaled n lit0999).
Proof.
  intros Hn. unfold scaled.
  assert (lit099 = S754_finite false 8917127262193582 (-53)) as -> by (vm_compute; reflexivity).
  assert (lit0999 = S754_finite false 8998192055486251 (-53)) as -> by (vm_compute; reflexivity).
  split; apply product_in_int64; try done; lia.
Qed.

Lemma quot_between lo hi t n : 0 < n -> 0 <= t -> lo * n <= t <= hi * n -> lo <= Z.quot t n <= hi.
Proof.
  intros Hn Ht Hb. rewrite Z.quot_div_nonneg by lia. split; [apply Z.div_le_lower_bound; lia|].
  assert (t / n < hi + 1); [|lia]. apply Z.div_lt_upper_bound; lia.
Qed.

(** A negative warmup, which the program accepts as a flag, makes the report panic. *)
Theorem negative_warmup_panics warmup st :
  warmup < 0 -> b_latencies st <> [] -> exists why, printReport warmup st = Panic why.
Proof.
  intros Hw Hne. unfold printReport.
  assert (0 < len (merge_sort Z.le (b_latencies st))) as Hl.
  { unfold len. rewrite (merge_sort_Permutation Z.le). destruct (b_latencies st); [done|]. simpl. lia. }
  rewrite (proj2 (Z.eqb_neq _ _)), (proj2 (Z.leb_gt _ _)), (proj2 (Z.ltb_lt _ _)) by lia. by eexists.
Qed.

(** C37: with fewer than 2^53 successes and a value of the warmup flag that is not
    negative, the report never reads outside its sample: the conversions of its float
    indices are in range, and it prints the smallest and the largest of the latencies it
    keeps, percentiles that are among them, and an average between the two if the sum
    fits in 64 bits. *)
Theorem report_in_range warmup st :
  0 <= warmup -> len (b_latencies st) < 2 ^ 53 ->
  (forall n, 0 <= n <= len (b_latencies st) ->
     in_int64 (SFmul 53 1024 (f64 n) lit099) /\ in_int64 (SFmul 53 1024 (f64 n) lit0999)) /\
  exists rep, printReport warmup st = Ok rep /\
    match rep with
    | NoSuccess e => b_latencies st = [] /\ e = b_errors st
    | AllWarmup => False
    | Results r =>
        rp_total r = len (b_latencies st) /\ rp_errors r = b_errors st /\ 0 <= rp_warmup r < rp_total r /\
        report_ok (slice_from (merge_sort Z.le (b_latencies st)) (rp_warmup r)) r
    end.
Proof.
  intros Hw Hl. split; [intros n Hn; destruct (fraction_in_range n) as [[? ?] [? ?]]; [lia|done]|].
  assert (len (merge_sort Z.le (b_latencies st)) = len (b_latencies st)) as El
    by (unfold len; by rewrite (merge_sort_Permutation Z.le)).
  unfold printReport. rewrite El. set (total := len (b_latencies st)) in *. destruct (Z.eqb_spec total 0) as [E0|E0].
  { exists (NoSuccess (b_errors st)). split_and!; try done. apply length_zero_iff_nil. unfold total, len in E0. lia. }
  set (wc := if total <=? warmup then 0 else warmup).
  assert (0 <= wc < total) as Hwc by (unfold wc; destruct (Z.leb_spec total warmup); unfold total, len in *; lia).
  destruct (Z.ltb_spec wc 0); [lia|]. set (kept := slice_from (merge_sort Z.le (b_latencies st)) wc).
  assert (len kept = total - wc) as En.
  { unfold kept, slice_from, len in *. rewrite length_drop. lia. }
  assert (StronglySorted Z.le kept) as Hs by apply StronglySorted_drop, merge_sorted.
  destruct (Z.eqb_spec (len kept) 0) as [Ez|_]; [lia|]. set (n := len kept) in *.
  destruct (fraction_in_range n) as [[_ H99] [_ H999]]; [lia|].
  destruct (at_index_ok kept 0) as (lo & -> & Hlo & Mlo); [lia|].
  destruct (at_index_ok kept (n - 1)) as (hi & -> & Hhi & Mhi); [lia|].
  destruct (at_index_ok kept (n / 2)) as (p50 & -> & _ & M50).
  { split; [apply Z.div_pos; lia|apply Z.div_lt; lia]. }
  destruct (at_index_ok kept (min64 (scaled n lit099) (n - 1))) as (p99 & -> & _ & M99).
  { unfold min64. destruct (Z.ltb_spec (scaled n lit099) (n - 1)); lia. }
  destruct (at_index_ok kept (min64 (scaled n lit0999) (n - 1))) as (p999 & -> & _ & M999).
  { unfold min64. destruct (Z.ltb_spec (scaled n lit0999) (n - 1)); lia. }
  eexists. split; [reflexivity|]. cbn [rp_total rp_errors rp_warmup]. split_and!; try done; try lia.
  pose proof (index_sorted kept lo hi Hs Hlo Hhi) as Hall. split_and!; simpl; [done|set_solver|].
  intros Hpos Hsum. pose proof (total_bounds lo hi kept Hall). pose proof (total_nonneg kept Hpos).
  unfold sum_durations. rewrite sum_exact by (done || lia). apply quot_between; unfold n in *; lia.
Qed.

Lemma report_in_range_witness :
  exists r, printReport 1 (mkStats [30; 10; 20] 2) = Ok (Results r) /\ rp_min r = 20 /\ rp_avg r = 25 /\ rp_max r = 30 /\
    in_int64 (SFmul 53 1024 (f64 3) lit099).
Proof.
  destruct (report_in_range 1 (mkStats [30; 10; 20] 2)) as (Hin & rep & Hr & Hok); [lia|done|].
  vm_compute in Hr. injection Hr as <-. eexists. split; [vm_compute; reflexivity|]. split_and!; [done..|].
  apply (Hin 3). split; [lia|done].
Defined.

(** The report sorts the latencies before it discards the first [warmup] of them, so
    it discards the fastest requests and keeps the slow ones of the warmup. *)
Theorem warmup_discards_fastest :
  exists r, printReport 2 (mkStats [100; 100; 1; 2] 0) = Ok (Results r) /\ rp_warmup r = 2 /\ rp_min r = 100 /\ rp_p50 r = 100 /\
    Forall (fun l => l < rp_min r) (drop 2 [100; 100; 1; 2]).
Proof. eexists. split; [vm_compute; reflexivity|]. split_and!; try done. simpl. by repeat constructor. Qed.

(** ** Pipelined workers *)

Section pipelined.
Context {T : Type} `{!StreamTransport T}.

Record pipe_ok (n : nat) (p : @pipe T) : Prop := {
  po_counts : len (pp_lats p) + pp_errs p = Z.of_nat (pp_received p);
  po_received : (pp_received p <= n)%nat;
  po_sends : 0 <= pp_sendErrs p <= Z.of_nat (pp_sent p)
}.

Lemma pipe_run_ok n acts (p p' : @pipe T) : pipe_ok n p -> pipe_run n acts p = Some p' -> pipe_ok n p'.
Proof.
  revert p. induction acts as [|[now setDL flush|now arrive setDL] acts IH]; intros p Hp; cbn [pipe_run];
    [by intros [= <-]|intros (p1 & H1 & Hr)%bind_Some; eapply IH; [|exact Hr]..]; destruct Hp as [Hc Hrc Hs].
  - unfold pipe_send in H1. destruct (pp_payloads p); [done|]. destruct (st_Send _ _ _ _) as [e t]. injection H1 as <-.
    split; simpl; [done..|]. destruct e; lia.
  - unfold pipe_receive in H1. destruct (Nat.ltb_spec (pp_received p) n); [|done].
    destruct (bench_receive setDL _) as [[] t]; injection H1 as <-; (split; simpl; [|lia|done]).
    + unfold len in *. rewrite length_app. simpl. lia.
    + lia.
Qed.

(** A pipelined worker that ends has counted each of its keys at least once, and at
    most twice. *)
Theorem pipelined_counts dial gets (acts : list (@pipe_action T)) keys values st st' :
  runPipelinedWorker dial gets acts keys values st = Some st' ->
  counted st + len keys <= counted st' <= counted st + 2 * len keys.
Proof.
  unfold runPipelinedWorker. destruct dial as [e|t]; [|destruct (encode_all gets 0 (zip keys values)) as [payloads|]];
    try (intros [= <-]; unfold counted; simpl; unfold len; lia).
  intros (p & Hr & H)%bind_Some. destruct (_ && _) eqn:E; [|done]. injection H as <-. apply andb_prop in E as [E1 E2].
  apply Nat.eqb_eq in E1, E2.
  apply pipe_run_ok in Hr as [Hc Hrc Hs]; [|by split; unfold len; simpl; lia].
  rewrite counted_add. unfold len in *. lia.
Qed.

End pipelined.

(** The connection is broken: the send fails, and nothing arrives. *)
Definition broken_dial : Result TcpStreamTransport := inr (NewTcpStream (NewFramer [] ErrEOF true true)).
Definition broken_acts : list (@pipe_action TcpStreamTransport) := [PipeSend 5 None (Some IOErr); PipeReceive 9 id None].

Lemma broken_run :
  runPipelinedWorker broken_dial (fun _ => true) broken_acts [bench_key 0] [[]] (mkStats [] 0) = Some (mkStats [] 2).
Proof. vm_compute. reflexivity. Qed.

Lemma pipelined_counts_witness :
  counted (mkStats [] 0) + len [bench_key 0] <= counted (mkStats [] 2) <= counted (mkStats [] 0) + 2 * len [bench_key 0].
Proof. exact (pipelined_counts broken_dial _ broken_acts _ _ _ _ broken_run). Defined.

(** A request whose send fails is counted as two errors, by the sender and by the
    receiver that waits for its response. *)
Theorem failed_send_counts_twice :
  runPipelinedWorker broken_dial (fun _ => true) broken_acts [bench_key 0] [[]] (mkStats [] 0) = Some (mkStats [] 2).
Proof. exact broken_run. Qed.

(** ** The sort of fsync-bench *)

Lemma insert_swap (l : list Z) i j x y :
  (i < j)%nat -> l !! i = Some x -> l !! j = Some y -> <[ i := y ]> (<[ j := x ]> l) ≡ₚ l.
Proof.
  intros Hij Hi Hj. pose proof (lookup_lt_Some _ _ _ Hi).
  rewrite <-(take_drop_middle l i x Hi). set (a := take i l). assert (length a = i) as Ha by (apply length_take_le; lia).
  set (b := drop (S i) l). assert (b !! (j - S i)%nat = Some y) as Hb
    by (unfold b; rewrite lookup_drop; replace (S i + (j - S i))%nat with j by lia; done).
  rewrite <-(take_drop_middle b _ y Hb). set (b1 := take (j - S i) b).
  pose proof (lookup_lt_Some _ _ _ Hb). assert (length b1 = (j - S i)%nat) as Hb1 by (apply length_take_le; lia).
  replace j with (length a + S (length b1))%nat by lia. rewrite insert_app_r. cbn [insert list_insert].
  rewrite (insert_app_r_alt b1 _ (length b1)) by lia. rewrite Nat.sub_diag. cbn [insert list_insert].
  rewrite <-Ha at 1. rewrite (insert_app_r_alt a _ (length a)) by lia. rewrite Nat.sub_diag. cbn [insert list_insert].
  apply Permutation_app_head. rewrite <-!Permutation_middle. apply Permutation_swap.
Qed.

(** A comparison of the inner loop. *)
Lemma exchange_spec i j (l : list Z) :
  (i < j < length l)%nat ->
  exchange i l j ≡ₚ l /\ exchange i l j !!! i = Z.min (l !!! i) (l !!! j) /\ exchange i l j !!! j = Z.max (l !!! i) (l !!! j) /\
  (forall k, k <> i -> k <> j -> exchange i l j !!! k = l !!! k).
Proof.
  intros Hij. destruct (lookup_lt_is_Some_2 l i) as [x Hx]; [lia|]. destruct (lookup_lt_is_Some_2 l j) as [y Hy]; [lia|].
  unfold exchange. rewrite Hx, Hy, (list_lookup_total_correct _ _ _ Hx), (list_lookup_total_correct _ _ _ Hy).
  destruct (Z.ltb_spec y x).
  - split_and!; [by apply insert_swap; [lia|..]| | |].
    + rewrite list_lookup_total_insert_eq by (rewrite length_insert; lia). lia.
    + rewrite list_lookup_total_insert_ne, list_lookup_total_insert_eq by lia. lia.
    + intros k Hi Hj. by rewrite !list_lookup_total_insert_ne by done.
  - split_and!; [done|rewrite (list_lookup_total_correct _ _ _ Hx); lia|rewrite (list_lookup_total_correct _ _ _ Hy); lia|done].
Qed.

(** The inner loop, up to [S i + m]: the smallest element so far is at [i]. *)
Lemma sort_pass_spec i m (l : list Z) :
  (S i + m <= length l)%nat -> let l' := foldl (exchange i) l (seq (S i) m) in
  l' ≡ₚ l /\ (forall k, (k < i)%nat -> l' !!! k = l !!! k) /\
  (forall k, (i < k < S i + m)%nat -> l' !!! i <= l' !!! k) /\
  (forall b, (forall k, (i <= k < length l)%nat -> b <= l !!! k) -> forall k, (i <= k < length l)%nat -> b <= l' !!! k).
Proof.
  induction m as [|m IH]; intros Hm; [simpl; split_and!; try done; lia|].
  rewrite seq_S, foldl_app. cbn [foldl]. destruct IH as (Hp & Hpre & Hmin & Hlow); [lia|].
  set (l1 := foldl (exchange i) l (seq (S i) m)) in *. set (j := (S i + m)%nat) in *.
  assert (length l1 = length l) as Hlen by (by rewrite Hp).
  destruct (exchange_spec i j l1) as (Hp' & Hi & Hj & Ho); [lia|].
  split_and!; [by rewrite Hp'|intros k Hk; rewrite Ho by lia; by apply Hpre| |].
  - intros k Hk. rewrite Hi. destruct (decide (k = j)) as [->|Hne]; [rewrite Hj; lia|].
    rewrite Ho by lia. specialize (Hmin k). lia.
  - intros b Hb k Hk. pose proof (Hlow b Hb i ltac:(lia)). pose proof (Hlow b Hb j ltac:(lia)).
    destruct (decide (k = i)) as [->|Hni]; [rewrite Hi; lia|]. destruct (decide (k = j)) as [->|Hnj]; [rewrite Hj; lia|].
    rewrite Ho by done. by apply Hlow.
Qed.

Lemma sort_prefix m (l : list Z) :
  (m <= length l)%nat -> let l' := foldl sort_pass l (seq 0 m) in
  l' ≡ₚ l /\ (forall a b, (a < m)%nat -> (a <= b < length l)%nat -> l' !!! a <= l' !!! b).
Proof.
  induction m as [|m IH]; intros Hm; [simpl; split; [done|lia]|].
  rewrite seq_S, foldl_app. cbn [foldl]. destruct IH as (Hp & Hs); [lia|].
  change (0 + m)%nat with m. set (l1 := foldl sort_pass l (seq 0 m)) in *.
  assert (length l1 = length l) as Hlen by (by rewrite Hp). unfold sort_pass.
  destruct (sort_pass_spec m (length l1 - S m) l1) as (Hp' & Hpre & Hmin & Hlow); [lia|].
  set (l2 := foldl (exchange m) l1 _) in *. split; [by rewrite Hp'|]. intros a b Ha Hb.
  destruct (decide (a = b)) as [->|Hab]; [done|]. destruct (decide (a = m)) as [->|Ham]; [apply Hmin; lia|].
  rewrite (Hpre a) by lia. destruct (decide (b < m)%nat) as [Hbm|Hbm]; [rewrite (Hpre b) by lia; apply Hs; lia|].
  apply Hlow; [|lia]. intros k Hk. apply Hs; lia.
Qed.

Lemma sorted_of_lookups (l : list Z) :
  (forall a b, (a <= b < length l)%nat -> l !!! a <= l !!! b) -> StronglySorted Z.le l.
Proof.
  induction l as [|x l IH]; intros H; constructor.
  - apply IH. intros a b Hab. specialize (H (S a) (S b)). simpl in H. apply H. lia.
  - apply Forall_lookup. intros i y Hy. specialize (H 0%nat (S i)). simpl in H.
    pose proof (lookup_lt_Some _ _ _ Hy). rewrite (list_lookup_total_correct _ _ _ Hy) in H. apply H. lia.
Qed.

(** The exchange sort of the benchmark is a sort. *)
Lemma sortedLats_sorts l : sortedLats l = merge_sort Z.le l.
Proof.
  unfold sortedLats. destruct (sort_prefix (length l) l) as [Hp Hs]; [done|]. set (l' := foldl sort_pass l _) in *.
  apply (StronglySorted_unique Z.le); [|apply merge_sorted|by rewrite Hp, (merge_sort_Permutation Z.le)].
  apply sorted_of_lookups. intros a b Hab. assert (length l' = length l) as El by (by rewrite Hp). apply Hs; lia.
Qed.

Lemma fold_min_max lo hi (l : list Z) :
  let '(mn, mx) := foldl (fun '(mn, mx) lat => (if lat <? mn then lat else mn, if mx <? lat then lat else mx)) (lo, hi) l in
  mn = foldl Z.min lo l /\ mx = foldl Z.max hi l.
Proof.
  revert lo hi. induction l as [|x l IH]; intros lo hi; [done|]. cbn [foldl].
  specialize (IH (if x <? lo then x else lo) (if hi <? x then x else hi)).
  replace (Z.min lo x) with (if x <? lo then x else lo) by (destruct (Z.ltb_spec x lo); lia).
  replace (Z.max hi x) with (if hi <? x then x else hi) by (destruct (Z.ltb_spec hi x); lia). exact IH.
Qed.

Lemma fold_min_least lo (l : list Z) :
  foldl Z.min lo l ∈ lo :: l /\ Forall (fun x => foldl Z.min lo l <= x) (lo :: l).
Proof.
  revert lo. induction l as [|x l IH]; intros lo; [split; [by left|by repeat constructor]|].
  cbn [foldl]. destruct (IH (Z.min lo x)) as [Hin Hall]. rewrite Forall_cons in Hall |- *. rewrite Forall_cons.
  destruct Hall as [H1 H2]. split; [|split_and!; [lia..|done]].
  apply elem_of_cons in Hin as [->|Hin]; [|by do 2 right]. destruct (Z.min_spec lo x) as [[_ ->]|[_ ->]]; [by left|by right; left].
Qed.

Lemma fold_max_least hi (l : list Z) :
  foldl Z.max hi l ∈ hi :: l /\ Forall (fun x => x <= foldl Z.max hi l) (hi :: l).
Proof.
  revert hi. induction l as [|x l IH]; intros hi; [split; [by left|by repeat constructor]|].
  cbn [foldl]. destruct (IH (Z.max hi x)) as [Hin Hall]. rewrite Forall_cons in Hall |- *. rewrite Forall_cons.
  destruct Hall as [H1 H2]. split; [|split_and!; [lia..|done]].
  apply elem_of_cons in Hin as [->|Hin]; [|by do 2 right]. destruct (Z.max_spec hi x) as [[_ ->]|[_ ->]]; [by right; left|by left].
Qed.

(** For its 100 samples the fsync benchmark prints their minimum, maximum and upper
    median; what it prints as P99 is the maximum, since [int(float64(100)*0.99)] is the
    last index. *)
Theorem fsync_report_exact latencies :
  length latencies = iterations ->
  exists r, fsync_report latencies = Ok r /\
    fs_min r ∈ latencies /\ fs_max r ∈ latencies /\ Forall (fun x => fs_min r <= x <= fs_max r) latencies /\
    index (merge_sort Z.le latencies) 50 = Some (fs_p50 r) /\ fs_p99 r = fs_max r.
Proof.
  intros Hl. unfold fsync_report. rewrite sortedLats_sorts.
  assert (len (merge_sort Z.le latencies) = 100) as Es by (unfold len; by rewrite (merge_sort_Permutation Z.le), Hl).
  assert (scaled 100 lit099 = 99) as E99 by (vm_compute; reflexivity).
  rewrite Es, E99. change (100 / 2) with 50. destruct latencies as [|l0 rest] eqn:El; [done|]. rewrite <-El in *.
  assert (at_index latencies 0 = Ok l0) as -> by (by rewrite El). cbn [mbind res_bind].
  pose proof (fold_min_max l0 l0 latencies) as Hmm. destruct (foldl _ (l0, l0) latencies) as [mn mx]. destruct Hmm as [-> ->].
  destruct (at_index_ok (merge_sort Z.le latencies) 50) as (p50 & -> & H50 & _); [lia|].
  destruct (at_index_ok (merge_sort Z.le latencies) 99) as (p99 & -> & H99 & M99); [lia|].
  destruct (fold_min_least l0 latencies) as [Hmin Amin]. destruct (fold_max_least l0 latencies) as [Hmax Amax].
  assert (l0 ∈ latencies) as H0 by (rewrite El; by left).
  assert (forall x, x ∈ l0 :: latencies -> x ∈ latencies) as Hin by (intros x [->|]%elem_of_cons; done).
  rewrite Forall_cons in Amin, Amax. destruct Amin as [_ Amin], Amax as [_ Amax]. rewrite Forall_forall in Amin, Amax.
  eexists. split; [reflexivity|]. simpl. split_and!; [by apply Hin..| |done|].
  - apply Forall_forall. intros x Hx. split; auto.
  - destruct (at_index_ok (merge_sort Z.le latencies) 0) as (lo & _ & Hlo & _); [lia|].
    pose proof (index_sorted _ lo p99 (merge_sorted latencies) Hlo) as Hall. rewrite Es in Hall. specialize (Hall H99).
    rewrite (merge_sort_Permutation Z.le) in Hall, M99. rewrite Forall_forall in Hall.
    specialize (Hall _ (Hin _ Hmax)). specialize (Amax _ M99). lia.
Qed.

Lemma fsync_report_exact_witness :
  exists r, fsync_report (Z.of_nat <$> rev (seq 1 iterations)) = Ok r /\ fs_p99 r = fs_max r.
Proof.
  destruct (fsync_report_exact (Z.of_nat <$> rev (seq 1 iterations))) as (r & Hr & _ & _ & _ & _ & H); [reflexivity|].
  exists r. split; [exact Hr|exact H].
Defined.

(** ** The fsync benchmark as a whole *)

(** The file as a crash would leave it, and as the program sees it. *)
Record bench_file : Type := mkFile { bf_synced : bytes; bf_data : bytes }.

Definition file_step (f : option bench_file) (op : file_op) : option bench_file :=
  match op, f with
  | FileOpen, None => Some (mkFile [] [])
  | FileWrite d, Some f => Some (mkFile (bf_synced f) (bf_data f ++ d)%list)
  | FileSync, Some f => Some (mkFile (bf_data f) (bf_data f))
  | FileRemove, _ => None
  | _, f => f
  end.

Lemma synced_writes_file n data f :
  bf_synced f = bf_data f ->
  foldl file_step (Some f) (synced_writes n data) =
    let d := (bf_data f ++ concat (replicate n data))%list in Some (mkFile d d).
Proof.
  unfold synced_writes. revert f. induction n as [|n IH]; intros [s d] E; simpl in *.
  - by rewrite app_nil_r, E.
  - rewrite IH by done. simpl. by rewrite <- app_assoc.
Qed.

Definition round_ops (n m : nat) (data : bytes) : list file_op :=
  (FileOpen :: synced_writes n data ++ synced_writes m data ++ [FileClose])%list.

Lemma round_ops_file n m data :
  foldl file_step None (round_ops n m data) = let d := concat (replicate (n + m) data) in Some (mkFile d d).
Proof.
  unfold round_ops. cbn [foldl file_step]. rewrite !foldl_app, !synced_writes_file by done. cbn [foldl file_step bf_data].
  by rewrite app_nil_l, replicate_add, concat_app.
Qed.

Lemma round_ops_end n m data :
  (FileOpen :: synced_writes n data ++ synced_writes m data ++ [FileClose; FileRemove])%list =
  (round_ops n m data ++ [FileRemove])%list.
Proof. unfold round_ops. by rewrite <- app_comm_cons, <- !app_assoc. Qed.

(** The report of a round is about 100 writes, each of which was followed by a sync; the
    file has them all before it is removed. *)
Lemma fsync_round_file clock size :
  exists st before, fsync_round clock size = ((before ++ [FileRemove])%list, Ok st) /\
    fs_p99 st = fs_max st /\
    foldl file_step None before =
      let d := concat (replicate (10 + iterations) (fsync_data size)) in Some (mkFile d d).
Proof.
  destruct (fsync_report_exact (clock <$> seq 0 iterations)) as (st & Hst & _ & _ & _ & _ & Hp); [by rewrite length_fmap, length_seq|].
  exists st, (round_ops 10 iterations (fsync_data size)). split; [|split; [done|apply round_ops_file]].
  unfold fsync_round. by rewrite Hst, round_ops_end.
Qed.

(** The benchmark reports every size up to the first file that cannot be opened, in order,
    never fails otherwise, and leaves no file behind. *)
Theorem fsync_main_reports openFile clock :
  exists ops reports e, fsync_main openFile clock = (ops, Ok (reports, e)) /\
    reports.*1 `prefix_of` fsync_sizes /\ (e = None -> reports.*1 = fsync_sizes) /\
    (forall x, e = Some x -> exists size, fsync_sizes !! length reports = Some size /\ openFile size = Some x) /\
    Forall (fun r => fs_p99 r.2 = fs_max r.2) reports /\ foldl file_step None ops = None.
Proof.
  unfold fsync_main. induction fsync_sizes as [|size sizes IH]; cbn [fsync_rounds].
  { exists [], [], None. by split_and!. }
  destruct (openFile size) as [x|] eqn:Eo.
  { exists [], [], (Some x). split_and!; try done; [apply prefix_nil|]. intros y [= <-]. by exists size. }
  destruct (fsync_round_file (clock size) size) as (st & before & -> & Hp & Hf).
  destruct IH as (ops & reports & e & -> & Hpre & Hall & Herr & Hmax & Hend). cbn [mbind res_bind].
  exists ((before ++ [FileRemove]) ++ ops)%list, ((size, st) :: reports), e. split; [done|]. split_and!.
  - by apply prefix_cons.
  - intros E. rewrite fmap_cons, (Hall E). done.
  - intros x Hx. by apply Herr.
  - by constructor.
  - by rewrite !foldl_app, Hf.
Qed.
