(* ===== verification/EngineTheorems.v ===== *)
(** * EngineTheorems: the storage engine

    Durability and recovery of the database, what reads return, group commit under
    a failing disk, shutdown, cleanup and compaction (engine/*.go). *)

From S2P Require Export EngineServer.
From Stdlib Require Import String Ascii.
Local Open Scope Z_scope.

Lemma finite_choice {A : Type} (a : A) (n : nat) (P : nat -> A -> Prop) :
  (forall i, (i < n)%nat -> exists x, P i x) -> exists f, forall i, (i < n)%nat -> P i (f i).
Proof.
  induction n as [|n IH]; intros H; [exists (fun _ => a); lia|].
  destruct IH as [f Hf]; [intros i Hi; apply H; lia|]. destruct (H n ltac:(lia)) as [x Hx].
  exists (fun i => if decide (i = n) then x else f i). intros i Hi. case_decide; [by subst|]. apply Hf. lia.
Qed.

(** The requests of a history that are on disk when some are still on their way. *)
Definition flushed_part (i : nat) (h : list writeRequest) (s : shard) : list writeRequest :=
  take (List.length (shard_part i h) - List.length (pending s)) (shard_part i h).

Lemma flushed_part_app i h s fl : shard_part i h = fl ++ pending s -> flushed_part i h s = fl.
Proof. intros H. unfold flushed_part. rewrite H, length_app, Nat.add_sub. apply take_app_length. Qed.

(** The shard of a key, with what a run left of it on disk. *)
Definition flushed_for (k : bytes) (h : list writeRequest) (d : DB) : list writeRequest :=
  match db_shards d !! getShard k with Some s => flushed_part (getShard k) h s | None => [] end.

Section engine.
Context (IsWindows : bool) {MO : MapOrder}.

(** What the directory holds at any moment of a run. *)
Lemma run_dir d0 L V h d :
  db_history d0 L V h d -> (forall i, len (content (indexName i) (env_world (db_env d))) < 2 ^ 63) ->
  exists L' V', dir_ok (env_world (db_env d)) L' V' /\
    forall i s, db_shards d !! i = Some s ->
      shard_part i h = flushed_part i h s ++ pending s /\
      disk_view (L' i) (V' i) = apply_reqs (flushed_part i h s) (disk_view (L i) (V i)) /\
      (forall ch, ch ∈ channels (shard_part i h) -> s_resps s !! ch = Some (inr tt) <-> ch ∈ channels (flushed_part i h s)).
Proof using.
  intros [Hlen Hsh] Hfit.
  destruct (finite_choice ([] : list indexEntry, [] : bytes) (Z.to_nat numShards) (fun i lv => exists s s0 fl,
    db_shards d !! i = Some s /\ indexFilename (s_wal s) = indexName i /\ valueFilename (s_wal s) = valueName i /\
    history_ok (shard_view s0 (V i)) (disk_view (L i) (V i)) (shard_part i h) fl s (db_env d) lv.1 lv.2)) as [f Hf].
  { intros i Hi. destruct (lookup_lt_is_Some_2 (db_shards d) i) as [s Hs]; [by rewrite Hlen|].
    destruct (Hsh i s Hs) as (Ni & Nv & s0 & fl & l & vals & _ & Hh). exists (l, vals), s, s0, fl. by split_and!. }
  exists (fun i => (f i).1), (fun i => (f i).2). split.
  - split.
    + destruct (Hf 0%nat ltac:(vm_compute; lia)) as (s & s0 & fl & _ & _ & _ & [[[] _ _]]). done.
    + intros i Hi. destruct (Hf i Hi) as (s & s0 & fl & _ & Ni & _ & [[[] _ _]]). congruence.
    + intros i Hi. destruct (Hf i Hi) as (s & s0 & fl & _ & _ & Nv & [[[] _ _]]). congruence.
    + intros i Hi. destruct (Hf i Hi) as (s & s0 & fl & _ & _ & _ & [[[] _ _]]). done.
    + intros i Hi. destruct (Hf i Hi) as (s & s0 & fl & _ & Ni & _ & [[[F1 F2 F3 F4 F5 F6 F7 F8 F9 F10] _ [P1 P2 P3]]]).
      pose proof (val_total_nonneg (pending s)). split; [|lia]. by rewrite <-F7, Ni.
  - intros i s Hs. assert (i < Z.to_nat numShards)%nat as Hi by (rewrite <-Hlen; by eapply lookup_lt_Some).
    destruct (Hf i Hi) as (s' & s0 & fl & Hs' & _ & _ & Hh). rewrite Hs in Hs'. injection Hs' as <-.
    pose proof (hi_split _ _ _ _ _ _ _ _ Hh) as Hsp. rewrite (flushed_part_app i h s fl Hsp).
    split; [done|]. split; [by apply Hh|]. intros ch. rewrite Hsp, channels_app. intros Hin. split; [|by apply Hh].
    intros Hr. apply elem_of_app in Hin as [?|Hin]; [done|]. destruct (proj2 (hi_chans _ _ _ _ _ _ _ _ Hh) ch Hin) as [_ Hn].
    by rewrite Hn in Hr.
Qed.


Lemma engine_get d0 L V h d k :
  db_start d0 L V -> db_run IsWindows d0 h d ->
  let view0 := match db_shards d0 !! getShard k with Some s0 => shard_view s0 (V (getShard k)) | None => ∅ end in
  exists v d', DB_Get k d = (Ok v, d') /\
    (Forall (fun r => is_sync r = false) h -> v = apply_reqs h view0 !! k) /\
    (Forall (fun r => is_sync r = true) h -> v = apply_reqs (flushed_for k h d) view0 !! k).
Proof using.
  intros Hst Hrun view0. pose proof (db_history_run IsWindows d0 L V h d Hst Hrun) as Hh.
  destruct (DB_get_spec k d (history_good _ _ _ _ _ Hh)) as (d' & R & _). exists (db_view d k), d'. split; [done|]. split.
  - intros Ha. by apply (history_view d0 L V h d).
  - intros Hs. destruct (db_lookup d k (history_good _ _ _ _ _ Hh)) as [s Hsk].
    destruct (dh_shard _ _ _ _ _ Hh _ _ Hsk) as (_ & _ & s0 & fl & l & vals & Hs0 & Hi). unfold view0, db_view, flushed_for.
    rewrite Hs0, Hsk. cbn [mbind option_bind]. rewrite (flushed_part_app _ _ _ fl) by apply Hi.
    rewrite <-(core_values _ _ l vals) by (by apply so_core, Hi). rewrite (hi_sync _ _ _ _ _ _ _ _ Hi); [done|].
    apply Forall_forall. intros r [_ Hr]%list_elem_of_filter. by rewrite Forall_forall in Hs; apply Hs.
Qed.


End engine.

(** ** The example program *)

Definition example_put (ch : nat) : writeRequest := mkWriteRequest example_key [] (Some ch).

(** On an empty directory the example program opens the database and puts its nil value;
    once the put is answered it finds the key, with an empty value. *)
Theorem example_finds (IsWindows : bool) {MO : MapOrder} pick W :
  faults W = [] -> (forall name, content name W = []) ->
  exists d0 ch d1, NewDBWithOptions W = (Ok (inr d0), env_world (db_env d0)) /\
    DB_Put pick example_key None d0 = (Ok (inr ch), d1) /\
    forall committers s, db_run IsWindows d0 [example_put ch] (committers d1) ->
      (forall i, len (content (indexName i) (env_world (db_env (committers d1)))) < 2 ^ 63) ->
      db_shards (committers d1) !! getShard example_key = Some s -> s_resps s !! ch = Some (inr tt) ->
      example_main pick committers W = Ok (Found []).
Proof.
  intros Hf He. destruct (db_start_empty W Hf He) as (d0 & Hn & Hst & Hsh).
  pose proof (Hsh _ (getShard_lt example_key)) as Hs0.
  assert (exists d1, DB_Put pick example_key None d0 = (Ok (inr 0%nat), d1)) as [d1 Hput]
    by (eexists; unfold DB_Put, on_shard; rewrite Hs0; reflexivity).
  exists d0, 0%nat, d1. split; [exact Hn|]. split; [exact Hput|]. intros committers s Hrun Hfit Hs Hr.
  destruct (engine_get IsWindows d0 _ _ _ _ example_key Hst Hrun) as (v & d' & Hg & _ & Hv).
  pose proof (db_history_run IsWindows d0 _ _ _ _ Hst Hrun) as Hh.
  destruct (run_dir d0 _ _ _ _ Hh Hfit) as (L' & V' & _ & Hpart). destruct (Hpart _ _ Hs) as (Hp & _ & Hch).
  assert (shard_part (getShard example_key) [example_put 0] = [example_put 0]) as Hsp by (unfold shard_part; by rewrite filter_cons_True).
  rewrite Hsp in *. assert (flushed_for example_key [example_put 0] (committers d1) = [example_put 0]) as Hfl.
  { unfold flushed_for. rewrite Hs. apply Hch in Hr; [|by left].
    destruct (flushed_part (getShard example_key) [example_put 0] s) as [|r rest]; [by inversion Hr|].
    injection Hp as <- Hp. by destruct rest. }
  unfold example_main. rewrite Hn, Hput, Hg.
  rewrite Hv, Hfl; [|by repeat constructor]. cbn [foldl]. unfold apply_req. by rewrite lookup_insert_eq.
Qed.

Section shards.
Context (IsWindows : bool) {MO : MapOrder}.

(** C31: a crash in the middle of an index write.  If the index of a shard ends in part
    of an entry, the first attempt to open it reports corruption and cuts the part
    off, and the second succeeds with exactly the complete entries. *)
Theorem torn_index_recovers i W l ie n :
  faults W = [] -> content (indexName i) W = index_bytes l ++ take n (entry_bytes ie) ->
  Forall (entry_in (content (valueName i) W)) l -> entry_ok ie -> (0 < n < List.length (entry_bytes ie))%nat ->
  len (index_bytes l) < 2 ^ 63 -> len (content (valueName i) W) < 2 ^ 63 ->
  exists E s E', open_shard i W = (Ok (inl ErrCorruption), E) /\ open_shard i (env_world E) = (Ok (inr s), E') /\
    shard_ok s E' l (content (valueName i) W) /\
    shard_view s (content (valueName i) W) = disk_view l (content (valueName i) W).
Proof using.
  intros Hf Hx Hl Hie Hn Hb Hvb.
  assert (Forall entry_ok l) as Hlo by (eapply Forall_impl; [exact Hl|by intros ? [? _]]).
  destruct (replay_torn i W l ie n) as (E & R & Hf' & Hi & Hv); try done.
  pose proof (replay_works i (env_world E) l Hf' Hi Hlo Hb) as R2. rewrite Hv in R2.
  exists E, (loaded_index i (content (valueName i) W) l), (mkEnv (opened i (env_world E)) false).
  split; [done|]. split; [exact R2|].
  destruct (loaded_index_ok i (mkEnv (opened i (env_world E)) false) (content (valueName i) W) l) as (H1 & H2 & _);
    try done; cbn [env_world]; by rewrite opened_content.
Qed.

(** C16: group commit under any disk faults.  When the committer's ticker fires,
    either the whole batch is in the files, every waiting put is answered with
    success and the batch is empty; or the fatal channel is closed, the committer
    has exited, memory is as before and every waiting put is answered with an
    error. *)
Theorem flush_all_or_nothing s E :
  0 <= valueOffset s -> valueOffset s + val_total (s_buf s) < 2 ^ 63 ->
  fl_name (indexFile (s_wal s)) <> fl_name (valueFile (s_wal s)) ->
  exists s' E', commit_turn IsWindows OnCommitTick (s, E) = (Ok tt, (s', E')) /\
    ((s_buf s' = [] /\ s_done s' = s_done s /\
      content (fl_name (valueFile (s_wal s))) (env_world E') =
        content (fl_name (valueFile (s_wal s))) (env_world E) ++ batch_values (s_buf s) /\
      content (fl_name (indexFile (s_wal s))) (env_world E') =
        content (fl_name (indexFile (s_wal s))) (env_world E) ++ index_bytes (batch_entries (valueOffset s) (s_buf s)) /\
      forall ch, ch ∈ channels (s_buf s) -> s_resps s' !! ch = Some (inr tt)) \/
     (FatalErr E' = true /\ s_done s' = true /\ s_data s' = s_data s /\
      exists e, forall ch, ch ∈ channels (s_buf s) -> s_resps s' !! ch = Some (inl e))).
Proof using.
  intros H0 Hfit Hne. destruct (tick_outcome IsWindows s E H0 Hfit Hne) as (s' & E' & R & [(_ & Hb & [H1 H2 H3 H4])|(Hf & Hd & Hs & e & Hr)]);
    exists s', E'; (split; [done|]).
  - left. split_and!; try done. intros ch Hch. by rewrite H1, ack_resps_lookup, decide_True.
  - right. split_and!; try done. exists e. intros ch Hch. by rewrite Hr, answer_lookup, decide_True.
Qed.

(** C32: closing a shard loses nothing it accepted.  On a working disk, with the committer
    running and no put between the steps of the close, [Close] writes every request that
    is in the channel or taken from it to the files, answers the puts among them with
    success, answers the puts that were waiting behind the full channel and the
    maintenance requests that were waiting for the committer with [ErrClosed], and closes
    both files.  (Answer channels are distinct.) *)
Theorem close_drains s E l vals :
  shard_ok s E l vals -> s_done s = false -> NoDup (channels (pending s)) ->
  (forall cr ch, cr ∈ s_compactCh s -> ch ∈ channels (pending s) -> cr_err cr <> ch) ->
  let accepted := s_buf s ++ slice_to (s_reqCh s) (syncBatchSize * 2) in
  let late := slice_from (s_reqCh s) (syncBatchSize * 2) in
  exists s' E' l' vals', close_shard IsWindows (s, E) = (Ok (inr tt), (s', E')) /\
    content (indexFilename (s_wal s)) (env_world E') = index_bytes l' /\
    content (valueFilename (s_wal s)) (env_world E') = vals' /\
    disk_view l' vals' = apply_reqs accepted (disk_view l vals) /\ pending s' = [] /\
    (forall ch, ch ∈ channels accepted -> s_resps s' !! ch = Some (inr tt)) /\
    (forall ch, ch ∈ channels late -> s_resps s' !! ch = Some (inl ErrClosed)) /\
    (forall cr, cr ∈ s_compactCh s -> s_resps s' !! cr_err cr = Some (inl ErrClosed)) /\
    fl_open (indexFile (s_wal s')) = false /\ fl_open (valueFile (s_wal s')) = false.
Proof using.
  intros Hok Hd Hnd Hcr accepted late.
  destruct (close_works IsWindows s E l vals Hok Hd) as (s' & E' & l' & vals' & R & Hi & Hv & _ & Hdv & _ & Hp & _ & Hr & Ho1 & Ho2).
  exists s', E', l', vals'. split; [done|]. split; [done|]. split; [done|]. split; [exact Hdv|]. split; [done|].
  assert (pending (stopped s) = accepted) as Hpa by done. rewrite Hpa in Hr.
  assert (NoDup (channels (accepted ++ late))) as Hnd'.
  { unfold accepted, late. rewrite <-app_assoc, slice_to_from. exact Hnd. }
  rewrite channels_app in Hnd'. apply NoDup_app in Hnd' as (_ & Hdis & _).
  assert (forall ch, ch ∈ channels accepted \/ ch ∈ channels late -> ch ∈ channels (pending s)) as Hpen.
  { intros ch Hch. unfold pending. rewrite <-(slice_to_from (s_reqCh s) (syncBatchSize * 2)), app_assoc, channels_app.
    by apply elem_of_app. }
  split_and!; try done; [intros ch Hch..|intros cr Hin].
  - by rewrite Hr, ack_resps_lookup, decide_True.
  - rewrite Hr, ack_resps_lookup, decide_False by (intros H; by apply (Hdis ch H)). simpl.
    rewrite answer_lookup, decide_False; [by rewrite answer_lookup, decide_True|].
    intros (cr & -> & Hin)%list_elem_of_fmap. apply (Hcr cr (cr_err cr)); [done|by auto|done].
  - rewrite Hr, ack_resps_lookup, decide_False by (intros H; apply (Hcr cr (cr_err cr)); auto). simpl.
    rewrite answer_lookup, decide_True; [done|]. by apply list_elem_of_fmap_2.
Qed.

(** A put that has checked the context before [Close] cancels it, and sends when the
    committer has drained the channel and exited, can still enter the channel; nobody
    takes it out, and the put waits for its answer for ever. *)
Theorem put_after_drain_waits key value s E l vals :
  shard_ok s E l vals -> s_done s = false -> s_cancelled s = false ->
  put_check (s, E) = (Ok (inr tt), (s, E)) /\
  exists s' E' s'' ch, close_shard IsWindows (s, E) = (Ok (inr tt), (s', E')) /\
    put_send true key value (s', E') = (Ok (inr ch), (s'', E')) /\
    pending s'' = [mkWriteRequest key (default [] value) (Some ch)] /\
    s_resps s'' !! ch = s_resps s' !! ch /\ forall ev, commit_enabled ev s'' = false.
Proof using.
  intros Hok Hd Hc. split.
  { unfold put_check. erewrite bind_run by reflexivity. cbn. by rewrite Hc. }
  destruct (close_works IsWindows s E l vals Hok Hd) as (s' & E' & l' & vals' & R & _ & _ & _ & _ & Hd' & Hp & _).
  assert (s_reqCh s' = [] /\ s_buf s' = []) as [Hq Hb] by (unfold pending in Hp; by apply app_nil in Hp as [? ?]).
  exists s', E'. do 2 eexists. split; [exact R|]. split.
  { unfold put_send, make_respCh, send_req, return_err, get_s, gets, upd, modify, mbind, M_bind, mret, M_ret.
    cbn beta iota. simpl. rewrite Hq, andb_false_r. reflexivity. }
  split; [unfold pending; simpl; by rewrite Hq, Hb|]. split; [done|]. intros ev. unfold commit_enabled. simpl. by rewrite Hd'.
Qed.

(** ** Maintenance *)

(** The pairs of a map are within the limits of the file formats and of cleanup. *)
Definition view_total (kvs : list (bytes * bytes)) : Z := foldr (fun kv n => len kv.2 + n) 0 kvs.

Definition view_fits (m : gmap bytes bytes) : Prop :=
  map_Forall (fun k v => walIndexLen (len k) <= cleanupIndexBufferSize /\ len v < 2 ^ 32) m /\
  view_total (map_to_list m) < 2 ^ 63.

Lemma view_total_perm k1 k2 : k1 ≡ₚ k2 -> view_total k1 = view_total k2.
Proof using. unfold view_total. induction 1; simpl; lia. Qed.

Lemma live_total vals kvs : val_total (live vals kvs) = view_total ((fun kv => (kv.1, ve_value vals kv.2)) <$> kvs).
Proof using.
  induction kvs as [|[k ve] kvs IH]; [done|].
  cbn [live fmap list_fmap val_total view_total foldr fst snd wr_value]. exact (f_equal (Z.add _) IH).
Qed.

Lemma range_view (s : shard) vals :
  (fun kv => (kv.1, ve_value vals kv.2)) <$> range_order (s_data s) ≡ₚ map_to_list (shard_view s vals).
Proof using. rewrite range_order_perm. unfold shard_view. rewrite map_to_list_fmap. by apply Permutation_refl'. Qed.

Lemma view_fits_fits s vals : view_fits (shard_view s vals) -> fits vals (range_order (s_data s)).
Proof using.
  intros [H1 H2]. split.
  - apply Forall_forall. intros [k ve] Hin. rewrite range_order_perm in Hin. apply elem_of_map_to_list in Hin. simpl.
    apply (H1 k (ve_value vals ve)). unfold shard_view. by rewrite lookup_fmap, Hin.
  - rewrite live_total, (view_total_perm _ _ (range_view s vals)). exact H2.
Qed.

(** C30: cleanup.  On a disk without faults, in a shard in which no value that is not in
    memory lies at offset 0 ([no_zero]), with no leftovers in the temporary files and keys
    and values within the limits of the cleanup buffer and the file format ([view_fits]):
    when the committer takes a cleanup request, it first writes the requests on their
    way, then rewrites both files: they hold exactly the live pairs, each once, reads
    return what they returned, every offset in memory is the one on disk, and the request
    is answered with success. *)
Theorem cleanup_keeps_map i ch rest s E l vals :
  indexFilename (s_wal s) = indexName i -> valueFilename (s_wal s) = valueName i ->
  shard_ok s E l vals -> no_zero s -> s_compactCh s = mkCompactRequest DoCleanup ch :: rest ->
  content (indexName i ++ tempFileSuffix) (env_world E) = [] -> content (valueName i ++ tempFileSuffix) (env_world E) = [] ->
  let view := apply_reqs (List.filter is_sync (pending s)) (shard_view s vals) in
  view_fits view ->
  exists s' E' l' vals', commit_turn IsWindows OnCompact (s, E) = (Ok tt, (s', E')) /\ shard_ok s' E' l' vals' /\
    shard_view s' vals' = view /\ disk_view l' vals' = view /\ accurate s' l' /\
    List.length l' = size view /\ len vals' = view_total (map_to_list view) /\
    pending s' = [] /\ s_resps s' !! ch = Some (inr tt) /\ s_done s' = s_done s /\ FatalErr E' = FatalErr E.
Proof using.
  intros Ni Nv Hok Hz Hc T1 T2 view Hfit. unfold commit_turn. cbn [commit_case]. erewrite bind_run by reflexivity. cbn beta.
  rewrite Hc. erewrite bind_run by reflexivity. cbn beta iota. set (s1 := s <| s_compactCh := rest |>).
  assert (shard_ok s1 E l vals) as Hok1 by (destruct Hok as [[] [] []]; by split; split).
  destruct (drainReqCh_works s1 E l vals Hok1) as (s2 & E2 & l2 & v2 & R2 & Hcs & Hp2). run R2. cbn [doCompact_fn run_maintenance].
  pose proof (cs_names _ _ _ _ _ _ _ _ _ Hcs) as [Mi Mv]. change (s_wal s1) with (s_wal s) in Mi, Mv. rewrite Ni in Mi. rewrite Nv in Mv.
  destruct (shard_names i) as (N1 & N2 & N3 & N4 & N5).
  assert (shard_view s2 v2 = view) as Hv2 by apply (cs_view _ _ _ _ _ _ _ _ _ Hcs).
  assert (forall t, t <> indexName i -> t <> valueName i -> content t (env_world E) = [] -> content t (env_world E2) = []) as Ht.
  { intros t H1 H2 H3. unfold content in *. rewrite (cs_others _ _ _ _ _ _ _ _ _ Hcs); [done|simpl; by rewrite Ni|simpl; by rewrite Nv]. }
  destruct (doCleanup_works IsWindows s2 E2 l2 v2) as (s3 & E3 & l3 & v3 & R3 & Hok3 & _ & Hac & Hv3 & Hd3 & Hlen & Hsz & Hp3 & _ & _ & _ & Hdn & _ & _ & Hf3);
    rewrite ?Mi, ?Mv; try done; [by apply cs_ok in Hcs|by eapply commit_zero|apply view_fits_fits; by rewrite Hv2|apply Ht; done || congruence..| |].
  { unfold apart. rewrite Mi, Mv. by split_and!. }
  run R3. do 2 eexists. exists l3, v3. split; [reflexivity|]. rewrite Hv2 in Hv3, Hd3.
  destruct (cs_frame _ _ _ _ _ _ _ _ _ Hcs) as (_ & _ & Hdn2 & _ & _ & Hf2).
  split; [destruct Hok3 as [[] [] []]; by split; split|]. split_and!; try done.
  - rewrite Hsz, <-Hv2. unfold shard_view. by rewrite map_size_fmap.
  - by rewrite Hlen, live_total, (view_total_perm _ _ (range_view s2 v2)), Hv2.
  - simpl. by rewrite lookup_insert_eq.
  - simpl. by rewrite Hdn, Hdn2.
  - by rewrite Hf3, Hf2.
Qed.

Lemma compacting_char t : last_char (t ++ compactingFileSuffix) = Some "g"%char.
Proof using. by rewrite last_char_app. Qed.

(** C33: compaction.  If the offsets in memory are the ones on disk (as after opening
    or cleaning, until the next put), compaction leaves an index with one entry per
    key that stands for the same map, and memory as it was. *)
Theorem compaction_keeps_map i s E l vals :
  indexFilename (s_wal s) = indexName i -> valueFilename (s_wal s) = valueName i ->
  shard_ok s E l vals -> accurate s l -> s_data s <> ∅ ->
  exists s' E' l', doCompact IsWindows (s, E) = (Ok (inr tt), (s', E')) /\ shard_ok s' E' l' vals /\ accurate s' l' /\
    s_data s' = s_data s /\ disk_view l' vals = disk_view l vals /\
    List.length l' = size (s_data s) /\ indexBytesOnDisk s' = len (index_bytes l').
Proof using.
  intros Ni Nv Hok Hac Hne.
  destruct (doCompact_works IsWindows s E l vals Hok Hac) as (s' & E' & l' & R & H1 & H2 & H3 & H4 & H5 & _).
  - rewrite Ni. intros H. apply (f_equal last_char) in H. by rewrite compacting_char, index_char in H.
  - rewrite Ni, Nv. intros H. apply (f_equal last_char) in H. by rewrite compacting_char, value_char in H.
  - destruct (H5 Hne). exists s', E', l'. by split_and!.
Qed.

End shards.

(** ** Witnesses *)

#[export] Instance list_order : MapOrder := {| range_order := map_to_list; range_order_perm := fun m => Permutation_refl _ |}.

Definition key_1 : bytes := PutUint8 97.
Definition key_2 : bytes := PutUint8 98.
Definition val_1 : bytes := PutUint32 7.

Definition no_files : World := mkWorld ∅ [].

Definition db0 : DB :=
  match NewDBWithOptions no_files with
  | (Ok (inr d), _) => d
  | _ => mkDB [] (mkEnv no_files false) false false (inr tt)
  end.

Lemma db0_start : db_start db0 (fun _ => []) (fun _ => []).
Proof.
  unfold db0. destruct (db_start_empty no_files eq_refl) as (d & -> & H & _); [|exact H].
  intros name. unfold content. simpl. by rewrite lookup_empty.
Qed.

(** An asynchronous put, a turn of the shard's committer, and the ticker. *)
Definition run_ok {A : Type} (m : M DB A) (d : DB) : DB := (m d).2.
Definition db1 : DB := run_ok (DB_PutAsync true key_1 (Some val_1)) db0.
Definition db2 : DB := run_ok (on_shard (getShard key_1) (commit_turn false OnReq)) db1.
Definition db3 : DB := run_ok (on_shard (getShard key_1) (commit_turn false OnCommitTick)) db2.
Definition put_1 : writeRequest := mkWriteRequest key_1 val_1 None.

Definition the_shard (k : bytes) (d : DB) : shard :=
  default (loaded_index 0 [] []) (db_shards d !! getShard k).

Lemma run_ok_eq (m : M DB unit) d : match (m d).1 with Ok _ => true | Panic _ => false end = true -> m d = (Ok tt, run_ok m d).
Proof. unfold run_ok. by destruct (m d) as [[[]|why] d']. Qed.

Lemma put_1_admitted : db_admits db0 put_1.
Proof.
  exists (the_shard key_1 db0). split; [vm_compute; reflexivity|]. split; [|vm_compute; reflexivity].
  split; [split; vm_compute; reflexivity|vm_compute; reflexivity].
Qed.

Lemma db_run3 : db_run false db0 [put_1] db3.
Proof.
  change [put_1] with (([put_1] ++ []) ++ [])%list.
  apply (db_run_step _ _ _ db2).
  - apply (db_run_step _ _ _ db1).
    + apply (db_run_step false db0 [] db0 [put_1] db1); [constructor|].
      apply (db_step_PutAsync false db0 true key_1 (Some val_1) db1); [exact put_1_admitted|].
      apply run_ok_eq. vm_compute. reflexivity.
    + apply (db_step_commit false db1 (getShard key_1) OnReq (the_shard key_1 db1));
        [vm_compute; reflexivity|by left|vm_compute; reflexivity|]. apply run_ok_eq. vm_compute. reflexivity.
  - apply (db_step_commit false db2 (getShard key_1) OnCommitTick (the_shard key_1 db2));
      [vm_compute; reflexivity|by right|vm_compute; reflexivity|]. apply run_ok_eq. vm_compute. reflexivity.
Qed.

Lemma content_bound W b : bool_decide (map_Forall (fun _ data => len data < b) (files W)) = true -> 0 < b ->
  forall name, len (content name W) < b.
Proof.
  intros H Hb name. apply bool_decide_eq_true in H. unfold content. destruct (files W !! name) as [data|] eqn:E; [|exact Hb].
  exact (H name data E).
Qed.

Lemma db3_small : forall i, len (content (indexName i) (env_world (db_env db3))) < 2 ^ 63.
Proof. intros i. apply content_bound; [vm_compute; reflexivity|reflexivity]. Qed.



(** A shard whose index holds one entry and the start of another. *)
Definition entry_1 : indexEntry := mkIndexEntry key_1 4 0.
Definition entry_2 : indexEntry := mkIndexEntry key_2 4 4.
Definition torn_dir : World :=
  mkWorld (<[ indexName 0 := index_bytes [entry_1] ++ take 9 (entry_bytes entry_2) ]> {[ valueName 0 := val_1 ++ val_1 ]}) [].

Lemma entry_1_in vals : 4 <= len vals -> Forall (entry_in vals) [entry_1].
Proof. intros H. constructor; [|constructor]. split; [|exact H]. split; [|split]; vm_compute; repeat split; reflexivity || discriminate. Qed.

Lemma torn_index_recovers_witness :
  exists E s E', open_shard 0 torn_dir = (Ok (inl ErrCorruption), E) /\ open_shard 0 (env_world E) = (Ok (inr s), E') /\
    shard_view s (val_1 ++ val_1) = disk_view [entry_1] (val_1 ++ val_1).
Proof.
  destruct (torn_index_recovers 0 torn_dir [entry_1] entry_2 9) as (E & s & E' & H1 & H2 & _ & H3);
    [reflexivity|vm_compute; reflexivity|apply entry_1_in; vm_compute; discriminate| |vm_compute; lia|reflexivity|reflexivity|].
  - split; [|split]; vm_compute; repeat split; reflexivity || discriminate.
  - exists E, s, E'. exact (conj H1 (conj H2 H3)).
Defined.

(** A put in the batch of a new shard, and a disk on which the next write stops
    after three bytes. *)
Definition sync_1 : writeRequest := mkWriteRequest key_1 val_1 (Some 0%nat).

Lemma flush_all_or_nothing_witness :
  exists s' E', commit_turn false OnCommitTick
      ((new_shard 0 0) <| s_buf := [sync_1] |>, mkEnv (mkWorld ∅ [Fails 3]) false) = (Ok tt, (s', E')) /\
    s_resps s' !! 0%nat = Some (inl (Errorf "WAL write value failed")).
Proof.
  destruct (flush_all_or_nothing false ((new_shard 0 0) <| s_buf := [sync_1] |>) (mkEnv (mkWorld ∅ [Fails 3]) false))
    as (s' & E' & R & _); [discriminate|reflexivity|discriminate|].
  exists s', E'. split; [exact R|]. vm_compute in R. injection R as <- _. reflexivity.
Defined.

(** A shard opened on an empty directory, with a put and a cleanup on their way. *)
Definition empty_env : Env := mkEnv no_files false.
Definition waiting : shard :=
  enqueue sync_1 ((loaded_index 0 [] []) <| s_next := 2%nat |> <| s_compactCh := [mkCompactRequest DoCleanup 1] |>).

Lemma waiting_ok : shard_ok waiting empty_env [] [].
Proof.
  apply enqueue_ok; [|split; reflexivity|done|reflexivity].
  destruct (loaded_index_ok 0 empty_env [] []) as ([[] [] []] & _); done || by split; split.
Qed.

Lemma waiting_zero : no_zero waiting.
Proof. intros k ve H. exfalso. revert H. change (s_data waiting) with (∅ : gmap bytes valueEntry). by rewrite lookup_empty. Qed.

Lemma close_drains_witness :
  exists s' E' l' vals', close_shard false (waiting, empty_env) = (Ok (inr tt), (s', E')) /\
    disk_view l' vals' !! key_1 = Some val_1 /\ s_resps s' !! 0%nat = Some (inr tt).
Proof.
  destruct (close_drains false waiting empty_env [] [] waiting_ok eq_refl) as (s' & E' & l' & vals' & R & _ & _ & Hd & _ & Ha & _).
  - apply NoDup_singleton.
  - intros cr ch ->%list_elem_of_singleton ->%list_elem_of_singleton. discriminate.
  - exists s', E', l', vals'. split; [exact R|]. split; [rewrite Hd; vm_compute; reflexivity|]. apply Ha. left.
Defined.

Lemma singleton_fits k v : walIndexLen (len k) <= cleanupIndexBufferSize -> len v < 2 ^ 32 -> view_fits {[ k := v ]}.
Proof.
  intros Hk Hv. split; [by apply map_Forall_singleton|]. rewrite map_to_list_singleton. simpl. lia.
Qed.

Lemma cleanup_keeps_map_witness :
  exists s' E' l' vals', commit_turn false OnCompact (waiting, empty_env) = (Ok tt, (s', E')) /\
    disk_view l' vals' !! key_1 = Some val_1 /\ List.length l' = 1%nat /\ s_resps s' !! 1%nat = Some (inr tt).
Proof.
  destruct (cleanup_keeps_map false 0 1 [] waiting empty_env [] []) as (s' & E' & l' & vals' & R & _ & _ & Hd & _ & Hl & _ & _ & Hr & _);
    [reflexivity|reflexivity|exact waiting_ok|exact waiting_zero|reflexivity|vm_compute; reflexivity|vm_compute; reflexivity| |].
  - assert (apply_reqs (List.filter is_sync (pending waiting)) (shard_view waiting []) = {[ key_1 := val_1 ]}) as ->
      by (unfold shard_view; change (s_data waiting) with (∅ : gmap bytes valueEntry); by rewrite fmap_empty).
    apply singleton_fits; [vm_compute; discriminate|reflexivity].
  - exists s', E', l', vals'. split; [exact R|]. split; [rewrite Hd; vm_compute; reflexivity|].
    split; [rewrite Hl; vm_compute; reflexivity|exact Hr].
Defined.

(** A shard opened on an index with two entries for its key. *)
Definition twice_dir : World :=
  mkWorld (<[ indexName 0 := index_bytes [entry_1; entry_1] ]> {[ valueName 0 := val_1 ]}) [].

Lemma twice_ok :
  shard_ok (loaded_index 0 val_1 [entry_1; entry_1]) (mkEnv twice_dir false) [entry_1; entry_1] val_1 /\
  accurate (loaded_index 0 val_1 [entry_1; entry_1]) [entry_1; entry_1].
Proof.
  destruct (loaded_index_ok 0 (mkEnv twice_dir false) val_1 [entry_1; entry_1]) as (H1 & _ & H2);
    [reflexivity|vm_compute; reflexivity|vm_compute; reflexivity| |reflexivity|reflexivity|by split].
  apply (Forall_app _ [entry_1] [entry_1]). split; apply entry_1_in; vm_compute; discriminate.
Qed.

Lemma compaction_keeps_map_witness :
  exists s' E' l', doCompact false (loaded_index 0 val_1 [entry_1; entry_1], mkEnv twice_dir false) = (Ok (inr tt), (s', E')) /\
    disk_view l' val_1 !! key_1 = Some val_1 /\ List.length l' = 1%nat.
Proof.
  destruct (compaction_keeps_map false 0 (loaded_index 0 val_1 [entry_1; entry_1]) (mkEnv twice_dir false) [entry_1; entry_1] val_1)
    as (s' & E' & l' & R & _ & _ & _ & Hd & Hl & _);
    [reflexivity|reflexivity|exact (proj1 twice_ok)|exact (proj2 twice_ok)|discriminate|].
  exists s', E', l'. split; [exact R|]. split; [rewrite Hd; vm_compute; reflexivity|rewrite Hl; vm_compute; reflexivity].
Defined.
