(* ===== verification/Findings.v ===== *)
(** * Findings: behaviours the code does not intend

    Each theorem exhibits, on the definitions of the other files, an execution
    that contradicts a comment, a document or the evident purpose of the code.
    (The election that an old append breaks is in [Safety].) *)

From S2P Require Export StorageTheorems HostTheorems RaftSafety Reads.
From S2P Require Export EngineTheorems.

(** ** Definitions of the executions *)

(** *** A deposed leader answers a read *)

Definition stale_read : Cluster DurableStorage :=
  default overtaken (run (RT:=rt0) true (late_read_script (BE_PutUint64 9)) overtaken).

Lemma stale_read_run : run (RT:=rt0) true (late_read_script (BE_PutUint64 9)) overtaken = Some stale_read.
Proof. vm_compute. reflexivity. Qed.

(** *** A log shorter than what storage holds *)

(** Storage holds three entries of term 1; an append of term 2 has replaced the second. *)
Definition stored_log : raftLog DurableStorage :=
  newRaftLog (empty_durable <| d_entries := [mkEntry 1 1 []; mkEntry 2 1 []; mkEntry 3 1 []] |>).
Definition cut_log : res (raftLog DurableStorage) := raftLog_appendEntries [mkEntry 2 2 []] stored_log.

(** *** A proposal between [Ready] and [Advance] *)

Inductive host_op : Type :=
| HReceive
| HHandle
| HAdvance
| HRequest (ev : event).

Definition host_do (op : host_op) (h : raftHost DurableStorage) : res (option (raftHost DurableStorage)) :=
  match op with
  | HReceive => raftHost_receive (RT:=rt0) h
  | HHandle => raftHost_handle None h
  | HAdvance => raftHost_advance (RT:=rt0) h
  | HRequest ev => raftHost_request (RT:=rt0) ev h
  end.

Fixpoint host_script (ops : list host_op) (h : raftHost DurableStorage) : option (raftHost DurableStorage) :=
  match ops with
  | [] => Some h
  | op :: ops =>
      match host_do op h with
      | Ok (Some h) => host_script ops h
      | _ => None
      end
  end.

(** The host of node 1, which has just won the election. *)
Definition elected_host : raftHost DurableStorage :=
  mkHost (mkNode elected1 0 None [] Ready0 false false) [2; 3] 0 Idle [].

(** The indices of the entries the host has sent to [to_]. *)
Definition sent_to (to_ : Z) (h : raftHost DurableStorage) : list Z :=
  concat (omap (fun e => match e with
                         | Sent ms => Some (concat ((fun m => e_Index <$> m_Entries m) <$>
                                              List.filter (fun m => m_To m =? to_) ms))
                         | _ => None
                         end) (h_effects h)).

Definition host_summary (h : raftHost DurableStorage) : list Z * list Z * list Entry :=
  (sent_to 2 h, sent_to 3 h, d_entries (node_storage (h_n h))).

(** *** Compaction after a conflict *)

Definition saved (ents : list Entry) (hard : HardState) (s : DurableStorage) : DurableStorage :=
  match DurableStorage_Save ents (Some hard) s with Ok (s, None) => s | _ => s end.

(** Five entries of term 1; entry 2 is then overwritten in term 2. *)
Definition conflicted : DurableStorage :=
  saved [mkEntry 2 2 a_write] (mkHard 2 0 2)
    (saved [mkEntry 1 1 []; mkEntry 2 1 []; mkEntry 3 1 []; mkEntry 4 1 []; mkEntry 5 1 []] (mkHard 1 0 1)
      (empty_durable <| d_compactThreshold := 2 |>)).

Definition compacted_at (i : Z) (s : DurableStorage) : DurableStorage :=
  match DurableStorage_MaybeCompact i s with Ok (s, None) => s | _ => s end.

Definition reopened (s : DurableStorage) : DurableStorage :=
  match NewDurableStorage (d_world s) with Ok (inr s, _) => s | _ => s end.

(** *** A snapshot behind an append *)

Definition snap_msg (from to_ term : Z) (snap : SnapshotMeta) : Message :=
  (mkmsg MsgSnap) <| m_From := from |> <| m_To := to_ |> <| m_Term := term |> <| m_Snapshot := Some snap |>.

(** Node 2 has taken two entries of its leader; then a snapshot up to the first arrives. *)
Definition appended2 : DRaft := after_step (app_msg 1 2 1 0 0 0 [noop1; mkEntry 2 1 a_write]) follower2.
Definition snapped2 : DRaft := after_step (snap_msg 1 2 1 (mkSnap 1 1)) appended2.

(** *** Entries shared with a [Ready]

    [Raft.Ready] hands out the slice of the unstable entries itself.  A Go slice is a part
    of an array in a heap; [append] writes into the array while it has room. *)

Record goSlice : Type := mkGoSlice {
  gs_array : nat;
  gs_from : nat;
  gs_len : nat
}.

Abbreviation entry_heap := (gmap nat (list Entry)).

Definition array_at (h : entry_heap) (s : goSlice) : list Entry := default [] (h !! gs_array s).

Definition slice_read (h : entry_heap) (s : goSlice) : list Entry := take (gs_len s) (drop (gs_from s) (array_at h s)).

(** [append(s, xs...)]; the new array, if one is needed, has a number not in use. *)
Definition slice_append (fresh : nat) (s : goSlice) (xs : list Entry) (h : entry_heap) : goSlice * entry_heap :=
  let end_ := (gs_from s + gs_len s)%nat in
  let a := array_at h s in
  if Nat.leb (end_ + length xs) (length a) then
    (mkGoSlice (gs_array s) (gs_from s) (gs_len s + length xs),
     <[ gs_array s := take end_ a ++ xs ++ drop (end_ + length xs) a ]> h)
  else (mkGoSlice fresh 0 (gs_len s + length xs), <[ fresh := slice_read h s ++ xs ]> h).

(** The last case of [truncateAndAppend]: [append(u.entries[:k], entries...)]. *)
Definition truncate_append (fresh k : nat) (u : goSlice) (entries : list Entry) (h : entry_heap) : goSlice * entry_heap :=
  slice_append fresh (mkGoSlice (gs_array u) (gs_from u) k) entries h.

(** *** A full segment *)

(** Two entries of term 2 are committed when the vote for node 3 in term 3 is saved; that
    fills the segment, so that a new one is begun. *)
Definition full_segment : DurableStorage :=
  match NewDurableStorageWithOptions 1 2 (mkWorld ∅ []) with
  | Ok (inr s, _) => saved [mkEntry 1 2 []; mkEntry 2 2 a_write] (mkHard 3 3 2) s
  | _ => empty_durable
  end.

(** *** A snapshot before its hard state *)

Definition snapshotted : DurableStorage :=
  match DurableStorage_ApplySnapshot (Some (mkSnap 5 1)) (saved [mkEntry 1 1 []] (mkHard 1 0 0) empty_durable) with
  | Ok (s, None) => s
  | _ => empty_durable
  end.

Definition host_config (s : DurableStorage) : RaftHostConfig DurableStorage :=
  mkHostConfig 2 [1; 3] (Some s) true 0 0.

(** ** Theorems *)

(** A deposed leader answers a read with an index from before a committed write.
    Node 2 leads term 2 and has committed the write at index 3; after that, node 1,
    still leader of term 1, is asked to read and releases the read at index 1 when
    the late acknowledgement of its first entry arrives: the reads that waited for
    the first commit are answered without asking a quorum. *)
Theorem late_read_is_stale :
  exists r1 r2 r1', rtc (cstep (RT:=rt0) true) cluster3 overtaken /\
    nodes overtaken !! 1 = Some r1 /\ r_readStates r1 = [] /\ readOnly_ok (r_readOnly r1) /\
    nodes overtaken !! 2 = Some r2 /\ r_state r2 = Leader /\ r_term r2 = 2 /\ l_committed (r_raftLog r2) = 3 /\
    rtc (cstep (RT:=rt0) true) overtaken stale_read /\
    nodes stale_read !! 1 = Some r1' /\ r_term r1' = 1 /\ r_readStates r1' = [mkReadState 1 (BE_PutUint64 9)].
Proof.
  exists (default node1 (nodes overtaken !! 1)), (default node2 (nodes overtaken !! 2)),
    (default node1 (nodes stale_read !! 1)).
  split; [exact (run_cstep _ _ _ _ overtaken_run)|]. split; [vm_compute; reflexivity|].
  split; [vm_compute; reflexivity|]. split; [apply readOnly_ok_new|].
  do 4 (split; [vm_compute; reflexivity|]). split; [exact (run_cstep _ _ _ _ stale_read_run)|].
  vm_compute. repeat split.
Qed.

(** Two nodes have both committed index [i], with different entries there. *)
Definition disagree_at (i : Z) (r1 r2 : DRaft) : Prop :=
  i <= l_committed (r_raftLog r1) /\ i <= l_committed (r_raftLog r2) /\
  exists e1 e2, entry_at i (r_raftLog r1) = Some e1 /\ entry_at i (r_raftLog r2) = Some e2 /\ e1 <> e2.

(** C38: a follower handles appends of older terms.  Node 2 leads term 2 and has committed
    the write at index 3 with the acknowledgement of node 3; a delayed append of term 1
    makes node 3 drop it, node 1 is elected for term 3 and commits another entry at
    index 3: the nodes have committed different logs, and a write that was answered is
    gone.  No (pre-)candidate was handed an older message in this run. *)
Theorem stale_append_loses_commit :
  exists r1 r2, rtc (cstep (RT:=rt0) true) cluster3 diverged /\
    nodes diverged !! 1 = Some r1 /\ nodes diverged !! 2 = Some r2 /\
    r_state r1 = Leader /\ r_term r1 = 3 /\ r_state r2 = Leader /\ r_term r2 = 2 /\
    entry_at 3 (r_raftLog r2) = Some (mkEntry 3 2 a_write) /\ disagree_at 3 r1 r2 /\ disagree_at 2 r1 r2.
Proof.
  exists (default node1 (nodes diverged !! 1)), (default node2 (nodes diverged !! 2)).
  split; [exact (run_cstep _ _ _ _ diverged_run)|]. do 7 (split; [vm_compute; reflexivity|]).
  split; (split; [vm_compute; discriminate|]; split; [vm_compute; discriminate|]);
    eexists _, _; (split; [vm_compute; reflexivity|]; split; [vm_compute; reflexivity|]); done.
Qed.

(** C39: nor is an older term needed: an append cuts off everything behind its entries,
    also entries it agrees with.  Node 2 acknowledges a write of term 1, which commits
    it; the append sent before it arrives late and node 2 drops the write, is elected
    for term 2 and commits another entry at its index. *)
Theorem reordered_append_loses_commit :
  exists r1 r2, rtc (cstep (RT:=rt0) true) cluster3 reordered /\
    nodes reordered !! 1 = Some r1 /\ nodes reordered !! 2 = Some r2 /\ r_term r1 = 1 /\ r_term r2 = 2 /\
    entry_at 3 (r_raftLog r1) = Some (mkEntry 3 1 a_write) /\ disagree_at 3 r1 r2.
Proof.
  exists (default node1 (nodes reordered !! 1)), (default node2 (nodes reordered !! 2)).
  split; [exact (run_cstep _ _ _ _ reordered_run)|]. do 5 (split; [vm_compute; reflexivity|]).
  split; [vm_compute; discriminate|]. split; [vm_compute; discriminate|].
  eexists _, _. split; [vm_compute; reflexivity|]. split; [vm_compute; reflexivity|]. done.
Qed.

(** An append that repeats entries below the commit index stops the node.  A
    follower that gets a message of its own term whose entries follow a matching
    entry below its commit index (so a duplicated or delayed message of its own
    leader) panics, although it has those entries already. *)
Theorem duplicate_append_panics {RT : Runtime} {St : Type} {SS : Storage St} {SP : StorageSpec St} m (r : Raft St) e0 es :
  r_step r = StepFollower -> m_Type m = MsgApp -> m_Term m = r_term r -> raftLog_ok (r_raftLog r) ->
  log_base (r_raftLog r) <= m_Index m < l_committed (r_raftLog r) ->
  view_term (m_Index m) (r_raftLog r) = Some (m_LogTerm m) ->
  m_Entries m = e0 :: es -> e_Index e0 = m_Index m + 1 ->
  exists why, Raft_Step m r = Panic why.
Proof.
  intros Hst Ht Htm Hok Hi Hv He H0. rewrite Step_follower_app by (done || lia).
  destruct (handleAppendEntries_below m (follow m r) e0 es) as [why ->]; try done. by exists why.
Qed.

(** Messages queued between [Ready] and [Advance] are lost.  If a proposal arrives
    after the host has received a [Ready] and before it calls [Advance], the entry
    is stored by the leader but not sent to any peer, in that round or the next;
    if it arrives outside of that window both peers are sent it. *)
Theorem advance_drops_messages :
  (host_summary <$> host_script
     [HReceive; HRequest (OnPropose a_write); HHandle; HAdvance; HReceive; HHandle; HAdvance] elected_host) =
    Some ([1], [1], [noop1; mkEntry 2 1 a_write]) /\
  (host_summary <$> host_script
     [HReceive; HHandle; HAdvance; HRequest (OnPropose a_write); HReceive; HHandle; HAdvance] elected_host) =
    Some ([1; 1; 2], [1; 1; 2], [noop1; mkEntry 2 1 a_write]).
Proof. split; vm_compute; reflexivity. Qed.

(** Entries that were overwritten come back after a compaction and a restart.  The
    storage holds entries 1 and 2 of a log whose entries 2 to 5 of term 1 were
    replaced by entry 2 of term 2.  Compacting up to index 2 and reopening gives
    back entries 3 to 5 of term 1 behind the boundary of term 2. *)
Theorem replay_resurrects_entries :
  exists s, DurableStorage_MaybeCompact 2 conflicted = Ok (s, None) /\
    d_entries conflicted = [mkEntry 1 1 []; mkEntry 2 2 a_write] /\
    d_snap s = mkSnap 2 2 /\ d_entries s = [] /\
    exists s', NewDurableStorage (d_world s) = Ok (inr s', d_world s') /\
      d_snap s' = mkSnap 2 2 /\ d_entries s' = [mkEntry 3 1 []; mkEntry 4 1 []; mkEntry 5 1 []].
Proof.
  exists (compacted_at 2 conflicted). do 4 (split; [vm_compute; reflexivity|]).
  exists (reopened (compacted_at 2 conflicted)). split; [vm_compute; reflexivity|]. split; vm_compute; reflexivity.
Qed.


(** A node that stops after it stored a snapshot and before it saved the hard
    state cannot be started again: its storage opens, and the host panics. *)
Theorem restart_panics_after_snapshot :
  exists s s' why,
    DurableStorage_ApplySnapshot (Some (mkSnap 5 1)) (saved [mkEntry 1 1 []] (mkHard 1 0 0) empty_durable) = Ok (s, None) /\
    NewDurableStorage (d_world s) = Ok (inr s', d_world s') /\
    NewRaftHost (RT:=rt0) (host_config s') = Panic why.
Proof.
  exists snapshotted, (reopened snapshotted). eexists. split; [vm_compute; reflexivity|].
  split; [vm_compute; reflexivity|]. vm_compute. reflexivity.
Qed.

(** A snapshot message carries no data, yet a follower that takes it counts everything up
    to its index as applied: the entries between are never handed to the server, and a
    server behind the leader's compaction answers gets without them. *)
Theorem snapshot_skips_entries {St : Type} {SS : Storage St} m snap st (r : Raft St) :
  m_Type m = MsgSnap -> m_Term m = r_term r -> r_step r = StepFollower -> m_Snapshot m = Some snap ->
  ApplySnapshot (Some snap) (l_storage (r_raftLog r)) = Ok (st, None) ->
  l_applied (r_raftLog r) <= l_committed (r_raftLog r) < LastIncludedIndex snap ->
  exists r' rd, Raft_Step (RT:=rt0) m r = Ok (r', None) /\ l_applied (r_raftLog r') = LastIncludedIndex snap /\
    l_committed (r_raftLog r') = LastIncludedIndex snap /\ Raft_Ready r' = Ok rd /\ rd_CommittedEntries rd = [].
Proof.
  intros Ht Hm Hs Hsn Ha Hlt. unfold Raft_Step, Raft_checkTerm. rewrite Hm, Z.ltb_irrefl, Ht.
  assert ((if r_term r =? 0 then Ok r else Ok r) = Ok r) as -> by by destruct (_ =? 0).
  cbn [mbind res_bind]. unfold Raft_step, stepFollower. rewrite Hs, Ht. unfold Raft_handleSnapshot. simpl.
  rewrite Hsn, Ha. cbn [mbind res_bind]. do 2 eexists. split; [reflexivity|]. simpl.
  rewrite (proj2 (Z.ltb_lt _ _)), (proj2 (Z.ltb_lt _ _)) by lia. do 2 (split; [done|]).
  unfold Raft_Ready, raftLog_nextCommittedEnts. simpl.
  rewrite (proj2 (Z.ltb_lt _ _)), (proj2 (Z.ltb_lt _ _)), Z.leb_refl by lia. by split.
Qed.

Lemma read_whole h s a : h !! gs_array s = Some a -> gs_from s = 0%nat -> slice_read h s = take (gs_len s) a.
Proof. intros Ha Hf. unfold slice_read, array_at. by rewrite Ha, Hf. Qed.

(** An append that replaces entries writes them into the array that the [Ready] under
    way shares with the log.  The entries it had handed out to be stored are then neither
    the old ones nor those of the log: the new ones are in their place, with old ones
    behind them.  In the example a follower that was to store three entries of term 1 has
    stored, after the append of an entry of term 2 at index 2, that entry and the old
    entry 3, which its own log no longer has. *)
Theorem append_overwrites_ready fresh k u old entries (h : entry_heap) :
  h !! gs_array u = Some old -> gs_from u = 0%nat -> gs_len u = length old -> (k + length entries <= length old)%nat ->
  let '(u', h') := truncate_append fresh k u entries h in
  slice_read h u = old /\ slice_read h' u' = take k old ++ entries /\
  slice_read h' u = take k old ++ entries ++ drop (k + length entries) old.
Proof.
  intros Ha Hf Hl Hk. unfold truncate_append, slice_append, array_at. simpl. rewrite Ha, Hf. simpl.
  rewrite (proj2 (Nat.leb_le _ _)) by done. split; [rewrite (read_whole h u old) by done; by apply take_ge; rewrite Hl|].
  set (a := take k old ++ entries ++ drop (k + length entries) old).
  assert (length (take k old) = k) as Ht by (rewrite length_take; lia).
  split; erewrite read_whole by (simpl; apply lookup_insert_eq || done); simpl.
  - unfold a. rewrite app_assoc, take_app_le by (rewrite length_app, Ht; lia). apply take_ge. rewrite length_app, Ht. lia.
  - apply take_ge. unfold a. rewrite !length_app, length_drop, Ht. lia.
Qed.

Definition old_entries : list Entry := [mkEntry 1 1 []; mkEntry 2 1 []; mkEntry 3 1 []].
Definition new_entry : Entry := mkEntry 2 2 a_write.

Lemma append_overwrites_ready_witness :
  let u := mkGoSlice 0 0 3 in
  let h' := (truncate_append 1 1 u [new_entry] {[ 0%nat := old_entries ]}).2 in
  slice_read h' u = [mkEntry 1 1 []; new_entry; mkEntry 3 1 []] /\
  d_entries (saved (slice_read h' u) (mkHard 2 0 0) empty_durable) = [mkEntry 1 1 []; new_entry; mkEntry 3 1 []] /\
  unstable_truncateAndAppend [new_entry] (mkUnstable old_entries 1) = Ok (mkUnstable [mkEntry 1 1 []; new_entry] 1).
Proof.
  assert (slice_read (truncate_append 1 1 (mkGoSlice 0 0 3) [new_entry] {[ 0%nat := old_entries ]}).2 (mkGoSlice 0 0 3) =
    [mkEntry 1 1 []; new_entry; mkEntry 3 1 []]) as H.
  { exact (proj2 (proj2 (append_overwrites_ready 1 1 (mkGoSlice 0 0 3) old_entries [new_entry] {[ 0%nat := old_entries ]}
      eq_refl eq_refl eq_refl ltac:(simpl; lia)))). }
  cbv zeta. rewrite H. split; [reflexivity|]. split; vm_compute; reflexivity.
Defined.

(** A snapshot drops every entry that is not stored yet, also those behind its index, but
    not the acknowledgements that wait for them: the follower tells its leader that it has
    entry 2 when its log ends at index 1, and the leader may count it for a commit. *)
Theorem snapshot_drops_acked_entry :
  Raft_Step (RT:=rt0) (snap_msg 1 2 1 (mkSnap 1 1)) appended2 = Ok (snapped2, None) /\
  log_view (r_raftLog appended2) = [noop1; mkEntry 2 1 a_write] /\ raftLog_lastIndex (r_raftLog snapped2) = 1 /\
  exists rd, Raft_Ready snapped2 = Ok rd /\ rd_Entries rd = [] /\
    exists m, m ∈ rd_Messages rd /\ m_Type m = MsgAppResp /\ m_To m = 1 /\ m_Index m = 2 /\ m_Reject m = false.
Proof.
  do 3 (split; [vm_compute; reflexivity|]). eexists. split; [vm_compute; reflexivity|]. split; [reflexivity|].
  eexists. split; [by left|]. by repeat split.
Qed.

Section request_ids.
Context {SM : Type} `{!StateMachine SM} `{!StateMachineSpec SM}.

(** Request ids are not unique in a cluster.  If two servers have given out
    equally many ids, the entry of one server's put, applied on the other, reports
    success to whoever waits there under the same id: a put of another key is
    answered although nothing was stored for it, and a read waits for an index and
    gets a value that makes it panic.  (Here the put does not wait inside the state
    machine.) *)
Theorem foreign_request_id key value key' value' (sa sb : Server SM) :
  server_ok sb -> sv_reqIDGen sa = sv_reqIDGen sb -> key <> key' ->
  (forall sm, sm_PutAsync key value (sv_sm sb) = (Ok tt, sm) -> sm_blocked key sm = false) ->
  len key < 2 ^ 32 -> len value < 2 ^ 32 -> len key' < 2 ^ 32 -> len value' < 2 ^ 32 ->
  exists data, (exists ch sa1, Server_proposePut key value sa = Ok (ch, Some (sv_reqIDGen sa +u 1, data), sa1)) /\
    (exists ch own sb1 sb2, Server_proposePut key' value' sb = Ok (ch, Some own, sb1) /\
       Server_applyEntry data sb1 = Ok (None, sb2) /\ wl_chans (sv_w sb2) !! ch = Some [AnyNil] /\
       put_result AnyNil = Ok None /\ sm_view (sv_sm sb2) key' = sm_view (sv_sm sb) key') /\
    (exists sb2, let '(ch, _, _, sb1) := Server_proposeRead sb in
       Server_applyEntry data sb1 = Ok (None, sb2) /\ wl_chans (sv_w sb2) !! ch = Some [AnyNil] /\
       exists why, read_index AnyNil = Panic why).
Proof.
  intros Hok Hid Hne Hnb Hk Hv Hk' Hv'.
  destruct (proposePut_data key value sa Hk Hv) as (enc & _ & Hdec & Hp).
  destruct (proposePut_data key' value' sb Hk' Hv') as (enc' & _ & _ & Hp').
  exists (marshalEnvelope (sv_reqIDGen sa +u 1) enc). split; [by eauto|].
  assert (forall sb1, server_ok sb1 -> sv_sm sb1 = sv_sm sb ->
    wl_m (sv_w sb1) !! (sv_reqIDGen sb +u 1) = Some (wl_next (sv_w sb)) ->
    exists sb2, Server_applyEntry (marshalEnvelope (sv_reqIDGen sa +u 1) enc) sb1 = Ok (None, sb2) /\
      wl_chans (sv_w sb2) !! wl_next (sv_w sb) = Some [AnyNil] /\
      sm_view (sv_sm sb2) key' = sm_view (sv_sm sb) key') as Happly.
  { intros sb1 Hok1 Hsm Hreg.
    destruct (applyEntry_put (sv_reqIDGen sa +u 1) key value enc sb1 Hok1) as (sm & Hput & Hok2 & Hsm2 & Hap);
      [apply wrap64_range|done|]. rewrite Hsm in Hput. rewrite (Hnb sm Hput) in Hap.
    destruct (Server_trigger_ok (sv_reqIDGen sa +u 1) AnyNil _ Hok2) as (sb2 & H2 & _ & Hsm3 & _ & _ & _ & Hch).
    exists sb2. rewrite Hap, H2. split; [done|]. rewrite Hch. simpl. rewrite Hid, bool_decide_eq_true_2 by done. split; [done|].
    rewrite Hsm3. simpl. by rewrite Hsm2, decide_False, Hsm by done. }
  split.
  - do 3 eexists. edestruct Happly as (sb2 & H2 & Hc & Hg); [..|exists sb2; by split_and!].
    + split; [by apply wait_ok_Register, Hok|by destruct Hok as (_ & ? & ?)].
    + done.
    + simpl. by rewrite lookup_insert_eq.
  - edestruct (Happly (Server_proposeRead sb).2) as (sb2 & H2 & Hc & _);
      [| | |exists sb2; split; [exact H2|]; split; [exact Hc|by eexists]].
    + split; [by apply wait_ok_Register, Hok|by destruct Hok as (_ & ? & ?)].
    + done.
    + simpl. by rewrite lookup_insert_eq.
Qed.

End request_ids.

(** ** Witnesses *)

(** Node 2 with the entry of its leader committed, and the same message again. *)
Definition caught_up : DRaft :=
  after_step (app_msg 1 2 1 1 1 1 []) (after_step (app_msg 1 2 1 0 0 0 [noop1]) follower2).

Lemma caught_up_ok : raftLog_ok (r_raftLog caught_up).
Proof. apply raftLog_okb_spec. vm_compute. reflexivity. Qed.

Lemma duplicate_append_panics_witness :
  exists why, Raft_Step (RT:=rt0) (app_msg 1 2 1 0 0 0 [noop1]) caught_up = Panic why.
Proof.
  refine (duplicate_append_panics (RT:=rt0) (app_msg 1 2 1 0 0 0 [noop1]) caught_up noop1 [] _ _ _ caught_up_ok _ _ _ _);
    vm_compute; repeat split; reflexivity || discriminate.
Defined.

Lemma foreign_request_id_witness :
  exists data,
    (exists ch sa1, Server_proposePut key_a a_write server0 = Ok (ch, Some (1, data), sa1)) /\
    (exists ch own sb1 sb2, Server_proposePut key_b a_write server0 = Ok (ch, Some own, sb1) /\
       Server_applyEntry data sb1 = Ok (None, sb2) /\ wl_chans (sv_w sb2) !! ch = Some [AnyNil]).
Proof.
  destruct (foreign_request_id key_a a_write key_b a_write server0 server0 server0_ok)
    as (data & Hp & (ch & own & sb1 & sb2 & H1 & H2 & H3 & _) & _);
    [reflexivity|discriminate|reflexivity|reflexivity|reflexivity|reflexivity|reflexivity|].
  exists data. split; [exact Hp|]. exists ch, own, sb1, sb2. exact (conj H1 (conj H2 H3)).
Defined.

(** ** Terms behind the end of the log *)

(** [term] asks storage for an index behind the end of the log: until the shorter log is
    stored, the log matches an entry it no longer has. *)
Theorem term_beyond_last :
  exists l, cut_log = Ok l /\ raftLog_lastIndex l = 2 /\ raftLog_matchTerm 3 1 l = Ok true.
Proof. eexists. split; [vm_compute; reflexivity|]. by split; vm_compute. Qed.

(** ** Where the engine loses data

    A get that empties the value file, a compaction that mixes values up, and a Raft log
    that is compacted before the engine has written what the log held. *)

(** ** Shards *)

(** Opening a shard, or what is left when that fails. *)
Definition opened_shard (i : nat) (W : World) : shard * Env :=
  match open_shard i W with
  | (Ok (inr s), E) => (s, E)
  | (_, E) => (new_shard i 0, E)
  end.

(** A put and the committer's turns that write it. *)
Definition put_flushed (k v : bytes) : Shard unit :=
  _ ← shard_putAsync true k (Some v);
  _ ← commit_turn false OnReq;
  commit_turn false OnCommitTick.

Definition key_3 : bytes := PutUint8 99.
Definition val_2 : bytes := PutUint8 1.
Definition val_3 : bytes := PutUint8 2.

(** Three keys on disk, the first with the longest value, and the shard opened
    again. *)
Definition three_keys : shard * Env :=
  opened_shard 0 (env_world
    ((_ ← put_flushed key_1 val_1; _ ← put_flushed key_2 val_2; put_flushed key_3 val_3) (opened_shard 0 no_files)).2.2).

Definition after_get (k : bytes) (st : shard * Env) : shard * Env := (shard_get k st).2.

(** A key written seven times and another once, which makes compaction due. *)
Definition rewritten : shard * Env :=
  ((_ ← for_each (replicate 7 tt) (fun _ => put_flushed key_1 val_1); put_flushed key_2 val_2) (opened_shard 0 no_files)).2.

Definition compacted_shard : shard * Env := ((_ ← compaction_tick 0; commit_turn false OnCompact) rewritten).2.

(** ** A server over the engine *)

#[export] Instance engine_machine : StateMachine DB := DB_StateMachine true.

Definition put_entry : bytes :=
  match Server_proposePut key_1 val_1 (mkServer db0 newWait NewTimeList 0 empty_durable) with
  | Ok (_, Some (_, data), _) => data
  | _ => []
  end.

(** The committed entry of a put is in the Raft storage, which compacts when one
    entry was applied. *)
Definition put_log : DurableStorage :=
  saved [mkEntry 1 1 put_entry] (mkHard 1 1 1) (empty_durable <| d_compactThreshold := 1 |>).

Definition engine_server : Server DB := mkServer db0 newWait NewTimeList 0 put_log.

Definition applied_server : Server DB :=
  match Server_onApply (mkToApply [put_entry] 1) engine_server with Ok (_, s) => s | Panic _ => engine_server end.

Definition reopened_db (d : DB) : DB :=
  match NewDBWithOptions (env_world (db_env d)) with (Ok (inr d), _) => d | _ => d end.

(** ** Theorems *)

(** A get can destroy the value file.  [readValue] does not seek when the offset is
    0, so the first value of the file is read from wherever the previous read ended;
    if fewer bytes are left there, the value file is truncated to offset 0.  Two gets
    on a freshly opened shard leave no value on disk. *)
Theorem get_destroys_values :
  open_shard 0 (env_world three_keys.2) = (Ok (inr three_keys.1), three_keys.2) /\
  content (valueName 0) (env_world three_keys.2) = val_1 ++ val_2 ++ val_3 /\
  (shard_get key_2 three_keys).1 = Ok (inr (Some val_2)) /\
  (shard_get key_1 (after_get key_2 three_keys)).1 = Ok (inl ErrCorruption) /\
  content (valueName 0) (env_world (after_get key_1 (after_get key_2 three_keys)).2) = [].
Proof. split_and!; vm_compute; reflexivity. Qed.

(** Compaction loses values.  A put leaves offset 0 in memory and compaction
    writes the offsets of memory, so after a compaction that succeeded and a restart
    a key written since the last start reads the first bytes of the value file. *)
Theorem compaction_loses_values :
  shouldCompact 0 rewritten.1 = true /\
  (shard_get key_2 rewritten).1 = Ok (inr (Some val_2)) /\
  s_resps compacted_shard.1 !! 0%nat = Some (inr tt) /\
  (shard_get key_2 compacted_shard).1 = Ok (inr (Some val_2)) /\
  (shard_get key_2 (opened_shard 0 (env_world compacted_shard.2))).1 = Ok (inr (Some (take 1 val_1))) /\
  take 1 val_1 <> val_2.
Proof. split_and!; [vm_compute; reflexivity..|discriminate]. Qed.

(** The Raft log is compacted before the engine has the data.  Applying a batch
    only queues the writes for the engine's committer, yet the server then compacts
    the Raft storage up to the batch: the committed put of the example is answered,
    and after a crash at that moment it is in neither the reopened engine nor the
    reopened Raft storage. *)
Theorem log_compaction_outruns_engine :
  Server_onApply (mkToApply [put_entry] 1) engine_server = Ok (RunIdle, applied_server) /\
  (DB_Get key_1 (sv_sm applied_server)).1 = Ok (Some val_1) /\
  d_entries put_log = [mkEntry 1 1 put_entry] /\
  d_entries (reopened (sv_raftStorage applied_server)) = [] /\
  d_snap (reopened (sv_raftStorage applied_server)) = mkSnap 1 1 /\
  (DB_Get key_1 (reopened_db (sv_sm applied_server))).1 = Ok None.
Proof.
  split; [|split_and!; vm_compute; reflexivity].
  assert (match Server_onApply (mkToApply [put_entry] 1) engine_server with Ok (RunIdle, _) => true | _ => false end = true) as H
    by (vm_compute; reflexivity).
  unfold applied_server. by destruct (Server_onApply (mkToApply [put_entry] 1) engine_server) as [[[] ?]|].
Qed.
